(** * Frame pipelining and dirty propagation of the castle renderer

    A shallow embedding of [ShapesApp] (CastleCrusher.cpp).  First the
    per-frame driver: the circular array of frame resources and its
    fence protocol, the dirty counters of render items and materials, the
    wave driver, and the order in which [Update] and [Draw] run them.
    Then what the driver works on: the builders of the geometry, of the
    render items and their layers, of the textures, shaders and pipeline
    states, the collision check of the camera, and the command list
    [Draw] records.

    Conventions.
    - [float] values are modelled by the rationals they denote ([Q]).
      Where the program accumulates in single precision, in the texture
      scroll of [AnimateMaterials], every operation is followed by the
      rounding [f32] to the nearest value of the format.  The quarter
      second test of [UpdateWaves] and the box test of the camera are
      written in exact arithmetic; the other properties are about data
      movement, counters and fences.
    - [int] and [UINT] values are modelled by [Z].  In the frame driver
      the only arithmetic on them is the cursor [(i + 1) % 3], the
      guarded decrement of a dirty counter and the random cell choice,
      none of which can overflow; where the builders and the draw calls
      compute in [UINT], the wrap-around is written out.
    - C++ exceptions thrown by [ThrowIfFailed] are modelled by an outcome
      type; the state reached when the exception is thrown is kept.
    - A write outside a vector and a read through a null pointer are
      undefined in the source; the builders return [None] there. *)

From Stdlib Require Import ZArith QArith Qround Qpower Lqa String List.

From stdpp Require Import gmap strings list sorting.

Local Open Scope Z_scope.

(** ** Constants *)

(** [const int gNumFrameResources = 3;] *)
Definition gNumFrameResources : Z := 3.

(** [SwapChainBufferCount] of the application framework. *)
Definition SwapChainBufferCount : Z := 2.

(** ** Vectors and matrices (DirectXMath storage types) *)

Record XMFLOAT3 := mkF3 { f3x : Q; f3y : Q; f3z : Q }.

Record XMFLOAT4 := mkF4 { f4x : Q; f4y : Q; f4z : Q; f4w : Q }.

(** Row-major 4x4 matrix; [row3] holds the translation part. *)
Record XMFLOAT4X4 := mkM4 {
  row0 : XMFLOAT4; row1 : XMFLOAT4; row2 : XMFLOAT4; row3 : XMFLOAT4 }.

Definition Identity4x4 : XMFLOAT4X4 :=
  mkM4 (mkF4 1 0 0 0) (mkF4 0 1 0 0) (mkF4 0 0 1 0) (mkF4 0 0 0 1).

Definition XMMatrixTranspose (m : XMFLOAT4X4) : XMFLOAT4X4 :=
  mkM4 (mkF4 (f4x (row0 m)) (f4x (row1 m)) (f4x (row2 m)) (f4x (row3 m)))
       (mkF4 (f4y (row0 m)) (f4y (row1 m)) (f4y (row2 m)) (f4y (row3 m)))
       (mkF4 (f4z (row0 m)) (f4z (row1 m)) (f4z (row2 m)) (f4z (row3 m)))
       (mkF4 (f4w (row0 m)) (f4w (row1 m)) (f4w (row2 m)) (f4w (row3 m))).

Definition XMMatrixScaling (sx sy sz : Q) : XMFLOAT4X4 :=
  mkM4 (mkF4 sx 0 0 0) (mkF4 0 sy 0 0) (mkF4 0 0 sz 0) (mkF4 0 0 0 1).

Definition XMMatrixTranslation (tx ty tz : Q) : XMFLOAT4X4 :=
  mkM4 (mkF4 1 0 0 0) (mkF4 0 1 0 0) (mkF4 0 0 1 0) (mkF4 tx ty tz 1).

Definition dot4 (a : XMFLOAT4) (bx b_y bz bw : Q) : Q :=
  Qred (f4x a * bx + f4y a * b_y + f4z a * bz + f4w a * bw)%Q.

Definition rowTimes (a : XMFLOAT4) (m : XMFLOAT4X4) : XMFLOAT4 :=
  mkF4 (dot4 a (f4x (row0 m)) (f4x (row1 m)) (f4x (row2 m)) (f4x (row3 m)))
       (dot4 a (f4y (row0 m)) (f4y (row1 m)) (f4y (row2 m)) (f4y (row3 m)))
       (dot4 a (f4z (row0 m)) (f4z (row1 m)) (f4z (row2 m)) (f4z (row3 m)))
       (dot4 a (f4w (row0 m)) (f4w (row1 m)) (f4w (row2 m)) (f4w (row3 m))).

(** [operator*] on [XMMATRIX]. *)
Definition XMMatrixMultiply (a b : XMFLOAT4X4) : XMFLOAT4X4 :=
  mkM4 (rowTimes (row0 a) b) (rowTimes (row1 a) b)
       (rowTimes (row2 a) b) (rowTimes (row3 a) b).

(** [m(3, 0)] and [m(3, 1)]: the texture-coordinate offsets. *)
Definition setTexOffset (tu tv : Q) (m : XMFLOAT4X4) : XMFLOAT4X4 :=
  mkM4 (row0 m) (row1 m) (row2 m)
       (mkF4 tu tv (f4z (row3 m)) (f4w (row3 m))).

(** ** Scene entities *)

(** [struct RenderItem].  [Mat] and [Geo] are non-owning pointers in the
    source; here they are the names under which the pointee is stored. *)
Record RenderItem := mkRenderItem {
  World : XMFLOAT4X4;
  TexTransform : XMFLOAT4X4;
  NumFramesDirty : Z;
  ObjCBIndex : Z;
  Mat : string;
  Geo : string
}.

(** The member initialisers of [RenderItem]: identity transforms,
    [NumFramesDirty = gNumFrameResources], [ObjCBIndex = -1] as a UINT. *)
Definition RenderItem_default : RenderItem :=
  mkRenderItem Identity4x4 Identity4x4 gNumFrameResources 4294967295 "" "".

Definition setWorld (m : XMFLOAT4X4) (e : RenderItem) : RenderItem :=
  mkRenderItem m (TexTransform e) (NumFramesDirty e) (ObjCBIndex e) (Mat e) (Geo e).

Definition setTexTransform (m : XMFLOAT4X4) (e : RenderItem) : RenderItem :=
  mkRenderItem (World e) m (NumFramesDirty e) (ObjCBIndex e) (Mat e) (Geo e).

Definition setNumFramesDirty (n : Z) (e : RenderItem) : RenderItem :=
  mkRenderItem (World e) (TexTransform e) n (ObjCBIndex e) (Mat e) (Geo e).

Definition setObjCBIndex (i : Z) (e : RenderItem) : RenderItem :=
  mkRenderItem (World e) (TexTransform e) (NumFramesDirty e) i (Mat e) (Geo e).

Definition setMatGeo (m g : string) (e : RenderItem) : RenderItem :=
  mkRenderItem (World e) (TexTransform e) (NumFramesDirty e) (ObjCBIndex e) m g.

(** Modelled from the spec: [struct Material] is declared in the framework
    header d3dUtil.h, which is not among the sources.  The spec gives a
    material the same frames-dirty protocol as a render item (a counter set
    to the ring size at creation and on every mutation) and a fixed index
    into a separate constant-buffer array; the remaining fields are those
    the source reads and writes. *)
Record Material := mkMaterial {
  MatCBIndex : Z;
  DiffuseSrvHeapIndex : Z;
  MatNumFramesDirty : Z;
  DiffuseAlbedo : XMFLOAT4;
  FresnelR0 : XMFLOAT3;
  Roughness : Q;
  MatTransform : XMFLOAT4X4
}.

(** The member initialisers of [Material]. *)
Definition Material_default : Material :=
  mkMaterial (-1) (-1) gNumFrameResources (mkF4 1.0 1.0 1.0 1.0)
             (mkF3 0.01 0.01 0.01) 0.25 Identity4x4.

Definition setMatNumFramesDirty (n : Z) (m : Material) : Material :=
  mkMaterial (MatCBIndex m) (DiffuseSrvHeapIndex m) n (DiffuseAlbedo m)
             (FresnelR0 m) (Roughness m) (MatTransform m).

Definition setMatTransform (t : XMFLOAT4X4) (m : Material) : Material :=
  mkMaterial (MatCBIndex m) (DiffuseSrvHeapIndex m) (MatNumFramesDirty m)
             (DiffuseAlbedo m) (FresnelR0 m) (Roughness m) t.

(** ** Constant-buffer records *)

Record ObjectConstants := mkObjectConstants {
  ocWorld : XMFLOAT4X4; ocTexTransform : XMFLOAT4X4 }.

Record MaterialConstants := mkMaterialConstants {
  mcDiffuseAlbedo : XMFLOAT4; mcFresnelR0 : XMFLOAT3;
  mcRoughness : Q; mcMatTransform : XMFLOAT4X4 }.

(** The camera is outside this development: the matrices and eye position
    it yields after the keyboard input of a frame are an input.  Of the pass
    constants the record keeps the camera block, the clip planes, the
    timing and the ambient light; the inverse matrices, the render-target
    size and the table of lights are functions of these or constants of
    the scene, and nothing reads them back. *)
Record CameraBlock := mkCameraBlock {
  camView : XMFLOAT4X4; camProj : XMFLOAT4X4; camPosition : XMFLOAT3 }.

Record PassConstants := mkPassConstants {
  pcCamera : CameraBlock;
  pcNearZ : Q; pcFarZ : Q;
  pcTotalTime : Q; pcDeltaTime : Q;
  pcAmbientLight : XMFLOAT4
}.

(** ** The wave simulator, as far as the driver sees it *)

Inductive WaveCall :=
| WDisturb (i j : Z) (magnitude : Q)
| WUpdate (dt : Q).

(** Modelled from the spec: class [Waves] (Waves.h, Waves.cpp) is not among
    the sources.  The spec's constructor is
    [Construct(rows, cols, spatialStep, timeStep, speed, damping)], the
    grid dimensions are fixed at construction, [Disturb] is a no-op on a
    cell within one of a boundary, and the vertex snapshot is a function of
    what the simulator was asked to do; the calls it has accepted stand for
    its numerical state. *)
Record Waves := mkWaves {
  RowCount : Z;
  ColumnCount : Z;
  SpatialStep : Q;
  TimeStep : Q;
  Speed : Q;
  Damping : Q;
  calls : list WaveCall
}.

Definition Waves_Construct (rows cols : Z) (spatialStep timeStep speed damping : Q) : Waves :=
  mkWaves rows cols spatialStep timeStep speed damping [].

Definition recordCall (c : WaveCall) (w : Waves) : Waves :=
  mkWaves (RowCount w) (ColumnCount w) (SpatialStep w) (TimeStep w)
          (Speed w) (Damping w) (calls w ++ [c]).

Definition interiorCell (w : Waves) (i j : Z) : bool :=
  (1 <? i) && (i <? RowCount w - 2) && (1 <? j) && (j <? ColumnCount w - 2).

Definition Waves_Disturb (i j : Z) (magnitude : Q) (w : Waves) : Waves :=
  if interiorCell w i j then recordCall (WDisturb i j magnitude) w else w.

Definition Waves_Update (dt : Q) (w : Waves) : Waves :=
  recordCall (WUpdate dt) w.

(** ** Frame resources *)

(** Modelled from the spec: [struct FrameResource] and [UploadBuffer] are
    declared in FrameResource.h and UploadBuffer.h, which are not among the
    sources.  A slot holds a completion marker (an integer, 0 meaning never
    submitted) and writable regions for object, material and pass
    constants and for the dynamic vertices; a region is a finite map from
    element index to the record last copied there. *)
Record FrameResource := mkFrameResource {
  Fence : Z;
  ObjectCB : gmap Z ObjectConstants;
  MaterialCB : gmap Z MaterialConstants;
  PassCB : gmap Z PassConstants;
  WavesVB : list WaveCall
}.

Definition FrameResource_new : FrameResource :=
  mkFrameResource 0 ∅ ∅ ∅ [].

Definition setFence (f : Z) (fr : FrameResource) : FrameResource :=
  mkFrameResource f (ObjectCB fr) (MaterialCB fr) (PassCB fr) (WavesVB fr).

Definition setObjectCB (cb : gmap Z ObjectConstants) (fr : FrameResource) : FrameResource :=
  mkFrameResource (Fence fr) cb (MaterialCB fr) (PassCB fr) (WavesVB fr).

Definition setMaterialCB (cb : gmap Z MaterialConstants) (fr : FrameResource) : FrameResource :=
  mkFrameResource (Fence fr) (ObjectCB fr) cb (PassCB fr) (WavesVB fr).

Definition setPassCB (cb : gmap Z PassConstants) (fr : FrameResource) : FrameResource :=
  mkFrameResource (Fence fr) (ObjectCB fr) (MaterialCB fr) cb (WavesVB fr).

Definition setWavesVB (vb : list WaveCall) (fr : FrameResource) : FrameResource :=
  mkFrameResource (Fence fr) (ObjectCB fr) (MaterialCB fr) (PassCB fr) vb.

(** ** What a frame does, in program order *)

(** A history of the calls made, kept beside the state: every function
    below appends the event of the call it stands for.  The class has no
    such member; the history is there to state what happened and when. *)
Inductive Event :=
| EvKeyboardInput
| EvUpdateCamera
| EvAcquire (slot : Z)
| EvWait (fence : Z)
| EvAnimateMaterials
| EvUpdateObjectCBs
| EvUpdateMaterialCBs
| EvUpdateMainPassCB
| EvDisturb (i j : Z) (magnitude : Q)
| EvWavesUpdate (dt : Q)
| EvWavesCopy (slot : Z)
| EvRecord (slot : Z)
| EvExecute (slot : Z)
| EvPresent
| EvStamp (slot : Z) (fence : Z)
| EvSignal (fence : Z).

(** ** Application state *)

(** The members of [ShapesApp] the frame reads and writes, the two members
    of the framework class it updates in [Draw] ([mCurrentFence],
    [mCurrBackBuffer]), the function-level static [t_base] of [UpdateWaves]
    and the history.  [mMaterials] is an unordered map in the source: the
    list gives its entries in iteration order, which the source does not
    fix and on which no result below depends.  [mCamera] and [mMainPassCB]
    are absent until the first frame has computed them. *)
Record ShapesApp := mkApp {
  mFrameResources : list FrameResource;
  mCurrFrameResourceIndex : Z;
  mCurrentFence : Z;
  mCurrBackBuffer : Z;
  mAllRitems : list RenderItem;
  mMaterials : list (string * Material);
  mMainPassCB : option PassConstants;
  mCamera : option CameraBlock;
  mWaves : Waves;
  t_base : Q;
  trace : list Event
}.

Definition set_mFrameResources v (s : ShapesApp) : ShapesApp :=
  mkApp v (mCurrFrameResourceIndex s) (mCurrentFence s) (mCurrBackBuffer s)
        (mAllRitems s) (mMaterials s) (mMainPassCB s) (mCamera s) (mWaves s)
        (t_base s) (trace s).

Definition set_mCurrFrameResourceIndex v (s : ShapesApp) : ShapesApp :=
  mkApp (mFrameResources s) v (mCurrentFence s) (mCurrBackBuffer s)
        (mAllRitems s) (mMaterials s) (mMainPassCB s) (mCamera s) (mWaves s)
        (t_base s) (trace s).

Definition set_mCurrentFence v (s : ShapesApp) : ShapesApp :=
  mkApp (mFrameResources s) (mCurrFrameResourceIndex s) v (mCurrBackBuffer s)
        (mAllRitems s) (mMaterials s) (mMainPassCB s) (mCamera s) (mWaves s)
        (t_base s) (trace s).

Definition set_mCurrBackBuffer v (s : ShapesApp) : ShapesApp :=
  mkApp (mFrameResources s) (mCurrFrameResourceIndex s) (mCurrentFence s) v
        (mAllRitems s) (mMaterials s) (mMainPassCB s) (mCamera s) (mWaves s)
        (t_base s) (trace s).

Definition set_mAllRitems v (s : ShapesApp) : ShapesApp :=
  mkApp (mFrameResources s) (mCurrFrameResourceIndex s) (mCurrentFence s)
        (mCurrBackBuffer s) v (mMaterials s) (mMainPassCB s) (mCamera s)
        (mWaves s) (t_base s) (trace s).

Definition set_mMaterials v (s : ShapesApp) : ShapesApp :=
  mkApp (mFrameResources s) (mCurrFrameResourceIndex s) (mCurrentFence s)
        (mCurrBackBuffer s) (mAllRitems s) v (mMainPassCB s) (mCamera s)
        (mWaves s) (t_base s) (trace s).

Definition set_mMainPassCB v (s : ShapesApp) : ShapesApp :=
  mkApp (mFrameResources s) (mCurrFrameResourceIndex s) (mCurrentFence s)
        (mCurrBackBuffer s) (mAllRitems s) (mMaterials s) v (mCamera s)
        (mWaves s) (t_base s) (trace s).

Definition set_mCamera v (s : ShapesApp) : ShapesApp :=
  mkApp (mFrameResources s) (mCurrFrameResourceIndex s) (mCurrentFence s)
        (mCurrBackBuffer s) (mAllRitems s) (mMaterials s) (mMainPassCB s) v
        (mWaves s) (t_base s) (trace s).

Definition set_mWaves v (s : ShapesApp) : ShapesApp :=
  mkApp (mFrameResources s) (mCurrFrameResourceIndex s) (mCurrentFence s)
        (mCurrBackBuffer s) (mAllRitems s) (mMaterials s) (mMainPassCB s)
        (mCamera s) v (t_base s) (trace s).

Definition set_t_base v (s : ShapesApp) : ShapesApp :=
  mkApp (mFrameResources s) (mCurrFrameResourceIndex s) (mCurrentFence s)
        (mCurrBackBuffer s) (mAllRitems s) (mMaterials s) (mMainPassCB s)
        (mCamera s) (mWaves s) v (trace s).

Definition emit (e : Event) (s : ShapesApp) : ShapesApp :=
  mkApp (mFrameResources s) (mCurrFrameResourceIndex s) (mCurrentFence s)
        (mCurrBackBuffer s) (mAllRitems s) (mMaterials s) (mMainPassCB s)
        (mCamera s) (mWaves s) (t_base s) (trace s ++ [e]).

(** [mCurrFrameResource]: the slot the cursor designates.  It is [None]
    only when the cursor is outside the array, where the source would index
    the vector out of bounds; the steps below then leave the slots alone. *)
Definition slotOf (i : Z) : nat := Z.to_nat i.

Definition mCurrFrameResource (s : ShapesApp) : option FrameResource :=
  mFrameResources s !! slotOf (mCurrFrameResourceIndex s).

(** A write through [mCurrFrameResource->...]. *)
Definition onCurrFrameResource (f : FrameResource → FrameResource) (s : ShapesApp) : ShapesApp :=
  set_mFrameResources
    (alter f (slotOf (mCurrFrameResourceIndex s)) (mFrameResources s)) s.

(** ** Exceptions *)

(** [HRESULT]: negative values are failures ([FAILED(hr)]). *)
Definition HRESULT := Z.

Definition S_OK : HRESULT := 0.

Definition E_FAIL : HRESULT := -2147467259.

Definition FAILED (hr : HRESULT) : bool := hr <? 0.

(** [DxException]: the failing code and the call that produced it. *)
Record DxException := mkDxException { ErrorCode : HRESULT; FunctionName : string }.

Inductive Outcome (A : Type) :=
| Ok (a : A)
| Throw (e : DxException).

Arguments Ok {A} a.

Arguments Throw {A} e.

(** A computation of the application: it may throw, and the state it has
    reached survives the exception. *)
Definition M (A : Type) : Type := ShapesApp → Outcome A * ShapesApp.

Definition ret {A} (a : A) : M A := fun s => (Ok a, s).

Definition bind {A B} (m : M A) (k : A → M B) : M B :=
  fun s => match m s with
           | (Ok a, s') => k a s'
           | (Throw e, s') => (Throw e, s')
           end.

(** A member function that cannot throw. *)
Definition exec (f : ShapesApp → ShapesApp) : M unit := fun s => (Ok tt, f s).

#[global] Instance M_ret : MRet M := @ret.

#[global] Instance M_bind : MBind M := fun A B k m => bind m k.

(** [ThrowIfFailed(call)]: the macro of the framework; a failed call
    throws a [DxException]. *)
Definition ThrowIfFailed (hr : HRESULT) (call : string) : M unit :=
  fun s => if FAILED hr then (Throw (mkDxException hr call), s) else (Ok tt, s).

(** ** What the environment supplies to one frame *)

Record GameTimer := mkGameTimer { DeltaTime : Q; TotalTime : Q }.

Record FrameInput := mkFrameInput {
  gt : GameTimer;
  camera : CameraBlock;
  (** [mFence->GetCompletedValue()] when [Update] reads it *)
  completedValue : Z;
  hrSetEventOnCompletion : HRESULT;
  (** the three [rand()] results [UpdateWaves] may consume, in order *)
  rand_i : Z;
  rand_j : Z;
  rand_r : Q;
  hrAllocReset : HRESULT;
  hrListReset : HRESULT;
  hrClose : HRESULT;
  hrPresent : HRESULT
}.

(** Modelled from the spec: [MathHelper::Rand] and [MathHelper::RandF]
    (MathHelper.h) are not among the sources.  [Rand(a, b)] yields an
    integer of the closed range from [a] to [b], computed from one result
    [r] of the C generator; [RandF(a, b)] scales a unit random [u]. *)
Definition Rand (a b r : Z) : Z := a + Z.rem r ((b - a) + 1).

Definition RandF (a b u : Q) : Q := (a + u * (b - a))%Q.

(** ** Update: the sub-steps *)

(** [OnKeyboardInput]: moves the camera; only its result is kept. *)
Definition OnKeyboardInput (inp : FrameInput) (s : ShapesApp) : ShapesApp :=
  emit EvKeyboardInput (set_mCamera (Some (camera inp)) s).

(** [UpdateCamera]: its body is commented out in the source. *)
Definition UpdateCamera (inp : FrameInput) (s : ShapesApp) : ShapesApp :=
  emit EvUpdateCamera s.

(** [mCurrFrameResourceIndex = (mCurrFrameResourceIndex + 1) % gNumFrameResources] *)
Definition CycleFrameResource (s : ShapesApp) : ShapesApp :=
  let i := Z.rem (mCurrFrameResourceIndex s + 1) gNumFrameResources in
  emit (EvAcquire i) (set_mCurrFrameResourceIndex i s).

(** The guard of the wait:
    [Fence != 0 && mFence->GetCompletedValue() < Fence]. *)
Definition mustWait (completed : Z) (fr : FrameResource) : bool :=
  negb (Fence fr =? 0) && (completed <? Fence fr).

(** The wait itself.  [SetEventOnCompletion] may fail; when it succeeds the
    thread sleeps until the fence reaches the slot's marker. *)
Definition WaitForFrameResource (inp : FrameInput) : M unit :=
  fun s =>
    match mCurrFrameResource s with
    | Some fr =>
        if mustWait (completedValue inp) fr then
          (ThrowIfFailed (hrSetEventOnCompletion inp) "SetEventOnCompletion" ;;
           exec (emit (EvWait (Fence fr)))) s
        else (Ok tt, s)
    | None => (Ok tt, s)
    end.

(** ** Single precision *)

(** The exponent of a positive rational: the [e] with
    [2 ^ e <= x < 2 ^ (e + 1)]. *)
Definition Qfloor_log2 (x : Q) : Z :=
  let e := Z.log2 (Qnum x) - Z.log2 (Zpos (Qden x)) in
  if Qle_bool (2 ^ e) x then e else e - 1.

(** The nearest integer, the even one of two that are equally near. *)
Definition roundEven (x : Q) : Z :=
  let n := Qfloor x in
  match (x - inject_Z n ?= 1 # 2)%Q with
  | Lt => n
  | Gt => n + 1
  | Eq => if Z.even n then n else n + 1
  end.

(** The spacing of the binary32 values around a positive [x]: 24
    significant bits, and the spacing [2 ^ -149] of the subnormal values
    below [2 ^ -126]. *)
Definition ulp32 (x : Q) : Q := (2 ^ (Z.max (Qfloor_log2 x) (-126) - 23))%Q.

Definition round32 (x : Q) : Q :=
  (inject_Z (roundEven (x / ulp32 x)) * ulp32 x)%Q.

(** The value of the format the exact result [x] of an operation is
    rounded to (round to nearest, ties to even, the rounding of the C++
    [float] operations on the target).  No infinity is modelled: the
    results rounded here stay far below the largest value of the format. *)
Definition f32 (x : Q) : Q :=
  match (x ?= 0)%Q with
  | Eq => 0%Q
  | Gt => round32 x
  | Lt => (- round32 (- x))%Q
  end.

(** [AnimateMaterials]: scroll the water texture and mark it dirty.
    [t += step; if (t >= 1.0f) t -= 1.0f;] on a [float]. *)
Definition scroll (t step : Q) : Q :=
  let t' := f32 (t + step) in
  if Qle_bool 1.0 t' then f32 (t' - 1.0) else t'.

(** [dt] is the [float] that [gt.DeltaTime()] returns; [0.1f] and [0.02f]
    are the values of the format nearest to 0.1 and 0.02, and each product
    is rounded before it is added. *)
Definition animateWater (dt : Q) (m : Material) : Material :=
  let tu := scroll (f4x (row3 (MatTransform m))) (f32 (f32 0.1 * dt)) in
  let tv := scroll (f4y (row3 (MatTransform m))) (f32 (f32 0.02 * dt)) in
  setMatNumFramesDirty gNumFrameResources
    (setMatTransform (setTexOffset tu tv (MatTransform m)) m).

(** [mMaterials[name]] updated in place.  With no entry of that name the
    source dereferences a null pointer; here nothing changes. *)
Definition onMaterial (name : string) (f : Material → Material)
    (ms : list (string * Material)) : list (string * Material) :=
  map (fun kv => if String.eqb (fst kv) name then (fst kv, f (snd kv)) else kv) ms.

Definition AnimateMaterials (inp : FrameInput) (s : ShapesApp) : ShapesApp :=
  emit EvAnimateMaterials
    (set_mMaterials (onMaterial "water" (animateWater (DeltaTime (gt inp))) (mMaterials s)) s).

(** [UpdateObjectCBs]: the loop over [mAllRitems]. *)
Definition objConstantsOf (e : RenderItem) : ObjectConstants :=
  mkObjectConstants (XMMatrixTranspose (World e)) (XMMatrixTranspose (TexTransform e)).

Fixpoint flushObjects (items : list RenderItem) (cb : gmap Z ObjectConstants)
  : list RenderItem * gmap Z ObjectConstants :=
  match items with
  | [] => ([], cb)
  | e :: rest =>
      if 0 <? NumFramesDirty e then
        let '(rest', cb') :=
          flushObjects rest (<[ObjCBIndex e := objConstantsOf e]> cb) in
        (setNumFramesDirty (NumFramesDirty e - 1) e :: rest', cb')
      else
        let '(rest', cb') := flushObjects rest cb in (e :: rest', cb')
  end.

Definition UpdateObjectCBs (s : ShapesApp) : ShapesApp :=
  emit EvUpdateObjectCBs
    match mCurrFrameResource s with
    | Some fr =>
        let '(items', cb') := flushObjects (mAllRitems s) (ObjectCB fr) in
        set_mAllRitems items' (onCurrFrameResource (setObjectCB cb') s)
    | None => s
    end.

(** [UpdateMaterialCBs]: the loop over [mMaterials]. *)
Definition matConstantsOf (m : Material) : MaterialConstants :=
  mkMaterialConstants (DiffuseAlbedo m) (FresnelR0 m) (Roughness m)
                      (XMMatrixTranspose (MatTransform m)).

Fixpoint flushMaterials (ms : list (string * Material)) (cb : gmap Z MaterialConstants)
  : list (string * Material) * gmap Z MaterialConstants :=
  match ms with
  | [] => ([], cb)
  | (name, m) :: rest =>
      if 0 <? MatNumFramesDirty m then
        let '(rest', cb') :=
          flushMaterials rest (<[MatCBIndex m := matConstantsOf m]> cb) in
        ((name, setMatNumFramesDirty (MatNumFramesDirty m - 1) m) :: rest', cb')
      else
        let '(rest', cb') := flushMaterials rest cb in ((name, m) :: rest', cb')
  end.

Definition UpdateMaterialCBs (s : ShapesApp) : ShapesApp :=
  emit EvUpdateMaterialCBs
    match mCurrFrameResource s with
    | Some fr =>
        let '(ms', cb') := flushMaterials (mMaterials s) (MaterialCB fr) in
        set_mMaterials ms' (onCurrFrameResource (setMaterialCB cb') s)
    | None => s
    end.

(** [UpdateMainPassCB]: camera matrices, timing and lights into element 0
    of the slot's pass buffer. *)
Definition mainPassOf (inp : FrameInput) (cam : CameraBlock) : PassConstants :=
  mkPassConstants cam 1.0 1000.0 (TotalTime (gt inp)) (DeltaTime (gt inp))
                  (mkF4 0.4 0.4 0.4 1.0).

Definition UpdateMainPassCB (inp : FrameInput) (s : ShapesApp) : ShapesApp :=
  let pc := mainPassOf inp (default (camera inp) (mCamera s)) in
  emit EvUpdateMainPassCB
    (onCurrFrameResource (fun fr => setPassCB (<[0 := pc]> (PassCB fr)) fr)
       (set_mMainPassCB (Some pc) s)).

(** [UpdateWaves]: the quarter-second disturbance, the simulation step and
    the copy of the vertices into the slot.  [t_base] is the function-level
    static of the source: one variable for all calls.  The difference and
    the sum are exact here; 0.25 and its multiples up to [2 ^ 22] are
    values of the format. *)
Definition DisturbIfDue (inp : FrameInput) (s : ShapesApp) : ShapesApp :=
  if Qle_bool 0.25 (TotalTime (gt inp) - t_base s) then
    let i := Rand 4 (RowCount (mWaves s) - 5) (rand_i inp) in
    let j := Rand 4 (ColumnCount (mWaves s) - 5) (rand_j inp) in
    let r := RandF 0.2 0.5 (rand_r inp) in
    emit (EvDisturb i j r)
      (set_mWaves (Waves_Disturb i j r (mWaves s))
         (set_t_base (t_base s + 0.25)%Q s))
  else s.

Definition AdvanceWaves (inp : FrameInput) (s : ShapesApp) : ShapesApp :=
  emit (EvWavesUpdate (DeltaTime (gt inp)))
    (set_mWaves (Waves_Update (DeltaTime (gt inp)) (mWaves s)) s).

Definition CopyWaves (s : ShapesApp) : ShapesApp :=
  emit (EvWavesCopy (mCurrFrameResourceIndex s))
    (onCurrFrameResource (setWavesVB (calls (mWaves s))) s).

Definition UpdateWaves (inp : FrameInput) (s : ShapesApp) : ShapesApp :=
  CopyWaves (AdvanceWaves inp (DisturbIfDue inp s)).

(** ** Update and Draw *)

Definition Update (inp : FrameInput) : M unit :=
  exec (OnKeyboardInput inp) ;;
  exec (UpdateCamera inp) ;;
  exec CycleFrameResource ;;
  WaitForFrameResource inp ;;
  exec (AnimateMaterials inp) ;;
  exec UpdateObjectCBs ;;
  exec UpdateMaterialCBs ;;
  exec (UpdateMainPassCB inp) ;;
  exec (UpdateWaves inp).

(** Recording of the command list: everything between the two resets and
    [Close].  The commands reference the buffers of the current slot. *)
Definition RecordCommands (s : ShapesApp) : ShapesApp :=
  emit (EvRecord (mCurrFrameResourceIndex s)) s.

Definition ExecuteCommandLists (s : ShapesApp) : ShapesApp :=
  emit (EvExecute (mCurrFrameResourceIndex s)) s.

Definition AdvanceBackBuffer (s : ShapesApp) : ShapesApp :=
  emit EvPresent
    (set_mCurrBackBuffer (Z.rem (mCurrBackBuffer s + 1) SwapChainBufferCount) s).

(** [mCurrFrameResource->Fence = ++mCurrentFence;] *)
Definition StampFence (s : ShapesApp) : ShapesApp :=
  let f := mCurrentFence s + 1 in
  emit (EvStamp (mCurrFrameResourceIndex s) f)
    (onCurrFrameResource (setFence f) (set_mCurrentFence f s)).

(** [mCommandQueue->Signal(mFence.Get(), mCurrentFence);] *)
Definition SignalFence (s : ShapesApp) : ShapesApp :=
  emit (EvSignal (mCurrentFence s)) s.

Definition Draw (inp : FrameInput) : M unit :=
  ThrowIfFailed (hrAllocReset inp) "cmdListAlloc->Reset" ;;
  ThrowIfFailed (hrListReset inp) "mCommandList->Reset" ;;
  exec RecordCommands ;;
  ThrowIfFailed (hrClose inp) "mCommandList->Close" ;;
  exec ExecuteCommandLists ;;
  ThrowIfFailed (hrPresent inp) "mSwapChain->Present" ;;
  exec AdvanceBackBuffer ;;
  exec StampFence ;;
  exec SignalFence.

(** Modelled from the spec: the message loop ([D3DApp::Run]) is not among
    the sources; a tick performs [Update] and then [Draw]. *)
Definition Frame (inp : FrameInput) : M unit :=
  Update inp ;; Draw inp.

(** The loop itself: an exception leaves it (it is caught in [WinMain],
    which reports it and returns). *)
Fixpoint Run (inps : list FrameInput) : M unit :=
  match inps with
  | [] => ret tt
  | inp :: rest => Frame inp ;; Run rest
  end.

(** ** Scene construction *)

(** [BuildMaterials].  [Index] runs from 0 to 8 in the order of the
    definitions; the materials enter the map in the order of the final
    assignments. *)
Definition newMaterial (index : Z) (albedo : XMFLOAT4) (fresnel : XMFLOAT3)
    (roughness : Q) : Material :=
  mkMaterial index index (MatNumFramesDirty Material_default) albedo fresnel
             roughness (MatTransform Material_default).

Definition BuildMaterials : list (string * Material) :=
  let brick := newMaterial 0 (mkF4 1.0 1.0 1.0 1.0) (mkF3 0.02 0.02 0.02) 0.2 in
  let stone := newMaterial 1 (mkF4 1.0 1.0 1.0 1.0) (mkF3 0.02 0.02 0.02) 0.3 in
  let roof := newMaterial 2 (mkF4 1.0 1.0 1.0 1.0) (mkF3 0.05 0.05 0.05) 0.2 in
  let tile := newMaterial 3 (mkF4 1.0 1.0 1.0 1.0) (mkF3 0.02 0.02 0.02) 0.1 in
  let water := newMaterial 4 (mkF4 1.0 1.0 1.0 0.5) (mkF3 0.2 0.2 0.2) 0.0 in
  let grass := newMaterial 5 (mkF4 1.0 1.0 1.0 1.0) (mkF3 0.2 0.2 0.2) 0.1 in
  let board := newMaterial 6 (mkF4 1.0 1.0 1.0 1.0) (mkF3 0.2 0.2 0.2) 0.0 in
  let ice := newMaterial 7 (mkF4 1.0 1.0 1.0 1.0) (mkF3 0.2 0.2 0.2) 0.0 in
  let treeSprites := newMaterial 8 (mkF4 1.0 1.0 1.0 1.0) (mkF3 0.01 0.01 0.01) 0.125 in
  [("brick", brick); ("stone", stone); ("roof", roof); ("tile", tile);
   ("water", water); ("treeSprites", treeSprites); ("grass", grass);
   ("board", board); ("ice", ice)]%string.

(** [BuildRenderItems].  The builder state is the vector [mAllRitems] and
    the running local [Index]; [addItem] is an item that takes
    [ObjCBIndex = Index++], [addItemAt] one whose index is a literal. *)
Definition BuilderState : Type := list RenderItem * Z.

Definition newItem (world tex : XMFLOAT4X4) (index : Z) (mat geo : string) : RenderItem :=
  setMatGeo mat geo
    (setObjCBIndex index (setTexTransform tex (setWorld world RenderItem_default))).

Definition addItemTex (world tex : XMFLOAT4X4) (mat geo : string)
    (b : BuilderState) : BuilderState :=
  (fst b ++ [newItem world tex (snd b) mat geo], snd b + 1).

Definition addItem (world : XMFLOAT4X4) (mat geo : string)
    (b : BuilderState) : BuilderState :=
  addItemTex world (TexTransform RenderItem_default) mat geo b.

Definition addItemAt (index : Z) (world : XMFLOAT4X4) (mat geo : string)
    (b : BuilderState) : BuilderState :=
  (fst b ++ [newItem world (TexTransform RenderItem_default) index mat geo], snd b).

(** One iteration of the loop over the pillars, cones and spheres;
    [objCBIndex] is the loop's own counter. *)
Definition addPillars (i : Z) (b : BuilderState) : BuilderState :=
  let tx := (-25.0 + inject_Z i * 50)%Q in
  let at_ (k : Z) (ty tz : Q) (mat : string) :=
    newItem (XMMatrixTranslation tx ty tz) (TexTransform RenderItem_default)
            (snd b + k) mat "shapeGeo" in
  (fst b ++ [at_ 0 9.5%Q 24.0%Q "roof"%string; at_ 1 9.5%Q (-24.0)%Q "roof"%string;
             at_ 2 21.5%Q 24.0%Q "stone"%string; at_ 3 21.5%Q (-24.0)%Q "stone"%string;
             at_ 4 24.5%Q 24.0%Q "ice"%string; at_ 5 24.5%Q (-24.0)%Q "ice"%string],
   snd b + 6).

Definition BuildRenderItems : list RenderItem :=
  let fixedItems : list (BuilderState → BuilderState) := [
    addItemTex (XMMatrixMultiply (XMMatrixScaling 3.0 1.0 3.0) (XMMatrixTranslation 0.0 (-3.0) 0.0)) (XMMatrixScaling 5.0 5.0 5.0) "water" "waterGeo";
    addItemAt 3 Identity4x4 "treeSprites" "treeSpritesGeo";
    addItem (XMMatrixMultiply (XMMatrixScaling 35.0 30.0 1.5) (XMMatrixTranslation 0.0 7.5 25.0)) "brick" "shapeGeo";
    addItem (XMMatrixMultiply (XMMatrixScaling 1.5 30.0 35.0) (XMMatrixTranslation (-25.0) 7.5 0.0)) "brick" "shapeGeo";
    addItem (XMMatrixMultiply (XMMatrixScaling 1.5 30.0 35.0) (XMMatrixTranslation 25.0 7.5 0.0)) "brick" "shapeGeo";
    addItem (XMMatrixMultiply (XMMatrixScaling 10.0 30.0 1.5) (XMMatrixTranslation (-15.0) 8.0 (-25))) "brick" "shapeGeo";
    addItem (XMMatrixMultiply (XMMatrixScaling 10.0 30.0 1.5) (XMMatrixTranslation 15 8.0 (-25))) "brick" "shapeGeo";
    addItem (XMMatrixMultiply (XMMatrixScaling 10.0 10.0 1.5) (XMMatrixTranslation 0.0 13 (-25))) "brick" "shapeGeo";
    addItem Identity4x4 "grass" "shapeGeo";
    addItem (XMMatrixMultiply (XMMatrixScaling 5.0 5.0 1.5) (XMMatrixTranslation (-15.0) 16.0 24.0)) "stone" "shapeGeo";
    addItem (XMMatrixMultiply (XMMatrixScaling 5.0 5.0 1.5) (XMMatrixTranslation (-15.0) 16.0 (-24.0))) "stone" "shapeGeo";
    addItem (XMMatrixMultiply (XMMatrixScaling 5.0 5.0 1.5) (XMMatrixTranslation 0.0 16.0 24.0)) "stone" "shapeGeo";
    addItem (XMMatrixMultiply (XMMatrixScaling 5.0 5.0 1.5) (XMMatrixTranslation 0.0 16.0 (-24.0))) "stone" "shapeGeo";
    addItem (XMMatrixMultiply (XMMatrixScaling 5.0 5.0 1.5) (XMMatrixTranslation 15.0 16.0 24.0)) "stone" "shapeGeo";
    addItem (XMMatrixMultiply (XMMatrixScaling 5.0 5.0 1.5) (XMMatrixTranslation 15.0 16.0 (-24.0))) "stone" "shapeGeo";
    addItem (XMMatrixMultiply (XMMatrixScaling 1.5 5.0 5.0) (XMMatrixTranslation 25.0 17.0 (-15.0))) "stone" "shapeGeo";
    addItem (XMMatrixMultiply (XMMatrixScaling 1.5 5.0 5.0) (XMMatrixTranslation 25.0 16.0 (-1.0))) "stone" "shapeGeo";
    addItem (XMMatrixMultiply (XMMatrixScaling 1.5 5.0 5.0) (XMMatrixTranslation 25.0 16.0 14.5)) "stone" "shapeGeo";
    addItem (XMMatrixMultiply (XMMatrixScaling 1.5 5.0 5.0) (XMMatrixTranslation (-25.0) 16.0 (-15.0))) "stone" "shapeGeo";
    addItem (XMMatrixMultiply (XMMatrixScaling 1.5 5.0 5.0) (XMMatrixTranslation (-25.0) 16.0 (-1.0))) "stone" "shapeGeo";
    addItem (XMMatrixMultiply (XMMatrixScaling 1.5 5.0 5.0) (XMMatrixTranslation (-25.0) 16.0 14.5)) "stone" "shapeGeo";
    addItem (XMMatrixMultiply (XMMatrixScaling 1.25 2.0 2.0) (XMMatrixTranslation 0.0 1.5 (-30.0))) "brick" "shapeGeo";
    addItem (XMMatrixMultiply (XMMatrixScaling 12.5 12.5 12.5) (XMMatrixTranslation 0.0 10.0 0.0)) "stone" "shapeGeo";
    addItem (XMMatrixMultiply (XMMatrixScaling 1.0 1.0 1.0) (XMMatrixTranslation 0.0 21.5 0.0)) "ice" "shapeGeo";
    addItem (XMMatrixMultiply (XMMatrixScaling 2.0 2.0 2.0) (XMMatrixTranslation 0.0 3.5 15.0)) "board" "shapeGeo";
    addItem (XMMatrixMultiply (XMMatrixScaling 2.0 2.0 2.0) (XMMatrixTranslation 0.0 7.5 15.0)) "stone" "shapeGeo";
    addItem (XMMatrixMultiply (XMMatrixScaling 1.0 1.0 1.0) (XMMatrixTranslation 0.0 12.5 15.0)) "ice" "shapeGeo";
    addItem (XMMatrixMultiply (XMMatrixScaling 1.0 1.0 1.0) (XMMatrixTranslation 0.0 22.5 0.0)) "ice" "shapeGeo" ]%string in
  let b := fold_left (fun b f => f b) fixedItems ([], 0) in
  (* UINT objCBIndex = Index++;  the loop then counts with objCBIndex *)
  let objCBIndex := snd b in
  fst (addPillars 1 (addPillars 0 (fst b, objCBIndex))).

(** [BuildFrameResources]: [gNumFrameResources] fresh slots. *)
Definition BuildFrameResources : list FrameResource :=
  replicate (Z.to_nat gNumFrameResources) FrameResource_new.

(** The state [ShapesApp::Initialize] leaves behind.  [fence0] is the value
    of the framework's fence counter once the initialisation commands have
    been flushed (the framework is not among the sources). *)
Definition Initialize (fence0 : Z) : ShapesApp :=
  mkApp BuildFrameResources 0 fence0 0 BuildRenderItems BuildMaterials None None
        (Waves_Construct 128 128 1.0 0.03 4.0 0.2) 0 [].

(** ** Normal forms of Update and Draw *)

(** What [Update] does once the slot is available: the five calls after
    the wait, in program order. *)
Definition UpdateTail (inp : FrameInput) (s : ShapesApp) : ShapesApp :=
  UpdateWaves inp (UpdateMainPassCB inp (UpdateMaterialCBs (UpdateObjectCBs
    (AnimateMaterials inp s)))).

Definition UpdateHead (inp : FrameInput) (s : ShapesApp) : ShapesApp :=
  CycleFrameResource (UpdateCamera inp (OnKeyboardInput inp s)).

Definition waitException (inp : FrameInput) : DxException :=
  mkDxException (hrSetEventOnCompletion inp) "SetEventOnCompletion".

Definition DrawTail (s : ShapesApp) : ShapesApp :=
  SignalFence (StampFence (AdvanceBackBuffer s)).

(** Closed forms: the state after each half of a frame, field by field. *)
Definition disturbDue (inp : FrameInput) (tb : Q) : bool :=
  Qle_bool 0.25 (TotalTime (gt inp) - tb).

Definition disturbRow (inp : FrameInput) (w : Waves) : Z :=
  Rand 4 (RowCount w - 5) (rand_i inp).

Definition disturbColumn (inp : FrameInput) (w : Waves) : Z :=
  Rand 4 (ColumnCount w - 5) (rand_j inp).

Definition disturbMagnitude (inp : FrameInput) : Q :=
  RandF 0.2 0.5 (rand_r inp).

Definition disturbEvent (inp : FrameInput) (w : Waves) : Event :=
  EvDisturb (disturbRow inp w) (disturbColumn inp w) (disturbMagnitude inp).

Definition disturbEvents (inp : FrameInput) (w : Waves) (tb : Q) : list Event :=
  if disturbDue inp tb then [disturbEvent inp w] else [].

Definition wavesDisturbed (inp : FrameInput) (w : Waves) (tb : Q) : Waves :=
  if disturbDue inp tb
  then Waves_Disturb (disturbRow inp w) (disturbColumn inp w) (disturbMagnitude inp) w
  else w.

Definition t_baseAfter (inp : FrameInput) (tb : Q) : Q :=
  if disturbDue inp tb then (tb + 0.25)%Q else tb.

Definition tailEvents (inp : FrameInput) (s : ShapesApp) : list Event :=
  [EvAnimateMaterials; EvUpdateObjectCBs; EvUpdateMaterialCBs; EvUpdateMainPassCB]
  ++ disturbEvents inp (mWaves s) (t_base s)
  ++ [EvWavesUpdate (DeltaTime (gt inp)); EvWavesCopy (mCurrFrameResourceIndex s)].

Definition animatedMaterials (inp : FrameInput) (mats : list (string * Material))
  : list (string * Material) :=
  onMaterial "water" (animateWater (DeltaTime (gt inp))) mats.

Definition wavesAfter (inp : FrameInput) (w : Waves) (tb : Q) : Waves :=
  Waves_Update (DeltaTime (gt inp)) (wavesDisturbed inp w tb).

(** The current slot once [Update] has written it. *)
Definition slotAfterUpdate (inp : FrameInput) (items : list RenderItem)
    (mats : list (string * Material)) (cam : option CameraBlock)
    (w : Waves) (tb : Q) (fr : FrameResource) : FrameResource :=
  mkFrameResource (Fence fr)
    (snd (flushObjects items (ObjectCB fr)))
    (snd (flushMaterials (animatedMaterials inp mats) (MaterialCB fr)))
    (<[0 := mainPassOf inp (default (camera inp) cam)]> (PassCB fr))
    (calls (wavesAfter inp w tb)).

Definition drawEvents (s : ShapesApp) : list Event :=
  [EvRecord (mCurrFrameResourceIndex s); EvExecute (mCurrFrameResourceIndex s);
   EvPresent; EvStamp (mCurrFrameResourceIndex s) (mCurrentFence s + 1);
   EvSignal (mCurrentFence s + 1)].

(** ** The ring: slots, cursor and fence counter *)

Definition fences (s : ShapesApp) : list Z := map Fence (mFrameResources s).

(** The ring is well formed: [gNumFrameResources] slots and a cursor that
    designates one of them. *)
Definition ringWF (s : ShapesApp) : Prop :=
  length (mFrameResources s) = Z.to_nat gNumFrameResources ∧
  0 ≤ mCurrFrameResourceIndex s < gNumFrameResources.

Definition nextSlot (s : ShapesApp) : Z :=
  Z.rem (mCurrFrameResourceIndex s + 1) gNumFrameResources.

(** When [Update] returns normally: the state it returns. *)
Definition afterUpdate (inp : FrameInput) (s : ShapesApp) : ShapesApp :=
  let s1 := UpdateHead inp s in
  match mCurrFrameResource s1 with
  | Some fr =>
      if mustWait (completedValue inp) fr
      then UpdateTail inp (emit (EvWait (Fence fr)) s1)
      else UpdateTail inp s1
  | None => UpdateTail inp s1
  end.

Definition afterDraw (s : ShapesApp) : ShapesApp :=
  DrawTail (ExecuteCommandLists (RecordCommands s)).

(** The slot a call of [Update] in state [s] is about to reclaim. *)
Definition reclaimed (s : ShapesApp) : option FrameResource :=
  mFrameResources s !! slotOf (nextSlot s).

(** The events of a call of [Update] that returns. *)
Definition waitEvents (inp : FrameInput) (s : ShapesApp) : list Event :=
  match reclaimed s with
  | Some fr => if mustWait (completedValue inp) fr then [EvWait (Fence fr)] else []
  | None => []
  end.

Definition updateEvents (inp : FrameInput) (s : ShapesApp) : list Event :=
  [EvKeyboardInput; EvUpdateCamera; EvAcquire (nextSlot s)]
  ++ waitEvents inp s
  ++ [EvAnimateMaterials; EvUpdateObjectCBs; EvUpdateMaterialCBs; EvUpdateMainPassCB]
  ++ disturbEvents inp (mWaves s) (t_base s)
  ++ [EvWavesUpdate (DeltaTime (gt inp)); EvWavesCopy (nextSlot s)].

(** ** Waits recorded in a trace *)

Definition waitOf (e : Event) : option Z :=
  match e with EvWait f => Some f | _ => None end.

Definition waits (tr : list Event) : list Z := omap waitOf tr.

(** The events a call, or a frame, appended to the trace. *)
Definition eventsOfFrame (s s' : ShapesApp) : list Event :=
  drop (length (trace s)) (trace s').

(** Whether this call of [Update] sleeps on the fence, and on which value:
    the guard holds and the event could be registered. *)
Definition sleepsOn (inp : FrameInput) (s : ShapesApp) : list Z :=
  match reclaimed s with
  | Some fr =>
      if mustWait (completedValue inp) fr && negb (FAILED (hrSetEventOnCompletion inp))
      then [Fence fr] else []
  | None => []
  end.

(** ** Cold start and back-pressure *)

(** The [k] slots the cursor reaches next have never been submitted. *)
Definition freeAhead (k : Z) (s : ShapesApp) : Prop :=
  ∀ j, 1 ≤ j ≤ k →
    fences s !! slotOf ((mCurrFrameResourceIndex s + j) mod gNumFrameResources) = Some 0.

(** The state in which the first frame starts: no slot has been submitted
    and the cursor is where its member initialiser puts it. *)
Definition coldStart (s : ShapesApp) : Prop :=
  fences s = replicate (Z.to_nat gNumFrameResources) 0 ∧
  mCurrFrameResourceIndex s = 0 ∧
  0 ≤ mCurrentFence s.

(** ** A whole frame in closed form *)

Definition submitEvents (slot fence : Z) : list Event :=
  [EvRecord slot; EvExecute slot; EvPresent; EvStamp slot fence; EvSignal fence].

Definition frameEvents (inp : FrameInput) (s : ShapesApp) : list Event :=
  updateEvents inp s ++ submitEvents (nextSlot s) (mCurrentFence s + 1).

(** A frame that is left by an exception has stamped nothing. *)
Definition stampOf (e : Event) : option (Z * Z) :=
  match e with EvStamp slot f => Some (slot, f) | _ => None end.

Definition stamps (tr : list Event) : list (Z * Z) := omap stampOf tr.

(** ** Completion markers *)

(** Markers in the order in which they were stamped. *)
Definition markers (tr : list Event) : list Z := map snd (stamps tr).

(** What links the ring to the history of submissions: the stamped markers
    increase and lie above the counter's initial value and at or below its
    current one; a slot holds 0 and was never stamped, or holds a positive
    marker that was stamped on it. *)
Definition markersOK (base : Z) (s : ShapesApp) : Prop :=
  StronglySorted Z.lt (markers (trace s)) ∧
  Forall (fun f => base < f ≤ mCurrentFence s) (markers (trace s)) ∧
  ∀ k fr, 0 ≤ k < gNumFrameResources →
    mFrameResources s !! slotOf k = Some fr →
    (Fence fr = 0 ∧ ∀ f, (k, f) ∉ stamps (trace s)) ∨
    (0 < Fence fr ∧ (k, Fence fr) ∈ stamps (trace s)).

(** ** The application and the GPU timeline together *)

(** The GPU is the other actor: [completed] is the value of the fence
    object, which the GPU raises, in order, up to the last value signalled.
    [acquired] tells whether the thread is between [Update] and [Draw]. *)
Record System := mkSystem {
  app : ShapesApp;
  completed : Z;
  acquired : bool
}.

(** A call of [Update] reads the fence ([GetCompletedValue]) when it
    starts.  For every [EvWait f] the call has recorded, the thread slept
    in [WaitForSingleObject] on the event that [SetEventOnCompletion]
    attached to the value [f]: the call returns only once the fence has
    reached [f].  A call that recorded no wait returns at once. *)
Inductive sysStep : System → System → Prop :=
| step_gpu sys c :
    completed sys ≤ c ≤ mCurrentFence (app sys) →
    sysStep sys (mkSystem (app sys) c (acquired sys))
| step_update sys inp a' c' :
    acquired sys = false →
    completedValue inp = completed sys →
    Update inp (app sys) = (Ok tt, a') →
    completed sys ≤ c' ≤ mCurrentFence (app sys) →
    Forall (fun f => f ≤ c') (waits (eventsOfFrame (app sys) a')) →
    sysStep sys (mkSystem a' c' true)
| step_draw sys inp a' :
    acquired sys = true →
    Draw inp (app sys) = (Ok tt, a') →
    sysStep sys (mkSystem a' (completed sys) false).

Definition reachableFrom (sys0 : System) : System → Prop := rtc sysStep sys0.

(** The system when the message loop starts: nothing has been submitted. *)
Definition coldSystem (sys : System) : Prop :=
  coldStart (app sys) ∧ stamps (trace (app sys)) = [] ∧
  0 ≤ completed sys ≤ mCurrentFence (app sys) ∧
  acquired sys = false.

(** Frames in flight: the frames submitted so far whose marker the fence
    has not reached, each designated by the marker [Draw] stamped for it. *)
Definition inFlightMarkers (sys : System) : list Z :=
  filter (fun f => completed sys < f) (markers (trace (app sys))).

Definition inFlight (sys : System) : nat := length (inFlightMarkers sys).

(** What holds in every reachable state: the thread, while it holds a
    slot, holds one whose marker the fence has reached; the markers
    increase; and the marker of a frame in flight is still on a slot. *)
Definition sysInv (sys : System) : Prop :=
  ringWF (app sys) ∧
  0 ≤ completed sys ≤ mCurrentFence (app sys) ∧
  (acquired sys = true →
   ∃ fr, mCurrFrameResource (app sys) = Some fr ∧ Fence fr ≤ completed sys) ∧
  StronglySorted Z.lt (markers (trace (app sys))) ∧
  Forall (fun f => f ≤ mCurrentFence (app sys)) (markers (trace (app sys))) ∧
  (∀ f, f ∈ markers (trace (app sys)) → completed sys < f → f ∈ fences (app sys)).

(** The bound of the claim is exceeded: three frames submitted from a cold
    start, nothing retired, and all three are in flight. *)
Definition idleInput : FrameInput :=
  mkFrameInput (mkGameTimer 0.01 0.01)
    (mkCameraBlock Identity4x4 Identity4x4 (mkF3 0 0 0))
    0 S_OK 0 0 0 S_OK S_OK S_OK S_OK.

Definition updated (a : ShapesApp) : ShapesApp := snd (Update idleInput a).

Definition drawn (a : ShapesApp) : ShapesApp := snd (Draw idleInput a).

Definition threeSubmitted : ShapesApp :=
  drawn (updated (drawn (updated (drawn (updated (Initialize 0)))))).

(** The fourth call of [Update], which has to wait for the first frame. *)
Definition fourthAcquired : ShapesApp := updated threeSubmitted.

(** ** Order of the sub-steps of a frame *)

Inductive SubStep :=
| SAcquire              (* move the cursor to the next frame slot *)
| SWait                 (* sleep until the fence reaches the slot's marker *)
| SAdvanceMaterials     (* advance the animated materials *)
| SAdvanceHeightField   (* advance the height field in time *)
| SFlushObjects         (* flush dirty object constants *)
| SFlushMaterials       (* flush dirty material constants *)
| SWritePass            (* write the pass-level constant block *)
| SDisturb              (* disturb a cell of the height field *)
| SCopyVertices         (* copy the height-field vertices into the slot *)
| SRecord               (* record the commands *)
| SSubmit               (* submit them *)
| SStamp                (* stamp the new marker on the slot *)
| SSignal.              (* signal it on the queue *)

#[global] Instance SubStep_eq_dec : EqDecision SubStep.
Proof. solve_decision. Defined.

(** The sub-step an event belongs to.  Input handling, which comes before
    the acquisition, and the presentation of the back buffer, between
    submission and stamp, are not among the sub-steps of the claim. *)
Definition stepOf (e : Event) : option SubStep :=
  match e with
  | EvAcquire _ => Some SAcquire
  | EvWait _ => Some SWait
  | EvAnimateMaterials => Some SAdvanceMaterials
  | EvWavesUpdate _ => Some SAdvanceHeightField
  | EvUpdateObjectCBs => Some SFlushObjects
  | EvUpdateMaterialCBs => Some SFlushMaterials
  | EvUpdateMainPassCB => Some SWritePass
  | EvDisturb _ _ _ => Some SDisturb
  | EvWavesCopy _ => Some SCopyVertices
  | EvRecord _ => Some SRecord
  | EvExecute _ => Some SSubmit
  | EvStamp _ _ => Some SStamp
  | EvSignal _ => Some SSignal
  | EvKeyboardInput | EvUpdateCamera | EvPresent => None
  end.

Definition subSteps (evs : list Event) : list SubStep := omap stepOf evs.

(** The order the specification gives: both time advances come right
    after the acquisition. *)
Definition specOrder : list SubStep :=
  [SAcquire; SAdvanceMaterials; SAdvanceHeightField; SFlushObjects;
   SFlushMaterials; SWritePass; SCopyVertices; SRecord; SSubmit; SStamp; SSignal].

(** The order of the code, in a frame that has to wait for its slot
    ([waited]) and in which a disturbance is due ([disturbed]): the wait
    comes right after the cursor has moved and before anything is written;
    the height field is disturbed and advanced inside [UpdateWaves], after
    the three constant-buffer writes. *)
Definition codeOrder (waited disturbed : bool) : list SubStep :=
  [SAcquire] ++ (if waited then [SWait] else [])
  ++ [SAdvanceMaterials; SFlushObjects; SFlushMaterials; SWritePass]
  ++ (if disturbed then [SDisturb] else [])
  ++ [SAdvanceHeightField; SCopyVertices; SRecord; SSubmit; SStamp; SSignal].

(** [a] comes before [b] in a list of sub-steps. *)
Definition precedes (a b : SubStep) (l : list SubStep) : Prop :=
  ∃ i j : nat, l !! i = Some a ∧ l !! j = Some b ∧ (i < j)%nat.

Definition firstFrame : ShapesApp := snd (Frame idleInput (Initialize 0)).

(** A frame a good quarter second after the start, with nothing retired:
    after three submissions it waits, and a disturbance is due. *)
Definition lateInput : FrameInput :=
  mkFrameInput (mkGameTimer 0.27 0.3)
    (mkCameraBlock Identity4x4 Identity4x4 (mkF3 0 0 0))
    0 S_OK 1000 77 0.5 S_OK S_OK S_OK S_OK.

Definition lateFrame : ShapesApp := snd (Frame lateInput threeSubmitted).

(** The slot the fourth frame reclaims. *)
Definition oldestSlot : FrameResource :=
  default FrameResource_new (reclaimed threeSubmitted).

(** ** Failure of the wait primitive *)

(** A state in which the wait is needed: three frames submitted, nothing
    completed; the event registration fails. *)
Definition failingWait : FrameInput :=
  mkFrameInput (mkGameTimer 0.01 0.04)
    (mkCameraBlock Identity4x4 Identity4x4 (mkF3 0 0 0))
    0 E_FAIL 0 0 0 S_OK S_OK S_OK S_OK.

(** ** The height field of the application *)

(** The positional reading of the claim: damping 0.03, time step 0.2. *)
Definition claimedWaves (w : Waves) : Prop :=
  RowCount w = 128 ∧ ColumnCount w = 128 ∧
  (SpatialStep w == 1.0)%Q ∧ (Damping w == 0.03)%Q ∧
  (Speed w == 4.0)%Q ∧ (TimeStep w == 0.2)%Q.

(** What the constructor call binds: time step 0.03, damping 0.2. *)
Definition boundWaves (w : Waves) : Prop :=
  RowCount w = 128 ∧ ColumnCount w = 128 ∧
  (SpatialStep w == 1.0)%Q ∧ (TimeStep w == 0.03)%Q ∧
  (Speed w == 4.0)%Q ∧ (Damping w == 0.2)%Q.

(** The grid parameters of a simulator: everything but its history. *)
Definition waveParameters (w : Waves) : Z * Z * Q * Q * Q * Q :=
  (RowCount w, ColumnCount w, SpatialStep w, TimeStep w, Speed w, Damping w).

(** ** Dirty counters *)

(** What one flush does to a counter. *)
Definition flushedCounter (n : Z) : Z := if 0 <? n then n - 1 else n.

Definition dirtyInRange (n : Z) : Prop := 0 ≤ n ≤ gNumFrameResources.

Definition countersInRange (s : ShapesApp) : Prop :=
  Forall dirtyInRange (map NumFramesDirty (mAllRitems s)) ∧
  Forall dirtyInRange (map (fun kv => MatNumFramesDirty (snd kv)) (mMaterials s)).

(** ** The flush loops in closed form *)

Definition flushedItem (e : RenderItem) : RenderItem :=
  if 0 <? NumFramesDirty e then setNumFramesDirty (NumFramesDirty e - 1) e else e.

Definition flushedMaterial (m : Material) : Material :=
  if 0 <? MatNumFramesDirty m
  then setMatNumFramesDirty (MatNumFramesDirty m - 1) m else m.

(** ** The water material *)

(** Names and buffer indices of the materials: fixed once built. *)
Definition matKeys (ms : list (string * Material)) : list (string * Z) :=
  map (fun kv => (fst kv, MatCBIndex (snd kv))) ms.

(** ** The wave driver *)

Definition disturbOf (e : Event) : option (Z * Z * Q) :=
  match e with EvDisturb i j r => Some (i, j, r) | _ => None end.

(** The calls of [Disturb] the driver has issued, in order. *)
Definition disturbances (tr : list Event) : list (Z * Z * Q) := omap disturbOf tr.

(** The cell is chosen in rows and columns 4 to count - 5. *)
Definition targetOK (w : Waves) (d : Z * Z * Q) : Prop :=
  let '(i, j, _) := d in
  4 ≤ i ≤ RowCount w - 5 ∧ 4 ≤ j ≤ ColumnCount w - 5 ∧ interiorCell w i j = true.

Definition randOK (inp : FrameInput) : Prop := 0 ≤ rand_i inp ∧ 0 ≤ rand_j inp.

(** The accumulator counts the disturbances in quarter seconds, and no
    disturbance was issued before its quarter second had elapsed. *)
Definition paced (T : Q) (s : ShapesApp) : Prop :=
  (t_base s == 0.25 * inject_Z (Z.of_nat (length (disturbances (trace s)))))%Q ∧
  (0.25 * inject_Z (Z.of_nat (length (disturbances (trace s)))) <= T)%Q.

(** The pacing as the claim words it: between two frames that each issue
    a [Disturb] at least a quarter second of total time goes by. *)
Definition disturbedIn (s s' : ShapesApp) : Prop :=
  disturbances (eventsOfFrame s s') ≠ [].

Definition pacedPerQuarter (s : ShapesApp) : Prop :=
  ∀ inp1 inp2 s1 s2,
    Frame inp1 s = (Ok tt, s1) → Frame inp2 s1 = (Ok tt, s2) →
    disturbedIn s s1 → disturbedIn s1 s2 →
    (0.25 <= TotalTime (gt inp2) - TotalTime (gt inp1))%Q.

(** A frame that ends a stall of a second, and the frame a millisecond
    after it. *)
Definition stallInput : FrameInput :=
  mkFrameInput (mkGameTimer 0.99 1.0)
    (mkCameraBlock Identity4x4 Identity4x4 (mkF3 0 0 0))
    1 S_OK 1000 77 0.5 S_OK S_OK S_OK S_OK.

Definition catchUpInput : FrameInput :=
  mkFrameInput (mkGameTimer 0.001 1.001)
    (mkCameraBlock Identity4x4 Identity4x4 (mkF3 0 0 0))
    1 S_OK 500 33 0.25 S_OK S_OK S_OK S_OK.

Definition stalled : ShapesApp := snd (Frame stallInput firstFrame).

Definition caughtUp : ShapesApp := snd (Frame catchUpInput stalled).

(** Two frames a quarter second apart: one disturbance each. *)
Definition quarterInput (total : Q) : FrameInput :=
  mkFrameInput (mkGameTimer 0.25 total)
    (mkCameraBlock Identity4x4 Identity4x4 (mkF3 0 0 0))
    0 S_OK 1000 77 0.5 S_OK S_OK S_OK S_OK.

Definition twoQuarters : ShapesApp :=
  snd (Run [quarterInput 0.25; quarterInput 0.5] (Initialize 0)).

(** ** Propagation of object constants into the slots *)

Definition objectCBs (s : ShapesApp) : list (gmap Z ObjectConstants) :=
  map ObjectCB (mFrameResources s).

(** The two items of the scene bound to element 3 of the object buffer:
    the tree sprites, whose index is the literal 3, and the back wall,
    which receives 3 from the running counter. *)
Definition treeSpritesRitem : RenderItem := default RenderItem_default (BuildRenderItems !! 1%nat).

Definition backWallRitem : RenderItem := default RenderItem_default (BuildRenderItems !! 4%nat).

(** ** Propagation when the buffer index is the item's own *)

(** The item at position [p] is the only one bound to its element. *)
Definition exclusiveIndex (p : nat) (items : list RenderItem) : Prop :=
  ∀ q e e', items !! p = Some e → items !! q = Some e' →
            ObjCBIndex e' = ObjCBIndex e → q = p.

(** In the scene every item but the tree sprites and the back wall has an
    element of its own. *)
Definition sharesIndex (items : list RenderItem) (p : nat) : bool :=
  match items !! p with
  | Some e =>
      negb (Nat.eqb (count_occ Z.eq_dec (map ObjCBIndex items) (ObjCBIndex e)) 1)
  | None => false
  end.

Definition sharedIndices (items : list RenderItem) : list nat :=
  List.filter (sharesIndex items) (seq 0 (length items)).

(** ** Frames and the slots they use *)

(** The slot and the fence value of each of [n] consecutive submissions
    that start with the cursor at [c] and the fence counter at [cf]. *)
Definition submissions (c cf : Z) (n : nat) : list (Z * Z) :=
  map (fun k => ((c + Z.of_nat k) mod gNumFrameResources, cf + Z.of_nat k)) (seq 1 n).

(** What a slot keeps of the frame that used it last: the marker stamped
    on it, the pass constants written for it, and the vertices of the
    height field as they stood when the frame copied them: what the
    calls made on the simulator [w] up to then have produced. *)
Definition holdsFrame (inp : FrameInput) (fence : Z) (w : Waves) (fr : FrameResource)
  : Prop :=
  Fence fr = fence ∧ PassCB fr !! 0 = Some (mainPassOf inp (camera inp)) ∧
  WavesVB fr = calls w.

(** The slot the cursor designated [k] frames ago. *)
Definition slotBack (s : ShapesApp) (k : nat) : nat :=
  slotOf ((mCurrFrameResourceIndex s - Z.of_nat k) mod gNumFrameResources).

(** Three frames with distinct clocks. *)
Definition clockInput (total : Q) : FrameInput :=
  mkFrameInput (mkGameTimer 0.01 total)
    (mkCameraBlock Identity4x4 Identity4x4 (mkF3 0 0 0))
    0 S_OK 0 0 0 S_OK S_OK S_OK S_OK.

Definition threeClocks : ShapesApp :=
  snd (Run [clockInput 0.01; clockInput 0.02; clockInput 0.03] (Initialize 0)).

(** ** The countdown of the dirty counters *)

(** A counter [n] after [k] flushes: a positive counter goes down to 0 and
    stays there; a counter that is not positive is never touched. *)
Definition countdown (k : nat) (n : Z) : Z :=
  if 0 <? n then Z.max 0 (n - Z.of_nat k) else n.

(** The render item [e'] is [e], its counter apart. *)
Definition sameItem (e e' : RenderItem) : Prop :=
  World e' = World e ∧ TexTransform e' = TexTransform e ∧
  ObjCBIndex e' = ObjCBIndex e ∧ Mat e' = Mat e ∧ Geo e' = Geo e.

(** The material [m'] is [m], its counter apart. *)
Definition sameMaterial (m m' : Material) : Prop :=
  MatCBIndex m' = MatCBIndex m ∧ DiffuseSrvHeapIndex m' = DiffuseSrvHeapIndex m ∧
  DiffuseAlbedo m' = DiffuseAlbedo m ∧ FresnelR0 m' = FresnelR0 m ∧
  Roughness m' = Roughness m ∧ MatTransform m' = MatTransform m.

Definition materialCBs (s : ShapesApp) : list (gmap Z MaterialConstants) :=
  map MaterialCB (mFrameResources s).

(** The fourth frame of the application. *)
Definition fourthFrame : ShapesApp := snd (Frame idleInput threeSubmitted).

(** ** Materials over a run *)

(** What one complete frame does to an entry of [mMaterials]: the water
    entry is animated, and every entry goes through the flush. *)
Definition frameMaterial (inp : FrameInput) (kv : string * Material) : string * Material :=
  (fst kv,
   flushedMaterial
     (if String.eqb (fst kv) "water" then animateWater (DeltaTime (gt inp)) (snd kv)
      else snd kv)).

Definition runMaterial (inps : list FrameInput) (kv : string * Material) : string * Material :=
  fold_left (fun kv inp => frameMaterial inp kv) inps kv.

(** The texture-coordinate offsets [MatTransform(3, 0)], [MatTransform(3, 1)]. *)
Definition texOffsetU (m : Material) : Q := f4x (row3 (MatTransform m)).

Definition texOffsetV (m : Material) : Q := f4y (row3 (MatTransform m)).

(** The offset that the additions of a run, each rounded to the format,
    produce from [t]: one [scroll] per frame, by the rounded product of
    the rate and the frame time. *)
Definition scrolled (rate : Q) (inps : list FrameInput) (t : Q) : Q :=
  fold_left (fun t inp => scroll t (f32 (f32 rate * DeltaTime (gt inp)))) inps t.

(** A frame of [dt] seconds. *)
Definition tickInput (dt : Q) : FrameInput :=
  mkFrameInput (mkGameTimer dt dt)
    (mkCameraBlock Identity4x4 Identity4x4 (mkF3 0 0 0))
    0 S_OK 0 0 0 S_OK S_OK S_OK S_OK.

(** A frame no longer than nine seconds. *)
Definition shortFrame (inp : FrameInput) : Prop :=
  (0 <= DeltaTime (gt inp))%Q ∧ (DeltaTime (gt inp) <= 9)%Q.

(** The constants a frame leaves in the slot it acquires, with the marker
    [f]. *)
Definition slotAfterFrame (inp : FrameInput) (s : ShapesApp) (f : Z)
    (fr : FrameResource) : FrameResource :=
  setFence f (slotAfterUpdate inp (mAllRitems s) (mMaterials s) (Some (camera inp))
                              (mWaves s) (t_base s) fr).

(** The buffer element of the water material. *)
Definition waterCBIndex : Z := 4.

(** A frame of a quarter second, twice. *)
Definition halfSecond : ShapesApp :=
  snd (Run [quarterInput 0.25; quarterInput 0.5] (Initialize 0)).

(** ** Failures of Draw *)

(** The four calls of [Draw] wrapped in [ThrowIfFailed], in program order,
    with the results the environment gives them. *)
Definition drawCalls (inp : FrameInput) : list (HRESULT * string) :=
  [(hrAllocReset inp, "cmdListAlloc->Reset"); (hrListReset inp, "mCommandList->Reset");
   (hrClose inp, "mCommandList->Close"); (hrPresent inp, "mSwapChain->Present")]%string.

(** The exception of the first call that fails, if one does. *)
Definition firstFailure (calls : list (HRESULT * string)) : option DxException :=
  match List.find (fun c => FAILED (fst c)) calls with
  | Some (hr, call) => Some (mkDxException hr call)
  | None => None
  end.

(** The events that belong to the end of a frame: presentation, stamp and
    signal. *)
Definition isCompletion (e : Event) : bool :=
  match e with
  | EvPresent | EvStamp _ _ | EvSignal _ => true
  | _ => false
  end.

(** ** Capacity of the upload buffers *)

(** The element counts [BuildFrameResources] passes to the constructor of
    each slot: one pass, [mAllRitems.size()] objects and
    [mMaterials.size()] materials; it runs once the scene is built. *)
Definition passCount : Z := 1.

Definition objectCount : Z := Z.of_nat (length BuildRenderItems).

Definition materialCount : Z := Z.of_nat (length BuildMaterials).

(** Every element written lies inside a buffer of [n] elements. *)
Definition inBounds {A} (n : Z) (cb : gmap Z A) : Prop :=
  ∀ i, is_Some (cb !! i) → 0 ≤ i < n.

Definition slotInBounds (fr : FrameResource) : Prop :=
  inBounds objectCount (ObjectCB fr) ∧
  inBounds materialCount (MaterialCB fr) ∧
  inBounds passCount (PassCB fr).

(** ** The index buffer of the water grid *)

(** [SubmeshGeometry]: the three draw parameters of a submesh. *)
Record SubmeshGeometry := mkSubmesh {
  IndexCount : Z;
  StartIndexLocation : Z;
  BaseVertexLocation : Z
}.

(** [vec[k] = v] on a [std::vector]: a write outside the vector is
    undefined behaviour in the source and is [None] here. *)
Definition store {A} (k : Z) (v : A) (vec : list A) : option (list A) :=
  if (0 <=? k) && (k <? Z.of_nat (length vec))
  then Some (<[Z.to_nat k := v]> vec) else None.

(** A [for] loop over the values of [l], in order, on a state that a write
    out of bounds loses. *)
Fixpoint forEach {S} (l : list Z) (body : Z → S → option S) (st : S) : option S :=
  match l with
  | [] => Some st
  | i :: rest =>
      match body i st with
      | Some st' => forEach rest body st'
      | None => None
      end
  end.

(** The body of the inner loop of [BuildWavesGeometry]: the two triangles
    of the quad whose upper left vertex is in row [i] and column [j]; the
    state is the vector [indices] and the running [k]. *)
Definition writeQuad (n i j : Z) (st : list Z * Z) : option (list Z * Z) :=
  let '(indices, k) := st in
  indices ← store k (i * n + j) indices;
  indices ← store (k + 1) (i * n + j + 1) indices;
  indices ← store (k + 2) ((i + 1) * n + j) indices;
  indices ← store (k + 3) ((i + 1) * n + j) indices;
  indices ← store (k + 4) (i * n + j + 1) indices;
  indices ← store (k + 5) ((i + 1) * n + j + 1) indices;
  Some (indices, k + 6).

(** [BuildWavesGeometry], as far as the index data goes: [m] and [n] are
    [RowCount()] and [ColumnCount()], [triangleCount] and [vertexCount]
    are what [TriangleCount()] and [VertexCount()] return; the vector has
    [3 * triangleCount] elements, all 0 before the loops.  The function
    goes on past [assert(mWaves->VertexCount() < 0x0000ffff)] only if the
    condition holds (the macro aborts the program otherwise, in a build
    that keeps assertions).  The result is the vector and the submesh
    stored under ["water"]; [None] stands for a run that does not reach
    the end: the assertion fails or a write leaves the vector. *)
Definition BuildWavesGeometry (m n triangleCount vertexCount : Z)
  : option (list Z * SubmeshGeometry) :=
  let indices := replicate (Z.to_nat (3 * triangleCount)) 0 in
  if vertexCount <? 65535 then
    st ← forEach (seqZ 0 (m - 1))
           (fun i => forEach (seqZ 0 (n - 1)) (fun j => writeQuad n i j))
           (indices, 0);
    Some (fst st, mkSubmesh (Z.of_nat (length (fst st))) 0 0)
  else None.

(** The six indices of a quad, and those of the whole grid row by row. *)
Definition quadIndices (n i j : Z) : list Z :=
  [i * n + j; i * n + j + 1; (i + 1) * n + j;
   (i + 1) * n + j; i * n + j + 1; (i + 1) * n + j + 1].

Definition gridIndices (m n : Z) : list Z :=
  flat_map (fun i => flat_map (quadIndices n i) (seqZ 0 (n - 1))) (seqZ 0 (m - 1)).

(** The triangles of an index list: its elements three by three. *)
Fixpoint triangles (l : list Z) : list (Z * Z * Z) :=
  match l with
  | a :: b :: c :: rest => (a, b, c) :: triangles rest
  | _ => []
  end.

Definition properTriangle (t : Z * Z * Z) : Prop :=
  let '(a, b, c) := t in a ≠ b ∧ b ≠ c ∧ a ≠ c.

(** ** The packed geometry of the shapes *)

Record XMFLOAT2 := mkF2 { f2x : Q; f2y : Q }.

(** The mesh generator (GeometryGenerator.h) is not among the sources: a
    mesh is an input of [BuildShapeGeometry].  Of a generated vertex the
    record keeps the three fields the source reads; [GetIndices16], the
    16-bit view of the indices, is a parameter of the functions below. *)
Module GeometryGenerator.
Record Vertex := mkVertex { Position : XMFLOAT3; Normal : XMFLOAT3; TexC : XMFLOAT2 }.
Record MeshData := mkMeshData { Vertices : list Vertex; Indices32 : list Z }.
End GeometryGenerator.

(** [struct Vertex] of the vertex buffers: the three fields the source
    writes. *)
Record Vertex := mkVertex { Pos : XMFLOAT3; Normal : XMFLOAT3; TexC : XMFLOAT2 }.

Definition Vertex_default : Vertex := mkVertex (mkF3 0 0 0) (mkF3 0 0 0) (mkF2 0 0).

(** [MeshGeometry]: the system-memory copies of the two buffers and the
    submeshes by name.  The byte sizes and formats, which depend on the
    layout of the vertex type, are not kept. *)
Record MeshGeometry := mkMeshGeometry {
  Name : string;
  VertexBufferCPU : list Vertex;
  IndexBufferCPU : list Z;
  DrawArgs : gmap string SubmeshGeometry
}.

(** Conversion to [UINT], and unsigned 32-bit addition. *)
Definition UINT (n : Z) : Z := n mod 4294967296.

(** [v.size()] *)
Definition size {A} (v : list A) : Z := Z.of_nat (length v).

(** The twelve meshes [BuildShapeGeometry] asks the generator for, under
    the names of its local variables. *)
Record ShapeMeshes := mkShapeMeshes {
  box : GeometryGenerator.MeshData;
  grid : GeometryGenerator.MeshData;
  sphere : GeometryGenerator.MeshData;
  cylinder : GeometryGenerator.MeshData;
  cone : GeometryGenerator.MeshData;
  wedge : GeometryGenerator.MeshData;
  pyramid : GeometryGenerator.MeshData;
  diamond : GeometryGenerator.MeshData;
  sanlengzhu : GeometryGenerator.MeshData;
  trapezoid : GeometryGenerator.MeshData;
  torus : GeometryGenerator.MeshData;
  box2 : GeometryGenerator.MeshData
}.

(** The three assignments in the body of each copy loop. *)
Definition toVertex (v : GeometryGenerator.Vertex) : Vertex :=
  mkVertex (GeometryGenerator.Position v) (GeometryGenerator.Normal v)
           (GeometryGenerator.TexC v).

(** One copy loop: [for (size_t i = 0; i < mesh.Vertices.size(); ++i, ++k)],
    on the vector [vertices] and the running [UINT k]. *)
Definition copyVertices (src : list GeometryGenerator.Vertex)
    (st : list Vertex * Z) : option (list Vertex * Z) :=
  forEach (seqZ 0 (size src))
    (fun i st =>
       let '(vertices, k) := st in
       v ← src !! Z.to_nat i;
       vertices ← store k (toVertex v) vertices;
       Some (vertices, UINT (k + 1)))
    st.

(** [BuildShapeGeometry]: offsets, submeshes, the packed vertex vector, the
    concatenated 16-bit indices and the table of submeshes. *)
Definition BuildShapeGeometry
    (GetIndices16 : GeometryGenerator.MeshData → list Z) (ms : ShapeMeshes)
  : option MeshGeometry :=
  let V := GeometryGenerator.Vertices in
  let I := GeometryGenerator.Indices32 in
  let boxVertexOffset := 0 in
  let gridVertexOffset := UINT (size (V (box ms))) in
  let sphereVertexOffset := UINT (gridVertexOffset + UINT (size (V (grid ms)))) in
  let cylinderVertexOffset := UINT (sphereVertexOffset + UINT (size (V (sphere ms)))) in
  let coneVertexOffset := UINT (cylinderVertexOffset + UINT (size (V (cylinder ms)))) in
  let wedgeVertexOffset := UINT (coneVertexOffset + UINT (size (V (cone ms)))) in
  let pyramidVertexOffset := UINT (wedgeVertexOffset + UINT (size (V (wedge ms)))) in
  let diamondVertexOffset := UINT (pyramidVertexOffset + UINT (size (V (pyramid ms)))) in
  let sanlengzhuVertexOffset := UINT (diamondVertexOffset + UINT (size (V (diamond ms)))) in
  let trapezoidVertexOffset :=
    UINT (sanlengzhuVertexOffset + UINT (size (V (sanlengzhu ms)))) in
  let torusVertexOffset := UINT (trapezoidVertexOffset + UINT (size (V (trapezoid ms)))) in
  let box2VertexOffset := UINT (torusVertexOffset + UINT (size (V (torus ms)))) in
  let boxIndexOffset := 0 in
  let gridIndexOffset := UINT (size (I (box ms))) in
  let sphereIndexOffset := UINT (gridIndexOffset + UINT (size (I (grid ms)))) in
  let cylinderIndexOffset := UINT (sphereIndexOffset + UINT (size (I (sphere ms)))) in
  let coneIndexOffset := UINT (cylinderIndexOffset + UINT (size (I (cylinder ms)))) in
  let wedgeIndexOffset := UINT (coneIndexOffset + UINT (size (I (cone ms)))) in
  let pyramidIndexOffset := UINT (wedgeIndexOffset + UINT (size (I (wedge ms)))) in
  let diamondIndexOffset := UINT (pyramidIndexOffset + UINT (size (I (pyramid ms)))) in
  let sanlengzhuIndexOffset := UINT (diamondIndexOffset + UINT (size (I (diamond ms)))) in
  let trapezoidIndexOffset :=
    UINT (sanlengzhuIndexOffset + UINT (size (I (sanlengzhu ms)))) in
  let torusIndexOffset := UINT (trapezoidIndexOffset + UINT (size (I (trapezoid ms)))) in
  let box2IndexOffset := UINT (torusIndexOffset + UINT (size (I (torus ms)))) in
  let boxSubmesh := mkSubmesh (UINT (size (I (box ms)))) boxIndexOffset boxVertexOffset in
  let gridSubmesh := mkSubmesh (UINT (size (I (grid ms)))) gridIndexOffset gridVertexOffset in
  let sphereSubmesh :=
    mkSubmesh (UINT (size (I (sphere ms)))) sphereIndexOffset sphereVertexOffset in
  let cylinderSubmesh :=
    mkSubmesh (UINT (size (I (cylinder ms)))) cylinderIndexOffset cylinderVertexOffset in
  let coneSubmesh := mkSubmesh (UINT (size (I (cone ms)))) coneIndexOffset coneVertexOffset in
  let wedgeSubmesh :=
    mkSubmesh (UINT (size (I (wedge ms)))) wedgeIndexOffset wedgeVertexOffset in
  let pyramidSubmesh :=
    mkSubmesh (UINT (size (I (pyramid ms)))) pyramidIndexOffset pyramidVertexOffset in
  let diamondSubmesh :=
    mkSubmesh (UINT (size (I (diamond ms)))) diamondIndexOffset diamondVertexOffset in
  let sanlengzhuSubmesh :=
    mkSubmesh (UINT (size (I (sanlengzhu ms)))) sanlengzhuIndexOffset
              sanlengzhuVertexOffset in
  let trapezoidSubmesh :=
    mkSubmesh (UINT (size (I (trapezoid ms)))) trapezoidIndexOffset trapezoidVertexOffset in
  let torusSubmesh :=
    mkSubmesh (UINT (size (I (torus ms)))) torusIndexOffset torusVertexOffset in
  let box2Submesh := mkSubmesh (UINT (size (I (box2 ms)))) box2IndexOffset box2VertexOffset in
  let totalVertexCount :=
    size (V (box ms)) + size (V (grid ms)) + size (V (sphere ms)) +
    size (V (cylinder ms)) + size (V (cone ms)) + size (V (wedge ms)) +
    size (V (pyramid ms)) + size (V (diamond ms)) + size (V (sanlengzhu ms)) +
    size (V (trapezoid ms)) + size (V (torus ms)) + size (V (box2 ms)) in
  let vertices := replicate (Z.to_nat totalVertexCount) Vertex_default in
  st ← copyVertices (V (box ms)) (vertices, 0);
  st ← copyVertices (V (grid ms)) st;
  st ← copyVertices (V (sphere ms)) st;
  st ← copyVertices (V (cylinder ms)) st;
  st ← copyVertices (V (cone ms)) st;
  st ← copyVertices (V (wedge ms)) st;
  st ← copyVertices (V (pyramid ms)) st;
  st ← copyVertices (V (diamond ms)) st;
  st ← copyVertices (V (sanlengzhu ms)) st;
  st ← copyVertices (V (trapezoid ms)) st;
  st ← copyVertices (V (torus ms)) st;
  st ← copyVertices (V (box2 ms)) st;
  let indices :=
    GetIndices16 (box ms) ++ GetIndices16 (grid ms) ++ GetIndices16 (sphere ms) ++
    GetIndices16 (cylinder ms) ++ GetIndices16 (cone ms) ++ GetIndices16 (wedge ms) ++
    GetIndices16 (pyramid ms) ++ GetIndices16 (diamond ms) ++
    GetIndices16 (sanlengzhu ms) ++ GetIndices16 (trapezoid ms) ++
    GetIndices16 (torus ms) ++ GetIndices16 (box2 ms) in
  Some (mkMeshGeometry "shapeGeo" (fst st) indices
          (<["box2" := box2Submesh]> (<["torus" := torusSubmesh]>
           (<["trapezoid" := trapezoidSubmesh]> (<["sanlengzhu" := sanlengzhuSubmesh]>
           (<["diamond" := diamondSubmesh]> (<["pyramid" := pyramidSubmesh]>
           (<["wedge" := wedgeSubmesh]> (<["cone" := coneSubmesh]>
           (<["cylinder" := cylinderSubmesh]> (<["sphere" := sphereSubmesh]>
           (<["grid" := gridSubmesh]> (<["box" := boxSubmesh]> ∅))))))))))))).

(** The meshes with the names their submeshes are stored under, in the
    order in which they are packed. *)
Definition shapes (ms : ShapeMeshes) : list (string * GeometryGenerator.MeshData) :=
  [("box", box ms); ("grid", grid ms); ("sphere", sphere ms);
   ("cylinder", cylinder ms); ("cone", cone ms); ("wedge", wedge ms);
   ("pyramid", pyramid ms); ("diamond", diamond ms); ("sanlengzhu", sanlengzhu ms);
   ("trapezoid", trapezoid ms); ("torus", torus ms); ("box2", box2 ms)]%string.

(** The table of submeshes when no offset wraps: each mesh starts where the
    one before it ends. *)
Fixpoint packArgs (io vo : Z) (l : list (string * GeometryGenerator.MeshData))
    (args : gmap string SubmeshGeometry) : gmap string SubmeshGeometry :=
  match l with
  | [] => args
  | nm :: rest =>
      packArgs (io + size (GeometryGenerator.Indices32 (snd nm)))
               (vo + size (GeometryGenerator.Vertices (snd nm))) rest
               (<[fst nm := mkSubmesh (size (GeometryGenerator.Indices32 (snd nm))) io vo]>
                  args)
  end.

(** The part of a buffer a submesh designates. *)
Definition segment {A} (start len : Z) (l : list A) : list A :=
  take (Z.to_nat len) (drop (Z.to_nat start) l).

(** Neither buffer reaches the size at which a [UINT] or an [INT] wraps. *)
Definition fitsUINT (ms : ShapeMeshes) : Prop :=
  Z.of_nat (sum_list (map (fun nm => length (GeometryGenerator.Vertices (snd nm)))
                          (shapes ms))) < 2147483648 ∧
  Z.of_nat (sum_list (map (fun nm => length (GeometryGenerator.Indices32 (snd nm)))
                          (shapes ms))) < 2147483648.

(** A mesh of [nv] vertices and [ni] indices, to run the packing on. *)
Definition sampleMesh (nv ni : nat) : GeometryGenerator.MeshData :=
  GeometryGenerator.mkMeshData
    (replicate nv (GeometryGenerator.mkVertex (mkF3 0 0 0) (mkF3 0 0 0) (mkF2 0 0)))
    (replicate ni 0).

Definition sampleMeshes : ShapeMeshes :=
  mkShapeMeshes (sampleMesh 4 6) (sampleMesh 3 3) (sampleMesh 2 3) (sampleMesh 1 0)
                (sampleMesh 0 0) (sampleMesh 5 9) (sampleMesh 1 3) (sampleMesh 2 6)
                (sampleMesh 3 3) (sampleMesh 4 6) (sampleMesh 1 3) (sampleMesh 4 6).

Definition sampleIndices16 (m : GeometryGenerator.MeshData) : list Z :=
  map (fun i => i mod 65536) (GeometryGenerator.Indices32 m).

(** ** The tree sprites *)

(** [struct TreeSpriteVertex], local to [BuildTreeSpritesGeometry]. *)
Record TreeSpriteVertex := mkTreeSpriteVertex { tsPos : XMFLOAT3; tsSize : XMFLOAT2 }.

(** [static const int treeCount = 17;] *)
Definition treeCount : Z := 17.

(** [vertices[TreeIndex].Pos = ...; vertices[TreeIndex].Size = ...;
    TreeIndex++;] *)
Definition putTree (pos : XMFLOAT3) (st : list TreeSpriteVertex * Z)
  : option (list TreeSpriteVertex * Z) :=
  let '(vertices, TreeIndex) := st in
  vertices ← store TreeIndex (mkTreeSpriteVertex pos (mkF2 20.0 20.0)) vertices;
  Some (vertices, TreeIndex + 1).

(** [BuildTreeSpritesGeometry]: the two rows of trees on the flanks, the
    row at the back and the two trees at the gate.  [vertices] is the
    array as it is before the loops, a [std::array] of [treeCount]
    elements that nothing has initialised.  The result is the array, the
    index list and the submesh stored under ["points"]. *)
Definition BuildTreeSpritesGeometry (vertices : list TreeSpriteVertex)
  : option (list TreeSpriteVertex * list Z * SubmeshGeometry) :=
  st ← forEach (seqZ 0 5)
         (fun i => forEach [0; 2]
            (fun u =>
               let x := (35.0 * inject_Z (u - 1))%Q in
               let z := (15.0 * inject_Z i - 30.0)%Q in
               let y := (3.0 + 5.0)%Q in
               putTree (mkF3 x y z)))
         (vertices, 0);
  st ← forEach (seqZ (-2) 5)
         (fun i =>
            let x := (12.0 * inject_Z i)%Q in
            let z := 40.0%Q in
            let y := (3.0 + 8.0)%Q in
            putTree (mkF3 x y z))
         st;
  st ← putTree (mkF3 (-17.5) 8.0 (-35.5)) st;
  st ← putTree (mkF3 17.5 8.0 (-35.5)) st;
  let indices := [0; 1; 2; 3; 4; 5; 6; 7; 8; 9; 10; 11; 12; 13; 14; 15; 16] in
  Some (fst st, indices, mkSubmesh (size indices) 0 0).

(** Two vertices are the same sprite: positions and sizes agree as
    numbers. *)
Definition sameSprite (a b : TreeSpriteVertex) : Prop :=
  (f3x (tsPos a) == f3x (tsPos b))%Q ∧ (f3y (tsPos a) == f3y (tsPos b))%Q ∧
  (f3z (tsPos a) == f3z (tsPos b))%Q ∧
  (f2x (tsSize a) == f2x (tsSize b))%Q ∧ (f2y (tsSize a) == f2y (tsSize b))%Q.

Definition treeAt (x y z : Q) : TreeSpriteVertex :=
  mkTreeSpriteVertex (mkF3 x y z) (mkF2 20 20).

(** The seventeen trees: five pairs on the flanks, five at the back, two
    at the gate. *)
Definition treeSprites : list TreeSpriteVertex :=
  [treeAt (-35) 8 (-30); treeAt 35 8 (-30); treeAt (-35) 8 (-15); treeAt 35 8 (-15);
   treeAt (-35) 8 0; treeAt 35 8 0; treeAt (-35) 8 15; treeAt 35 8 15;
   treeAt (-35) 8 30; treeAt 35 8 30;
   treeAt (-24) 11 40; treeAt (-12) 11 40; treeAt 0 11 40; treeAt 12 11 40;
   treeAt 24 11 40;
   treeAt (-17.5) 8 (-35.5); treeAt 17.5 8 (-35.5)].

Definition garbage (n : nat) : list TreeSpriteVertex :=
  replicate n (mkTreeSpriteVertex (mkF3 1 2 3) (mkF2 4 5)).

(** ** The collision check of the camera *)

(** [DirectX::BoundingBox]: an axis-aligned box by centre and half-widths;
    a default-constructed box has centre (0, 0, 0) and extents (1, 1, 1). *)
Record BoundingBox := mkBoundingBox { Center : XMFLOAT3; Extents : XMFLOAT3 }.

Definition BoundingBox_default : BoundingBox :=
  mkBoundingBox (mkF3 0 0 0) (mkF3 1 1 1).

Inductive ContainmentType := DISJOINT | INTERSECTS | CONTAINS.

Definition Qlt_bool (a b : Q) : bool := negb (Qle_bool b a).

(** [BoundingBox::Contains(const BoundingBox&)] of DirectXCollision: the
    boxes are disjoint when they are apart on some axis; otherwise the
    argument is contained when it lies inside on every axis. *)
Definition BoundingBox_Contains (a b : BoundingBox) : ContainmentType :=
  let lo (c e : Q) := (c - e)%Q in
  let hi (c e : Q) := (c + e)%Q in
  let apart (ca ea cb eb : Q) :=
    Qlt_bool (hi cb eb) (lo ca ea) || Qlt_bool (hi ca ea) (lo cb eb) in
  let inside (ca ea cb eb : Q) :=
    Qle_bool (lo ca ea) (lo cb eb) && Qle_bool (hi cb eb) (hi ca ea) in
  if apart (f3x (Center a)) (f3x (Extents a)) (f3x (Center b)) (f3x (Extents b))
     || apart (f3y (Center a)) (f3y (Extents a)) (f3y (Center b)) (f3y (Extents b))
     || apart (f3z (Center a)) (f3z (Extents a)) (f3z (Center b)) (f3z (Extents b))
  then DISJOINT
  else if inside (f3x (Center a)) (f3x (Extents a)) (f3x (Center b)) (f3x (Extents b))
          && inside (f3y (Center a)) (f3y (Extents a)) (f3y (Center b)) (f3y (Extents b))
          && inside (f3z (Center a)) (f3z (Extents a)) (f3z (Center b)) (f3z (Extents b))
  then CONTAINS
  else INTERSECTS.

(** [RenderItem::bounds].  The member is default-constructed with the
    item, and no statement of the source assigns it (the two assignments
    in [BuildRenderItems] are commented out): every item has the default
    box. *)
Definition bounds (e : RenderItem) : BoundingBox := BoundingBox_default.

(** [CameraCollisionCheck(np1, np2)]: the position the camera is given,
    [np1] being the position the keys ask for and [np2] the one before. *)
Fixpoint firstHit (newBounds : BoundingBox) (items : list RenderItem) : bool :=
  match items with
  | [] => false
  | e :: rest =>
      match BoundingBox_Contains (bounds e) newBounds with
      | DISJOINT => firstHit newBounds rest
      | _ => true
      end
  end.

Definition CameraCollisionCheck (np1 np2 : XMFLOAT3) (items : list RenderItem) : XMFLOAT3 :=
  let newBounds := mkBoundingBox np1 (mkF3 2.5 2.5 2.5) in
  if firstHit newBounds items then np2 else np1.

(** Within 3.5 of the origin on each axis. *)
Definition nearOrigin (p : XMFLOAT3) : Prop :=
  (-3.5 <= f3x p)%Q ∧ (f3x p <= 3.5)%Q ∧
  (-3.5 <= f3y p)%Q ∧ (f3y p <= 3.5)%Q ∧
  (-3.5 <= f3z p)%Q ∧ (f3z p <= 3.5)%Q.

(** ** The scene as Draw reads it *)

(** [enum class RenderLayer], its sentinel [Count] apart, and the value
    of a layer as an [int]. *)
Inductive RenderLayer := Opaque | Transparent | AlphaTested | AlphaTestedTreeSprites.

Definition RenderLayer_int (layer : RenderLayer) : nat :=
  match layer with
  | Opaque => 0
  | Transparent => 1
  | AlphaTested => 2
  | AlphaTestedTreeSprites => 3
  end.

Definition RenderLayer_Count : nat := 4.

(** The two values of [D3D_PRIMITIVE_TOPOLOGY] the source names. *)
Inductive D3D_PRIMITIVE_TOPOLOGY :=
| D3D_PRIMITIVE_TOPOLOGY_POINTLIST
| D3D_PRIMITIVE_TOPOLOGY_TRIANGLELIST.

(** The members of [RenderItem] that [BuildRenderItems] sets and only
    [DrawRenderItems] reads; the record [RenderItem] above holds the
    members the frame's update works on. *)
Module Ritem.
Record DrawCall := mkDrawCall {
  PrimitiveType : D3D_PRIMITIVE_TOPOLOGY;
  IndexCount : Z;
  StartIndexLocation : Z;
  BaseVertexLocation : Z
}.
End Ritem.

(** [mGeometries[geo]->DrawArgs[arg]], on what [BuildRenderItems] reads of
    [mGeometries]: the submeshes of each geometry.  A geometry that is not in the map
    is a null pointer, and reading through it is [None] here; a submesh
    that is not in [DrawArgs] is default-constructed by [operator[]], all
    three members 0. *)
Definition DrawArgs_at (geos : gmap string (gmap string SubmeshGeometry))
    (geo arg : string) : option SubmeshGeometry :=
  args ← geos !! geo;
  Some (default (mkSubmesh 0 0 0) (args !! arg)).

(** The scene [BuildRenderItems] leaves behind: [mAllRitems] with the
    running [Index], the draw members of the items (same positions), and
    the array [mRitemLayer] of [RenderLayer::Count] vectors, whose
    pointers are the positions of the items in [mAllRitems]. *)
Record Scene := mkScene {
  ritems : BuilderState;
  ritemDraws : list Ritem.DrawCall;
  mRitemLayer : list (list nat)
}.

Definition Scene_empty : Scene := mkScene ([], 0) [] (replicate RenderLayer_Count []).

(** [mRitemLayer[(int)layer]] *)
Definition layerItems (sc : Scene) (layer : RenderLayer) : list nat :=
  default [] (mRitemLayer sc !! RenderLayer_int layer).

(** [mRitemLayer[(int)layer].push_back(item)] *)
Definition pushLayer (layer : RenderLayer) (i : nat) (layers : list (list nat))
  : list (list nat) :=
  alter (fun l => l ++ [i]) (RenderLayer_int layer) layers.

(** One render item of [BuildRenderItems]: its layer, its topology, the
    name of its submesh, and the function of the builder above that
    creates it with its transforms, index, material and geometry. *)
Definition SceneStep : Type :=
  RenderLayer * D3D_PRIMITIVE_TOPOLOGY * string * (BuilderState → BuilderState).

(** The item is created, its three draw parameters are read from the
    submesh [arg] of its own geometry, its address goes to its layer and
    the item to the end of [mAllRitems]. *)
Definition pushItem (geos : gmap string (gmap string SubmeshGeometry))
    (st : SceneStep) (sc : Scene) : option Scene :=
  let '(layer, topology, arg, add) := st in
  let b := add (ritems sc) in
  ri ← last (fst b);
  sub ← DrawArgs_at geos (Geo ri) arg;
  Some (mkScene b
          (ritemDraws sc ++ [Ritem.mkDrawCall topology (IndexCount sub)
                               (StartIndexLocation sub) (BaseVertexLocation sub)])
          (pushLayer layer (length (fst (ritems sc))) (mRitemLayer sc))).

Fixpoint pushItems (geos : gmap string (gmap string SubmeshGeometry))
    (steps : list SceneStep) (sc : Scene) : option Scene :=
  match steps with
  | [] => Some sc
  | st :: rest => sc ← pushItem geos st sc; pushItems geos rest sc
  end.

(** The items before the loop, in program order. *)
Definition fixedSteps : list SceneStep := [
    (Transparent, D3D_PRIMITIVE_TOPOLOGY_TRIANGLELIST, "water", addItemTex (XMMatrixMultiply (XMMatrixScaling 3.0 1.0 3.0) (XMMatrixTranslation 0.0 (-3.0) 0.0)) (XMMatrixScaling 5.0 5.0 5.0) "water" "waterGeo");
    (AlphaTestedTreeSprites, D3D_PRIMITIVE_TOPOLOGY_POINTLIST, "points", addItemAt 3 Identity4x4 "treeSprites" "treeSpritesGeo");
    (Opaque, D3D_PRIMITIVE_TOPOLOGY_TRIANGLELIST, "box", addItem (XMMatrixMultiply (XMMatrixScaling 35.0 30.0 1.5) (XMMatrixTranslation 0.0 7.5 25.0)) "brick" "shapeGeo");
    (Opaque, D3D_PRIMITIVE_TOPOLOGY_TRIANGLELIST, "box", addItem (XMMatrixMultiply (XMMatrixScaling 1.5 30.0 35.0) (XMMatrixTranslation (-25.0) 7.5 0.0)) "brick" "shapeGeo");
    (Opaque, D3D_PRIMITIVE_TOPOLOGY_TRIANGLELIST, "box", addItem (XMMatrixMultiply (XMMatrixScaling 1.5 30.0 35.0) (XMMatrixTranslation 25.0 7.5 0.0)) "brick" "shapeGeo");
    (Opaque, D3D_PRIMITIVE_TOPOLOGY_TRIANGLELIST, "box", addItem (XMMatrixMultiply (XMMatrixScaling 10.0 30.0 1.5) (XMMatrixTranslation (-15.0) 8.0 (-25))) "brick" "shapeGeo");
    (Opaque, D3D_PRIMITIVE_TOPOLOGY_TRIANGLELIST, "box", addItem (XMMatrixMultiply (XMMatrixScaling 10.0 30.0 1.5) (XMMatrixTranslation 15 8.0 (-25))) "brick" "shapeGeo");
    (Opaque, D3D_PRIMITIVE_TOPOLOGY_TRIANGLELIST, "box", addItem (XMMatrixMultiply (XMMatrixScaling 10.0 10.0 1.5) (XMMatrixTranslation 0.0 13 (-25))) "brick" "shapeGeo");
    (Opaque, D3D_PRIMITIVE_TOPOLOGY_TRIANGLELIST, "grid", addItem Identity4x4 "grass" "shapeGeo");
    (Opaque, D3D_PRIMITIVE_TOPOLOGY_TRIANGLELIST, "box2", addItem (XMMatrixMultiply (XMMatrixScaling 5.0 5.0 1.5) (XMMatrixTranslation (-15.0) 16.0 24.0)) "stone" "shapeGeo");
    (Opaque, D3D_PRIMITIVE_TOPOLOGY_TRIANGLELIST, "box2", addItem (XMMatrixMultiply (XMMatrixScaling 5.0 5.0 1.5) (XMMatrixTranslation (-15.0) 16.0 (-24.0))) "stone" "shapeGeo");
    (Opaque, D3D_PRIMITIVE_TOPOLOGY_TRIANGLELIST, "box2", addItem (XMMatrixMultiply (XMMatrixScaling 5.0 5.0 1.5) (XMMatrixTranslation 0.0 16.0 24.0)) "stone" "shapeGeo");
    (Opaque, D3D_PRIMITIVE_TOPOLOGY_TRIANGLELIST, "box2", addItem (XMMatrixMultiply (XMMatrixScaling 5.0 5.0 1.5) (XMMatrixTranslation 0.0 16.0 (-24.0))) "stone" "shapeGeo");
    (Opaque, D3D_PRIMITIVE_TOPOLOGY_TRIANGLELIST, "box2", addItem (XMMatrixMultiply (XMMatrixScaling 5.0 5.0 1.5) (XMMatrixTranslation 15.0 16.0 24.0)) "stone" "shapeGeo");
    (Opaque, D3D_PRIMITIVE_TOPOLOGY_TRIANGLELIST, "box2", addItem (XMMatrixMultiply (XMMatrixScaling 5.0 5.0 1.5) (XMMatrixTranslation 15.0 16.0 (-24.0))) "stone" "shapeGeo");
    (Opaque, D3D_PRIMITIVE_TOPOLOGY_TRIANGLELIST, "box2", addItem (XMMatrixMultiply (XMMatrixScaling 1.5 5.0 5.0) (XMMatrixTranslation 25.0 17.0 (-15.0))) "stone" "shapeGeo");
    (Opaque, D3D_PRIMITIVE_TOPOLOGY_TRIANGLELIST, "box2", addItem (XMMatrixMultiply (XMMatrixScaling 1.5 5.0 5.0) (XMMatrixTranslation 25.0 16.0 (-1.0))) "stone" "shapeGeo");
    (Opaque, D3D_PRIMITIVE_TOPOLOGY_TRIANGLELIST, "box2", addItem (XMMatrixMultiply (XMMatrixScaling 1.5 5.0 5.0) (XMMatrixTranslation 25.0 16.0 14.5)) "stone" "shapeGeo");
    (Opaque, D3D_PRIMITIVE_TOPOLOGY_TRIANGLELIST, "box2", addItem (XMMatrixMultiply (XMMatrixScaling 1.5 5.0 5.0) (XMMatrixTranslation (-25.0) 16.0 (-15.0))) "stone" "shapeGeo");
    (Opaque, D3D_PRIMITIVE_TOPOLOGY_TRIANGLELIST, "box2", addItem (XMMatrixMultiply (XMMatrixScaling 1.5 5.0 5.0) (XMMatrixTranslation (-25.0) 16.0 (-1.0))) "stone" "shapeGeo");
    (Opaque, D3D_PRIMITIVE_TOPOLOGY_TRIANGLELIST, "box2", addItem (XMMatrixMultiply (XMMatrixScaling 1.5 5.0 5.0) (XMMatrixTranslation (-25.0) 16.0 14.5)) "stone" "shapeGeo");
    (Opaque, D3D_PRIMITIVE_TOPOLOGY_TRIANGLELIST, "wedge", addItem (XMMatrixMultiply (XMMatrixScaling 1.25 2.0 2.0) (XMMatrixTranslation 0.0 1.5 (-30.0))) "brick" "shapeGeo");
    (Opaque, D3D_PRIMITIVE_TOPOLOGY_TRIANGLELIST, "pyramid", addItem (XMMatrixMultiply (XMMatrixScaling 12.5 12.5 12.5) (XMMatrixTranslation 0.0 10.0 0.0)) "stone" "shapeGeo");
    (Opaque, D3D_PRIMITIVE_TOPOLOGY_TRIANGLELIST, "diamond", addItem (XMMatrixMultiply (XMMatrixScaling 1.0 1.0 1.0) (XMMatrixTranslation 0.0 21.5 0.0)) "ice" "shapeGeo");
    (Opaque, D3D_PRIMITIVE_TOPOLOGY_TRIANGLELIST, "sanlengzhu", addItem (XMMatrixMultiply (XMMatrixScaling 2.0 2.0 2.0) (XMMatrixTranslation 0.0 3.5 15.0)) "board" "shapeGeo");
    (Opaque, D3D_PRIMITIVE_TOPOLOGY_TRIANGLELIST, "trapezoid", addItem (XMMatrixMultiply (XMMatrixScaling 2.0 2.0 2.0) (XMMatrixTranslation 0.0 7.5 15.0)) "stone" "shapeGeo");
    (Opaque, D3D_PRIMITIVE_TOPOLOGY_TRIANGLELIST, "diamond", addItem (XMMatrixMultiply (XMMatrixScaling 1.0 1.0 1.0) (XMMatrixTranslation 0.0 12.5 15.0)) "ice" "shapeGeo");
    (Opaque, D3D_PRIMITIVE_TOPOLOGY_TRIANGLELIST, "torus", addItem (XMMatrixMultiply (XMMatrixScaling 1.0 1.0 1.0) (XMMatrixTranslation 0.0 22.5 0.0)) "ice" "shapeGeo") ]%string.

(** One iteration of the loop over the pillars, cones and spheres.  The
    six addresses go to the layer before the six items go to
    [mAllRitems], both in this order; the loop counts with its own
    [objCBIndex], which starts at [Index]. *)
Definition pillarSteps (i : Z) : list SceneStep :=
  let tx := (-25.0 + inject_Z i * 50)%Q in [
    (Opaque, D3D_PRIMITIVE_TOPOLOGY_TRIANGLELIST, "cylinder", addItem (XMMatrixTranslation tx 9.5 24.0) "roof" "shapeGeo");
    (Opaque, D3D_PRIMITIVE_TOPOLOGY_TRIANGLELIST, "cylinder", addItem (XMMatrixTranslation tx 9.5 (-24.0)) "roof" "shapeGeo");
    (Opaque, D3D_PRIMITIVE_TOPOLOGY_TRIANGLELIST, "cone", addItem (XMMatrixTranslation tx 21.5 24.0) "stone" "shapeGeo");
    (Opaque, D3D_PRIMITIVE_TOPOLOGY_TRIANGLELIST, "cone", addItem (XMMatrixTranslation tx 21.5 (-24.0)) "stone" "shapeGeo");
    (Opaque, D3D_PRIMITIVE_TOPOLOGY_TRIANGLELIST, "sphere", addItem (XMMatrixTranslation tx 24.5 24.0) "ice" "shapeGeo");
    (Opaque, D3D_PRIMITIVE_TOPOLOGY_TRIANGLELIST, "sphere", addItem (XMMatrixTranslation tx 24.5 (-24.0)) "ice" "shapeGeo") ]%string.

(** [BuildRenderItems], with the draw members and the layers. *)
Definition BuildRenderLayers (geos : gmap string (gmap string SubmeshGeometry)) : option Scene :=
  pushItems geos (fixedSteps ++ pillarSteps 0 ++ pillarSteps 1) Scene_empty.

(** ** The command list of a frame *)

Inductive D3D12_RESOURCE_STATES :=
| D3D12_RESOURCE_STATE_PRESENT
| D3D12_RESOURCE_STATE_RENDER_TARGET.

(** The buffers a command refers to: the three upload buffers of constants
    and the wave vertices of a frame resource, and the default buffer a
    geometry builder created. *)
Inductive BufferRef :=
| ObjectCBOf (slot : Z)
| MaterialCBOf (slot : Z)
| PassCBOf (slot : Z)
| WavesVBOf (slot : Z)
| DefaultBuffer (geo : string).

(** [buffer->GetGPUVirtualAddress() + offset] *)
Record GPUAddress := mkGPUAddress { addrBuffer : BufferRef; addrOffset : Z }.

(** The commands [Draw] and [DrawRenderItems] record, with the arguments
    that tell one call from another; [ResetCommandList] stands for the
    state [mCommandList->Reset] leaves the list in. *)
Inductive Command :=
| ResetCommandList (pso : string)
| RSSetViewports
| RSSetScissorRects
| ResourceBarrier (backBuffer : Z) (StateBefore StateAfter : D3D12_RESOURCE_STATES)
| ClearRenderTargetView (backBuffer : Z)
| ClearDepthStencilView
| OMSetRenderTargets (backBuffer : Z)
| SetDescriptorHeaps
| SetGraphicsRootSignature
| SetGraphicsRootConstantBufferView (RootParameterIndex : Z) (BufferLocation : GPUAddress)
| SetGraphicsRootDescriptorTable (RootParameterIndex : Z) (descriptor : Z)
| SetPipelineState (pso : string)
| IASetVertexBuffers (buffer : BufferRef)
| IASetIndexBuffer (geo : string)
| IASetPrimitiveTopology (topology : D3D_PRIMITIVE_TOPOLOGY)
| DrawIndexedInstanced (IndexCountPerInstance InstanceCount StartIndexLocation
                          BaseVertexLocation StartInstanceLocation : Z).

Definition wavesCopyOf (e : Event) : option Z :=
  match e with EvWavesCopy slot => Some slot | _ => None end.

(** [Geo->VertexBufferGPU].  The geometries of the shapes and of the trees
    keep the default buffer their builder created.  [BuildWavesGeometry]
    leaves the one of the water null, and the last statement of
    [UpdateWaves] points it at the wave vertices it has just copied, those
    of the slot of the last [EvWavesCopy]. *)
Definition VertexBufferGPU (s : ShapesApp) (geo : string) : option BufferRef :=
  if String.eqb geo "waterGeo"
  then WavesVBOf <$> last (omap wavesCopyOf (trace s))
  else Some (DefaultBuffer geo).

(** [ri->Mat]: the material the item was given by name. *)
Definition findMaterial (name : string) (ms : list (string * Material)) : option Material :=
  snd <$> List.find (fun kv => String.eqb (fst kv) name) ms.

(** The body of the loop of [DrawRenderItems] for the item at position
    [i] of [mAllRitems].  [objCBByteSize] and [matCBByteSize] are the two
    element sizes, which [CalcConstantBufferByteSize] computes from types
    of headers that are not among the sources; the products are formed in
    [UINT].  Reading through a null pointer is [None]. *)
Definition DrawRenderItem (objCBByteSize matCBByteSize : Z) (sc : Scene)
    (s : ShapesApp) (i : nat) : option (list Command) :=
  ri ← mAllRitems s !! i;
  d ← ritemDraws sc !! i;
  mat ← findMaterial (Mat ri) (mMaterials s);
  vb ← VertexBufferGPU s (Geo ri);
  let slot := mCurrFrameResourceIndex s in
  let objCBAddress := mkGPUAddress (ObjectCBOf slot) (UINT (ObjCBIndex ri * objCBByteSize)) in
  let matCBAddress := mkGPUAddress (MaterialCBOf slot) (UINT (MatCBIndex mat * matCBByteSize)) in
  Some [IASetVertexBuffers vb;
        IASetIndexBuffer (Geo ri);
        IASetPrimitiveTopology (Ritem.PrimitiveType d);
        SetGraphicsRootDescriptorTable 0 (DiffuseSrvHeapIndex mat);
        SetGraphicsRootConstantBufferView 1 objCBAddress;
        SetGraphicsRootConstantBufferView 3 matCBAddress;
        DrawIndexedInstanced (Ritem.IndexCount d) 1 (Ritem.StartIndexLocation d)
                             (Ritem.BaseVertexLocation d) 0].

Fixpoint DrawRenderItems (objCBByteSize matCBByteSize : Z) (sc : Scene)
    (s : ShapesApp) (ritems : list nat) : option (list Command) :=
  match ritems with
  | [] => Some []
  | i :: rest =>
      c ← DrawRenderItem objCBByteSize matCBByteSize sc s i;
      cs ← DrawRenderItems objCBByteSize matCBByteSize sc s rest;
      Some (c ++ cs)
  end.

(** What [Draw] records between the reset of the list and [Close], in the
    state [Update] has left. *)
Definition DrawCommands (objCBByteSize matCBByteSize : Z) (sc : Scene) (s : ShapesApp)
  : option (list Command) :=
  let layer l := DrawRenderItems objCBByteSize matCBByteSize sc s (layerItems sc l) in
  let backBuffer := mCurrBackBuffer s in
  opaque ← layer Opaque;
  alphaTested ← layer AlphaTested;
  treeSprites ← layer AlphaTestedTreeSprites;
  transparent ← layer Transparent;
  Some ([ResetCommandList "opaque";
         RSSetViewports;
         RSSetScissorRects;
         ResourceBarrier backBuffer D3D12_RESOURCE_STATE_PRESENT
                         D3D12_RESOURCE_STATE_RENDER_TARGET;
         ClearRenderTargetView backBuffer;
         ClearDepthStencilView;
         OMSetRenderTargets backBuffer;
         SetDescriptorHeaps;
         SetGraphicsRootSignature;
         SetGraphicsRootConstantBufferView 2
           (mkGPUAddress (PassCBOf (mCurrFrameResourceIndex s)) 0)]
        ++ opaque
        ++ [SetPipelineState "alphaTested"] ++ alphaTested
        ++ [SetPipelineState "treeSprites"] ++ treeSprites
        ++ [ResourceBarrier backBuffer D3D12_RESOURCE_STATE_RENDER_TARGET
                            D3D12_RESOURCE_STATE_PRESENT;
            SetPipelineState "transparent"] ++ transparent
        ++ [ResourceBarrier backBuffer D3D12_RESOURCE_STATE_RENDER_TARGET
                            D3D12_RESOURCE_STATE_PRESENT]).

(** ** The state a draw call is issued in *)

Inductive RootArgument :=
| DescriptorTable (descriptor : Z)
| ConstantBufferView (BufferLocation : GPUAddress).

(** What the list has last set of each kind: pipeline state, barrier on
    the back buffer, vertex and index buffer, topology, and the argument
    of each root parameter. *)
Record Bound := mkBound {
  boundPSO : option string;
  lastBarrier : option (Z * D3D12_RESOURCE_STATES * D3D12_RESOURCE_STATES);
  boundVertexBuffer : option BufferRef;
  boundIndexBuffer : option string;
  boundTopology : option D3D_PRIMITIVE_TOPOLOGY;
  boundRoots : gmap Z RootArgument
}.

Definition Bound_none : Bound := mkBound None None None None None ∅.

Definition applyCommand (c : Command) (b : Bound) : Bound :=
  match c with
  | ResetCommandList pso =>
      mkBound (Some pso) None None None None ∅
  | SetPipelineState pso =>
      mkBound (Some pso) (lastBarrier b) (boundVertexBuffer b) (boundIndexBuffer b)
              (boundTopology b) (boundRoots b)
  | ResourceBarrier bb before after =>
      mkBound (boundPSO b) (Some (bb, before, after)) (boundVertexBuffer b)
              (boundIndexBuffer b) (boundTopology b) (boundRoots b)
  | IASetVertexBuffers vb =>
      mkBound (boundPSO b) (lastBarrier b) (Some vb) (boundIndexBuffer b)
              (boundTopology b) (boundRoots b)
  | IASetIndexBuffer geo =>
      mkBound (boundPSO b) (lastBarrier b) (boundVertexBuffer b) (Some geo)
              (boundTopology b) (boundRoots b)
  | IASetPrimitiveTopology t =>
      mkBound (boundPSO b) (lastBarrier b) (boundVertexBuffer b) (boundIndexBuffer b)
              (Some t) (boundRoots b)
  | SetGraphicsRootDescriptorTable i d =>
      mkBound (boundPSO b) (lastBarrier b) (boundVertexBuffer b) (boundIndexBuffer b)
              (boundTopology b) (<[i := DescriptorTable d]> (boundRoots b))
  | SetGraphicsRootConstantBufferView i a =>
      mkBound (boundPSO b) (lastBarrier b) (boundVertexBuffer b) (boundIndexBuffer b)
              (boundTopology b) (<[i := ConstantBufferView a]> (boundRoots b))
  | _ => b
  end.

(** The draw calls of a list, each with the state it is issued in and its
    five arguments. *)
Fixpoint boundDraws (b : Bound) (cmds : list Command)
  : list (Bound * (Z * Z * Z * Z * Z)) :=
  match cmds with
  | [] => []
  | DrawIndexedInstanced n instances start base startInstance :: rest =>
      (b, (n, instances, start, base, startInstance)) :: boundDraws b rest
  | c :: rest => boundDraws (applyCommand c b) rest
  end.

(** The state of the list once the commands [cmds] have been recorded
    after the state [b]. *)
Definition boundAfter (b : Bound) (cmds : list Command) : Bound :=
  fold_left (fun b c => applyCommand c b) cmds b.

(** The pipeline state [Draw] sets before it draws a layer. *)
Definition psoOf (layer : RenderLayer) : string :=
  match layer with
  | Opaque => "opaque"
  | AlphaTested => "alphaTested"
  | AlphaTestedTreeSprites => "treeSprites"
  | Transparent => "transparent"
  end.

(** The positions of [mAllRitems] in the order [Draw] goes through the
    layers. *)
Definition drawOrder (sc : Scene) : list nat :=
  layerItems sc Opaque ++ layerItems sc AlphaTested
  ++ layerItems sc AlphaTestedTreeSprites ++ layerItems sc Transparent.

(** What [DrawRenderItems] reads of a render item and of a material. *)
Definition itemKey (e : RenderItem) : Z * string * string :=
  (ObjCBIndex e, Mat e, Geo e).

Definition drawKey (kv : string * Material) : string * (Z * Z) :=
  (fst kv, (MatCBIndex (snd kv), DiffuseSrvHeapIndex (snd kv))).

(** The vertex buffer of a geometry in a frame whose [Update] has run:
    the wave vertices of the current slot for the water, the geometry's
    own buffer otherwise. *)
Definition vertexBufferOf (s : ShapesApp) (geo : string) : BufferRef :=
  if String.eqb geo "waterGeo" then WavesVBOf (mCurrFrameResourceIndex s)
  else DefaultBuffer geo.

(** The draw call [bd] is the draw of the item at position [i]: issued
    under the pipeline state of the item's layer, on the item's vertex and
    index buffer with its topology and its three draw parameters, one
    instance, with the four root arguments set to the descriptor of the
    texture of the item's material, to element [ObjCBIndex] of the object
    buffer, to the pass constants and to element [MatCBIndex] of the
    material buffer, the three buffers being those of the current slot.
    What the elements hold is not part of this. *)
Definition drawsItem (objCBByteSize matCBByteSize : Z) (sc : Scene) (s : ShapesApp)
    (i : nat) (bd : Bound * (Z * Z * Z * Z * Z)) : Prop :=
  ∃ ri d mat layer,
    mAllRitems s !! i = Some ri ∧ ritemDraws sc !! i = Some d ∧
    findMaterial (Mat ri) (mMaterials s) = Some mat ∧
    i ∈ layerItems sc layer ∧
    boundPSO (fst bd) = Some (psoOf layer) ∧
    boundVertexBuffer (fst bd) = Some (vertexBufferOf s (Geo ri)) ∧
    boundIndexBuffer (fst bd) = Some (Geo ri) ∧
    boundTopology (fst bd) = Some (Ritem.PrimitiveType d) ∧
    boundRoots (fst bd) !! 0 = Some (DescriptorTable (DiffuseSrvHeapIndex mat)) ∧
    boundRoots (fst bd) !! 1 =
      Some (ConstantBufferView
              (mkGPUAddress (ObjectCBOf (mCurrFrameResourceIndex s))
                            (UINT (ObjCBIndex ri * objCBByteSize)))) ∧
    boundRoots (fst bd) !! 2 =
      Some (ConstantBufferView (mkGPUAddress (PassCBOf (mCurrFrameResourceIndex s)) 0)) ∧
    boundRoots (fst bd) !! 3 =
      Some (ConstantBufferView
              (mkGPUAddress (MaterialCBOf (mCurrFrameResourceIndex s))
                            (UINT (MatCBIndex mat * matCBByteSize)))) ∧
    snd bd = (Ritem.IndexCount d, 1, Ritem.StartIndexLocation d,
              Ritem.BaseVertexLocation d, 0).

(** The builder without the geometries: the items and the layers. *)
Definition pushItemPure (st : SceneStep) (acc : BuilderState * list (list nat))
  : BuilderState * list (list nat) :=
  let '(layer, _, _, add) := st in
  (add (fst acc), pushLayer layer (length (fst (fst acc))) (snd acc)).

(** A geometry store with the three geometries of the application, for
    the examples. *)
Definition sampleGeometries : gmap string (gmap string SubmeshGeometry) :=
  {[ "shapeGeo" := ∅; "waterGeo" := ∅; "treeSpritesGeo" := ∅ ]}%string.

(** The draw call [bd], issued after the state [b], is the draw of the
    item at position [i]: pipeline state, barrier and pass constants are
    those of [b], the rest is the item's. *)
Definition itemBound (objCBByteSize matCBByteSize : Z) (sc : Scene) (s : ShapesApp)
    (b : Bound) (i : nat) (bd : Bound * (Z * Z * Z * Z * Z)) : Prop :=
  ∃ ri d mat vb,
    mAllRitems s !! i = Some ri ∧ ritemDraws sc !! i = Some d ∧
    findMaterial (Mat ri) (mMaterials s) = Some mat ∧
    VertexBufferGPU s (Geo ri) = Some vb ∧
    boundPSO (fst bd) = boundPSO b ∧
    lastBarrier (fst bd) = lastBarrier b ∧
    boundVertexBuffer (fst bd) = Some vb ∧
    boundIndexBuffer (fst bd) = Some (Geo ri) ∧
    boundTopology (fst bd) = Some (Ritem.PrimitiveType d) ∧
    boundRoots (fst bd) !! 0 = Some (DescriptorTable (DiffuseSrvHeapIndex mat)) ∧
    boundRoots (fst bd) !! 1 =
      Some (ConstantBufferView
              (mkGPUAddress (ObjectCBOf (mCurrFrameResourceIndex s))
                            (UINT (ObjCBIndex ri * objCBByteSize)))) ∧
    boundRoots (fst bd) !! 2 = boundRoots b !! 2 ∧
    boundRoots (fst bd) !! 3 =
      Some (ConstantBufferView
              (mkGPUAddress (MaterialCBOf (mCurrFrameResourceIndex s))
                            (UINT (MatCBIndex mat * matCBByteSize)))) ∧
    snd bd = (Ritem.IndexCount d, 1, Ritem.StartIndexLocation d,
              Ritem.BaseVertexLocation d, 0).

(** The two indices of a material. *)
Definition matIndices (m : Material) : Z * Z := (MatCBIndex m, DiffuseSrvHeapIndex m).

(** The scene over the sample store, and the state of the first frame
    when [Draw] starts. *)
Definition sampleScene : Scene :=
  default Scene_empty (BuildRenderLayers sampleGeometries).

Definition firstUpdate : ShapesApp := snd (Update idleInput (Initialize 0)).

(** The state [b] at the start of a layer: pipeline state [pso], last
    barrier from [before] to [after] on the current back buffer, and the
    pass constants of the current slot as root argument 2. *)
Definition layerState (s : ShapesApp) (pso : string)
    (before after : D3D12_RESOURCE_STATES) (b : Bound) : Prop :=
  boundPSO b = Some pso ∧
  lastBarrier b = Some (mCurrBackBuffer s, before, after) ∧
  boundRoots b !! 2 =
    Some (ConstantBufferView (mkGPUAddress (PassCBOf (mCurrFrameResourceIndex s)) 0)).

(** The barriers of a list, in order. *)
Definition barrierOf (c : Command)
  : option (Z * D3D12_RESOURCE_STATES * D3D12_RESOURCE_STATES) :=
  match c with
  | ResourceBarrier bb before after => Some (bb, before, after)
  | _ => None
  end.

Definition barriers (cmds : list Command)
  : list (Z * D3D12_RESOURCE_STATES * D3D12_RESOURCE_STATES) :=
  omap barrierOf cmds.

(** ** Shaders, root signature and pipeline states *)

(** What [d3dUtil::CompileShader] was asked to compile: file, macro
    definitions, entry point and target. *)
Record Shader := mkShader {
  shaderFile : string;
  shaderDefines : list (string * string);
  shaderEntry : string;
  shaderTarget : string
}.

Inductive DXGI_FORMAT := DXGI_FORMAT_R32G32B32_FLOAT | DXGI_FORMAT_R32G32_FLOAT.

(** [D3D12_INPUT_ELEMENT_DESC]: semantic name, format and byte offset; the
    other four members are the same in every element of the source. *)
Record D3D12_INPUT_ELEMENT_DESC := mkInputElement {
  SemanticName : string;
  Format : DXGI_FORMAT;
  AlignedByteOffset : Z
}.

(** What [BuildShadersAndInputLayout] leaves behind. *)
Record ShaderStore := mkShaderStore {
  mShaders : gmap string Shader;
  mInputLayout : list D3D12_INPUT_ELEMENT_DESC;
  mTreeSpriteInputLayout : list D3D12_INPUT_ELEMENT_DESC
}.

Definition BuildShadersAndInputLayout : ShaderStore :=
  let defines := [("FOG", "1")]%string in
  let alphaTestDefines := [("FOG", "1"); ("ALPHA_TEST", "1")]%string in
  let mShaders : gmap string Shader := ∅ in
  let mShaders := <["standardVS" := mkShader "Shaders\Default.hlsl" [] "VS" "vs_5_0"]> mShaders in
  let mShaders := <["opaquePS" := mkShader "Shaders\Default.hlsl" defines "PS" "ps_5_0"]> mShaders in
  let mShaders :=
    <["alphaTestedPS" := mkShader "Shaders\Default.hlsl" alphaTestDefines "PS" "ps_5_0"]>
      mShaders in
  let mShaders := <["treeSpriteVS" := mkShader "Shaders\TreeSprite.hlsl" [] "VS" "vs_5_0"]> mShaders in
  let mShaders := <["treeSpriteGS" := mkShader "Shaders\TreeSprite.hlsl" [] "GS" "gs_5_0"]> mShaders in
  let mShaders :=
    <["treeSpritePS" := mkShader "Shaders\TreeSprite.hlsl" alphaTestDefines "PS" "ps_5_0"]>
      mShaders in
  mkShaderStore mShaders
    [mkInputElement "POSITION" DXGI_FORMAT_R32G32B32_FLOAT 0;
     mkInputElement "NORMAL" DXGI_FORMAT_R32G32B32_FLOAT 12;
     mkInputElement "TEXCOORD" DXGI_FORMAT_R32G32_FLOAT 24]
    [mkInputElement "POSITION" DXGI_FORMAT_R32G32B32_FLOAT 0;
     mkInputElement "SIZE" DXGI_FORMAT_R32G32_FLOAT 12].

(** A root parameter: a table of [NumDescriptors] shader resource views
    from register [t BaseShaderRegister], or the constant buffer view of
    register [b ShaderRegister]. *)
Inductive RootParameter :=
| RootDescriptorTable (NumDescriptors BaseShaderRegister : Z)
| RootConstantBufferView (ShaderRegister : Z).

(** [BuildRootSignature]: the array [slotRootParameter]. *)
Definition BuildRootSignature : list RootParameter :=
  [RootDescriptorTable 1 0;
   RootConstantBufferView 0;
   RootConstantBufferView 1;
   RootConstantBufferView 2].

Inductive D3D12_PRIMITIVE_TOPOLOGY_TYPE :=
| D3D12_PRIMITIVE_TOPOLOGY_TYPE_UNDEFINED
| D3D12_PRIMITIVE_TOPOLOGY_TYPE_POINT
| D3D12_PRIMITIVE_TOPOLOGY_TYPE_TRIANGLE.

Inductive D3D12_CULL_MODE := D3D12_CULL_MODE_NONE | D3D12_CULL_MODE_BACK.

(** The members of [D3D12_GRAPHICS_PIPELINE_STATE_DESC] in which the four
    pipeline states of the source differ. *)
Record PsoDesc := mkPsoDesc {
  InputLayout : list D3D12_INPUT_ELEMENT_DESC;
  pRootSignature : list RootParameter;
  VS : option Shader;
  GS : option Shader;
  PS : option Shader;
  CullMode : D3D12_CULL_MODE;
  BlendEnable : bool;
  PrimitiveTopologyType : D3D12_PRIMITIVE_TOPOLOGY_TYPE
}.

(** [BuildPSOs].  A shader that is not in [mShaders] is a null pointer,
    and reading its buffer is [None] here.  The rasterizer and blend
    states start from [D3D12_DEFAULT]: back-face culling, no blending. *)
Definition BuildPSOs (st : ShaderStore) (mRootSignature : list RootParameter)
  : option (gmap string PsoDesc) :=
  let mPSOs : gmap string PsoDesc := ∅ in
  standardVS ← mShaders st !! "standardVS";
  opaquePS ← mShaders st !! "opaquePS";
  let opaquePsoDesc :=
    mkPsoDesc (mInputLayout st) mRootSignature (Some standardVS) None (Some opaquePS)
              D3D12_CULL_MODE_BACK false D3D12_PRIMITIVE_TOPOLOGY_TYPE_TRIANGLE in
  let mPSOs := <["opaque" := opaquePsoDesc]> mPSOs in
  let mPSOs := <["opaque" := opaquePsoDesc]> mPSOs in
  let transparentPsoDesc :=
    mkPsoDesc (InputLayout opaquePsoDesc) (pRootSignature opaquePsoDesc)
              (VS opaquePsoDesc) (GS opaquePsoDesc) (PS opaquePsoDesc)
              (CullMode opaquePsoDesc) true (PrimitiveTopologyType opaquePsoDesc) in
  let mPSOs := <["transparent" := transparentPsoDesc]> mPSOs in
  alphaTestedPS ← mShaders st !! "alphaTestedPS";
  let alphaTestedPsoDesc :=
    mkPsoDesc (InputLayout opaquePsoDesc) (pRootSignature opaquePsoDesc)
              (VS opaquePsoDesc) (GS opaquePsoDesc) (Some alphaTestedPS)
              D3D12_CULL_MODE_NONE (BlendEnable opaquePsoDesc)
              (PrimitiveTopologyType opaquePsoDesc) in
  let mPSOs := <["alphaTested" := alphaTestedPsoDesc]> mPSOs in
  treeSpriteVS ← mShaders st !! "treeSpriteVS";
  treeSpriteGS ← mShaders st !! "treeSpriteGS";
  treeSpritePS ← mShaders st !! "treeSpritePS";
  let treeSpritePsoDesc :=
    mkPsoDesc (mTreeSpriteInputLayout st) (pRootSignature opaquePsoDesc)
              (Some treeSpriteVS) (Some treeSpriteGS) (Some treeSpritePS)
              D3D12_CULL_MODE_NONE (BlendEnable opaquePsoDesc)
              D3D12_PRIMITIVE_TOPOLOGY_TYPE_POINT in
  let mPSOs := <["treeSprites" := treeSpritePsoDesc]> mPSOs in
  Some mPSOs.

(** A draw with topology [t] may be issued under a pipeline state of
    topology type [ty]. *)
Definition topologyFits (ty : D3D12_PRIMITIVE_TOPOLOGY_TYPE) (t : D3D_PRIMITIVE_TOPOLOGY)
  : Prop :=
  match ty, t with
  | D3D12_PRIMITIVE_TOPOLOGY_TYPE_POINT, D3D_PRIMITIVE_TOPOLOGY_POINTLIST => True
  | D3D12_PRIMITIVE_TOPOLOGY_TYPE_TRIANGLE, D3D_PRIMITIVE_TOPOLOGY_TRIANGLELIST => True
  | _, _ => False
  end.

(** The argument [a] is of the kind the root parameter [p] declares. *)
Definition argumentFits (p : RootParameter) (a : RootArgument) : Prop :=
  match p, a with
  | RootDescriptorTable _ _, DescriptorTable _ => True
  | RootConstantBufferView _, ConstantBufferView _ => True
  | _, _ => False
  end.

(** The draw [bd] fits the pipeline: its pipeline state is one of [psos],
    made for the root signature [sig] and for the topology of the draw,
    and every parameter of the signature has an argument of its kind. *)
Definition fitsPipeline (sig : list RootParameter) (psos : gmap string PsoDesc)
    (bd : Bound * (Z * Z * Z * Z * Z)) : Prop :=
  ∃ pso desc t,
    boundPSO (fst bd) = Some pso ∧ psos !! pso = Some desc ∧
    pRootSignature desc = sig ∧
    is_Some (VS desc) ∧ is_Some (PS desc) ∧
    boundTopology (fst bd) = Some t ∧ topologyFits (PrimitiveTopologyType desc) t ∧
    ∀ k p, sig !! k = Some p →
           ∃ a, boundRoots (fst bd) !! Z.of_nat k = Some a ∧ argumentFits p a.

(** ** The constants a draw call reads *)

(** The buffers of the slot [fr] hold an element for every render item,
    for every material and for the pass. *)
Definition slotWritten (items : list RenderItem) (mats : list (string * Material))
    (fr : FrameResource) : Prop :=
  (∀ k, k ∈ map ObjCBIndex items → is_Some (ObjectCB fr !! k)) ∧
  (∀ k, k ∈ map snd (matKeys mats) → is_Some (MaterialCB fr !! k)) ∧
  is_Some (PassCB fr !! 0).

(** The slot [j] will be acquired [t] frames from now, and every counter
    will still be positive then. *)
Definition slotPending (s : ShapesApp) (j : nat) : Prop :=
  ∃ t, 1 ≤ t ≤ gNumFrameResources ∧
       Z.of_nat j = (mCurrFrameResourceIndex s + t) mod gNumFrameResources ∧
       Forall (fun e => t ≤ NumFramesDirty e) (mAllRitems s) ∧
       Forall (fun kv => t ≤ MatNumFramesDirty (snd kv)) (mMaterials s).

(** Every slot is either complete or will be completed when its turn
    comes. *)
Definition slotsCovered (s : ShapesApp) : Prop :=
  ∀ j fr, mFrameResources s !! j = Some fr →
          slotWritten (mAllRitems s) (mMaterials s) fr ∨ slotPending s j.

(** The draw [bd] reads its object, material and pass constants from
    elements of the slot [fr], of number [slot], that lie inside the
    buffers and have been written. *)
Definition readsWritten (objCBByteSize matCBByteSize : Z) (slot : Z) (fr : FrameResource)
    (bd : Bound * (Z * Z * Z * Z * Z)) : Prop :=
  ∃ k m,
    boundRoots (fst bd) !! 1 =
      Some (ConstantBufferView (mkGPUAddress (ObjectCBOf slot) (k * objCBByteSize))) ∧
    0 ≤ k < objectCount ∧ is_Some (ObjectCB fr !! k) ∧
    boundRoots (fst bd) !! 3 =
      Some (ConstantBufferView (mkGPUAddress (MaterialCBOf slot) (m * matCBByteSize))) ∧
    0 ≤ m < materialCount ∧ is_Some (MaterialCB fr !! m) ∧
    boundRoots (fst bd) !! 2 = Some (ConstantBufferView (mkGPUAddress (PassCBOf slot) 0)) ∧
    is_Some (PassCB fr !! 0).

(** ** The meshes the draw calls read *)

(** [mGeometries] once [BuildShapeGeometry], [BuildWavesGeometry] and
    [BuildTreeSpritesGeometry] have run, in this order: the submeshes of
    the packed shapes under the name of their geometry, and the one
    submesh of the water and of the tree sprites. *)
Definition mGeometriesOf (shapeGeo : MeshGeometry) (water points : SubmeshGeometry)
  : gmap string (gmap string SubmeshGeometry) :=
  <["treeSpritesGeo" := {[ "points" := points ]}]>
    (<["waterGeo" := {[ "water" := water ]}]>
       (<[Name shapeGeo := DrawArgs shapeGeo]> ∅))%string.

(** The geometry and the submesh each step of the builder names: the
    geometry is the one of the item the step creates. *)
Fixpoint stepArgs (steps : list SceneStep) (b : BuilderState)
  : list (option string * string) :=
  match steps with
  | [] => []
  | (_, _, arg, add) :: rest =>
      (Geo <$> last (fst (add b)), arg) :: stepArgs rest (add b)
  end.

(** The draw parameters [d] are those of the submesh [ga] names in
    [geos]. *)
Definition argsOf (geos : gmap string (gmap string SubmeshGeometry)) (ga : option string * string) (d : Ritem.DrawCall)
  : Prop :=
  ∃ geo sub, fst ga = Some geo ∧ DrawArgs_at geos geo (snd ga) = Some sub ∧
    Ritem.IndexCount d = IndexCount sub ∧
    Ritem.StartIndexLocation d = StartIndexLocation sub ∧
    Ritem.BaseVertexLocation d = BaseVertexLocation sub.

(** The draw parameters [d] designate one whole mesh of [ms] in the
    packed buffers of [geo]. *)
Definition drawsMesh (GetIndices16 : GeometryGenerator.MeshData → list Z)
    (ms : ShapeMeshes) (geo : MeshGeometry) (d : Ritem.DrawCall) : Prop :=
  ∃ name mesh, (name, mesh) ∈ shapes ms ∧
    segment (Ritem.StartIndexLocation d) (Ritem.IndexCount d) (IndexBufferCPU geo)
    = GetIndices16 mesh ∧
    segment (Ritem.BaseVertexLocation d) (size (GeometryGenerator.Vertices mesh))
            (VertexBufferCPU geo)
    = map toVertex (GeometryGenerator.Vertices mesh).

(** The draw parameters [d] designate the whole index list [indices],
    from vertex 0. *)
Definition drawsAll (indices : list Z) (d : Ritem.DrawCall) : Prop :=
  Ritem.StartIndexLocation d = 0 ∧ Ritem.IndexCount d = size indices ∧
  Ritem.BaseVertexLocation d = 0.

(** A grid of three rows and three columns, and the tree sprites over an
    array of leftovers, for the examples. *)
Definition sampleGrid : list Z * SubmeshGeometry :=
  default ([], mkSubmesh 0 0 0) (BuildWavesGeometry 3 3 8 9).

Definition sampleSprites : list TreeSpriteVertex * list Z * SubmeshGeometry :=
  default ([], [], mkSubmesh 0 0 0) (BuildTreeSpritesGeometry (garbage 17)).

(** ** Textures and their descriptors *)

(** [struct Texture], of the framework: name and file. *)
Record Texture := mkTexture { textureName : string; Filename : string }.

(** [LoadTextures], when every file loads: the nine textures in
    [mTextures], entered under their names in the order of the final
    assignments. *)
Definition LoadTextures : gmap string Texture :=
  let wallTex := mkTexture "bricksTex" "../Textures/bricks.dds" in
  let stoneTex := mkTexture "stoneTex" "../Textures/bricks2.dds" in
  let roofTex := mkTexture "roofTex" "../Textures/bricks3.dds" in
  let tileTex := mkTexture "tileTex" "../Textures/tile.dds" in
  let waterTex := mkTexture "waterTex" "../Textures/water1.dds" in
  let treeArrayTex := mkTexture "treeArrayTex" "../Textures/treeArray.dds" in
  let grassTex := mkTexture "grassTex" "../Textures/grass.dds" in
  let boardTex := mkTexture "boardTex" "../Textures/checkboard.dds" in
  let iceTex := mkTexture "iceTex" "../Textures/ice.dds" in
  let mTextures : gmap string Texture := ∅ in
  let mTextures := <[textureName wallTex := wallTex]> mTextures in
  let mTextures := <[textureName stoneTex := stoneTex]> mTextures in
  let mTextures := <[textureName roofTex := roofTex]> mTextures in
  let mTextures := <[textureName tileTex := tileTex]> mTextures in
  let mTextures := <[textureName waterTex := waterTex]> mTextures in
  let mTextures := <[textureName treeArrayTex := treeArrayTex]> mTextures in
  let mTextures := <[textureName grassTex := grassTex]> mTextures in
  let mTextures := <[textureName boardTex := boardTex]> mTextures in
  let mTextures := <[textureName iceTex := iceTex]> mTextures in
  mTextures.

Inductive D3D12_SRV_DIMENSION :=
| D3D12_SRV_DIMENSION_TEXTURE2D
| D3D12_SRV_DIMENSION_TEXTURE2DARRAY.

(** The mip count of a view: the one of a texture's description, or -1
    for all of them. *)
Inductive MipLevels := MipLevelsOf (t : Texture) | AllMipLevels.

(** A shader resource view: the texture it views, and the three members
    of [srvDesc] that change between the calls of
    [CreateShaderResourceView]; the format and the mip count are those of
    the description of a texture. *)
Record ShaderResourceView := mkSRV {
  srvResource : Texture;
  srvFormatOf : Texture;
  srvViewDimension : D3D12_SRV_DIMENSION;
  srvMipLevels : MipLevels
}.

(** [srvHeapDesc.NumDescriptors] *)
Definition NumDescriptors : Z := 9.

(** [BuildDescriptorHeaps].  The heap has [NumDescriptors] places, empty
    at first; [hDescriptor] is the place of the next view.  A texture
    that is not in [mTextures] is a null pointer, and a view past the end
    of the heap is out of bounds: both are [None] here. *)
Definition BuildDescriptorHeaps (mTextures : gmap string Texture)
  : option (list (option ShaderResourceView)) :=
  let heap : list (option ShaderResourceView) := replicate (Z.to_nat NumDescriptors) None in
  let hDescriptor := 0 in
  bricksTex ← mTextures !! "bricksTex";
  stoneTex ← mTextures !! "stoneTex";
  roofTex ← mTextures !! "roofTex";
  tileTex ← mTextures !! "tileTex";
  waterTex ← mTextures !! "waterTex";
  treeArrayTex ← mTextures !! "treeArrayTex";
  grassTex ← mTextures !! "grassTex";
  boardTex ← mTextures !! "boardTex";
  iceTex ← mTextures !! "iceTex";
  let srvDesc := mkSRV bricksTex bricksTex D3D12_SRV_DIMENSION_TEXTURE2D
                       (MipLevelsOf bricksTex) in
  heap ← store hDescriptor (Some srvDesc) heap;
  let hDescriptor := hDescriptor + 1 in
  let srvDesc := mkSRV roofTex roofTex (srvViewDimension srvDesc) (MipLevelsOf roofTex) in
  heap ← store hDescriptor (Some srvDesc) heap;
  let hDescriptor := hDescriptor + 1 in
  let srvDesc := mkSRV stoneTex stoneTex (srvViewDimension srvDesc) (MipLevelsOf stoneTex) in
  heap ← store hDescriptor (Some srvDesc) heap;
  let hDescriptor := hDescriptor + 1 in
  let srvDesc := mkSRV tileTex tileTex (srvViewDimension srvDesc) (MipLevelsOf tileTex) in
  heap ← store hDescriptor (Some srvDesc) heap;
  let hDescriptor := hDescriptor + 1 in
  let srvDesc := mkSRV waterTex waterTex (srvViewDimension srvDesc) (srvMipLevels srvDesc) in
  heap ← store hDescriptor (Some srvDesc) heap;
  let hDescriptor := hDescriptor + 1 in
  let srvDesc := mkSRV grassTex grassTex (srvViewDimension srvDesc) (srvMipLevels srvDesc) in
  heap ← store hDescriptor (Some srvDesc) heap;
  let hDescriptor := hDescriptor + 1 in
  let srvDesc := mkSRV boardTex boardTex (srvViewDimension srvDesc) (srvMipLevels srvDesc) in
  heap ← store hDescriptor (Some srvDesc) heap;
  let hDescriptor := hDescriptor + 1 in
  let srvDesc := mkSRV iceTex iceTex (srvViewDimension srvDesc) (srvMipLevels srvDesc) in
  heap ← store hDescriptor (Some srvDesc) heap;
  let hDescriptor := hDescriptor + 1 in
  let srvDesc := mkSRV treeArrayTex treeArrayTex D3D12_SRV_DIMENSION_TEXTURE2DARRAY
                       AllMipLevels in
  heap ← store hDescriptor (Some srvDesc) heap;
  Some heap.

(** The view at place [i] of the heap, for [i] an [int]. *)
Definition descriptorAt (heap : list (option ShaderResourceView)) (i : Z)
  : option ShaderResourceView :=
  if 0 <=? i then mjoin (heap !! Z.to_nat i) else None.

(** The file a material shows: the file of the texture viewed at the
    place [DiffuseSrvHeapIndex] of the heap. *)
Definition shownBy (heap : list (option ShaderResourceView)) (kv : string * Material)
  : string * option string :=
  (fst kv, (fun v => Filename (srvResource v)) <$> descriptorAt heap (DiffuseSrvHeapIndex (snd kv))).

(** The texture whose mip count a view was created with, when it is not
    the viewed one. *)
Definition borrowedMips (v : ShaderResourceView) : option (string * string) :=
  match srvMipLevels v with
  | MipLevelsOf t =>
      if String.eqb (textureName t) (textureName (srvResource v)) then None
      else Some (textureName (srvResource v), textureName t)
  | AllMipLevels => None
  end.

(** ** The object constants a draw call reads *)

(** What [UpdateObjectCBs] takes from a render item: the element it
    writes and the constants it writes there. *)
Definition objectWrite (e : RenderItem) : Z * ObjectConstants :=
  (ObjCBIndex e, objConstantsOf e).

(** The constants element [k] holds once the loop of [UpdateObjectCBs] has
    written all the items, in the order of [mAllRitems]: those of the last
    item bound to [k]. *)
Definition lastWritten (items : list RenderItem) (k : Z) : option ObjectConstants :=
  snd <$> last (filter (fun w => fst w = k) (map objectWrite items)).

(** The object buffer of the slot [fr] holds, for every element an item is
    bound to, what a flush of all the items leaves there. *)
Definition objectsHeld (items : list RenderItem) (fr : FrameResource) : Prop :=
  ∀ k c, lastWritten items k = Some c → ObjectCB fr !! k = Some c.

(** The slot [j] will be acquired [t] frames from now, and every item
    will still be dirty then. *)
Definition objectsPending (s : ShapesApp) (j : nat) : Prop :=
  ∃ t, 1 ≤ t ≤ gNumFrameResources ∧
       Z.of_nat j = (mCurrFrameResourceIndex s + t) mod gNumFrameResources ∧
       Forall (fun e => t ≤ NumFramesDirty e) (mAllRitems s).

(** The counters of the items run in step, and every slot holds the
    constants of the items or will when its turn comes. *)
Definition objectsCovered (s : ShapesApp) : Prop :=
  (∃ c, Forall (fun e => NumFramesDirty e = c) (mAllRitems s)) ∧
  ∀ j fr, mFrameResources s !! j = Some fr →
          objectsHeld (mAllRitems s) fr ∨ objectsPending s j.

(** * Properties *)

(** ** Normal forms of Update and Draw *)

Lemma Update_unfold inp s :
  Update inp s =
  let s1 := UpdateHead inp s in
  match mCurrFrameResource s1 with
  | Some fr =>
      if mustWait (completedValue inp) fr then
        if FAILED (hrSetEventOnCompletion inp) then (Throw (waitException inp), s1)
        else (Ok tt, UpdateTail inp (emit (EvWait (Fence fr)) s1))
      else (Ok tt, UpdateTail inp s1)
  | None => (Ok tt, UpdateTail inp s1)
  end.
Proof.
  unfold Update, UpdateHead, UpdateTail, mbind, M_bind, bind, exec,
    WaitForFrameResource, ThrowIfFailed, waitException; cbn.
  destruct (mCurrFrameResource _) as [fr|]; [|reflexivity].
  destruct (mustWait _ fr); [|reflexivity].
  unfold mbind, M_bind, bind, exec, ThrowIfFailed.
  destruct (FAILED _); reflexivity.
Qed.

Lemma Draw_unfold inp s :
  Draw inp s =
  if FAILED (hrAllocReset inp) then
    (Throw (mkDxException (hrAllocReset inp) "cmdListAlloc->Reset"), s)
  else if FAILED (hrListReset inp) then
    (Throw (mkDxException (hrListReset inp) "mCommandList->Reset"), s)
  else if FAILED (hrClose inp) then
    (Throw (mkDxException (hrClose inp) "mCommandList->Close"), RecordCommands s)
  else if FAILED (hrPresent inp) then
    (Throw (mkDxException (hrPresent inp) "mSwapChain->Present"),
     ExecuteCommandLists (RecordCommands s))
  else (Ok tt, DrawTail (ExecuteCommandLists (RecordCommands s))).
Proof.
  unfold Draw, DrawTail, mbind, M_bind, bind, exec, ThrowIfFailed.
  repeat (destruct (FAILED _); [reflexivity|]). reflexivity.
Qed.

Lemma UpdateHead_closed inp s :
  UpdateHead inp s =
  mkApp (mFrameResources s)
        (Z.rem (mCurrFrameResourceIndex s + 1) gNumFrameResources)
        (mCurrentFence s) (mCurrBackBuffer s) (mAllRitems s) (mMaterials s)
        (mMainPassCB s) (Some (camera inp)) (mWaves s) (t_base s)
        (trace s ++ [EvKeyboardInput; EvUpdateCamera;
                     EvAcquire (Z.rem (mCurrFrameResourceIndex s + 1) gNumFrameResources)]).
Proof.
  destruct s as [frs idx cf bb items mats pass cam waves tb tr].
  unfold UpdateHead, CycleFrameResource, UpdateCamera, OnKeyboardInput, emit; simpl.
  by rewrite <- !app_assoc.
Qed.

Lemma alter_insert_lookup {A} (f : A → A) (l : list A) i x :
  l !! i = Some x → alter f i l = <[i := f x]> l.
Proof.
  revert i; induction l as [|y l IH]; intros [|i] H; simplify_eq/=; [done|].
  f_equal; auto.
Qed.

(** Each step on an explicit state whose cursor designates [fr]. *)
Section Steps.
Variables (inp : FrameInput) (frs : list FrameResource) (idx cf bb : Z)
  (items : list RenderItem) (mats : list (string * Material))
  (pass : option PassConstants) (cam : option CameraBlock) (waves : Waves)
  (tb : Q) (tr : list Event) (fr : FrameResource).
Hypothesis Hfr : frs !! slotOf idx = Some fr.

Lemma UpdateObjectCBs_closed :
  UpdateObjectCBs (mkApp frs idx cf bb items mats pass cam waves tb tr) =
  mkApp (<[slotOf idx := setObjectCB (snd (flushObjects items (ObjectCB fr))) fr]> frs)
        idx cf bb (fst (flushObjects items (ObjectCB fr))) mats pass cam waves tb
        (tr ++ [EvUpdateObjectCBs]).
Proof using Hfr.
  unfold UpdateObjectCBs, mCurrFrameResource, onCurrFrameResource. simpl.
  rewrite Hfr. destruct (flushObjects items (ObjectCB fr)) as [items' ocb].
  simpl. by rewrite (alter_insert_lookup _ _ _ _ Hfr).
Qed.

Lemma UpdateMaterialCBs_closed :
  UpdateMaterialCBs (mkApp frs idx cf bb items mats pass cam waves tb tr) =
  mkApp (<[slotOf idx := setMaterialCB (snd (flushMaterials mats (MaterialCB fr))) fr]> frs)
        idx cf bb items (fst (flushMaterials mats (MaterialCB fr))) pass cam waves tb
        (tr ++ [EvUpdateMaterialCBs]).
Proof using Hfr.
  unfold UpdateMaterialCBs, mCurrFrameResource, onCurrFrameResource. simpl.
  rewrite Hfr. destruct (flushMaterials mats (MaterialCB fr)) as [mats' mcb].
  simpl. by rewrite (alter_insert_lookup _ _ _ _ Hfr).
Qed.

Lemma UpdateMainPassCB_closed :
  UpdateMainPassCB inp (mkApp frs idx cf bb items mats pass cam waves tb tr) =
  mkApp (<[slotOf idx :=
             setPassCB (<[0 := mainPassOf inp (default (camera inp) cam)]> (PassCB fr)) fr]> frs)
        idx cf bb items mats (Some (mainPassOf inp (default (camera inp) cam)))
        cam waves tb (tr ++ [EvUpdateMainPassCB]).
Proof using Hfr.
  unfold UpdateMainPassCB, onCurrFrameResource, emit, set_mFrameResources,
    set_mMainPassCB. simpl.
  by rewrite (alter_insert_lookup _ _ _ _ Hfr).
Qed.

Lemma CopyWaves_closed :
  CopyWaves (mkApp frs idx cf bb items mats pass cam waves tb tr) =
  mkApp (<[slotOf idx := setWavesVB (calls waves) fr]> frs)
        idx cf bb items mats pass cam waves tb (tr ++ [EvWavesCopy idx]).
Proof using Hfr.
  unfold CopyWaves, onCurrFrameResource, emit, set_mFrameResources. simpl.
  by rewrite (alter_insert_lookup _ _ _ _ Hfr).
Qed.

Lemma StampFence_closed :
  StampFence (mkApp frs idx cf bb items mats pass cam waves tb tr) =
  mkApp (<[slotOf idx := setFence (cf + 1) fr]> frs)
        idx (cf + 1) bb items mats pass cam waves tb (tr ++ [EvStamp idx (cf + 1)]).
Proof using Hfr.
  unfold StampFence, onCurrFrameResource, emit, set_mFrameResources,
    set_mCurrentFence. simpl.
  by rewrite (alter_insert_lookup _ _ _ _ Hfr).
Qed.
End Steps.

Lemma DisturbIfDue_closed inp s :
  DisturbIfDue inp s =
  mkApp (mFrameResources s) (mCurrFrameResourceIndex s) (mCurrentFence s)
        (mCurrBackBuffer s) (mAllRitems s) (mMaterials s) (mMainPassCB s)
        (mCamera s) (wavesDisturbed inp (mWaves s) (t_base s))
        (t_baseAfter inp (t_base s))
        (trace s ++ disturbEvents inp (mWaves s) (t_base s)).
Proof.
  destruct s as [frs idx cf bb items mats pass cam waves tb tr].
  unfold DisturbIfDue, wavesDisturbed, t_baseAfter, disturbEvents, disturbDue,
    disturbEvent, disturbRow, disturbColumn, disturbMagnitude. simpl.
  destruct (Qle_bool _ _); simpl; [done|by rewrite app_nil_r].
Qed.

Lemma UpdateTail_closed inp s fr :
  mCurrFrameResource s = Some fr →
  UpdateTail inp s =
  mkApp (<[slotOf (mCurrFrameResourceIndex s) :=
            slotAfterUpdate inp (mAllRitems s) (mMaterials s) (mCamera s)
                            (mWaves s) (t_base s) fr]>
           (mFrameResources s))
        (mCurrFrameResourceIndex s) (mCurrentFence s) (mCurrBackBuffer s)
        (fst (flushObjects (mAllRitems s) (ObjectCB fr)))
        (fst (flushMaterials (animatedMaterials inp (mMaterials s)) (MaterialCB fr)))
        (Some (mainPassOf inp (default (camera inp) (mCamera s))))
        (mCamera s) (wavesAfter inp (mWaves s) (t_base s))
        (t_baseAfter inp (t_base s))
        (trace s ++ tailEvents inp s).
Proof.
  destruct s as [frs idx cf bb items mats pass cam waves tb tr].
  unfold mCurrFrameResource; simpl. intros Hfr.
  pose proof (lookup_lt_Some _ _ _ Hfr) as Hlt.
  unfold UpdateTail, UpdateWaves.
  change (AnimateMaterials inp (mkApp frs idx cf bb items mats pass cam waves tb tr))
    with (mkApp frs idx cf bb items (animatedMaterials inp mats)
            pass cam waves tb (tr ++ [EvAnimateMaterials])).
  rewrite (UpdateObjectCBs_closed _ _ _ _ _ _ _ _ _ _ _ _ Hfr).
  erewrite UpdateMaterialCBs_closed by (by apply list_lookup_insert_eq).
  rewrite list_insert_insert_eq.
  erewrite UpdateMainPassCB_closed by (by apply list_lookup_insert_eq).
  rewrite list_insert_insert_eq.
  rewrite DisturbIfDue_closed.
  unfold AdvanceWaves, emit, set_mWaves.
  cbv beta iota delta [mFrameResources mCurrFrameResourceIndex mCurrentFence
    mCurrBackBuffer mAllRitems mMaterials mMainPassCB mCamera mWaves t_base trace].
  erewrite CopyWaves_closed by (by apply list_lookup_insert_eq).
  rewrite list_insert_insert_eq.
  unfold slotAfterUpdate, tailEvents, wavesAfter.
  cbv beta iota delta [mFrameResources mCurrFrameResourceIndex mCurrentFence
    mCurrBackBuffer mAllRitems mMaterials mMainPassCB mCamera mWaves t_base trace].
  rewrite <- !app_assoc. reflexivity.
Qed.

Lemma DrawTail_closed s fr :
  mCurrFrameResource s = Some fr →
  DrawTail (ExecuteCommandLists (RecordCommands s)) =
  mkApp (<[slotOf (mCurrFrameResourceIndex s) := setFence (mCurrentFence s + 1) fr]>
           (mFrameResources s))
        (mCurrFrameResourceIndex s) (mCurrentFence s + 1)
        (Z.rem (mCurrBackBuffer s + 1) SwapChainBufferCount)
        (mAllRitems s) (mMaterials s) (mMainPassCB s) (mCamera s) (mWaves s)
        (t_base s) (trace s ++ drawEvents s).
Proof.
  destruct s as [frs idx cf bb items mats pass cam waves tb tr].
  unfold mCurrFrameResource; simpl. intros Hfr.
  unfold DrawTail, AdvanceBackBuffer, ExecuteCommandLists, RecordCommands,
    emit, set_mCurrBackBuffer. simpl.
  rewrite (StampFence_closed _ _ _ _ _ _ _ _ _ _ _ _ Hfr).
  unfold SignalFence, emit, drawEvents. simpl.
  rewrite <- !app_assoc. reflexivity.
Qed.

(** ** The ring: slots, cursor and fence counter *)

Lemma nextSlot_range s : ringWF s → 0 ≤ nextSlot s < gNumFrameResources.
Proof.
  intros [_ H]. unfold nextSlot, gNumFrameResources in *.
  rewrite Z.rem_mod_nonneg by lia. apply Z.mod_pos_bound. lia.
Qed.

Lemma slot_lookup (frs : list FrameResource) i :
  length frs = Z.to_nat gNumFrameResources → 0 ≤ i < gNumFrameResources →
  is_Some (frs !! slotOf i).
Proof.
  intros Hl Hi. apply lookup_lt_is_Some. unfold slotOf. lia.
Qed.

Lemma UpdateHead_curr inp s :
  ringWF s → is_Some (mCurrFrameResource (UpdateHead inp s)).
Proof.
  intros Hwf. rewrite UpdateHead_closed. unfold mCurrFrameResource; simpl.
  apply slot_lookup; [apply Hwf | apply (nextSlot_range s Hwf)].
Qed.

Lemma Update_Ok inp s s' :
  Update inp s = (Ok tt, s') → s' = afterUpdate inp s.
Proof.
  rewrite Update_unfold; unfold afterUpdate; simpl.
  destruct (mCurrFrameResource _); [|congruence].
  destruct (mustWait _ _); [|congruence].
  destruct (FAILED _); congruence.
Qed.

Lemma Draw_Ok inp s s' :
  Draw inp s = (Ok tt, s') → s' = afterDraw s.
Proof.
  rewrite Draw_unfold; unfold afterDraw.
  repeat (destruct (FAILED _); [congruence|]). congruence.
Qed.

Lemma Frame_Ok inp s s' :
  Frame inp s = (Ok tt, s') → s' = afterDraw (afterUpdate inp s).
Proof.
  unfold Frame, mbind, M_bind, bind.
  destruct (Update inp s) as [[[]|e] s1] eqn:EU; [|congruence].
  intros HD. apply Update_Ok in EU. apply Draw_Ok in HD. congruence.
Qed.

Lemma UpdateHead_reclaimed inp s :
  mCurrFrameResource (UpdateHead inp s) = reclaimed s.
Proof. by rewrite UpdateHead_closed. Qed.

Lemma ringWF_reclaimed s : ringWF s → is_Some (reclaimed s).
Proof.
  intros Hwf. unfold reclaimed.
  apply slot_lookup; [apply Hwf | apply (nextSlot_range s Hwf)].
Qed.

Lemma afterUpdate_closed inp s fr :
  reclaimed s = Some fr →
  afterUpdate inp s =
  mkApp (<[slotOf (nextSlot s) :=
            slotAfterUpdate inp (mAllRitems s) (mMaterials s) (Some (camera inp))
                            (mWaves s) (t_base s) fr]>
           (mFrameResources s))
        (nextSlot s) (mCurrentFence s) (mCurrBackBuffer s)
        (fst (flushObjects (mAllRitems s) (ObjectCB fr)))
        (fst (flushMaterials (animatedMaterials inp (mMaterials s)) (MaterialCB fr)))
        (Some (mainPassOf inp (camera inp)))
        (Some (camera inp)) (wavesAfter inp (mWaves s) (t_base s))
        (t_baseAfter inp (t_base s))
        (trace s ++ updateEvents inp s).
Proof.
  intros Hre. unfold afterUpdate, updateEvents, waitEvents; cbv zeta.
  rewrite UpdateHead_reclaimed, Hre.
  assert (Hcur : ∀ tr', mCurrFrameResource
     (mkApp (mFrameResources s) (nextSlot s) (mCurrentFence s) (mCurrBackBuffer s)
        (mAllRitems s) (mMaterials s) (mMainPassCB s) (Some (camera inp))
        (mWaves s) (t_base s) tr') = Some fr) by (intros; exact Hre).
  rewrite UpdateHead_closed. fold (nextSlot s).
  destruct (mustWait _ fr).
  - unfold emit. simpl.
    rewrite (UpdateTail_closed _ _ fr (Hcur _)). unfold tailEvents. simpl.
    by rewrite <- !app_assoc.
  - rewrite (UpdateTail_closed _ _ fr (Hcur _)). unfold tailEvents. simpl.
    by rewrite <- !app_assoc.
Qed.

(** The ring after one whole frame. *)
Lemma afterUpdate_ring inp s :
  ringWF s →
  fences (afterUpdate inp s) = fences s ∧
  mCurrFrameResourceIndex (afterUpdate inp s) = nextSlot s ∧
  mCurrentFence (afterUpdate inp s) = mCurrentFence s ∧
  length (mFrameResources (afterUpdate inp s)) = length (mFrameResources s).
Proof.
  intros Hwf. destruct (ringWF_reclaimed s Hwf) as [fr Hfr].
  rewrite (afterUpdate_closed inp s fr Hfr). unfold fences. simpl.
  rewrite list_fmap_insert, length_insert. split; [|done].
  apply list_insert_id. unfold reclaimed in Hfr.
  by rewrite list_lookup_fmap, Hfr.
Qed.

Lemma afterDraw_closed s fr :
  mCurrFrameResource s = Some fr →
  afterDraw s =
  mkApp (<[slotOf (mCurrFrameResourceIndex s) := setFence (mCurrentFence s + 1) fr]>
           (mFrameResources s))
        (mCurrFrameResourceIndex s) (mCurrentFence s + 1)
        (Z.rem (mCurrBackBuffer s + 1) SwapChainBufferCount)
        (mAllRitems s) (mMaterials s) (mMainPassCB s) (mCamera s) (mWaves s)
        (t_base s) (trace s ++ drawEvents s).
Proof. apply DrawTail_closed. Qed.

Lemma afterUpdate_wf inp s : ringWF s → ringWF (afterUpdate inp s).
Proof.
  intros Hwf. destruct (afterUpdate_ring inp s Hwf) as (_ & Hc & _ & Hl).
  split; [rewrite Hl; apply Hwf | rewrite Hc; apply (nextSlot_range s Hwf)].
Qed.

Lemma ringWF_curr s : ringWF s → is_Some (mCurrFrameResource s).
Proof. intros [Hl Hc]. by apply slot_lookup. Qed.

Lemma afterDraw_ring s :
  ringWF s →
  fences (afterDraw s) =
    <[slotOf (mCurrFrameResourceIndex s) := mCurrentFence s + 1]> (fences s) ∧
  mCurrFrameResourceIndex (afterDraw s) = mCurrFrameResourceIndex s ∧
  mCurrentFence (afterDraw s) = mCurrentFence s + 1 ∧
  length (mFrameResources (afterDraw s)) = length (mFrameResources s).
Proof.
  intros Hwf. destruct (ringWF_curr s Hwf) as [fr Hfr].
  rewrite (afterDraw_closed s fr Hfr); unfold fences; simpl.
  by rewrite list_fmap_insert, length_insert.
Qed.

(** The ring after a frame that ran to its end. *)
Lemma Frame_ring inp s s' :
  ringWF s → Frame inp s = (Ok tt, s') →
  ringWF s' ∧
  fences s' = <[slotOf (nextSlot s) := mCurrentFence s + 1]> (fences s) ∧
  mCurrFrameResourceIndex s' = nextSlot s ∧
  mCurrentFence s' = mCurrentFence s + 1.
Proof.
  intros Hwf HF. apply Frame_Ok in HF; subst s'.
  pose proof (afterUpdate_wf inp s Hwf) as Hwf1.
  destruct (afterUpdate_ring inp s Hwf) as (Hf & Hc & Hcf & Hl).
  destruct (afterDraw_ring _ Hwf1) as (Hf' & Hc' & Hcf' & Hl').
  rewrite Hf', Hc', Hcf', Hf, Hc, Hcf. split; [|done].
  split; [rewrite Hl', Hl; apply Hwf | rewrite Hc', Hc; apply (nextSlot_range s Hwf)].
Qed.

(** ** Waits recorded in a trace *)

Lemma waits_app tr1 tr2 : waits (tr1 ++ tr2) = waits tr1 ++ waits tr2.
Proof. apply omap_app. Qed.

Lemma waits_tailEvents inp s : waits (tailEvents inp s) = [].
Proof.
  unfold tailEvents, disturbEvents, disturbEvent.
  by destruct (disturbDue inp (t_base s)).
Qed.

Lemma Update_waits inp s o s' :
  ringWF s → Update inp s = (o, s') →
  waits (trace s') = waits (trace s) ++ sleepsOn inp s.
Proof.
  intros Hwf. rewrite Update_unfold; cbv zeta. unfold sleepsOn.
  destruct (UpdateHead_curr inp s Hwf) as [fr Hfr].
  rewrite <- UpdateHead_reclaimed with (inp := inp). rewrite Hfr.
  assert (Hh : waits (trace (UpdateHead inp s)) = waits (trace s))
    by (rewrite UpdateHead_closed; simpl; rewrite waits_app; simpl; apply app_nil_r).
  assert (Ht : ∀ s1, mCurrFrameResource s1 = Some fr →
             waits (trace (UpdateTail inp s1)) = waits (trace s1)).
  { intros s1 E1. rewrite (UpdateTail_closed inp s1 fr E1); simpl.
    by rewrite waits_app, waits_tailEvents, app_nil_r. }
  destruct (mustWait _ fr); simpl.
  - destruct (FAILED _); simpl; intros [= <- <-].
    + by rewrite Hh, app_nil_r.
    + rewrite Ht by exact Hfr.
      change (trace (emit ?e ?s1)) with (trace s1 ++ [e]).
      by rewrite waits_app, Hh.
  - intros [= <- <-]. by rewrite Ht, Hh, app_nil_r.
Qed.

Lemma Draw_waits inp s o s' :
  Draw inp s = (o, s') → waits (trace s') = waits (trace s).
Proof.
  rewrite Draw_unfold.
  assert (Hr : ∀ s1, waits (trace (RecordCommands s1)) = waits (trace s1))
    by (intros; simpl; rewrite waits_app; apply app_nil_r).
  assert (He : ∀ s1, waits (trace (ExecuteCommandLists s1)) = waits (trace s1))
    by (intros; simpl; rewrite waits_app; apply app_nil_r).
  assert (Hd : ∀ s1, waits (trace (DrawTail s1)) = waits (trace s1)).
  { intros s1. unfold DrawTail, SignalFence, StampFence, AdvanceBackBuffer; simpl.
    rewrite !waits_app; simpl. by rewrite !app_nil_r. }
  repeat (destruct (FAILED _); [intros [= <- <-]; by rewrite ?He, ?Hr|]).
  intros [= <- <-]. by rewrite Hd, He, Hr.
Qed.

Lemma Update_events inp s s' :
  ringWF s → Update inp s = (Ok tt, s') → eventsOfFrame s s' = updateEvents inp s.
Proof.
  intros Hwf HU. destruct (ringWF_reclaimed s Hwf) as [fr Hre].
  apply Update_Ok in HU as ->. rewrite (afterUpdate_closed inp s fr Hre).
  unfold eventsOfFrame. simpl. by rewrite drop_app_length.
Qed.

Lemma waits_updateEvents inp s : waits (updateEvents inp s) = waits (waitEvents inp s).
Proof.
  unfold updateEvents. rewrite !waits_app. simpl.
  unfold disturbEvents, disturbEvent.
  destruct (disturbDue inp (t_base s)); simpl; by rewrite app_nil_r.
Qed.

Lemma Update_wf inp s s' : ringWF s → Update inp s = (Ok tt, s') → ringWF s'.
Proof. intros Hwf HU. apply Update_Ok in HU as ->. by apply afterUpdate_wf. Qed.

Lemma Frame_waits inp s o s' :
  ringWF s → Frame inp s = (o, s') →
  waits (trace s') = waits (trace s) ++ sleepsOn inp s.
Proof.
  intros Hwf. unfold Frame, mbind, M_bind, bind.
  destruct (Update inp s) as [[[]|e] s1] eqn:EU.
  - intros HD. apply Draw_waits in HD. apply Update_waits in EU; congruence.
  - intros [= <- <-]. by apply Update_waits in EU.
Qed.

Lemma Run_cons inp rest s :
  Run (inp :: rest) s =
  match Frame inp s with
  | (Ok _, s1) => Run rest s1
  | (Throw e, s1) => (Throw e, s1)
  end.
Proof. reflexivity. Qed.

(** ** Cold start and back-pressure *)

Lemma nextSlot_mod s :
  ringWF s → nextSlot s = (mCurrFrameResourceIndex s + 1) mod gNumFrameResources.
Proof.
  intros [_ H]. unfold nextSlot, gNumFrameResources in *.
  apply Z.rem_mod_nonneg; lia.
Qed.

Lemma sleepsOn_free inp s :
  ringWF s → freeAhead 1 s → sleepsOn inp s = [].
Proof.
  intros Hwf Hfree. unfold sleepsOn, reclaimed.
  specialize (Hfree 1 ltac:(lia)). rewrite <- nextSlot_mod in Hfree by done.
  unfold fences in Hfree. rewrite list_lookup_fmap in Hfree.
  destruct (mFrameResources s !! _) as [fr|]; [|done].
  simpl in Hfree. injection Hfree as Hf. unfold mustWait. by rewrite Hf.
Qed.

Lemma Frame_freeAhead inp s s' k :
  ringWF s → k < gNumFrameResources → freeAhead (k + 1) s →
  Frame inp s = (Ok tt, s') → freeAhead k s'.
Proof.
  intros Hwf Hk Hfree HF j Hj.
  destruct (Frame_ring inp s s' Hwf HF) as (Hwf' & Hf & Hc & _).
  rewrite Hf, Hc, (nextSlot_mod s Hwf).
  pose proof Hwf as [_ Hcur]. unfold gNumFrameResources in *.
  rewrite Zplus_mod_idemp_l, <- Z.add_assoc.
  rewrite list_lookup_insert_ne.
  - apply Hfree. lia.
  - unfold slotOf. intros Heq. apply Z2Nat.inj in Heq.
    2, 3: apply Z.mod_pos_bound; lia.
    revert Heq Hcur. generalize (mCurrFrameResourceIndex s). intros c Heq Hcur.
    assert (Hj' : j = 1 ∨ j = 2) by lia.
    assert (Hc' : c = 0 ∨ c = 1 ∨ c = 2) by lia.
    destruct Hj' as [? | ?], Hc' as [? | [? | ?]]; subst j c; vm_compute in Heq; discriminate.
Qed.

Lemma Run_free_no_wait inps : ∀ s o s' k,
  ringWF s → Z.of_nat (length inps) ≤ k → k ≤ gNumFrameResources →
  freeAhead k s → Run inps s = (o, s') →
  waits (trace s') = waits (trace s).
Proof.
  induction inps as [|inp rest IH]; intros s o s' k Hwf Hlen Hk Hfree HR.
  - by injection HR as _ <-.
  - rewrite Run_cons in HR. cbn [length] in Hlen.
    destruct (Frame inp s) as [[[]|e] s1] eqn:EF.
    + pose proof (Frame_waits _ _ _ _ Hwf EF) as Hw.
      rewrite sleepsOn_free, app_nil_r in Hw;
        [|done|intros j Hj; apply Hfree; lia].
      rewrite <- Hw. apply (IH s1 o s' (k - 1)); [|lia|lia| |done].
      * by destruct (Frame_ring inp s s1 Hwf EF).
      * apply (Frame_freeAhead inp s); [done|lia| |done].
        by replace (k - 1 + 1) with k by lia.
    + injection HR as _ <-. pose proof (Frame_waits _ _ _ _ Hwf EF) as Hw.
      rewrite sleepsOn_free, app_nil_r in Hw;
        [done|done|intros j Hj; apply Hfree; lia].
Qed.

Lemma coldStart_wf s : coldStart s → ringWF s.
Proof.
  intros (Hf & Hc & _). split; [|rewrite Hc; unfold gNumFrameResources; lia].
  apply (f_equal length) in Hf. unfold fences in Hf.
  by rewrite length_map, length_replicate in Hf.
Qed.

Lemma coldStart_free s : coldStart s → freeAhead gNumFrameResources s.
Proof.
  intros (Hf & Hc & _) j Hj. rewrite Hf, Hc. unfold gNumFrameResources in *.
  assert (Hj' : j = 1 ∨ j = 2 ∨ j = 3) by lia.
  by destruct Hj' as [-> | [-> | ->]].
Qed.

Lemma Run_three_ring a b c s s' :
  coldStart s → Run [a; b; c] s = (Ok tt, s') →
  ringWF s' ∧
  fences s' = [mCurrentFence s + 3; mCurrentFence s + 1; mCurrentFence s + 2] ∧
  mCurrFrameResourceIndex s' = 0 ∧
  mCurrentFence s' = mCurrentFence s + 3.
Proof.
  intros Hcold HR. pose proof (coldStart_wf s Hcold) as Hwf.
  destruct Hcold as (Hf & Hc & _).
  rewrite Run_cons in HR.
  destruct (Frame a s) as [[[]|e] s1] eqn:E1; [|discriminate HR].
  destruct (Frame_ring a s s1 Hwf E1) as (Hwf1 & Hf1 & Hc1 & Hcf1).
  rewrite Run_cons in HR.
  destruct (Frame b s1) as [[[]|e] s2] eqn:E2; [|discriminate HR].
  destruct (Frame_ring b s1 s2 Hwf1 E2) as (Hwf2 & Hf2 & Hc2 & Hcf2).
  rewrite Run_cons in HR.
  destruct (Frame c s2) as [[[]|e] s3] eqn:E3; [|discriminate HR].
  destruct (Frame_ring c s2 s3 Hwf2 E3) as (Hwf3 & Hf3 & Hc3 & Hcf3).
  injection HR as <-.
  unfold nextSlot in *. rewrite Hc in Hc1, Hf1.
  change (Z.rem (0 + 1) gNumFrameResources) with 1 in Hc1, Hf1.
  rewrite Hc1 in Hc2, Hf2.
  change (Z.rem (1 + 1) gNumFrameResources) with 2 in Hc2, Hf2.
  rewrite Hc2 in Hc3, Hf3.
  change (Z.rem (2 + 1) gNumFrameResources) with 0 in Hc3, Hf3.
  rewrite Hf in Hf1. rewrite Hf1 in Hf2. rewrite Hf2 in Hf3.
  change (fences s3 = [mCurrentFence s2 + 1; mCurrentFence s + 1; mCurrentFence s1 + 1])
    in Hf3.
  split; [done|]. rewrite Hf3, Hc3, Hcf3, Hcf2, Hcf1.
  repeat split; [f_equal; [lia | f_equal; f_equal; lia] | lia].
Qed.

(** ** A whole frame in closed form *)

Lemma Frame_closed inp s s' fr :
  reclaimed s = Some fr → Frame inp s = (Ok tt, s') →
  s' =
  mkApp (<[slotOf (nextSlot s) :=
            setFence (mCurrentFence s + 1)
              (slotAfterUpdate inp (mAllRitems s) (mMaterials s) (Some (camera inp))
                               (mWaves s) (t_base s) fr)]>
           (mFrameResources s))
        (nextSlot s) (mCurrentFence s + 1)
        (Z.rem (mCurrBackBuffer s + 1) SwapChainBufferCount)
        (fst (flushObjects (mAllRitems s) (ObjectCB fr)))
        (fst (flushMaterials (animatedMaterials inp (mMaterials s)) (MaterialCB fr)))
        (Some (mainPassOf inp (camera inp)))
        (Some (camera inp)) (wavesAfter inp (mWaves s) (t_base s))
        (t_baseAfter inp (t_base s))
        (trace s ++ frameEvents inp s).
Proof.
  intros Hre HF. apply Frame_Ok in HF as ->.
  rewrite (afterUpdate_closed inp s fr Hre).
  erewrite afterDraw_closed.
  2:{ unfold mCurrFrameResource. simpl. apply list_lookup_insert_eq.
      by apply lookup_lt_Some in Hre. }
  simpl. rewrite list_insert_insert_eq. unfold frameEvents, submitEvents.
  by rewrite <- !app_assoc.
Qed.

Lemma stamps_app tr1 tr2 : stamps (tr1 ++ tr2) = stamps tr1 ++ stamps tr2.
Proof. apply omap_app. Qed.

Lemma stamps_updateEvents inp s : stamps (updateEvents inp s) = [].
Proof.
  unfold updateEvents, waitEvents, disturbEvents, disturbEvent.
  destruct (reclaimed s) as [fr|]; [destruct (mustWait _ fr)|];
    by destruct (disturbDue inp (t_base s)).
Qed.

Lemma stamps_frameEvents inp s :
  stamps (frameEvents inp s) = [(nextSlot s, mCurrentFence s + 1)].
Proof.
  unfold frameEvents. by rewrite stamps_app, stamps_updateEvents.
Qed.

Lemma Update_throw inp s e s' :
  Update inp s = (Throw e, s') →
  s' = UpdateHead inp s ∧ e = waitException inp ∧
  ∃ fr, reclaimed s = Some fr ∧ mustWait (completedValue inp) fr = true ∧
        FAILED (hrSetEventOnCompletion inp) = true.
Proof.
  rewrite Update_unfold; cbv zeta. rewrite UpdateHead_reclaimed.
  destruct (reclaimed s) as [fr|]; [|discriminate].
  destruct (mustWait _ fr) eqn:Ew; [|discriminate].
  destruct (FAILED _) eqn:Ef; [|discriminate].
  intros [= <- <-]. split; [done|]. split; [done|]. by exists fr.
Qed.

Lemma Draw_throw inp s e s' :
  Draw inp s = (Throw e, s') →
  mFrameResources s' = mFrameResources s ∧
  mCurrentFence s' = mCurrentFence s ∧
  mAllRitems s' = mAllRitems s ∧ mMaterials s' = mMaterials s ∧
  mWaves s' = mWaves s ∧ t_base s' = t_base s ∧
  (trace s' = trace s ∨
   trace s' = trace s ++ [EvRecord (mCurrFrameResourceIndex s)] ∨
   trace s' = trace s ++ [EvRecord (mCurrFrameResourceIndex s);
                          EvExecute (mCurrFrameResourceIndex s)]).
Proof.
  rewrite Draw_unfold.
  destruct (FAILED (hrAllocReset inp)); [intros [= <- <-]; tauto|].
  destruct (FAILED (hrListReset inp)); [intros [= <- <-]; tauto|].
  destruct (FAILED (hrClose inp)); [intros [= <- <-]; simpl; tauto|].
  destruct (FAILED (hrPresent inp)); [|discriminate].
  intros [= <- <-]; simpl. rewrite <- app_assoc. tauto.
Qed.

Lemma Draw_throw_stamps inp s e s' :
  Draw inp s = (Throw e, s') → stamps (trace s') = stamps (trace s).
Proof.
  intros HD. apply Draw_throw in HD as (_ & _ & _ & _ & _ & _ & [-> | [-> | ->]]);
    rewrite ?stamps_app; simpl; by rewrite ?app_nil_r.
Qed.

Lemma Frame_throw inp s e s' :
  ringWF s → Frame inp s = (Throw e, s') →
  fences s' = fences s ∧ mCurrentFence s' = mCurrentFence s ∧
  stamps (trace s') = stamps (trace s).
Proof.
  intros Hwf. unfold Frame, mbind, M_bind, bind.
  destruct (Update inp s) as [[[]|e1] s1] eqn:EU.
  - intros HD. apply Update_Ok in EU as ->.
    destruct (afterUpdate_ring inp s Hwf) as (Hf & _ & Hcf & _).
    pose proof (Draw_throw_stamps _ _ _ _ HD) as Hst.
    apply Draw_throw in HD as (Hfr & Hcf' & _).
    unfold fences in *. rewrite Hfr, Hcf', Hst. split; [done|]. split; [done|].
    destruct (ringWF_reclaimed s Hwf) as [fr Hre].
    rewrite (afterUpdate_closed inp s fr Hre). simpl.
    by rewrite stamps_app, stamps_updateEvents, app_nil_r.
  - intros [= <- <-]. apply Update_throw in EU as (-> & _).
    rewrite UpdateHead_closed. unfold fences. simpl.
    rewrite stamps_app. simpl. by rewrite app_nil_r.
Qed.

Lemma Frame_stamps inp s s' :
  ringWF s → Frame inp s = (Ok tt, s') →
  stamps (trace s') = stamps (trace s) ++ [(nextSlot s, mCurrentFence s + 1)].
Proof.
  intros Hwf HF. destruct (ringWF_reclaimed s Hwf) as [fr Hre].
  rewrite (Frame_closed inp s s' fr Hre HF). simpl.
  by rewrite stamps_app, stamps_frameEvents.
Qed.

(** ** Completion markers *)

Lemma StronglySorted_snoc (l : list Z) (x : Z) :
  StronglySorted Z.lt l → Forall (fun y => y < x) l → StronglySorted Z.lt (l ++ [x]).
Proof.
  induction 1 as [|y l Hs IH Hy]; intros Hx; simpl.
  - repeat constructor.
  - apply Forall_cons in Hx as [Hyx Hx]. constructor; [auto|].
    apply Forall_app; split; [done|by constructor].
Qed.

Lemma markersOK_Frame base inp s s' :
  ringWF s → 0 ≤ base ≤ mCurrentFence s → markersOK base s →
  Frame inp s = (Ok tt, s') → markersOK base s'.
Proof.
  intros Hwf Hbase (Hsorted & Hrange & Hslots) HF.
  pose proof (Frame_stamps inp s s' Hwf HF) as Hst.
  destruct (Frame_ring inp s s' Hwf HF) as (Hwf' & Hf & Hc & Hcf).
  unfold markersOK, markers. rewrite Hst, Hcf, map_app. simpl.
  split; [|split].
  - apply StronglySorted_snoc; [done|].
    eapply Forall_impl; [exact Hrange|]. simpl. intros; lia.
  - apply Forall_app; split.
    + eapply Forall_impl; [exact Hrange|]. simpl. intros; lia.
    + repeat constructor; lia.
  - intros k fr Hk Hfr.
    assert (Hfence : fences s' !! slotOf k = Some (Fence fr))
      by (unfold fences; by rewrite list_lookup_fmap, Hfr).
    rewrite Hf in Hfence.
    destruct (decide (k = nextSlot s)) as [->|Hne].
    + rewrite list_lookup_insert_eq in Hfence.
      2:{ unfold fences. rewrite length_map.
          pose proof (nextSlot_range s Hwf). destruct Hwf as [-> _].
          unfold slotOf. lia. }
      injection Hfence as <-. right. split; [lia|].
      apply elem_of_app. right. by apply list_elem_of_singleton.
    + rewrite list_lookup_insert_ne in Hfence.
      2:{ unfold slotOf. intros Heq. apply Z2Nat.inj in Heq; [congruence| |lia].
          apply (nextSlot_range s Hwf). }
      unfold fences in Hfence. rewrite list_lookup_fmap in Hfence.
      destruct (mFrameResources s !! slotOf k) as [fr0|] eqn:E0; [|done].
      injection Hfence as Hfence.
      destruct (Hslots k fr0 Hk E0) as [[Hz Hno] | [Hpos Hin]].
      * left. split; [congruence|]. intros f Hin.
        apply elem_of_app in Hin as [Hin | Hin]; [by apply (Hno f)|].
        apply list_elem_of_singleton in Hin. congruence.
      * right. rewrite <- Hfence. split; [done|]. apply elem_of_app. by left.
Qed.

Lemma markersOK_throw base inp s e s' :
  ringWF s → markersOK base s → Frame inp s = (Throw e, s') →
  markersOK base s'.
Proof.
  intros Hwf (Hsorted & Hrange & Hslots) HF.
  destruct (Frame_throw inp s e s' Hwf HF) as (Hf & Hcf & Hst).
  unfold markersOK, markers. rewrite Hst, Hcf. split; [done|]. split; [done|].
  intros k fr Hk Hfr.
  assert (Hfence : fences s !! slotOf k = Some (Fence fr))
    by (rewrite <- Hf; unfold fences; by rewrite list_lookup_fmap, Hfr).
  unfold fences in Hfence. rewrite list_lookup_fmap in Hfence.
  destruct (mFrameResources s !! slotOf k) as [fr0|] eqn:E0; [|done].
  injection Hfence as Hfence. rewrite <- Hfence. by apply Hslots.
Qed.

Lemma markersOK_Run base inps : ∀ s o s',
  ringWF s → 0 ≤ base ≤ mCurrentFence s → markersOK base s →
  Run inps s = (o, s') → markersOK base s'.
Proof.
  induction inps as [|inp rest IH]; intros s o s' Hwf Hbase Hok HR.
  - by injection HR as _ <-.
  - rewrite Run_cons in HR.
    destruct (Frame inp s) as [[[]|e] s1] eqn:EF.
    + destruct (Frame_ring inp s s1 Hwf EF) as (Hwf1 & _ & _ & Hcf).
      apply (IH s1 o s'); [done|lia| |done].
      by apply (markersOK_Frame base inp s).
    + injection HR as _ <-. by apply (markersOK_throw base inp s e).
Qed.

Lemma coldStart_markersOK s :
  coldStart s → stamps (trace s) = [] → markersOK (mCurrentFence s) s.
Proof.
  intros (Hf & Hc & Hpos) Hst. unfold markersOK, markers. rewrite Hst. simpl.
  split; [constructor|]. split; [constructor|].
  intros k fr Hk Hfr. left. split.
  - assert (Hfence : fences s !! slotOf k = Some (Fence fr))
      by (unfold fences; by rewrite list_lookup_fmap, Hfr).
    rewrite Hf in Hfence. apply lookup_replicate in Hfence. by destruct Hfence.
  - intros f Hin. by apply not_elem_of_nil in Hin.
Qed.

(** C6.  From a cold start, whatever the inputs and wherever the run ends:
    the markers stamped into the slots are strictly increasing in the order
    of stamping, each lies above the initial value of the fence counter
    (so each is positive) and at or below its current value, and a slot's
    marker is 0 exactly when no stamp was ever made on that slot. *)
Theorem markers_strictly_increasing (s0 : ShapesApp) (inps : list FrameInput)
    (o : Outcome unit) (s : ShapesApp) :
  coldStart s0 → stamps (trace s0) = [] → Run inps s0 = (o, s) →
  StronglySorted Z.lt (markers (trace s)) ∧
  Forall (fun f => 0 < f ∧ mCurrentFence s0 < f ≤ mCurrentFence s) (markers (trace s)) ∧
  ∀ k fr, 0 ≤ k < gNumFrameResources →
    mFrameResources s !! slotOf k = Some fr →
    (Fence fr = 0 ↔ ∀ f, (k, f) ∉ stamps (trace s)).
Proof.
  intros Hcold Hst HR.
  pose proof (coldStart_markersOK s0 Hcold Hst) as Hok.
  pose proof Hcold as (_ & _ & Hpos).
  assert (Hbase : 0 ≤ mCurrentFence s0 ≤ mCurrentFence s0) by lia.
  apply (markersOK_Run _ inps s0 o s (coldStart_wf s0 Hcold) Hbase) in Hok;
    [|done].
  destruct Hok as (Hsorted & Hrange & Hslots).
  split; [done|]. split.
  - eapply Forall_impl; [exact Hrange|]. simpl. intros; lia.
  - intros k fr Hk Hfr. destruct (Hslots k fr Hk Hfr) as [[Hz Hno] | [Hp Hin]].
    + tauto.
    + split; [lia|]. intros Hno. exfalso. by apply (Hno (Fence fr)).
Qed.

(** ** The application and the GPU timeline together *)

Lemma afterUpdate_curr inp s fr :
  reclaimed s = Some fr →
  ∃ fr', mCurrFrameResource (afterUpdate inp s) = Some fr' ∧ Fence fr' = Fence fr.
Proof.
  intros Hre. rewrite (afterUpdate_closed inp s fr Hre).
  unfold mCurrFrameResource. simpl. eexists. split.
  - apply list_lookup_insert_eq. by apply lookup_lt_Some in Hre.
  - reflexivity.
Qed.

(** The waits a call of [Update] that returned has recorded. *)
Lemma Update_recorded_waits inp s s' fr :
  ringWF s → reclaimed s = Some fr → Update inp s = (Ok tt, s') →
  waits (eventsOfFrame s s') =
    if mustWait (completedValue inp) fr then [Fence fr] else [].
Proof.
  intros Hwf Hre HU. rewrite (Update_events inp s s' Hwf HU), waits_updateEvents.
  unfold waitEvents. rewrite Hre. by destruct (mustWait _ fr).
Qed.

Lemma markers_afterUpdate inp s :
  ringWF s → markers (trace (afterUpdate inp s)) = markers (trace s).
Proof.
  intros Hwf. destruct (ringWF_reclaimed s Hwf) as [fr Hre].
  rewrite (afterUpdate_closed inp s fr Hre). unfold markers. simpl.
  by rewrite stamps_app, stamps_updateEvents, app_nil_r.
Qed.

Lemma markers_afterDraw s :
  ringWF s → markers (trace (afterDraw s)) = markers (trace s) ++ [mCurrentFence s + 1].
Proof.
  intros Hwf. destruct (ringWF_curr s Hwf) as [fr Hfr].
  rewrite (afterDraw_closed s fr Hfr). unfold markers. simpl.
  by rewrite stamps_app, map_app.
Qed.

Lemma sysInv_step sys sys' : sysInv sys → sysStep sys sys' → sysInv sys'.
Proof.
  intros (Hwf & Hc & Hacq & Hsort & Hle & Hheld) Hstep.
  destruct Hstep as [sys c Hcc | sys inp a' c' Hph Hcv HU Hcc Hsl | sys inp a' Hph HD];
    unfold sysInv; simpl.
  - split; [done|]. split; [lia|]. split; [|split; [done|split; [done|]]].
    + intros Ha. destruct (Hacq Ha) as (fr & Hfr & Hfle). exists fr. split; [done|lia].
    + intros f Hf Hlt. apply Hheld; [done|lia].
  - destruct (ringWF_reclaimed _ Hwf) as [fr Hre].
    rewrite (Update_recorded_waits inp _ a' fr Hwf Hre HU) in Hsl.
    pose proof (Update_Ok _ _ _ HU) as ->.
    destruct (afterUpdate_ring inp (app sys) Hwf) as (Hfs & _ & Hcf & _).
    rewrite (markers_afterUpdate inp _ Hwf), Hcf, Hfs.
    split; [by apply afterUpdate_wf|]. split; [lia|].
    split; [|split; [done|split; [done|]]].
    + intros _. destruct (afterUpdate_curr inp _ fr Hre) as (fr' & Hfr' & Hfence).
      exists fr'. split; [done|]. rewrite Hfence.
      destruct (mustWait (completedValue inp) fr) eqn:Ew.
      * by apply Forall_cons in Hsl as [? _].
      * unfold mustWait in Ew. rewrite Hcv in Ew.
        apply andb_false_iff in Ew as [Ew|Ew].
        -- apply negb_false_iff, Z.eqb_eq in Ew. lia.
        -- apply Z.ltb_ge in Ew. lia.
    + intros f Hf Hlt. apply Hheld; [done|lia].
  - pose proof (Draw_Ok _ _ _ HD) as ->.
    destruct (afterDraw_ring (app sys) Hwf) as (Hfs & Hcur & Hcf & Hl).
    destruct (Hacq Hph) as (fr & Hfr & Hfle).
    rewrite (markers_afterDraw _ Hwf), Hcf, Hfs.
    split; [split; [rewrite Hl; apply Hwf | rewrite Hcur; apply Hwf]|].
    split; [lia|]. split; [congruence|]. split; [|split].
    + apply StronglySorted_snoc; [done|].
      eapply Forall_impl; [exact Hle|]. intros f Hf. simpl in Hf. lia.
    + apply Forall_app. split; [|constructor; [lia|constructor]].
      eapply Forall_impl; [exact Hle|]. intros f Hf. simpl in Hf. lia.
    + intros f Hf Hlt.
      assert (Hlen : (slotOf (mCurrFrameResourceIndex (app sys)) < length (fences (app sys)))%nat).
      { unfold fences. rewrite length_map. by apply lookup_lt_Some in Hfr. }
      apply elem_of_app in Hf as [Hf|Hf].
      * destruct (proj1 (list_elem_of_lookup _ _) (Hheld f Hf Hlt)) as [i Hi].
        apply list_elem_of_lookup. exists i.
        rewrite list_lookup_insert_ne; [done|]. intros <-.
        unfold fences in Hi. rewrite list_lookup_fmap in Hi.
        unfold mCurrFrameResource in Hfr. rewrite Hfr in Hi.
        injection Hi as Hi. lia.
      * apply list_elem_of_singleton in Hf as ->.
        apply list_elem_of_lookup. exists (slotOf (mCurrFrameResourceIndex (app sys))).
        by apply list_lookup_insert_eq.
Qed.

Lemma sysInv_reachable sys0 sys :
  coldSystem sys0 → reachableFrom sys0 sys → sysInv sys.
Proof.
  intros (Hcold & Hst & Hc & Hph) Hreach.
  assert (H0 : sysInv sys0).
  { split; [by apply coldStart_wf|]. split; [done|]. split; [congruence|].
    unfold markers. rewrite Hst. simpl.
    split; [constructor|]. split; [constructor|].
    intros f Hf. by apply elem_of_nil in Hf. }
  clear Hcold Hst Hc Hph. induction Hreach as [|x y z Hxy _ IH]; [done|].
  apply IH. by apply (sysInv_step x).
Qed.

Lemma StronglySorted_lt_NoDup (l : list Z) : StronglySorted Z.lt l → NoDup l.
Proof.
  induction 1 as [|x l _ IH Hx]; constructor; [|done].
  intros Hin. rewrite Forall_forall in Hx. specialize (Hx x Hin). lia.
Qed.

(** A list without repetition whose elements are all in [k] is no longer
    than [k]. *)
Lemma NoDup_incl_length (l k : list Z) :
  NoDup l → (∀ x, x ∈ l → x ∈ k) → (length l ≤ length k)%nat.
Proof. intros Hnd Hin. apply submseteq_length. by apply NoDup_submseteq. Qed.

Lemma idle_update_step a c' :
  Update idleInput a = (Ok tt, updated a) →
  0 ≤ c' ≤ mCurrentFence a →
  Forall (fun f => f ≤ c') (waits (eventsOfFrame a (updated a))) →
  sysStep (mkSystem a 0 false) (mkSystem (updated a) c' true).
Proof.
  intros HU Hc Hw.
  by apply (step_update (mkSystem a 0 false) idleInput (updated a) c').
Qed.

Lemma idle_draw_step a c :
  Draw idleInput a = (Ok tt, drawn a) →
  sysStep (mkSystem a c true) (mkSystem (drawn a) c false).
Proof. intros HD. by apply (step_draw (mkSystem a c true) idleInput (drawn a)). Qed.

Lemma threeSubmitted_reachable :
  reachableFrom (mkSystem (Initialize 0) 0 false) (mkSystem threeSubmitted 0 false).
Proof.
  unfold threeSubmitted.
  set (a0 := Initialize 0).
  set (a1 := updated a0). set (a2 := drawn a1).
  set (a3 := updated a2). set (a4 := drawn a3).
  set (a5 := updated a4).
  eapply rtc_l; [apply (idle_update_step a0 0); [by vm_compute|by vm_compute|by vm_compute]|].
  eapply rtc_l; [apply (idle_draw_step a1); by vm_compute|].
  eapply rtc_l; [apply (idle_update_step a2 0); [by vm_compute|by vm_compute|by vm_compute]|].
  eapply rtc_l; [apply (idle_draw_step a3); by vm_compute|].
  eapply rtc_l; [apply (idle_update_step a4 0); [by vm_compute|by vm_compute|by vm_compute]|].
  eapply rtc_l; [apply (idle_draw_step a5); by vm_compute|].
  apply rtc_refl.
Qed.

(** The fourth call sleeps on marker 1 and returns once the fence has
    reached it. *)
Lemma fourthAcquired_reachable :
  reachableFrom (mkSystem (Initialize 0) 0 false) (mkSystem fourthAcquired 1 true).
Proof.
  eapply rtc_r; [exact threeSubmitted_reachable|].
  apply (idle_update_step threeSubmitted 1); [by vm_compute|by vm_compute|].
  assert (Hw : waits (eventsOfFrame threeSubmitted (updated threeSubmitted)) = [1])
    by (by vm_compute).
  rewrite Hw. constructor; [lia|constructor].
Qed.

Lemma coldSystem_Initialize :
  coldSystem (mkSystem (Initialize 0) 0 false).
Proof. repeat split; by vm_compute. Qed.

Lemma in_flight_bound_counterexample :
  coldSystem (mkSystem (Initialize 0) 0 false) ∧
  inFlightMarkers (mkSystem threeSubmitted 0 false) = [1; 2; 3] ∧
  ¬ (∀ sys, reachableFrom (mkSystem (Initialize 0) 0 false) sys →
            Z.of_nat (inFlight sys) ≤ gNumFrameResources - 1).
Proof.
  split; [exact coldSystem_Initialize|]. split; [by vm_compute|].
  intros H. specialize (H _ threeSubmitted_reachable).
  vm_compute in H. by apply H.
Qed.

(** C3 (amended).  In every state reachable from a cold start, the marker
    of every frame in flight is still on a slot of the ring (no slot of a
    frame in flight has been handed out again), so that at most
    [gNumFrameResources] frames are in flight; and at most
    [gNumFrameResources - 1] are while the thread holds a slot, that is
    from the return of [Update] to the stamp in [Draw], because the marker
    of the slot it holds has been reached. *)
Theorem in_flight_bound (sys0 sys : System) :
  coldSystem sys0 → reachableFrom sys0 sys →
  Forall (fun f => f ∈ fences (app sys)) (inFlightMarkers sys) ∧
  Z.of_nat (inFlight sys) ≤ gNumFrameResources ∧
  (acquired sys = true →
   (∃ fr, mCurrFrameResource (app sys) = Some fr ∧ Fence fr ∉ inFlightMarkers sys) ∧
   Z.of_nat (inFlight sys) ≤ gNumFrameResources - 1).
Proof.
  intros Hcold Hreach.
  destruct (sysInv_reachable sys0 sys Hcold Hreach)
    as (Hwf & Hc & Hacq & Hsort & Hle & Hheld).
  assert (Hnd : NoDup (inFlightMarkers sys)).
  { apply NoDup_filter. by apply StronglySorted_lt_NoDup. }
  assert (Hin : ∀ f, f ∈ inFlightMarkers sys → f ∈ fences (app sys)).
  { intros f Hf. apply list_elem_of_filter in Hf as [Hlt Hf]. by apply Hheld. }
  pose proof Hwf as [Hlen Hcur].
  assert (Hlf : length (fences (app sys)) = 3%nat)
    by (unfold fences; by rewrite length_map, Hlen).
  split; [by apply Forall_forall|]. split.
  - pose proof (NoDup_incl_length _ _ Hnd Hin) as Hl.
    unfold inFlight, gNumFrameResources. lia.
  - intros Ha. destruct (Hacq Ha) as (fr & Hfr & Hfle).
    assert (Hout : Fence fr ∉ inFlightMarkers sys).
    { intros Hf. apply list_elem_of_filter in Hf as [Hlt _]. lia. }
    split; [by exists fr|].
    assert (Hcf : fences (app sys) !! slotOf (mCurrFrameResourceIndex (app sys))
                  = Some (Fence fr)).
    { unfold fences. rewrite list_lookup_fmap.
      unfold mCurrFrameResource in Hfr. by rewrite Hfr. }
    assert (Hin' : ∀ f, f ∈ inFlightMarkers sys →
              f ∈ delete (slotOf (mCurrFrameResourceIndex (app sys))) (fences (app sys))).
    { intros f Hf. destruct (proj1 (list_elem_of_lookup _ _) (Hin f Hf)) as [i Hi].
      assert (Hne : i ≠ slotOf (mCurrFrameResourceIndex (app sys)))
        by (intros ->; rewrite Hcf in Hi; injection Hi as <-; by apply Hout).
      apply list_elem_of_lookup.
      destruct (decide (i < slotOf (mCurrFrameResourceIndex (app sys)))%nat).
      - exists i. by rewrite list_lookup_delete_lt.
      - exists (i - 1)%nat. rewrite list_lookup_delete_ge by lia.
        by replace (S (i - 1)) with i by lia. }
    pose proof (NoDup_incl_length _ _ Hnd Hin') as Hl.
    rewrite length_delete in Hl by (by rewrite Hcf).
    unfold inFlight, gNumFrameResources. lia.
Qed.

Lemma in_flight_bound_witness :
  coldSystem (mkSystem (Initialize 0) 0 false) ∧
  reachableFrom (mkSystem (Initialize 0) 0 false) (mkSystem fourthAcquired 1 true) ∧
  inFlightMarkers (mkSystem fourthAcquired 1 true) = [2; 3] ∧
  Z.of_nat (inFlight (mkSystem fourthAcquired 1 true)) ≤ gNumFrameResources - 1.
Proof.
  split; [exact coldSystem_Initialize|]. split; [exact fourthAcquired_reachable|].
  split; [by vm_compute|].
  exact (proj2 (proj2 (proj2 (in_flight_bound _ _ coldSystem_Initialize
                                 fourthAcquired_reachable)) eq_refl)).
Defined.

(** ** Order of the sub-steps of a frame *)

Lemma subSteps_frameEvents inp s fr :
  reclaimed s = Some fr →
  subSteps (frameEvents inp s)
  = codeOrder (mustWait (completedValue inp) fr) (disturbDue inp (t_base s)).
Proof.
  intros Hre.
  unfold frameEvents, updateEvents, waitEvents, disturbEvents, disturbEvent,
    submitEvents, subSteps. rewrite Hre.
  by destruct (mustWait _ fr), (disturbDue inp (t_base s)).
Qed.

Lemma Frame_events inp s s' :
  ringWF s → Frame inp s = (Ok tt, s') → eventsOfFrame s s' = frameEvents inp s.
Proof.
  intros Hwf HF. destruct (ringWF_reclaimed s Hwf) as [fr Hre].
  rewrite (Frame_closed inp s s' fr Hre HF). unfold eventsOfFrame. simpl.
  by rewrite drop_app_length.
Qed.

Lemma firstFrame_ok : Frame idleInput (Initialize 0) = (Ok tt, firstFrame).
Proof. by vm_compute. Qed.

Lemma Initialize_wf fence0 : ringWF (Initialize fence0).
Proof. split; [done|]. simpl. unfold gNumFrameResources. lia. Qed.

(** In the order of the code, whether the frame waits or disturbs: the
    height field is advanced after the pass constants are written and
    before the vertices are copied, and not before the object constants
    are flushed. *)
Lemma codeOrder_heightField (waited disturbed : bool) :
  precedes SWritePass SAdvanceHeightField (codeOrder waited disturbed) ∧
  precedes SAdvanceHeightField SCopyVertices (codeOrder waited disturbed) ∧
  ¬ precedes SAdvanceHeightField SFlushObjects (codeOrder waited disturbed).
Proof.
  split; [|split].
  - destruct waited, disturbed;
      [exists 5%nat, 7%nat|exists 5%nat, 6%nat|exists 4%nat, 6%nat|exists 4%nat, 5%nat];
      repeat split; lia.
  - destruct waited, disturbed;
      [exists 7%nat, 8%nat|exists 6%nat, 7%nat|exists 6%nat, 7%nat|exists 5%nat, 6%nat];
      repeat split; lia.
  - intros (i & j & Hi & Hj & Hlt). destruct waited, disturbed; cbn in Hi, Hj.
    all: repeat (destruct i as [|i]; simpl in Hi; try discriminate Hi).
    all: repeat (destruct j as [|j]; simpl in Hj; try discriminate Hj); lia.
Qed.

(** The order of the claim fails on the first frame of the application:
    the height field is not advanced before the constant-buffer flushes. *)
Lemma frame_substep_order_counterexample :
  ringWF (Initialize 0) ∧
  Frame idleInput (Initialize 0) = (Ok tt, firstFrame) ∧
  subSteps (eventsOfFrame (Initialize 0) firstFrame) ≠ specOrder ∧
  ¬ precedes SAdvanceHeightField SFlushObjects
      (subSteps (eventsOfFrame (Initialize 0) firstFrame)).
Proof.
  split; [apply Initialize_wf|]. split; [apply firstFrame_ok|].
  destruct (ringWF_reclaimed _ (Initialize_wf 0)) as [fr Hre].
  rewrite (Frame_events _ _ _ (Initialize_wf 0) firstFrame_ok),
    (subSteps_frameEvents _ _ fr Hre).
  split; [|apply codeOrder_heightField].
  by destruct (mustWait _ fr), (disturbDue _ _).
Qed.

(** C4 (amended).  Every frame that runs to its end appends to the trace
    exactly these events, in this order: keyboard input and camera; the
    move of the cursor to the next slot; if the slot's marker has not been
    reached, the wait for it; the advance of the animated materials; the
    flush of the object constants; the flush of the material constants;
    the write of the pass constants; if a disturbance is due, the
    [Disturb]; the advance of the height field; the copy of its vertices
    into the slot; record, submit, present, stamp, signal.  So the wait
    precedes every write to the slot, and the height field is advanced
    after the three constant-buffer writes (never before the flushes) and
    before its vertices are copied. *)
Theorem frame_substep_order (inp : FrameInput) (s s' : ShapesApp) :
  ringWF s → Frame inp s = (Ok tt, s') →
  ∃ fr, reclaimed s = Some fr ∧
    let slot := nextSlot s in
    let waited := mustWait (completedValue inp) fr in
    let disturbed := disturbDue inp (t_base s) in
    trace s' = trace s ++ eventsOfFrame s s' ∧
    eventsOfFrame s s' =
      [EvKeyboardInput; EvUpdateCamera; EvAcquire slot]
      ++ (if waited then [EvWait (Fence fr)] else [])
      ++ [EvAnimateMaterials; EvUpdateObjectCBs; EvUpdateMaterialCBs;
          EvUpdateMainPassCB]
      ++ (if disturbed
          then [EvDisturb (Rand 4 (RowCount (mWaves s) - 5) (rand_i inp))
                          (Rand 4 (ColumnCount (mWaves s) - 5) (rand_j inp))
                          (RandF 0.2 0.5 (rand_r inp))]
          else [])
      ++ [EvWavesUpdate (DeltaTime (gt inp)); EvWavesCopy slot;
          EvRecord slot; EvExecute slot; EvPresent;
          EvStamp slot (mCurrentFence s + 1); EvSignal (mCurrentFence s + 1)] ∧
    subSteps (eventsOfFrame s s') = codeOrder waited disturbed ∧
    precedes SWritePass SAdvanceHeightField (subSteps (eventsOfFrame s s')) ∧
    precedes SAdvanceHeightField SCopyVertices (subSteps (eventsOfFrame s s')) ∧
    ¬ precedes SAdvanceHeightField SFlushObjects (subSteps (eventsOfFrame s s')).
Proof.
  intros Hwf HF. destruct (ringWF_reclaimed s Hwf) as [fr Hre].
  exists fr. split; [exact Hre|]. cbv zeta.
  rewrite (Frame_events inp s s' Hwf HF), (subSteps_frameEvents inp s fr Hre).
  split; [by rewrite (Frame_closed inp s s' fr Hre HF)|].
  split; [|split; [reflexivity|apply codeOrder_heightField]].
  unfold frameEvents, updateEvents, waitEvents, disturbEvents, disturbEvent,
    disturbRow, disturbColumn, disturbMagnitude, submitEvents.
  rewrite Hre. rewrite <- !app_assoc. reflexivity.
Qed.

Lemma lateFrame_ok : Frame lateInput threeSubmitted = (Ok tt, lateFrame).
Proof. by vm_compute. Qed.

Lemma threeSubmitted_wf : ringWF threeSubmitted.
Proof.
  split; [by vm_compute|].
  assert (H : mCurrFrameResourceIndex threeSubmitted = 0) by (by vm_compute).
  rewrite H. unfold gNumFrameResources. lia.
Qed.

Lemma frame_substep_order_witness :
  ringWF threeSubmitted ∧
  Frame lateInput threeSubmitted = (Ok tt, lateFrame) ∧
  subSteps (eventsOfFrame threeSubmitted lateFrame) = codeOrder true true ∧
  eventsOfFrame threeSubmitted lateFrame =
    [EvKeyboardInput; EvUpdateCamera; EvAcquire 1; EvWait 1;
     EvAnimateMaterials; EvUpdateObjectCBs; EvUpdateMaterialCBs; EvUpdateMainPassCB;
     EvDisturb 44 81 0.3500%Q;
     EvWavesUpdate 0.27%Q; EvWavesCopy 1;
     EvRecord 1; EvExecute 1; EvPresent; EvStamp 1 4; EvSignal 4].
Proof.
  split; [exact threeSubmitted_wf|]. split; [exact lateFrame_ok|].
  destruct (frame_substep_order lateInput threeSubmitted lateFrame
              threeSubmitted_wf lateFrame_ok) as (fr & Hre & _ & Hev & Hsub & _).
  assert (Hfr : reclaimed threeSubmitted = Some oldestSlot) by (by vm_compute).
  assert (E : fr = oldestSlot) by congruence. subst fr.
  assert (Hw : mustWait (completedValue lateInput) oldestSlot = true) by (by vm_compute).
  assert (Hd : disturbDue lateInput (t_base threeSubmitted) = true) by (by vm_compute).
  rewrite Hw, Hd in Hsub, Hev.
  split; [exact Hsub|]. rewrite Hev. vm_compute. reflexivity.
Defined.

(** ** Failure of the wait primitive *)

(** C8.  When the slot being reclaimed is still in flight and
    [SetEventOnCompletion] fails, [Update] throws: the frame and the whole
    run end with that exception, no later input is consumed (no retry), and
    the state left behind is the one right after the cursor moved: no
    constant buffer, vertex region or marker of any slot was written,
    no dirty counter, material, wave state or fence counter changed, and
    the trace ends with the acquisition. *)
Theorem wait_failure_is_fatal (inp : FrameInput) (rest : list FrameInput)
    (s : ShapesApp) (fr : FrameResource) :
  reclaimed s = Some fr →
  mustWait (completedValue inp) fr = true →
  FAILED (hrSetEventOnCompletion inp) = true →
  let s' := UpdateHead inp s in
  Update inp s = (Throw (waitException inp), s') ∧
  Frame inp s = (Throw (waitException inp), s') ∧
  Run (inp :: rest) s = (Throw (waitException inp), s') ∧
  mFrameResources s' = mFrameResources s ∧
  mAllRitems s' = mAllRitems s ∧
  mMaterials s' = mMaterials s ∧
  mWaves s' = mWaves s ∧ t_base s' = t_base s ∧
  mCurrentFence s' = mCurrentFence s ∧
  trace s' = trace s ++ [EvKeyboardInput; EvUpdateCamera; EvAcquire (nextSlot s)].
Proof.
  intros Hre Hw Hf s'.
  assert (HU : Update inp s = (Throw (waitException inp), s')).
  { rewrite Update_unfold; cbv zeta.
    rewrite UpdateHead_reclaimed, Hre, Hw, Hf. reflexivity. }
  assert (HF : Frame inp s = (Throw (waitException inp), s')).
  { unfold Frame, mbind, M_bind, bind. by rewrite HU. }
  split; [done|]. split; [done|]. split; [by rewrite Run_cons, HF|].
  subst s'. by rewrite UpdateHead_closed.
Qed.

Lemma wait_failure_is_fatal_witness :
  reclaimed threeSubmitted = Some oldestSlot ∧
  mustWait (completedValue failingWait) oldestSlot = true ∧
  FAILED (hrSetEventOnCompletion failingWait) = true ∧
  Run [failingWait; idleInput] threeSubmitted
  = (Throw (waitException failingWait), UpdateHead failingWait threeSubmitted).
Proof.
  assert (Hre : reclaimed threeSubmitted = Some oldestSlot) by (by vm_compute).
  assert (Hw : mustWait (completedValue failingWait) oldestSlot = true)
    by (by vm_compute).
  split; [exact Hre|]. split; [exact Hw|]. split; [reflexivity|].
  exact (proj1 (proj2 (proj2
    (wait_failure_is_fatal failingWait [idleInput] threeSubmitted oldestSlot
       Hre Hw eq_refl)))).
Defined.

(** ** The height field of the application *)

Lemma waves_parameters_counterexample :
  ¬ claimedWaves (mWaves (Initialize 0)) ∧
  ¬ (TimeStep (mWaves (Initialize 0)) == 0.2)%Q ∧
  ¬ (Damping (mWaves (Initialize 0)) == 0.03)%Q.
Proof.
  assert (H1 : ¬ (TimeStep (mWaves (Initialize 0)) == 0.2)%Q) by (by vm_compute).
  assert (H2 : ¬ (Damping (mWaves (Initialize 0)) == 0.03)%Q) by (by vm_compute).
  split; [|done]. intros (_ & _ & _ & H & _). by apply H2.
Qed.

Lemma wavesAfter_parameters inp w tb :
  waveParameters (wavesAfter inp w tb) = waveParameters w.
Proof.
  unfold wavesAfter, wavesDisturbed, Waves_Update, Waves_Disturb.
  destruct (disturbDue inp tb); [destruct (interiorCell _ _ _)|]; reflexivity.
Qed.

Lemma Frame_waveParameters inp s o s' :
  ringWF s → Frame inp s = (o, s') →
  waveParameters (mWaves s') = waveParameters (mWaves s).
Proof.
  intros Hwf. destruct (ringWF_reclaimed s Hwf) as [fr Hre].
  unfold Frame, mbind, M_bind, bind.
  destruct (Update inp s) as [[[]|e] s1] eqn:EU.
  - apply Update_Ok in EU as ->. intros HD.
    assert (Hw : mWaves s' = mWaves (afterUpdate inp s)).
    { destruct o as [[]|e].
      - apply Draw_Ok in HD as ->.
        destruct (ringWF_curr _ (afterUpdate_wf inp s Hwf)) as [fr1 Hfr1].
        by rewrite (afterDraw_closed _ fr1 Hfr1).
      - by apply Draw_throw in HD as (_ & _ & _ & _ & ? & _). }
    rewrite Hw, (afterUpdate_closed inp s fr Hre). simpl.
    apply wavesAfter_parameters.
  - intros [= <- <-]. apply Update_throw in EU as (-> & _).
    by rewrite UpdateHead_closed.
Qed.

Lemma Frame_wf inp s s' : ringWF s → Frame inp s = (Ok tt, s') → ringWF s'.
Proof. intros Hwf HF. by destruct (Frame_ring inp s s' Hwf HF). Qed.

Lemma Run_waveParameters inps : ∀ s o s',
  ringWF s → Run inps s = (o, s') →
  waveParameters (mWaves s') = waveParameters (mWaves s).
Proof.
  induction inps as [|inp rest IH]; intros s o s' Hwf HR.
  - by injection HR as _ <-.
  - rewrite Run_cons in HR.
    destruct (Frame inp s) as [[[]|e] s1] eqn:EF.
    + rewrite (IH s1 o s' (Frame_wf inp s s1 Hwf EF) HR).
      by apply (Frame_waveParameters inp s (Ok tt)).
    + injection HR as _ <-. by apply (Frame_waveParameters inp s (Throw e)).
Qed.

(** C5 (amended).  [Initialize] constructs the height field as a 128 by
    128 grid with spatial step 1.0, time step 0.03, wave speed 4.0 and
    damping 0.2, and no frame ever replaces it or changes these
    parameters. *)
Theorem waves_parameters (fence0 : Z) (inps : list FrameInput)
    (o : Outcome unit) (s : ShapesApp) :
  Run inps (Initialize fence0) = (o, s) →
  boundWaves (mWaves (Initialize fence0)) ∧ boundWaves (mWaves s).
Proof.
  intros HR.
  assert (H0 : boundWaves (mWaves (Initialize fence0))) by (by repeat split).
  split; [done|].
  pose proof (Run_waveParameters inps _ o s (Initialize_wf fence0) HR) as Hp.
  unfold waveParameters in Hp. simpl in Hp.
  injection Hp as Hr Hc Hdx Hdt Hsp Hda.
  unfold boundWaves. rewrite Hr, Hc, Hdx, Hdt, Hsp, Hda. by repeat split.
Qed.

Lemma waves_parameters_witness :
  Run [idleInput] (Initialize 0) = (Ok tt, firstFrame) ∧ boundWaves (mWaves firstFrame).
Proof.
  assert (HR : Run [idleInput] (Initialize 0) = (Ok tt, firstFrame)) by (by vm_compute).
  split; [exact HR|].
  exact (proj2 (waves_parameters 0 [idleInput] (Ok tt) firstFrame HR)).
Defined.

(** ** Dirty counters *)

Lemma flushObjects_counters items : ∀ cb,
  map NumFramesDirty (fst (flushObjects items cb))
  = map flushedCounter (map NumFramesDirty items).
Proof.
  induction items as [|e rest IH]; intros cb; [done|]. simpl.
  unfold flushedCounter at 1.
  destruct (0 <? NumFramesDirty e).
  - specialize (IH (<[ObjCBIndex e := objConstantsOf e]> cb)).
    destruct (flushObjects rest _) as [rest' cb']. simpl in *. by rewrite IH.
  - specialize (IH cb).
    destruct (flushObjects rest cb) as [rest' cb']. simpl in *. by rewrite IH.
Qed.

Lemma flushMaterials_counters ms : ∀ cb,
  map (fun kv => MatNumFramesDirty (snd kv)) (fst (flushMaterials ms cb))
  = map flushedCounter (map (fun kv => MatNumFramesDirty (snd kv)) ms).
Proof.
  induction ms as [|[name m] rest IH]; intros cb; [done|]. simpl.
  unfold flushedCounter at 1.
  destruct (0 <? MatNumFramesDirty m).
  - specialize (IH (<[MatCBIndex m := matConstantsOf m]> cb)).
    destruct (flushMaterials rest _) as [rest' cb']. simpl in *. by rewrite IH.
  - specialize (IH cb).
    destruct (flushMaterials rest cb) as [rest' cb']. simpl in *. by rewrite IH.
Qed.

Lemma flushedCounter_range n : dirtyInRange n → dirtyInRange (flushedCounter n).
Proof.
  unfold dirtyInRange, flushedCounter, gNumFrameResources.
  destruct (Z.ltb_spec 0 n); lia.
Qed.

Lemma Forall_flushed (l : list Z) :
  Forall dirtyInRange l → Forall dirtyInRange (map flushedCounter l).
Proof.
  intros H. apply Forall_fmap. eapply Forall_impl; [exact H|].
  intros n. apply flushedCounter_range.
Qed.

Lemma animatedMaterials_range inp ms :
  Forall dirtyInRange (map (fun kv => MatNumFramesDirty (snd kv)) ms) →
  Forall dirtyInRange
    (map (fun kv => MatNumFramesDirty (snd kv)) (animatedMaterials inp ms)).
Proof.
  unfold animatedMaterials, onMaterial.
  induction ms as [|[name m] rest IH]; [done|]. simpl.
  intros H. apply Forall_cons in H as [Hm H]. constructor; [|by apply IH].
  destruct (String.eqb name "water"); [|done].
  simpl. unfold dirtyInRange, gNumFrameResources. lia.
Qed.

Lemma afterUpdate_countersInRange inp s :
  ringWF s → countersInRange s → countersInRange (afterUpdate inp s).
Proof.
  intros Hwf [Hi Hm]. destruct (ringWF_reclaimed s Hwf) as [fr Hre].
  rewrite (afterUpdate_closed inp s fr Hre). split; simpl.
  - rewrite flushObjects_counters. by apply Forall_flushed.
  - rewrite flushMaterials_counters. by apply Forall_flushed, animatedMaterials_range.
Qed.

Lemma Draw_scene inp s o s' :
  Draw inp s = (o, s') →
  mAllRitems s' = mAllRitems s ∧ mMaterials s' = mMaterials s.
Proof.
  destruct o as [[]|e]; intros HD.
  - apply Draw_Ok in HD as ->. unfold afterDraw, DrawTail. by simpl.
  - by apply Draw_throw in HD as (_ & _ & ? & ? & _).
Qed.

Lemma Frame_countersInRange inp s o s' :
  ringWF s → countersInRange s → Frame inp s = (o, s') → countersInRange s'.
Proof.
  intros Hwf Hok. unfold Frame, mbind, M_bind, bind.
  destruct (Update inp s) as [[[]|e] s1] eqn:EU.
  - apply Update_Ok in EU as ->. intros HD.
    destruct (Draw_scene _ _ _ _ HD) as [Hi Hm].
    pose proof (afterUpdate_countersInRange inp s Hwf Hok) as [? ?].
    unfold countersInRange. by rewrite Hi, Hm.
  - intros [= <- <-]. apply Update_throw in EU as (-> & _).
    by rewrite UpdateHead_closed.
Qed.

Lemma Initialize_counters fence0 :
  Forall (fun n => n = gNumFrameResources)
         (map NumFramesDirty (mAllRitems (Initialize fence0))) ∧
  Forall (fun n => n = gNumFrameResources)
         (map (fun kv => MatNumFramesDirty (snd kv)) (mMaterials (Initialize fence0))).
Proof. split; vm_compute; repeat constructor. Qed.

(** C10.  Every render item and every material is created with its
    counter at [gNumFrameResources]; from then on, whatever the inputs and
    wherever the run ends, every counter lies between 0 and
    [gNumFrameResources]: a flush takes one off a counter that is
    positive and leaves any other alone, and the animation of the water
    material sets its counter back to [gNumFrameResources]. *)
Theorem dirty_counters_in_range (fence0 : Z) (inps : list FrameInput)
    (o : Outcome unit) (s : ShapesApp) :
  Run inps (Initialize fence0) = (o, s) →
  countersInRange (Initialize fence0) ∧ countersInRange s ∧
  (∀ items cb, map NumFramesDirty (fst (flushObjects items cb))
               = map flushedCounter (map NumFramesDirty items)) ∧
  (∀ ms cb, map (fun kv => MatNumFramesDirty (snd kv)) (fst (flushMaterials ms cb))
            = map flushedCounter (map (fun kv => MatNumFramesDirty (snd kv)) ms)) ∧
  (∀ dt m, MatNumFramesDirty (animateWater dt m) = gNumFrameResources).
Proof.
  intros HR.
  assert (H0 : countersInRange (Initialize fence0)).
  { destruct (Initialize_counters fence0) as [Hi Hm].
    split; (eapply Forall_impl; [eassumption|]);
      intros n ->; unfold dirtyInRange, gNumFrameResources; lia. }
  split; [done|]. split.
  - revert HR. generalize (Initialize_wf fence0). revert H0.
    generalize (Initialize fence0). clear fence0.
    induction inps as [|inp rest IH]; intros s0 H0 Hwf HR.
    + by injection HR as _ <-.
    + rewrite Run_cons in HR.
      destruct (Frame inp s0) as [[[]|e] s1] eqn:EF.
      * apply (IH s1); [|by apply (Frame_wf inp s0)|done].
        by apply (Frame_countersInRange inp s0 (Ok tt)).
      * injection HR as _ <-. by apply (Frame_countersInRange inp s0 (Throw e)).
  - split; [intros; apply flushObjects_counters|].
    split; [intros; apply flushMaterials_counters|done].
Qed.

Lemma dirty_counters_in_range_witness :
  Run [idleInput] (Initialize 0) = (Ok tt, firstFrame) ∧ countersInRange firstFrame.
Proof.
  assert (HR : Run [idleInput] (Initialize 0) = (Ok tt, firstFrame)) by (by vm_compute).
  split; [exact HR|].
  exact (proj1 (proj2 (dirty_counters_in_range 0 [idleInput] (Ok tt) firstFrame HR))).
Defined.

(** ** The flush loops in closed form *)

Lemma flushObjects_items items : ∀ cb,
  fst (flushObjects items cb) = map flushedItem items.
Proof.
  induction items as [|e rest IH]; intros cb; [done|]. simpl.
  unfold flushedItem at 1. destruct (0 <? NumFramesDirty e).
  - specialize (IH (<[ObjCBIndex e := objConstantsOf e]> cb)).
    destruct (flushObjects rest _) as [rest' cb']. simpl in *. by rewrite IH.
  - specialize (IH cb).
    destruct (flushObjects rest cb) as [rest' cb']. simpl in *. by rewrite IH.
Qed.

Lemma flushMaterials_materials ms : ∀ cb,
  fst (flushMaterials ms cb) = map (fun kv => (fst kv, flushedMaterial (snd kv))) ms.
Proof.
  induction ms as [|[name m] rest IH]; intros cb; [done|]. simpl.
  unfold flushedMaterial at 1. destruct (0 <? MatNumFramesDirty m).
  - specialize (IH (<[MatCBIndex m := matConstantsOf m]> cb)).
    destruct (flushMaterials rest _) as [rest' cb']. simpl in *. by rewrite IH.
  - specialize (IH cb).
    destruct (flushMaterials rest cb) as [rest' cb']. simpl in *. by rewrite IH.
Qed.

(** An element no material of the list is bound to is left alone. *)
Lemma flushMaterials_other ms : ∀ cb i,
  Forall (fun kv => MatCBIndex (snd kv) ≠ i) ms →
  snd (flushMaterials ms cb) !! i = cb !! i.
Proof.
  induction ms as [|[name m] rest IH]; intros cb i Hne; [done|].
  apply Forall_cons in Hne as [Hm Hne]. simpl in *.
  destruct (0 <? MatNumFramesDirty m).
  - specialize (IH (<[MatCBIndex m := matConstantsOf m]> cb) i Hne).
    destruct (flushMaterials rest _) as [rest' cb']. simpl in *.
    by rewrite IH, lookup_insert_ne.
  - specialize (IH cb i Hne).
    by destruct (flushMaterials rest cb) as [rest' cb'].
Qed.

(** A dirty material whose index is its own ends up in the buffer. *)
Lemma flushMaterials_lookup ms : ∀ cb name m,
  NoDup (map (fun kv => MatCBIndex (snd kv)) ms) →
  (name, m) ∈ ms → 0 < MatNumFramesDirty m →
  snd (flushMaterials ms cb) !! MatCBIndex m = Some (matConstantsOf m).
Proof.
  induction ms as [|[name0 m0] rest IH]; intros cb name m Hnd Hin Hdirty.
  - by apply not_elem_of_nil in Hin.
  - simpl in Hnd. apply NoDup_cons in Hnd as [Hfresh Hnd].
    apply elem_of_cons in Hin as [Heq | Hin].
    + injection Heq as <- <-. simpl.
      apply Z.ltb_lt in Hdirty. rewrite Hdirty.
      pose proof (flushMaterials_other rest
        (<[MatCBIndex m := matConstantsOf m]> cb) (MatCBIndex m)) as Ho.
      destruct (flushMaterials rest _) as [rest' cb']. simpl in *.
      rewrite Ho; [by rewrite lookup_insert_eq|].
      apply Forall_forall. intros kv Hkv Heq. apply Hfresh.
      rewrite <- Heq. apply list_elem_of_fmap. by exists kv.
    + simpl. destruct (0 <? MatNumFramesDirty m0).
      * specialize (IH (<[MatCBIndex m0 := matConstantsOf m0]> cb) name m Hnd Hin Hdirty).
        by destruct (flushMaterials rest _) as [rest' cb'].
      * specialize (IH cb name m Hnd Hin Hdirty).
        by destruct (flushMaterials rest cb) as [rest' cb'].
Qed.

(** ** The water material *)

Lemma matKeys_animated inp ms : matKeys (animatedMaterials inp ms) = matKeys ms.
Proof.
  unfold matKeys, animatedMaterials, onMaterial. rewrite map_map.
  apply map_ext. intros [name m]. simpl. by destruct (String.eqb name "water").
Qed.

Lemma matKeys_flushed ms cb : matKeys (fst (flushMaterials ms cb)) = matKeys ms.
Proof.
  rewrite flushMaterials_materials. unfold matKeys. rewrite map_map.
  apply map_ext. intros [name m]. simpl. unfold flushedMaterial.
  by destruct (0 <? MatNumFramesDirty m).
Qed.

Lemma Frame_matKeys inp s o s' :
  ringWF s → Frame inp s = (o, s') → matKeys (mMaterials s') = matKeys (mMaterials s).
Proof.
  intros Hwf. destruct (ringWF_reclaimed s Hwf) as [fr Hre].
  unfold Frame, mbind, M_bind, bind.
  destruct (Update inp s) as [[[]|e] s1] eqn:EU.
  - apply Update_Ok in EU as ->. intros HD.
    destruct (Draw_scene _ _ _ _ HD) as [_ ->].
    rewrite (afterUpdate_closed inp s fr Hre). simpl.
    by rewrite matKeys_flushed, matKeys_animated.
  - intros [= <- <-]. apply Update_throw in EU as (-> & _).
    by rewrite UpdateHead_closed.
Qed.

Lemma Run_matKeys inps : ∀ s o s',
  ringWF s → Run inps s = (o, s') → matKeys (mMaterials s') = matKeys (mMaterials s).
Proof.
  induction inps as [|inp rest IH]; intros s o s' Hwf HR.
  - by injection HR as _ <-.
  - rewrite Run_cons in HR.
    destruct (Frame inp s) as [[[]|e] s1] eqn:EF.
    + rewrite (IH s1 o s' (Frame_wf inp s s1 Hwf EF) HR).
      by apply (Frame_matKeys inp s (Ok tt)).
    + injection HR as _ <-. by apply (Frame_matKeys inp s (Throw e)).
Qed.

Lemma Run_wf inps : ∀ s s', ringWF s → Run inps s = (Ok tt, s') → ringWF s'.
Proof.
  induction inps as [|inp rest IH]; intros s s' Hwf HR.
  - by injection HR as <-.
  - rewrite Run_cons in HR.
    destruct (Frame inp s) as [[[]|e] s1] eqn:EF; [|discriminate].
    apply (IH s1); [by apply (Frame_wf inp s)|done].
Qed.

Lemma animated_water inp ms m :
  ("water", m) ∈ animatedMaterials inp ms →
  MatNumFramesDirty m = gNumFrameResources.
Proof.
  unfold animatedMaterials, onMaterial. intros Hin.
  apply list_elem_of_fmap in Hin as ([name m0] & Heq & _). simpl in Heq.
  destruct (String.eqb_spec name "water") as [->|Hne].
  - by injection Heq as ->.
  - injection Heq as <- _. done.
Qed.

Lemma water_animated inp ms m :
  ("water", m) ∈ ms →
  ("water", animateWater (DeltaTime (gt inp)) m) ∈ animatedMaterials inp ms.
Proof.
  intros Hin. unfold animatedMaterials, onMaterial.
  apply list_elem_of_fmap. exists ("water", m). by split.
Qed.

Lemma matKeys_elem (ms : list (string * Material)) name i :
  (name, i) ∈ matKeys ms → ∃ m, (name, m) ∈ ms ∧ MatCBIndex m = i.
Proof.
  unfold matKeys. intros Hin.
  apply list_elem_of_fmap in Hin as ([name0 m] & Heq & Hin).
  injection Heq as -> ->. by exists m.
Qed.

Lemma matKeys_indices (ms : list (string * Material)) :
  map (fun kv => MatCBIndex (snd kv)) ms = map snd (matKeys ms).
Proof. unfold matKeys. by rewrite map_map. Qed.

(** C9.  In every frame of the application that runs to its end: when
    [UpdateMaterialCBs] examines the materials, the counter of the water
    material is [gNumFrameResources], not 0, because [AnimateMaterials] has
    just set it; the constants of the water material, as animated in this
    frame, are in the material buffer of the frame's slot; and the frame
    leaves the counter at [gNumFrameResources - 1]. *)
Theorem water_always_dirty (fence0 : Z) (inps : list FrameInput)
    (inp : FrameInput) (s s' : ShapesApp) :
  Run inps (Initialize fence0) = (Ok tt, s) →
  Frame inp s = (Ok tt, s') →
  (∀ m, ("water", m) ∈ animatedMaterials inp (mMaterials s) →
        MatNumFramesDirty m = gNumFrameResources) ∧
  (∃ m fr', ("water", m) ∈ animatedMaterials inp (mMaterials s) ∧
        mCurrFrameResource s' = Some fr' ∧
        MaterialCB fr' !! MatCBIndex m = Some (matConstantsOf m)) ∧
  (∀ m', ("water", m') ∈ mMaterials s' →
        MatNumFramesDirty m' = gNumFrameResources - 1).
Proof.
  intros HR HF.
  pose proof (Run_wf inps _ s (Initialize_wf fence0) HR) as Hwf.
  pose proof (Run_matKeys inps _ _ s (Initialize_wf fence0) HR) as Hkeys.
  destruct (ringWF_reclaimed s Hwf) as [fr Hre].
  pose proof (Frame_closed inp s s' fr Hre HF) as Hs'.
  split; [intros m; apply animated_water|]. split.
  - assert (Hw : ("water", 4) ∈ matKeys (mMaterials s)).
    { rewrite Hkeys. apply list_elem_of_In. vm_compute. tauto. }
    apply matKeys_elem in Hw as (m & Hin & Hidx).
    exists (animateWater (DeltaTime (gt inp)) m). eexists.
    split; [by apply water_animated|]. split.
    + rewrite Hs'. unfold mCurrFrameResource. simpl.
      apply list_lookup_insert_eq. by apply lookup_lt_Some in Hre.
    + apply (flushMaterials_lookup _ _ "water" (animateWater (DeltaTime (gt inp)) m)).
      * rewrite matKeys_indices, matKeys_animated, Hkeys.
        apply NoDup_ListNoDup. vm_compute.
        repeat (constructor; [simpl; intuition discriminate|]). constructor.
      * by apply water_animated.
      * simpl. unfold gNumFrameResources. lia.
  - intros m' Hin. rewrite Hs' in Hin. simpl in Hin.
    rewrite flushMaterials_materials in Hin.
    apply list_elem_of_fmap in Hin as ([name m] & Heq & Hin). simpl in Heq.
    injection Heq as <- ->.
    apply animated_water in Hin. unfold flushedMaterial. rewrite Hin. by simpl.
Qed.

Lemma water_always_dirty_witness :
  Run [] (Initialize 0) = (Ok tt, Initialize 0) ∧
  Frame idleInput (Initialize 0) = (Ok tt, firstFrame) ∧
  ∀ m', ("water", m') ∈ mMaterials firstFrame →
        MatNumFramesDirty m' = gNumFrameResources - 1.
Proof.
  split; [reflexivity|]. split; [apply firstFrame_ok|].
  exact (proj2 (proj2 (water_always_dirty 0 [] idleInput (Initialize 0) firstFrame
                         eq_refl firstFrame_ok))).
Defined.

(** ** The wave driver *)

Lemma disturbances_app tr1 tr2 :
  disturbances (tr1 ++ tr2) = disturbances tr1 ++ disturbances tr2.
Proof. apply omap_app. Qed.

Lemma Rand_range a b r : a ≤ b → 0 ≤ r → a ≤ Rand a b r ≤ b.
Proof.
  intros Hab Hr. unfold Rand.
  rewrite Z.rem_mod_nonneg by lia.
  pose proof (Z.mod_pos_bound r (b - a + 1) ltac:(lia)). lia.
Qed.

Lemma disturbEvents_target inp w tb :
  9 ≤ RowCount w → 9 ≤ ColumnCount w → randOK inp →
  Forall (targetOK w) (disturbances (disturbEvents inp w tb)).
Proof.
  intros Hr Hc [Hi Hj]. unfold disturbEvents, disturbEvent.
  destruct (disturbDue inp tb); [|constructor]. simpl.
  constructor; [|constructor]. unfold targetOK, disturbRow, disturbColumn, interiorCell.
  pose proof (Rand_range 4 (RowCount w - 5) (rand_i inp) ltac:(lia) Hi).
  pose proof (Rand_range 4 (ColumnCount w - 5) (rand_j inp) ltac:(lia) Hj).
  split; [done|]. split; [done|].
  repeat (apply andb_true_intro; split); apply Z.ltb_lt; lia.
Qed.

Lemma disturbances_updateEvents inp s :
  disturbances (updateEvents inp s)
  = disturbances (disturbEvents inp (mWaves s) (t_base s)).
Proof.
  unfold updateEvents, waitEvents. rewrite !disturbances_app.
  destruct (reclaimed s) as [fr|]; [destruct (mustWait _ fr)|];
    simpl; by rewrite app_nil_r.
Qed.

(** What a frame does to the accumulator and to the list of disturbances:
    nothing when [Update] threw, one pass through [UpdateWaves] otherwise. *)
Lemma Frame_disturb inp s o s' :
  ringWF s → Frame inp s = (o, s') →
  (t_base s' = t_base s ∧ disturbances (trace s') = disturbances (trace s)) ∨
  (t_base s' = t_baseAfter inp (t_base s) ∧
   disturbances (trace s')
   = disturbances (trace s) ++ disturbances (disturbEvents inp (mWaves s) (t_base s))).
Proof.
  intros Hwf. destruct (ringWF_reclaimed s Hwf) as [fr Hre].
  unfold Frame, mbind, M_bind, bind.
  destruct (Update inp s) as [[[]|e] s1] eqn:EU.
  - apply Update_Ok in EU as ->. intros HD. right.
    assert (Hd : t_base s' = t_base (afterUpdate inp s) ∧
                 disturbances (trace s') = disturbances (trace (afterUpdate inp s))).
    { destruct o as [[]|e].
      - apply Draw_Ok in HD as ->.
        destruct (ringWF_curr _ (afterUpdate_wf inp s Hwf)) as [fr1 Hfr1].
        rewrite (afterDraw_closed _ fr1 Hfr1). simpl.
        by rewrite disturbances_app, app_nil_r.
      - apply Draw_throw in HD as (_ & _ & _ & _ & _ & Htb & [-> | [-> | ->]]);
          rewrite ?disturbances_app; simpl; by rewrite ?app_nil_r. }
    destruct Hd as [-> ->]. rewrite (afterUpdate_closed inp s fr Hre). simpl.
    by rewrite disturbances_app, disturbances_updateEvents.
  - intros [= <- <-]. apply Update_throw in EU as (-> & _). left.
    rewrite UpdateHead_closed. simpl.
    by rewrite disturbances_app, app_nil_r.
Qed.

Lemma inject_succ (n : nat) :
  (inject_Z (Z.of_nat (S n)) == inject_Z (Z.of_nat n) + 1)%Q.
Proof. rewrite Nat2Z.inj_succ. unfold Z.succ. by rewrite inject_Z_plus. Qed.

Lemma paced_Frame T inp s o s' :
  ringWF s → (TotalTime (gt inp) <= T)%Q → paced T s →
  Frame inp s = (o, s') → paced T s'.
Proof.
  intros Hwf HT [Hb Hle] HF.
  destruct (Frame_disturb inp s o s' Hwf HF) as [[Htb Hd] | [Htb Hd]];
    unfold paced; rewrite Htb, Hd; [done|].
  unfold t_baseAfter, disturbEvents, disturbEvent.
  destruct (disturbDue inp (t_base s)) eqn:Edue; simpl.
  - rewrite length_app. simpl. rewrite Nat.add_1_r, inject_succ.
    unfold disturbDue in Edue. apply Qle_bool_iff in Edue.
    split; lra.
  - by rewrite app_nil_r.
Qed.

Lemma Frame_one_disturbance inp s o s' :
  ringWF s → Frame inp s = (o, s') →
  (length (disturbances (trace s')) ≤ length (disturbances (trace s)) + 1)%nat.
Proof.
  intros Hwf HF.
  destruct (Frame_disturb inp s o s' Hwf HF) as [[_ ->] | [_ ->]]; [lia|].
  rewrite length_app. unfold disturbEvents.
  destruct (disturbDue _ _); simpl; lia.
Qed.

Lemma Run_disturb T inps : ∀ s o s',
  ringWF s → 9 ≤ RowCount (mWaves s) → 9 ≤ ColumnCount (mWaves s) →
  Forall (fun inp => randOK inp ∧ (TotalTime (gt inp) <= T)%Q) inps →
  paced T s → Forall (targetOK (mWaves s)) (disturbances (trace s)) →
  Run inps s = (o, s') →
  paced T s' ∧ Forall (targetOK (mWaves s)) (disturbances (trace s')).
Proof.
  induction inps as [|inp rest IH]; intros s o s' Hwf Hr Hc Hin Hp Ht HR.
  - by injection HR as _ <-.
  - rewrite Run_cons in HR. apply Forall_cons in Hin as [[Hrand HT] Hin].
    assert (Hstep : ∀ o1 s1, Frame inp s = (o1, s1) →
              paced T s1 ∧ Forall (targetOK (mWaves s)) (disturbances (trace s1))).
    { intros o1 s1 HF. split; [by apply (paced_Frame T inp s o1)|].
      destruct (Frame_disturb inp s o1 s1 Hwf HF) as [[_ ->] | [_ ->]]; [done|].
      apply Forall_app. split; [done|]. by apply disturbEvents_target. }
    destruct (Frame inp s) as [[[]|e] s1] eqn:EF.
    + destruct (Hstep (Ok tt) s1 eq_refl) as [Hp1 Ht1].
      pose proof (Frame_waveParameters inp s (Ok tt) s1 Hwf EF) as Hpar.
      unfold waveParameters in Hpar. injection Hpar as Hr1 Hc1 _ _ _ _.
      assert (Hsame : ∀ d, targetOK (mWaves s1) d ↔ targetOK (mWaves s) d).
      { intros [[i j] r]. unfold targetOK, interiorCell. by rewrite Hr1, Hc1. }
      destruct (IH s1 o s') as [Hp' Ht']; try done.
      * by apply (Frame_wf inp s).
      * by rewrite Hr1.
      * by rewrite Hc1.
      * eapply Forall_impl; [exact Ht1|]. intros d. apply Hsame.
      * split; [done|]. eapply Forall_impl; [exact Ht'|]. intros d. apply Hsame.
    + injection HR as _ <-. by apply (Hstep (Throw e)).
Qed.

(** The per-quarter pacing fails after the first frame of the
    application: a frame at 1.0 s and the next at 1.001 s both disturb. *)
Lemma disturb_interior_and_paced_counterexample :
  Run [idleInput] (Initialize 0) = (Ok tt, firstFrame) ∧
  Frame stallInput firstFrame = (Ok tt, stalled) ∧
  Frame catchUpInput stalled = (Ok tt, caughtUp) ∧
  disturbances (eventsOfFrame firstFrame stalled) = [(44, 81, 0.3500%Q)] ∧
  disturbances (eventsOfFrame stalled caughtUp) = [(24, 37, 0.27500%Q)] ∧
  ¬ pacedPerQuarter firstFrame.
Proof.
  assert (H1 : Frame stallInput firstFrame = (Ok tt, stalled)) by (by vm_compute).
  assert (H2 : Frame catchUpInput stalled = (Ok tt, caughtUp)) by (by vm_compute).
  assert (D1 : disturbances (eventsOfFrame firstFrame stalled) = [(44, 81, 0.3500%Q)])
    by (by vm_compute).
  assert (D2 : disturbances (eventsOfFrame stalled caughtUp) = [(24, 37, 0.27500%Q)])
    by (by vm_compute).
  split; [by vm_compute|]. do 4 (split; [assumption|]).
  intros Hp. specialize (Hp stallInput catchUpInput stalled caughtUp H1 H2).
  unfold disturbedIn in Hp. rewrite D1, D2 in Hp.
  specialize (Hp ltac:(discriminate) ltac:(discriminate)).
  vm_compute in Hp. by apply Hp.
Qed.

Lemma Qle_bool_ext (a b c d : Q) :
  ((a <= b)%Q ↔ (c <= d)%Q) → Qle_bool a b = Qle_bool c d.
Proof.
  intros H. apply eq_true_iff_eq. by rewrite !Qle_bool_iff.
Qed.

(** C7 (amended).  In a run of the application, with the C generator
    yielding non-negative numbers and the total time of every frame at
    most [T], itself at most [2 ^ 22] seconds (up to there the multiples
    of a quarter second are values of the [float] format and the sum
    [t_base += 0.25f] is exact): every [Disturb] the driver issues targets
    a row and a column between 4 and count - 5, a cell the simulator
    accepts as interior, never a boundary cell; the accumulator [t_base],
    one variable for all calls, stands at a quarter second per disturbance
    issued, so that [k] disturbances take at least [k] quarter seconds of
    total time; a frame issues at most one; and the next complete frame
    issues one exactly when its total time has reached [k + 1] quarter
    seconds, however little time has gone by since the last one. *)
Theorem disturb_interior_and_paced (fence0 : Z) (T : Q) (inps : list FrameInput)
    (o : Outcome unit) (s : ShapesApp) :
  (0 <= T)%Q → (T <= 4194304)%Q →
  Forall (fun inp => randOK inp ∧ (TotalTime (gt inp) <= T)%Q) inps →
  Run inps (Initialize fence0) = (o, s) →
  let k := length (disturbances (trace s)) in
  Forall (targetOK (mWaves (Initialize fence0))) (disturbances (trace s)) ∧
  (t_base s == 0.25 * inject_Z (Z.of_nat k))%Q ∧
  (0.25 * inject_Z (Z.of_nat k) <= T)%Q ∧
  (∀ inp s', o = Ok tt → Frame inp s = (Ok tt, s') →
     disturbances (eventsOfFrame s s') =
       if Qle_bool (0.25 * inject_Z (Z.of_nat (k + 1))) (TotalTime (gt inp))
       then [(Rand 4 (RowCount (mWaves s) - 5) (rand_i inp),
              Rand 4 (ColumnCount (mWaves s) - 5) (rand_j inp),
              RandF 0.2 0.5 (rand_r inp))]
       else []) ∧
  (∀ inp s1 o1 s2, ringWF s1 → Frame inp s1 = (o1, s2) →
     (length (disturbances (trace s2)) ≤ length (disturbances (trace s1)) + 1)%nat).
Proof.
  intros HT _ Hin HR.
  assert (Hp0 : paced T (Initialize fence0))
    by (split; simpl; change (inject_Z (Z.of_nat 0)) with 0%Q; lra).
  assert (Ht0 : Forall (targetOK (mWaves (Initialize fence0)))
                  (disturbances (trace (Initialize fence0)))) by constructor.
  assert (Hr : 9 ≤ RowCount (mWaves (Initialize fence0))) by (simpl; lia).
  assert (Hc : 9 ≤ ColumnCount (mWaves (Initialize fence0))) by (simpl; lia).
  destruct (Run_disturb T inps (Initialize fence0) o s
              (Initialize_wf fence0) Hr Hc Hin Hp0 Ht0 HR) as [[Hb Hle] Ht].
  cbv zeta. split; [done|]. split; [done|]. split; [done|]. split.
  - intros inp s' -> HF.
    pose proof (Run_wf inps _ s (Initialize_wf fence0) HR) as Hwf.
    rewrite (Frame_events inp s s' Hwf HF).
    unfold frameEvents. rewrite disturbances_app, disturbances_updateEvents.
    simpl. rewrite app_nil_r.
    unfold disturbEvents, disturbEvent, disturbDue, disturbRow, disturbColumn,
      disturbMagnitude.
    rewrite (Qle_bool_ext 0.25 (TotalTime (gt inp) - t_base s)
               (0.25 * inject_Z (Z.of_nat (length (disturbances (trace s)) + 1)))
               (TotalTime (gt inp))).
    + by destruct (Qle_bool _ _).
    + rewrite Nat.add_1_r, inject_succ, Hb. split; intros; lra.
  - intros inp s1 o1 s2. apply Frame_one_disturbance.
Qed.

Lemma disturb_interior_and_paced_witness :
  Run [quarterInput 0.25; quarterInput 0.5] (Initialize 0) = (Ok tt, twoQuarters) ∧
  disturbances (trace twoQuarters) = [(44, 81, 0.3500%Q); (44, 81, 0.3500%Q)] ∧
  Forall (targetOK (mWaves (Initialize 0))) (disturbances (trace twoQuarters)) ∧
  (t_base twoQuarters == 0.5)%Q.
Proof.
  assert (HR : Run [quarterInput 0.25; quarterInput 0.5] (Initialize 0)
               = (Ok tt, twoQuarters)) by (by vm_compute).
  assert (Hd : disturbances (trace twoQuarters) = [(44, 81, 0.3500%Q); (44, 81, 0.3500%Q)])
    by (by vm_compute).
  split; [exact HR|]. split; [exact Hd|].
  destruct (disturb_interior_and_paced 0 0.5 [quarterInput 0.25; quarterInput 0.5]
              (Ok tt) twoQuarters
              ltac:(vm_compute; discriminate) ltac:(vm_compute; discriminate)
              ltac:(repeat constructor; vm_compute; discriminate) HR)
    as (Ht & Hb & _).
  split; [exact Ht|]. rewrite Hb, Hd. reflexivity.
Defined.

(** The pacing is cumulative: when the accumulator lags behind the total
    time, consecutive frames catch up with one disturbance each, however
    close together they are. *)
Lemma disturb_catch_up :
  length (disturbances (trace (snd (Run [quarterInput 1.0; quarterInput 1.001]
                                        (Initialize 0))))) = 2%nat.
Proof. vm_compute. reflexivity. Qed.

(** ** Propagation of object constants into the slots *)

Lemma Frame_objects inp s s' :
  ringWF s → Frame inp s = (Ok tt, s') →
  ∃ cb, objectCBs s !! slotOf (nextSlot s) = Some cb ∧
        mAllRitems s' = map flushedItem (mAllRitems s) ∧
        objectCBs s'
        = <[slotOf (nextSlot s) := snd (flushObjects (mAllRitems s) cb)]> (objectCBs s).
Proof.
  intros Hwf HF. destruct (ringWF_reclaimed s Hwf) as [fr Hre].
  exists (ObjectCB fr). split.
  - unfold objectCBs, reclaimed in *. by rewrite list_lookup_fmap, Hre.
  - rewrite (Frame_closed inp s s' fr Hre HF). unfold objectCBs. simpl.
    by rewrite flushObjects_items, list_fmap_insert.
Qed.

Lemma scene_index_collision :
  BuildRenderItems !! 1%nat = Some treeSpritesRitem ∧
  BuildRenderItems !! 4%nat = Some backWallRitem ∧
  Mat treeSpritesRitem = "treeSprites" ∧ Mat backWallRitem = "brick" ∧
  ObjCBIndex treeSpritesRitem = 3 ∧ ObjCBIndex backWallRitem = 3 ∧
  NumFramesDirty treeSpritesRitem = gNumFrameResources ∧
  World treeSpritesRitem = Identity4x4 ∧
  ¬ (f4x (row0 (ocWorld (objConstantsOf backWallRitem)))
     == f4x (row0 (ocWorld (objConstantsOf treeSpritesRitem))))%Q.
Proof. repeat split; vm_compute; congruence. Qed.

(** The object buffers of the three slots once three frames have run from
    a state whose cursor is 0: they do not depend on the inputs. *)
Lemma Run_three_objects a b c s0 s c0 c1 c2 :
  ringWF s0 → mCurrFrameResourceIndex s0 = 0 → objectCBs s0 = [c0; c1; c2] →
  Run [a; b; c] s0 = (Ok tt, s) →
  let items0 := mAllRitems s0 in
  let items1 := map flushedItem items0 in
  let items2 := map flushedItem items1 in
  objectCBs s = [snd (flushObjects items2 c0); snd (flushObjects items0 c1);
                 snd (flushObjects items1 c2)].
Proof.
  intros Hwf Hc0 Hcbs HR.
  rewrite Run_cons in HR.
  destruct (Frame a s0) as [[[]|e] s1] eqn:E1; [|discriminate HR].
  destruct (Frame_ring a _ s1 Hwf E1) as (Hwf1 & _ & Hc1 & _).
  destruct (Frame_objects a _ s1 Hwf E1) as (cb1 & Hcb1 & Hi1 & Ho1).
  rewrite Run_cons in HR.
  destruct (Frame b s1) as [[[]|e] s2] eqn:E2; [|discriminate HR].
  destruct (Frame_ring b _ s2 Hwf1 E2) as (Hwf2 & _ & Hc2 & _).
  destruct (Frame_objects b _ s2 Hwf1 E2) as (cb2 & Hcb2 & Hi2 & Ho2).
  rewrite Run_cons in HR.
  destruct (Frame c s2) as [[[]|e] s3] eqn:E3; [|discriminate HR].
  destruct (Frame_objects c _ s3 Hwf2 E3) as (cb3 & Hcb3 & Hi3 & Ho3).
  injection HR as <-.
  assert (H1 : nextSlot s0 = 1) by (unfold nextSlot; by rewrite Hc0).
  rewrite H1 in *.
  assert (H2 : nextSlot s1 = 2) by (unfold nextSlot; by rewrite Hc1).
  rewrite H2 in *.
  assert (H3 : nextSlot s2 = 0) by (unfold nextSlot; by rewrite Hc2).
  rewrite H3 in *.
  rewrite Hcbs in Hcb1, Ho1. injection Hcb1 as <-.
  rewrite Ho1 in Hcb2, Ho2. injection Hcb2 as <-.
  rewrite Ho2 in Hcb3, Ho3. injection Hcb3 as <-.
  intros items0 items1 items2. subst items0 items1 items2.
  rewrite Ho3, Hi2, Hi1. reflexivity.
Qed.

(** C2, on the scene of the application.  Both the tree sprites and the back
    wall are created dirty for all three slots.  After three frames, for any
    inputs, element 3 of every slot's object buffer holds the constants of
    the back wall and not those of the tree sprites: the later item of the
    list overwrites the earlier one in each flush. *)
Theorem dirty_propagation_collision (fence0 : Z) (a b c : FrameInput) (s : ShapesApp) :
  Run [a; b; c] (Initialize fence0) = (Ok tt, s) →
  length (mFrameResources s) = Z.to_nat gNumFrameResources ∧
  Forall (fun fr =>
            ObjectCB fr !! ObjCBIndex treeSpritesRitem
              = Some (objConstantsOf backWallRitem) ∧
            ObjectCB fr !! ObjCBIndex treeSpritesRitem
              ≠ Some (objConstantsOf treeSpritesRitem))
         (mFrameResources s).
Proof.
  intros HR.
  pose proof (Run_three_objects a b c (Initialize fence0) s ∅ ∅ ∅
                (Initialize_wf fence0) eq_refl eq_refl HR) as Ho.
  pose proof (Run_wf _ _ s (Initialize_wf fence0) HR) as [Hlen _].
  split; [done|].
  cbv zeta in Ho.
  assert (Hall : Forall (fun cb : gmap Z ObjectConstants =>
                   cb !! ObjCBIndex treeSpritesRitem
                   = Some (objConstantsOf backWallRitem)) (objectCBs s)).
  { rewrite Ho.
    apply Forall_cons; split; [vm_compute; reflexivity|].
    apply Forall_cons; split; [vm_compute; reflexivity|].
    apply Forall_cons; split; [vm_compute; reflexivity|].
    apply Forall_nil_2. }
  unfold objectCBs in Hall. rewrite Forall_fmap in Hall.
  eapply Forall_impl; [exact Hall|]. intros fr Hfr.
  unfold compose in Hfr. split; [done|].
  rewrite Hfr. intros Heq.
  destruct scene_index_collision as (_ & _ & _ & _ & _ & _ & _ & _ & Hne).
  apply Hne.
  assert (E : objConstantsOf backWallRitem = objConstantsOf treeSpritesRitem)
    by congruence.
  by rewrite E.
Qed.

Lemma dirty_propagation_collision_witness :
  Run [idleInput; idleInput; idleInput] (Initialize 0) = (Ok tt, threeSubmitted) ∧
  Forall (fun fr =>
            ObjectCB fr !! ObjCBIndex treeSpritesRitem
              = Some (objConstantsOf backWallRitem) ∧
            ObjectCB fr !! ObjCBIndex treeSpritesRitem
              ≠ Some (objConstantsOf treeSpritesRitem))
         (mFrameResources threeSubmitted).
Proof.
  assert (HR : Run [idleInput; idleInput; idleInput] (Initialize 0)
               = (Ok tt, threeSubmitted)) by (vm_compute; reflexivity).
  split; [exact HR|].
  exact (proj2 (dirty_propagation_collision 0 idleInput idleInput idleInput
                  threeSubmitted HR)).
Defined.

(** ** Propagation when the buffer index is the item's own *)

(** An element no item of the list is bound to is left alone. *)
Lemma flushObjects_other items : ∀ cb i,
  Forall (fun e => ObjCBIndex e ≠ i) items →
  snd (flushObjects items cb) !! i = cb !! i.
Proof.
  induction items as [|e rest IH]; intros cb i Hne; [done|].
  apply Forall_cons in Hne as [He Hne]. simpl in *.
  destruct (0 <? NumFramesDirty e).
  - specialize (IH (<[ObjCBIndex e := objConstantsOf e]> cb) i Hne).
    destruct (flushObjects rest _) as [rest' cb']. simpl in *.
    by rewrite IH, lookup_insert_ne.
  - specialize (IH cb i Hne).
    by destruct (flushObjects rest cb) as [rest' cb'].
Qed.

Lemma flushObjects_lookup items : ∀ p cb e,
  items !! p = Some e → exclusiveIndex p items → 0 < NumFramesDirty e →
  snd (flushObjects items cb) !! ObjCBIndex e = Some (objConstantsOf e).
Proof.
  induction items as [|x rest IH]; intros p cb e Hp Hex Hdirty; [done|].
  destruct p as [|p]; simpl in Hp.
  - injection Hp as ->. simpl. apply Z.ltb_lt in Hdirty. rewrite Hdirty.
    pose proof (flushObjects_other rest
      (<[ObjCBIndex e := objConstantsOf e]> cb) (ObjCBIndex e)) as Ho.
    destruct (flushObjects rest _) as [rest' cb']. simpl in *.
    rewrite Ho; [by rewrite lookup_insert_eq|].
    apply Forall_forall. intros e' Hin Heq.
    apply list_elem_of_lookup in Hin as [q Hq].
    by specialize (Hex (S q) e e' eq_refl Hq Heq).
  - assert (Hx : ObjCBIndex x ≠ ObjCBIndex e).
    { intros Heq. by specialize (Hex 0%nat e x Hp eq_refl Heq). }
    assert (Hex' : exclusiveIndex p rest).
    { intros q e1 e2 H1 H2 Heq.
      specialize (Hex (S q) e1 e2 H1 H2 Heq). lia. }
    simpl. destruct (0 <? NumFramesDirty x).
    + specialize (IH p (<[ObjCBIndex x := objConstantsOf x]> cb) e Hp Hex' Hdirty).
      by destruct (flushObjects rest _) as [rest' cb'].
    + specialize (IH p cb e Hp Hex' Hdirty).
      by destruct (flushObjects rest cb) as [rest' cb'].
Qed.

Lemma flushedItem_constants e :
  objConstantsOf (flushedItem e) = objConstantsOf e ∧
  ObjCBIndex (flushedItem e) = ObjCBIndex e.
Proof. unfold flushedItem. by destruct (0 <? NumFramesDirty e). Qed.

Lemma exclusiveIndex_flushed p items :
  exclusiveIndex p items → exclusiveIndex p (map flushedItem items).
Proof.
  intros Hex q e e' Hp Hq Heq.
  rewrite list_lookup_fmap in Hp, Hq.
  destruct (items !! p) as [e0|] eqn:E0; [|done].
  destruct (items !! q) as [e1|] eqn:E1; [|done].
  injection Hp as <-. injection Hq as <-.
  destruct (flushedItem_constants e0) as [_ H0].
  destruct (flushedItem_constants e1) as [_ H1].
  apply (Hex q e0 e1); congruence.
Qed.

(** The buffers after three frames, for any position of the cursor: each
    slot was written by exactly one of the three flushes. *)
Lemma Run_three_objects_any a b c s0 s :
  ringWF s0 → Run [a; b; c] s0 = (Ok tt, s) →
  let items0 := mAllRitems s0 in
  let items1 := map flushedItem items0 in
  let items2 := map flushedItem items1 in
  Forall (fun cb => ∃ cb0,
            cb = snd (flushObjects items0 cb0) ∨
            cb = snd (flushObjects items1 cb0) ∨
            cb = snd (flushObjects items2 cb0))
         (objectCBs s).
Proof.
  intros Hwf HR.
  rewrite Run_cons in HR.
  destruct (Frame a s0) as [[[]|e] s1] eqn:E1; [|discriminate HR].
  destruct (Frame_ring a _ s1 Hwf E1) as (Hwf1 & _ & Hc1 & _).
  destruct (Frame_objects a _ s1 Hwf E1) as (cb1 & _ & Hi1 & Ho1).
  rewrite Run_cons in HR.
  destruct (Frame b s1) as [[[]|e] s2] eqn:E2; [|discriminate HR].
  destruct (Frame_ring b _ s2 Hwf1 E2) as (Hwf2 & _ & Hc2 & _).
  destruct (Frame_objects b _ s2 Hwf1 E2) as (cb2 & _ & Hi2 & Ho2).
  rewrite Run_cons in HR.
  destruct (Frame c s2) as [[[]|e] s3] eqn:E3; [|discriminate HR].
  destruct (Frame_objects c _ s3 Hwf2 E3) as (cb3 & _ & Hi3 & Ho3).
  injection HR as <-.
  intros items0 items1 items2. subst items0 items1 items2.
  assert (Hn1 : nextSlot s1 = Z.rem (nextSlot s0 + 1) gNumFrameResources)
    by (unfold nextSlot at 1; by rewrite Hc1).
  assert (Hn2 : nextSlot s2
                = Z.rem (Z.rem (nextSlot s0 + 1) gNumFrameResources + 1)
                        gNumFrameResources)
    by (unfold nextSlot at 1; by rewrite Hc2, Hn1).
  rewrite Ho3, Ho2, Ho1, Hi2, Hi1, Hn2, Hn1. clear Hn1 Hn2 Ho1 Ho2 Ho3.
  destruct Hwf as [Hlen Hcur].
  assert (Hl : length (objectCBs s0) = 3%nat)
    by (unfold objectCBs; by rewrite length_map, Hlen).
  destruct (objectCBs s0) as [|u [|v [|w [|? ?]]]]; try discriminate Hl.
  unfold nextSlot. generalize dependent (mCurrFrameResourceIndex s0).
  intros c0 Hcur. unfold gNumFrameResources in *.
  assert (Hc0 : c0 = 0 ∨ c0 = 1 ∨ c0 = 2) by lia.
  destruct Hc0 as [-> | [-> | ->]]; simpl;
    repeat (apply Forall_cons; split; [eexists; eauto|]); apply Forall_nil_2.
Qed.

(** The mechanism of the claim, where the index is exclusive: an item that
    has just been marked dirty for all slots, and that is the only item
    bound to its element, has its constants in every slot after
    [gNumFrameResources] frames. *)
Lemma dirty_propagation_exclusive (a b c : FrameInput) (s0 s : ShapesApp)
    (p : nat) (e : RenderItem) :
  ringWF s0 → mAllRitems s0 !! p = Some e →
  NumFramesDirty e = gNumFrameResources → exclusiveIndex p (mAllRitems s0) →
  Run [a; b; c] s0 = (Ok tt, s) →
  length (mFrameResources s) = Z.to_nat gNumFrameResources ∧
  Forall (fun fr => ObjectCB fr !! ObjCBIndex e = Some (objConstantsOf e))
         (mFrameResources s).
Proof.
  intros Hwf Hp Hdirty Hex HR.
  pose proof (Run_wf _ _ s Hwf HR) as [Hlen _]. split; [done|].
  pose proof (Run_three_objects_any a b c s0 s Hwf HR) as Hall. cbv zeta in Hall.
  unfold objectCBs in Hall. rewrite Forall_fmap in Hall.
  eapply Forall_impl; [exact Hall|]. intros fr (cb0 & Hcb). unfold compose in Hcb.
  set (e1 := flushedItem e). set (e2 := flushedItem e1).
  assert (H1 : map flushedItem (mAllRitems s0) !! p = Some e1)
    by (by rewrite list_lookup_fmap, Hp).
  assert (H2 : map flushedItem (map flushedItem (mAllRitems s0)) !! p = Some e2)
    by (by rewrite list_lookup_fmap, H1).
  assert (Hn1 : NumFramesDirty e1 = 2)
    by (subst e1; unfold flushedItem; by rewrite Hdirty).
  assert (Hn2 : NumFramesDirty e2 = 1)
    by (subst e2; unfold flushedItem; by rewrite Hn1).
  destruct (flushedItem_constants e) as [Hk1 Hx1].
  destruct (flushedItem_constants e1) as [Hk2 Hx2].
  fold e1 in Hk1, Hx1. fold e2 in Hk2, Hx2.
  destruct Hcb as [-> | [-> | ->]].
  - apply (flushObjects_lookup _ p); [done|done|].
    rewrite Hdirty. unfold gNumFrameResources. lia.
  - rewrite <- Hk1, <- Hx1.
    apply (flushObjects_lookup _ p); [done|by apply exclusiveIndex_flushed|lia].
  - rewrite <- Hk1, <- Hx1, <- Hk2, <- Hx2.
    apply (flushObjects_lookup _ p);
      [done|by do 2 apply exclusiveIndex_flushed|lia].
Qed.

(** An index that occurs once in the list is exclusive. *)
Lemma count_one_unique (l : list Z) (x : Z) : ∀ p q,
  count_occ Z.eq_dec l x = 1%nat → l !! p = Some x → l !! q = Some x → p = q.
Proof.
  induction l as [|y l IH]; intros p q Hc Hp Hq; [done|].
  simpl in Hc.
  assert (Hzero : ∀ k, count_occ Z.eq_dec l x = 0%nat → l !! k = Some x → False).
  { intros k H0 Hk. apply (count_occ_not_In Z.eq_dec) in H0. apply H0.
    apply list_elem_of_In, list_elem_of_lookup. by exists k. }
  destruct (Z.eq_dec y x) as [->|Hne].
  - injection Hc as Hc. destruct p as [|p], q as [|q]; simpl in *; try done;
      exfalso; eauto.
  - destruct p as [|p], q as [|q]; simpl in *; try congruence.
    f_equal. by apply IH.
Qed.

Lemma exclusive_by_count (items : list RenderItem) (p : nat) (e : RenderItem) :
  items !! p = Some e →
  count_occ Z.eq_dec (map ObjCBIndex items) (ObjCBIndex e) = 1%nat →
  exclusiveIndex p items.
Proof.
  intros Hp Hc q e0 e' Hp0 Hq Heq. rewrite Hp in Hp0. injection Hp0 as <-.
  apply (count_one_unique (map ObjCBIndex items) (ObjCBIndex e)); [done| |].
  - by rewrite list_lookup_fmap, Hq, <- Heq.
  - by rewrite list_lookup_fmap, Hp.
Qed.

Lemma scene_shared_indices : sharedIndices BuildRenderItems = [1; 4]%nat.
Proof. vm_compute. reflexivity. Qed.

Lemma scene_exclusive_indices (p : nat) (e : RenderItem) :
  BuildRenderItems !! p = Some e → p ≠ 1%nat → p ≠ 4%nat →
  exclusiveIndex p BuildRenderItems.
Proof.
  intros Hp Hp1 Hp4. apply (exclusive_by_count _ p e Hp).
  destruct (Nat.eqb_spec
    (count_occ Z.eq_dec (map ObjCBIndex BuildRenderItems) (ObjCBIndex e)) 1)
    as [|Hne]; [done|].
  assert (Hin : In p (sharedIndices BuildRenderItems)).
  { unfold sharedIndices. apply filter_In. split.
    - apply in_seq. apply lookup_lt_Some in Hp. lia.
    - unfold sharesIndex. rewrite Hp. by apply negb_true_iff, Nat.eqb_neq. }
  rewrite scene_shared_indices in Hin. simpl in Hin. lia.
Qed.

Lemma Initialize_items fence0 : mAllRitems (Initialize fence0) = BuildRenderItems.
Proof. reflexivity. Qed.

Lemma scene_created_dirty :
  forallb (fun e => NumFramesDirty e =? gNumFrameResources) BuildRenderItems = true.
Proof. vm_compute. reflexivity. Qed.

(** On the scene of the application the mechanism reaches every slot for
    every item except the two that share element 3. *)
Lemma scene_propagation (fence0 : Z) (a b c : FrameInput) (s : ShapesApp)
    (p : nat) (e : RenderItem) :
  Run [a; b; c] (Initialize fence0) = (Ok tt, s) →
  mAllRitems (Initialize fence0) !! p = Some e → p ≠ 1%nat → p ≠ 4%nat →
  Forall (fun fr => ObjectCB fr !! ObjCBIndex e = Some (objConstantsOf e))
         (mFrameResources s).
Proof.
  intros HR Hp Hp1 Hp4.
  apply (dirty_propagation_exclusive a b c (Initialize fence0) s p e
           (Initialize_wf fence0) Hp); [| |exact HR].
  - rewrite Initialize_items in Hp.
    pose proof (proj1 (forallb_forall _ _) scene_created_dirty e) as Hd.
    apply Z.eqb_eq, Hd, list_elem_of_In, list_elem_of_lookup. by exists p.
  - rewrite Initialize_items in Hp. rewrite Initialize_items.
    exact (scene_exclusive_indices p e Hp Hp1 Hp4).
Qed.

(** ** The application's own start state *)

Lemma Initialize_cold fence0 : 0 ≤ fence0 → coldStart (Initialize fence0).
Proof. intros H. by repeat split. Qed.

Lemma threeSubmitted_run :
  Run [idleInput; idleInput; idleInput] (Initialize 0) = (Ok tt, threeSubmitted).
Proof. vm_compute. reflexivity. Qed.

(** C1.  Starting cold, no call of the first [gNumFrameResources] frames
    sleeps on the fence, whatever the GPU has completed and wherever the
    run ends.  After [gNumFrameResources] complete frames the next call of
    [Update] reclaims the slot stamped by the first frame, whose marker
    [mCurrentFence + 1] is the smallest in the ring.  If the completed
    value the call reads is below that marker, the call registers the wait
    on exactly that marker, right after moving the cursor and before it
    writes anything (or throws, should the registration fail); otherwise
    it records no wait.  With the GPU as second actor, the call returns
    with the fence at [c'] exactly when [c'] has reached that marker. *)
Theorem frame_ring_backpressure (s0 : ShapesApp) :
  coldStart s0 →
  (∀ inps o s, Z.of_nat (length inps) ≤ gNumFrameResources →
     Run inps s0 = (o, s) → waits (trace s) = waits (trace s0)) ∧
  (∀ inps s, Z.of_nat (length inps) = gNumFrameResources →
     Run inps s0 = (Ok tt, s) →
     let oldest := mCurrentFence s0 + 1 in
     Fence <$> reclaimed s = Some oldest ∧
     Forall (fun f => oldest ≤ f) (fences s) ∧
     (∀ inp o s', Update inp s = (o, s') →
        if completedValue inp <? oldest then
          if FAILED (hrSetEventOnCompletion inp) then
            o = Throw (waitException inp) ∧
            eventsOfFrame s s' = [EvKeyboardInput; EvUpdateCamera; EvAcquire (nextSlot s)]
          else
            o = Ok tt ∧
            ∃ writes,
              eventsOfFrame s s' =
                [EvKeyboardInput; EvUpdateCamera; EvAcquire (nextSlot s); EvWait oldest]
                ++ writes ∧
              waits writes = []
        else o = Ok tt ∧ waits (eventsOfFrame s s') = []) ∧
     (∀ inp a' c', Update inp s = (Ok tt, a') →
        completedValue inp ≤ c' ≤ mCurrentFence s →
        (sysStep (mkSystem s (completedValue inp) false) (mkSystem a' c' true)
         ↔ (completedValue inp < oldest → oldest ≤ c')))).
Proof.
  intros Hcold. split.
  - intros inps o s Hlen HR.
    apply (Run_free_no_wait inps s0 o s gNumFrameResources);
      [by apply coldStart_wf|done|lia|by apply coldStart_free|done].
  - intros inps s Hlen HR.
    destruct inps as [|a [|b [|c [|d rest]]]]; simpl in Hlen;
      unfold gNumFrameResources in Hlen; try lia.
    destruct (Run_three_ring a b c s0 s Hcold HR) as (Hwf & Hf & Hc & Hcf).
    assert (Hre : Fence <$> reclaimed s = Some (mCurrentFence s0 + 1)).
    { unfold reclaimed, nextSlot. rewrite Hc. simpl.
      rewrite <- list_lookup_fmap.
      change (Fence <$> mFrameResources s) with (fences s). by rewrite Hf. }
    destruct Hcold as (_ & _ & Hpos). cbv zeta.
    split; [exact Hre|].
    split; [rewrite Hf; repeat constructor; lia|].
    destruct (reclaimed s) as [fr|] eqn:Er; [|done].
    injection Hre as Hfr.
    assert (Hguard : ∀ inp, mustWait (completedValue inp) fr
                            = (completedValue inp <? mCurrentFence s0 + 1)).
    { intros inp. unfold mustWait. rewrite Hfr.
      destruct (Z.eqb_spec (mCurrentFence s0 + 1) 0); [lia|done]. }
    assert (Hrec : ∀ inp a', Update inp s = (Ok tt, a') →
              waits (eventsOfFrame s a') =
                if completedValue inp <? mCurrentFence s0 + 1
                then [mCurrentFence s0 + 1] else []).
    { intros inp a' HU.
      by rewrite (Update_recorded_waits inp s a' fr Hwf Er HU), Hguard, Hfr. }
    split.
    + intros inp o s' HU. pose proof HU as HU'.
      rewrite Update_unfold in HU; cbv zeta in HU.
      rewrite UpdateHead_reclaimed, Er, Hguard in HU.
      destruct (completedValue inp <? mCurrentFence s0 + 1) eqn:Elt.
      * destruct (FAILED (hrSetEventOnCompletion inp)).
        -- injection HU as <- <-. split; [done|].
           unfold eventsOfFrame. rewrite UpdateHead_closed. simpl.
           by rewrite drop_app_length.
        -- injection HU as <- _. split; [done|].
           rewrite (Update_events inp s s' Hwf HU').
           unfold updateEvents, waitEvents. rewrite Er, Hguard, Elt, Hfr.
           eexists. split; [reflexivity|].
           rewrite !waits_app. simpl. unfold disturbEvents, disturbEvent.
           by destruct (disturbDue inp (t_base s)).
      * injection HU as <- _. split; [done|].
        by rewrite (Hrec inp s' HU'), Elt.
    + intros inp a' c' HU Hc'. split.
      * intros Hstep Hlt. inversion Hstep as [| sys inp0 a0 c0 _ _ HU0 _ Hw |]; subst.
        simpl in *. rewrite (Hrec inp a' HU) in Hw.
        apply Z.ltb_lt in Hlt. rewrite Hlt in Hw.
        by apply Forall_cons in Hw as [? _].
      * intros Hwake.
        apply (step_update (mkSystem s (completedValue inp) false) inp a' c');
          simpl; [done|done|done|lia|].
        rewrite (Hrec inp a' HU).
        destruct (Z.ltb_spec (completedValue inp) (mCurrentFence s0 + 1));
          [constructor; [lia|constructor]|constructor].
Qed.

Lemma fourthAcquired_ok : Update idleInput threeSubmitted = (Ok tt, fourthAcquired).
Proof. by vm_compute. Qed.

Lemma frame_ring_backpressure_witness :
  coldStart (Initialize 0) ∧
  Run [idleInput; idleInput; idleInput] (Initialize 0) = (Ok tt, threeSubmitted) ∧
  waits (trace threeSubmitted) = [] ∧
  Update idleInput threeSubmitted = (Ok tt, fourthAcquired) ∧
  ∃ writes,
    eventsOfFrame threeSubmitted fourthAcquired =
      [EvKeyboardInput; EvUpdateCamera; EvAcquire (nextSlot threeSubmitted); EvWait 1]
      ++ writes ∧
    waits writes = [].
Proof.
  assert (Hcold : coldStart (Initialize 0)) by (apply Initialize_cold; lia).
  destruct (frame_ring_backpressure (Initialize 0) Hcold) as [Hfirst Hnext].
  split; [exact Hcold|]. split; [exact threeSubmitted_run|]. split.
  - exact (Hfirst [idleInput; idleInput; idleInput] (Ok tt) threeSubmitted
             ltac:(simpl; unfold gNumFrameResources; lia) threeSubmitted_run).
  - split; [exact fourthAcquired_ok|].
    destruct (Hnext [idleInput; idleInput; idleInput] threeSubmitted eq_refl
                threeSubmitted_run) as (_ & _ & Hupd & _).
    exact (proj2 (Hupd idleInput (Ok tt) fourthAcquired fourthAcquired_ok)).
Defined.

Lemma markers_strictly_increasing_witness :
  coldStart (Initialize 0) ∧ stamps (trace (Initialize 0)) = [] ∧
  Run [idleInput; idleInput; idleInput] (Initialize 0) = (Ok tt, threeSubmitted) ∧
  markers (trace threeSubmitted) = [1; 2; 3] ∧
  StronglySorted Z.lt (markers (trace threeSubmitted)).
Proof.
  assert (Hcold : coldStart (Initialize 0)) by (apply Initialize_cold; lia).
  pose proof threeSubmitted_run as HR.
  split; [exact Hcold|]. split; [reflexivity|]. split; [exact HR|].
  split; [vm_compute; reflexivity|].
  exact (proj1 (markers_strictly_increasing (Initialize 0) _ (Ok tt) threeSubmitted
                  Hcold eq_refl HR)).
Defined.

(** ** Frames and the slots they use *)

(** Whatever its outcome, a frame rewrites the slot it acquires and no
    other. *)
Lemma Frame_slots inp s o s' :
  ringWF s → Frame inp s = (o, s') →
  ∃ fr', mFrameResources s' = <[slotOf (nextSlot s) := fr']> (mFrameResources s).
Proof.
  intros Hwf HF. destruct (ringWF_reclaimed s Hwf) as [fr Hre].
  destruct o as [[]|e].
  - rewrite (Frame_closed inp s s' fr Hre HF). simpl. eauto.
  - revert HF. unfold Frame, mbind, M_bind, bind.
    destruct (Update inp s) as [[[]|e1] s1] eqn:EU.
    + apply Update_Ok in EU as ->. intros HD.
      apply Draw_throw in HD as (-> & _).
      rewrite (afterUpdate_closed inp s fr Hre). simpl. eauto.
    + intros [= <- <-]. apply Update_throw in EU as (-> & _).
      rewrite UpdateHead_closed. simpl. exists fr. symmetry.
      by apply list_insert_id.
Qed.

(** X1.  A frame, whether it runs to its end or is left by an exception
    of [Update] or [Draw], changes no slot of the ring but the one its
    [Update] acquires: every other slot, with the constant buffers, the
    vertices and the marker it holds, is what it was before the frame. *)
Theorem frame_touches_one_slot (inp : FrameInput) (s : ShapesApp)
    (o : Outcome unit) (s' : ShapesApp) :
  ringWF s → Frame inp s = (o, s') →
  length (mFrameResources s') = length (mFrameResources s) ∧
  ∀ k : nat, k ≠ slotOf (nextSlot s) →
    mFrameResources s' !! k = mFrameResources s !! k.
Proof.
  intros Hwf HF. destruct (Frame_slots inp s o s' Hwf HF) as [fr' ->].
  split; [apply length_insert|].
  intros k Hk. by apply list_lookup_insert_ne.
Qed.

Lemma frame_touches_one_slot_witness :
  ringWF (Initialize 0) ∧
  Frame idleInput (Initialize 0) = (Ok tt, firstFrame) ∧
  mFrameResources firstFrame !! 0%nat = Some FrameResource_new ∧
  mFrameResources firstFrame !! 2%nat = Some FrameResource_new.
Proof.
  split; [apply Initialize_wf|]. split; [apply firstFrame_ok|].
  destruct (frame_touches_one_slot idleInput (Initialize 0) (Ok tt) firstFrame
              (Initialize_wf 0) firstFrame_ok) as [_ H].
  split; (rewrite H; [reflexivity | vm_compute; discriminate]).
Defined.

Lemma submissions_S c cf n :
  submissions c cf (S n) =
  ((c + 1) mod gNumFrameResources, cf + 1) ::
  submissions ((c + 1) mod gNumFrameResources) (cf + 1) n.
Proof.
  unfold submissions. cbn [seq map]. f_equal.
  rewrite <- seq_shift, map_map. apply map_ext. intros k.
  f_equal; [|lia]. rewrite Zplus_mod_idemp_l. f_equal. lia.
Qed.

(** Cursor, fence counter and stamps after a run of complete frames. *)
Lemma Run_ring inps : ∀ s s',
  ringWF s → Run inps s = (Ok tt, s') →
  ringWF s' ∧
  mCurrFrameResourceIndex s' =
    (mCurrFrameResourceIndex s + Z.of_nat (length inps)) mod gNumFrameResources ∧
  mCurrentFence s' = mCurrentFence s + Z.of_nat (length inps) ∧
  stamps (trace s') =
    stamps (trace s) ++
    submissions (mCurrFrameResourceIndex s) (mCurrentFence s) (length inps).
Proof.
  induction inps as [|inp rest IH]; intros s s' Hwf HR.
  - injection HR as <-. split; [done|]. cbn [length].
    rewrite Z.add_0_r, Z.add_0_r, app_nil_r.
    split; [|done]. destruct Hwf as [_ Hc].
    symmetry. apply Z.mod_small. exact Hc.
  - rewrite Run_cons in HR.
    destruct (Frame inp s) as [[[]|e] s1] eqn:EF; [|discriminate HR].
    destruct (Frame_ring inp s s1 Hwf EF) as (Hwf1 & _ & Hc1 & Hcf1).
    pose proof (Frame_stamps inp s s1 Hwf EF) as Hst1.
    destruct (IH s1 s' Hwf1 HR) as (Hwf' & Hc & Hcf & Hst).
    split; [done|]. cbn [length].
    rewrite Hc, Hcf, Hst, Hst1, Hc1, Hcf1, (nextSlot_mod s Hwf), submissions_S.
    rewrite Zplus_mod_idemp_l, <- app_assoc.
    split; [f_equal; lia|]. split; [lia|done].
Qed.

(** X2.  A run of [n] complete frames moves the cursor [n] places round
    the ring and raises the fence counter by exactly [n]: the [k]-th frame
    stamps the value [mCurrentFence + k] on the slot [(cursor + k) mod 3],
    so the values signalled are consecutive and the slots are used in
    rotation, the first frame after start-up using slot 1. *)
Theorem run_submissions (inps : list FrameInput) (s s' : ShapesApp) :
  ringWF s → Run inps s = (Ok tt, s') →
  mCurrFrameResourceIndex s' =
    (mCurrFrameResourceIndex s + Z.of_nat (length inps)) mod gNumFrameResources ∧
  mCurrentFence s' = mCurrentFence s + Z.of_nat (length inps) ∧
  stamps (trace s') =
    stamps (trace s) ++
    submissions (mCurrFrameResourceIndex s) (mCurrentFence s) (length inps).
Proof.
  intros Hwf HR. by destruct (Run_ring inps s s' Hwf HR) as (_ & ? & ? & ?).
Qed.

Lemma run_submissions_witness :
  ringWF (Initialize 0) ∧
  Run [idleInput; idleInput; idleInput] (Initialize 0) = (Ok tt, threeSubmitted) ∧
  mCurrFrameResourceIndex threeSubmitted = 0 ∧
  mCurrentFence threeSubmitted = 3 ∧
  stamps (trace threeSubmitted) = [(1, 1); (2, 2); (0, 3)].
Proof.
  split; [apply Initialize_wf|]. split; [apply threeSubmitted_run|].
  exact (run_submissions [idleInput; idleInput; idleInput] (Initialize 0)
           threeSubmitted (Initialize_wf 0) threeSubmitted_run).
Defined.

Lemma Run_snoc inps inp : ∀ s s',
  Run (inps ++ [inp]) s = (Ok tt, s') →
  ∃ s1, Run inps s = (Ok tt, s1) ∧ Frame inp s1 = (Ok tt, s').
Proof.
  induction inps as [|a rest IH]; intros s s' HR.
  - exists s. split; [done|]. rewrite app_nil_l, Run_cons in HR.
    destruct (Frame inp s) as [[[]|e] s1]; [|discriminate HR].
    by injection HR as <-.
  - rewrite <- app_comm_cons, Run_cons in HR.
    destruct (Frame a s) as [[[]|e] s1] eqn:EF; [|discriminate HR].
    apply IH in HR as (s2 & HR & HF). exists s2.
    split; [|exact HF]. by rewrite Run_cons, EF.
Qed.

(** The slot a complete frame has just used holds that frame. *)
Lemma Frame_holds inp s s' :
  ringWF s → Frame inp s = (Ok tt, s') →
  ∃ fr, mFrameResources s' !! slotOf (mCurrFrameResourceIndex s') = Some fr ∧
        holdsFrame inp (mCurrentFence s') (mWaves s') fr.
Proof.
  intros Hwf HF. destruct (ringWF_reclaimed s Hwf) as [fr Hre].
  rewrite (Frame_closed inp s s' fr Hre HF). simpl.
  eexists. split.
  - apply list_lookup_insert_eq. by apply lookup_lt_Some in Hre.
  - split; [done|]. simpl. split; [by rewrite lookup_insert_eq|done].
Qed.

Lemma slotBack_step (c : Z) (k : nat) :
  0 ≤ c < gNumFrameResources → (0 < k < 3)%nat →
  slotOf (((c + 1) mod gNumFrameResources - Z.of_nat k) mod gNumFrameResources)
  = slotOf ((c - Z.of_nat (k - 1)) mod gNumFrameResources) ∧
  slotOf ((c - Z.of_nat (k - 1)) mod gNumFrameResources)
  ≠ slotOf ((c + 1) mod gNumFrameResources).
Proof.
  unfold gNumFrameResources. intros Hc Hk.
  assert (Hc' : c = 0 ∨ c = 1 ∨ c = 2) by lia.
  assert (Hk' : k = 1%nat ∨ k = 2%nat) by lia.
  destruct Hc' as [-> | [-> | ->]], Hk' as [-> | ->];
    split; vm_compute; congruence.
Qed.

Lemma Run_holds inps : ∀ s s',
  ringWF s → Run inps s = (Ok tt, s') →
  ∀ (k : nat) inp, (k < 3)%nat → rev inps !! k = Some inp →
    ∃ s1 s2 fr,
      Run (take (length inps - S k) inps) s = (Ok tt, s1) ∧
      Frame inp s1 = (Ok tt, s2) ∧
      mFrameResources s2 !! slotOf (mCurrFrameResourceIndex s2) = Some fr ∧
      mFrameResources s' !! slotBack s' k = Some fr ∧
      holdsFrame inp (mCurrentFence s' - Z.of_nat k) (mWaves s2) fr.
Proof.
  induction inps as [|last init IH] using rev_ind; intros s s' Hwf HR k inp Hk Hin.
  - done.
  - apply Run_snoc in HR as (s1 & HR1 & HF).
    destruct (Run_ring init s s1 Hwf HR1) as (Hwf1 & _).
    destruct (Frame_ring last s1 s' Hwf1 HF) as (Hwf' & _ & Hc' & Hcf').
    rewrite rev_app_distr in Hin. simpl in Hin.
    rewrite length_app. cbn [length].
    destruct k as [|k].
    + injection Hin as <-.
      replace (length init + 1 - 1)%nat with (length init) by lia.
      rewrite take_app_length.
      destruct (Frame_holds last s1 s' Hwf1 HF) as (fr & Hfr & Hh).
      exists s1, s', fr. split; [exact HR1|]. split; [exact HF|].
      split; [exact Hfr|]. unfold slotBack. rewrite Z.sub_0_r, Z.sub_0_r.
      rewrite Z.mod_small by apply Hwf'. by split.
    + cbn [lookup list_lookup] in Hin.
      destruct (IH s s1 Hwf HR1 k inp ltac:(lia) Hin)
        as (s0 & s2 & fr & HR0 & HF0 & Hfr2 & Hfr & Hh).
      destruct (Frame_slots last s1 (Ok tt) s' Hwf1 HF) as [fr' Hslots].
      pose proof Hwf1 as [_ Hc1].
      destruct (slotBack_step (mCurrFrameResourceIndex s1) (S k) Hc1 ltac:(lia))
        as [Heq Hne].
      replace (S k - 1)%nat with k in Heq, Hne by lia.
      exists s0, s2, fr.
      replace (length init + 1 - S (S k))%nat with (length init - S k)%nat by lia.
      rewrite take_app_le by lia.
      split; [exact HR0|]. split; [exact HF0|]. split; [exact Hfr2|].
      unfold slotBack. rewrite Hc', (nextSlot_mod s1 Hwf1), Heq, Hslots.
      rewrite list_lookup_insert_ne
        by (rewrite (nextSlot_mod s1 Hwf1); congruence).
      split; [exact Hfr|].
      destruct Hh as (Hf & Hp & Hv). split; [|by split]. rewrite Hf, Hcf'. lia.
Qed.

(** X3.  After any run of complete frames the ring holds the last three
    of them side by side: the slot the cursor designated [k] frames ago
    ([k] = 0, 1, 2) is, field for field, what the [k]-th most recent frame
    left in it; it still carries the pass constants (camera, clock) written
    for that frame, the vertices of the height field as that frame copied
    them, and the marker [mCurrentFence - k] stamped by it.  Writing a
    frame never disturbs what the two frames before it left for the GPU. *)
Theorem ring_retains_recent_frames (inps : list FrameInput) (s s' : ShapesApp)
    (k : nat) (inp : FrameInput) :
  ringWF s → Run inps s = (Ok tt, s') →
  (k < 3)%nat → rev inps !! k = Some inp →
  ∃ s1 s2 fr,
    Run (take (length inps - S k) inps) s = (Ok tt, s1) ∧
    Frame inp s1 = (Ok tt, s2) ∧
    mFrameResources s2 !! slotOf (mCurrFrameResourceIndex s2) = Some fr ∧
    mFrameResources s' !! slotBack s' k = Some fr ∧
    holdsFrame inp (mCurrentFence s' - Z.of_nat k) (mWaves s2) fr.
Proof. intros Hwf HR. by apply (Run_holds inps s s'). Qed.

Lemma threeClocks_run :
  Run [clockInput 0.01; clockInput 0.02; clockInput 0.03] (Initialize 0)
  = (Ok tt, threeClocks).
Proof. vm_compute. reflexivity. Qed.

Lemma ring_retains_recent_frames_witness :
  ringWF (Initialize 0) ∧
  ∃ fr, mFrameResources threeClocks !! 1%nat = Some fr ∧
        Fence fr = 1 ∧
        pcTotalTime <$> PassCB fr !! 0 = Some 0.01%Q ∧
        WavesVB fr = [WUpdate 0.01%Q].
Proof.
  split; [apply Initialize_wf|].
  destruct (ring_retains_recent_frames
              [clockInput 0.01; clockInput 0.02; clockInput 0.03]
              (Initialize 0) threeClocks 2 (clockInput 0.01)
              (Initialize_wf 0) threeClocks_run ltac:(lia) eq_refl)
    as (s1 & s2 & fr & HR1 & HF & _ & Hfr & Hf & Hp & Hv).
  exists fr. split; [exact Hfr|]. split; [exact Hf|].
  split; [rewrite Hp; reflexivity|].
  injection HR1 as <-.
  assert (Hs2 : s2 = snd (Frame (clockInput 0.01) (Initialize 0)))
    by (by rewrite HF).
  rewrite Hv, Hs2. vm_compute. reflexivity.
Defined.

(** ** The countdown of the dirty counters *)

Lemma countdown_S k n : countdown (S k) n = flushedCounter (countdown k n).
Proof.
  unfold countdown, flushedCounter.
  destruct (Z.ltb_spec 0 n); [|by destruct (Z.ltb_spec 0 n); [lia|]].
  destruct (Z.ltb_spec 0 (Z.max 0 (n - Z.of_nat k))); lia.
Qed.

Lemma countdown_flushed k n : countdown k (flushedCounter n) = countdown (S k) n.
Proof.
  unfold countdown, flushedCounter.
  destruct (Z.ltb_spec 0 n).
  - destruct (Z.ltb_spec 0 (n - 1)); lia.
  - destruct (Z.ltb_spec 0 n); lia.
Qed.

Lemma flushedItem_same e :
  sameItem e (flushedItem e) ∧
  NumFramesDirty (flushedItem e) = flushedCounter (NumFramesDirty e).
Proof.
  unfold flushedItem, flushedCounter, sameItem.
  by destruct (0 <? NumFramesDirty e).
Qed.

Lemma iter_flushedItem k e :
  sameItem e (Nat.iter k flushedItem e) ∧
  NumFramesDirty (Nat.iter k flushedItem e) = countdown k (NumFramesDirty e).
Proof.
  induction k as [|k [Hs Hn]].
  - split; [done|]. unfold countdown. simpl.
    destruct (Z.ltb_spec 0 (NumFramesDirty e)); lia.
  - rewrite Nat.iter_succ.
    destruct (flushedItem_same (Nat.iter k flushedItem e)) as [Hs' Hn'].
    split; [|by rewrite Hn', Hn, countdown_S].
    unfold sameItem in *. intuition congruence.
Qed.

Lemma Frame_items inp s s' :
  ringWF s → Frame inp s = (Ok tt, s') →
  mAllRitems s' = map flushedItem (mAllRitems s).
Proof.
  intros Hwf HF. by destruct (Frame_objects inp s s' Hwf HF) as (_ & _ & ? & _).
Qed.

Lemma Run_items inps : ∀ s s',
  ringWF s → Run inps s = (Ok tt, s') →
  mAllRitems s' = map (Nat.iter (length inps) flushedItem) (mAllRitems s).
Proof.
  induction inps as [|inp rest IH]; intros s s' Hwf HR.
  - injection HR as <-. simpl. by rewrite map_id.
  - rewrite Run_cons in HR.
    destruct (Frame inp s) as [[[]|e] s1] eqn:EF; [|discriminate HR].
    rewrite (IH s1 s' (Frame_wf inp s s1 Hwf EF) HR), (Frame_items inp s s1 Hwf EF).
    rewrite map_map. apply map_ext. intros e. cbn [length].
    by rewrite Nat.iter_succ_r.
Qed.

(** X4.  Over a run of [n] complete frames a render item changes in its
    counter only: transforms, buffer index, material and geometry are
    those it had, and the counter is [max 0 (c - n)] for a counter that
    started at [c > 0] (one flush per frame, each on another slot) and
    unchanged for a counter that was not positive. *)
Theorem render_items_countdown (inps : list FrameInput) (s s' : ShapesApp) :
  ringWF s → Run inps s = (Ok tt, s') →
  Forall2 (fun e e' =>
             sameItem e e' ∧
             NumFramesDirty e' = countdown (length inps) (NumFramesDirty e))
          (mAllRitems s) (mAllRitems s').
Proof.
  intros Hwf HR. rewrite (Run_items inps s s' Hwf HR).
  apply Forall2_fmap_r, Forall_Forall2_diag, Forall_forall.
  intros e _. apply iter_flushedItem.
Qed.

Lemma render_items_countdown_witness :
  ringWF (Initialize 0) ∧
  Forall2 (fun e e' => sameItem e e' ∧ NumFramesDirty e' = countdown 3 (NumFramesDirty e))
          (mAllRitems (Initialize 0)) (mAllRitems threeSubmitted).
Proof.
  split; [apply Initialize_wf|].
  exact (render_items_countdown [idleInput; idleInput; idleInput] (Initialize 0)
           threeSubmitted (Initialize_wf 0) threeSubmitted_run).
Defined.

(** A flush with no dirty item writes nothing. *)
Lemma flushObjects_clean items : ∀ cb,
  Forall (fun e => NumFramesDirty e ≤ 0) items →
  flushObjects items cb = (items, cb).
Proof.
  induction items as [|e rest IH]; intros cb H; [done|].
  apply Forall_cons in H as [He H]. simpl.
  destruct (Z.ltb_spec 0 (NumFramesDirty e)); [lia|].
  by rewrite (IH cb H).
Qed.

Lemma Frame_objectCBs_clean inp s o s' :
  ringWF s → Forall (fun e => NumFramesDirty e ≤ 0) (mAllRitems s) →
  Frame inp s = (o, s') →
  objectCBs s' = objectCBs s ∧ mAllRitems s' = mAllRitems s.
Proof.
  intros Hwf Hclean. destruct (ringWF_reclaimed s Hwf) as [fr Hre].
  assert (Hid : <[slotOf (nextSlot s) := ObjectCB fr]> (objectCBs s) = objectCBs s).
  { apply list_insert_id. unfold objectCBs, reclaimed in *.
    by rewrite list_lookup_fmap, Hre. }
  unfold Frame, mbind, M_bind, bind.
  destruct (Update inp s) as [[[]|e] s1] eqn:EU.
  - apply Update_Ok in EU as ->. intros HD.
    assert (Hu : objectCBs (afterUpdate inp s) = objectCBs s ∧
                 mAllRitems (afterUpdate inp s) = mAllRitems s).
    { rewrite (afterUpdate_closed inp s fr Hre). unfold objectCBs. simpl.
      rewrite list_fmap_insert. simpl.
      by rewrite (flushObjects_clean _ _ Hclean). }
    destruct Hu as [Hu1 Hu2].
    destruct (Draw_scene _ _ _ _ HD) as [Hi _]. rewrite Hi, Hu2. split; [|done].
    rewrite <- Hu1. destruct o as [[]|e].
    + apply Draw_Ok in HD as ->.
      destruct (ringWF_curr _ (afterUpdate_wf inp s Hwf)) as [fr1 Hfr1].
      rewrite (afterDraw_closed _ fr1 Hfr1). unfold objectCBs. simpl.
      rewrite list_fmap_insert. apply list_insert_id.
      unfold mCurrFrameResource in Hfr1. by rewrite list_lookup_fmap, Hfr1.
    + apply Draw_throw in HD as (Hfr & _). unfold objectCBs. by rewrite Hfr.
  - intros [= <- <-]. apply Update_throw in EU as (-> & _).
    by rewrite UpdateHead_closed.
Qed.

Lemma scene_counters :
  Forall (fun e => NumFramesDirty e = gNumFrameResources) BuildRenderItems.
Proof.
  apply Forall_forall. intros e Hin.
  assert (H : forallb (fun e => NumFramesDirty e =? gNumFrameResources)
                BuildRenderItems = true) by (vm_compute; reflexivity).
  rewrite forallb_forall in H. apply Z.eqb_eq, H. by apply list_elem_of_In.
Qed.

Lemma iter_flushedItem_clean (items : list RenderItem) (n : nat) :
  Forall (fun e => NumFramesDirty e = gNumFrameResources) items → (3 ≤ n)%nat →
  Forall (fun e => NumFramesDirty e = 0) (map (Nat.iter n flushedItem) items).
Proof.
  intros H Hn. induction H as [|e rest He _ IH]; [constructor|].
  cbn [map]. constructor; [|exact IH].
  destruct (iter_flushedItem n e) as [_ ->].
  rewrite He. unfold countdown, gNumFrameResources. simpl. lia.
Qed.

Lemma Run_scene_clean fence0 inps s :
  Run inps (Initialize fence0) = (Ok tt, s) → (3 ≤ length inps)%nat →
  Forall (fun e => NumFramesDirty e = 0) (mAllRitems s).
Proof.
  intros HR Hlen.
  rewrite (Run_items inps _ s (Initialize_wf fence0) HR), Initialize_items.
  apply iter_flushedItem_clean; [apply scene_counters|exact Hlen].
Qed.

(** X5.  The application writes object constants during its first three
    frames only: once three frames have completed every render item's
    counter is 0, and from then on a frame, whatever its outcome, leaves
    the object buffers of all three slots and the render items as they
    are (nothing in the frame loop marks a render item dirty again). *)
Theorem objects_written_in_first_frames (fence0 : Z) (inps : list FrameInput)
    (inp : FrameInput) (s : ShapesApp) (o : Outcome unit) (s' : ShapesApp) :
  Run inps (Initialize fence0) = (Ok tt, s) → (3 ≤ length inps)%nat →
  Frame inp s = (o, s') →
  Forall (fun e => NumFramesDirty e = 0) (mAllRitems s) ∧
  objectCBs s' = objectCBs s ∧ mAllRitems s' = mAllRitems s.
Proof.
  intros HR Hlen HF.
  pose proof (Run_scene_clean fence0 inps s HR Hlen) as Hclean.
  split; [exact Hclean|].
  apply (Frame_objectCBs_clean inp s o s');
    [exact (Run_wf inps _ s (Initialize_wf fence0) HR)| |exact HF].
  eapply Forall_impl; [exact Hclean|]. intros e ->. lia.
Qed.

Lemma fourthFrame_ok : Frame idleInput threeSubmitted = (Ok tt, fourthFrame).
Proof. vm_compute. reflexivity. Qed.

Lemma objects_written_in_first_frames_witness :
  Run [idleInput; idleInput; idleInput] (Initialize 0) = (Ok tt, threeSubmitted) ∧
  Frame idleInput threeSubmitted = (Ok tt, fourthFrame) ∧
  objectCBs fourthFrame = objectCBs threeSubmitted.
Proof.
  split; [apply threeSubmitted_run|]. split; [apply fourthFrame_ok|].
  exact (proj1 (proj2 (objects_written_in_first_frames 0
           [idleInput; idleInput; idleInput] idleInput threeSubmitted (Ok tt)
           fourthFrame threeSubmitted_run ltac:(simpl; lia) fourthFrame_ok))).
Defined.

(** ** Materials over a run *)

(** The slots after a frame, whatever its outcome: untouched when the wait
    failed, and otherwise those before the frame with the acquired slot
    rewritten. *)
Lemma Frame_slot inp s o s' fr :
  reclaimed s = Some fr → Frame inp s = (o, s') →
  mFrameResources s' = mFrameResources s ∨
  ∃ f, mFrameResources s' =
       <[slotOf (nextSlot s) := slotAfterFrame inp s f fr]> (mFrameResources s).
Proof.
  intros Hre HF. destruct o as [[]|e].
  - right. exists (mCurrentFence s + 1).
    by rewrite (Frame_closed inp s s' fr Hre HF).
  - revert HF. unfold Frame, mbind, M_bind, bind.
    destruct (Update inp s) as [[[]|e1] s1] eqn:EU.
    + apply Update_Ok in EU as ->. intros HD.
      apply Draw_throw in HD as (-> & _). right. exists (Fence fr).
      by rewrite (afterUpdate_closed inp s fr Hre).
    + intros [= <- <-]. apply Update_throw in EU as (-> & _).
      left. by rewrite UpdateHead_closed.
Qed.

Lemma Forall2_insert_diag {A} (R : A → A → Prop) (l : list A) (i : nat) (x y : A) :
  (∀ a, R a a) → l !! i = Some x → R x y → Forall2 R l (<[i := y]> l).
Proof.
  intros Hrefl. revert i. induction l as [|a l IH]; intros [|i] Hi Hxy;
    simplify_eq/=; constructor; auto.
  apply Forall_Forall2_diag, Forall_forall. auto.
Qed.

Lemma Frame_materials inp s s' :
  ringWF s → Frame inp s = (Ok tt, s') →
  mMaterials s' = map (frameMaterial inp) (mMaterials s).
Proof.
  intros Hwf HF. destruct (ringWF_reclaimed s Hwf) as [fr Hre].
  rewrite (Frame_closed inp s s' fr Hre HF). simpl.
  rewrite flushMaterials_materials. unfold animatedMaterials, onMaterial.
  rewrite map_map. apply map_ext. intros [name m]. unfold frameMaterial. simpl.
  by destruct (String.eqb name "water").
Qed.

Lemma Run_materials inps : ∀ s s',
  ringWF s → Run inps s = (Ok tt, s') →
  mMaterials s' = map (runMaterial inps) (mMaterials s).
Proof.
  induction inps as [|inp rest IH]; intros s s' Hwf HR.
  - injection HR as <-. simpl. by rewrite map_id.
  - rewrite Run_cons in HR.
    destruct (Frame inp s) as [[[]|e] s1] eqn:EF; [|discriminate HR].
    rewrite (IH s1 s' (Frame_wf inp s s1 Hwf EF) HR), (Frame_materials inp s s1 Hwf EF).
    rewrite map_map. by apply map_ext.
Qed.

Lemma runMaterial_cons inp rest kv :
  runMaterial (inp :: rest) kv = runMaterial rest (frameMaterial inp kv).
Proof. reflexivity. Qed.

Lemma frameMaterial_other inp name m :
  name ≠ "water"%string → frameMaterial inp (name, m) = (name, flushedMaterial m).
Proof.
  intros Hne. unfold frameMaterial. cbn [fst snd].
  by apply String.eqb_neq in Hne as ->.
Qed.

Lemma frameMaterial_water inp m :
  frameMaterial inp ("water"%string, m)
  = ("water"%string, flushedMaterial (animateWater (DeltaTime (gt inp)) m)).
Proof. reflexivity. Qed.

Lemma flushedMaterial_same m :
  sameMaterial m (flushedMaterial m) ∧
  MatNumFramesDirty (flushedMaterial m) = flushedCounter (MatNumFramesDirty m).
Proof.
  unfold flushedMaterial, flushedCounter, sameMaterial.
  by destruct (0 <? MatNumFramesDirty m).
Qed.

(** A material that is not the water one is only counted down. *)
Lemma runMaterial_other inps : ∀ name m,
  name ≠ "water"%string →
  fst (runMaterial inps (name, m)) = name ∧
  sameMaterial m (snd (runMaterial inps (name, m))) ∧
  MatNumFramesDirty (snd (runMaterial inps (name, m)))
  = countdown (length inps) (MatNumFramesDirty m).
Proof.
  induction inps as [|inp rest IH]; intros name m Hne.
  - split; [done|]. split; [done|]. unfold countdown. simpl.
    destruct (Z.ltb_spec 0 (MatNumFramesDirty m)); lia.
  - rewrite runMaterial_cons, (frameMaterial_other inp name m Hne).
    destruct (IH name (flushedMaterial m) Hne) as (Hn & Hs & Hc).
    destruct (flushedMaterial_same m) as [Hs' Hc'].
    split; [exact Hn|]. split.
    + unfold sameMaterial in *. intuition congruence.
    + rewrite Hc, Hc'. cbn [length]. apply countdown_flushed.
Qed.

(** The dirty entries of a flush decide which elements it writes. *)
Lemma flushMaterials_clean_other ms : ∀ cb i,
  Forall (fun kv => 0 < MatNumFramesDirty (snd kv) → MatCBIndex (snd kv) ≠ i) ms →
  snd (flushMaterials ms cb) !! i = cb !! i.
Proof.
  induction ms as [|[name m] rest IH]; intros cb i Hne; [done|].
  apply Forall_cons in Hne as [Hm Hne]. simpl in *.
  destruct (Z.ltb_spec 0 (MatNumFramesDirty m)).
  - specialize (IH (<[MatCBIndex m := matConstantsOf m]> cb) i Hne).
    destruct (flushMaterials rest _) as [rest' cb']. simpl in *.
    rewrite IH, lookup_insert_ne; [done|]. by apply Hm.
  - specialize (IH cb i Hne).
    by destruct (flushMaterials rest cb) as [rest' cb'].
Qed.

Lemma scene_material_counters :
  Forall (fun kv => MatNumFramesDirty (snd kv) = gNumFrameResources) BuildMaterials.
Proof. repeat constructor. Qed.

Lemma scene_water_index (name : string) (i : Z) :
  (name, i) ∈ matKeys BuildMaterials → name = "water"%string → i = waterCBIndex.
Proof.
  intros Hin ->. apply list_elem_of_In in Hin. vm_compute in Hin.
  repeat (destruct Hin as [Hin|Hin]; [by inversion Hin|]). done.
Qed.

Lemma Run_materials_clean fence0 inps s :
  Run inps (Initialize fence0) = (Ok tt, s) → (3 ≤ length inps)%nat →
  ∀ name m, (name, m) ∈ mMaterials s → name ≠ "water"%string →
            MatNumFramesDirty m = 0.
Proof.
  intros HR Hlen name m Hin Hne.
  rewrite (Run_materials inps _ s (Initialize_wf fence0) HR) in Hin.
  change (mMaterials (Initialize fence0)) with BuildMaterials in Hin.
  apply list_elem_of_fmap in Hin as ([name0 m0] & Heq & Hin0).
  assert (Hne0 : name0 ≠ "water"%string).
  { intros ->. apply Hne.
    destruct (string_dec name "water") as [?|Hn]; [done|]. exfalso.
    clear -Heq Hn. revert m0 Heq. induction inps as [|inp rest IH]; intros m0 Heq.
    - by injection Heq as -> _.
    - rewrite runMaterial_cons, frameMaterial_water in Heq.
      by apply (IH _ Heq). }
  destruct (runMaterial_other inps name0 m0 Hne0) as (Hn & _ & Hc).
  rewrite <- Heq in Hn, Hc. cbn [fst snd] in Hn, Hc.
  rewrite Hc.
  pose proof scene_material_counters as Hall.
  rewrite Forall_forall in Hall. specialize (Hall _ Hin0). cbn [snd] in Hall.
  rewrite Hall. unfold countdown, gNumFrameResources. simpl. lia.
Qed.

(** X6.  Once three frames have completed, the water material is the only
    material the application still writes: every other material's counter
    is 0, and a further frame, whatever its outcome, leaves every element
    of every slot's material buffer as it is, the element of the water
    material (index 4) apart. *)
Theorem materials_steady_state (fence0 : Z) (inps : list FrameInput)
    (inp : FrameInput) (s : ShapesApp) (o : Outcome unit) (s' : ShapesApp) :
  Run inps (Initialize fence0) = (Ok tt, s) → (3 ≤ length inps)%nat →
  Frame inp s = (o, s') →
  (∀ name m, (name, m) ∈ mMaterials s → name ≠ "water"%string →
             MatNumFramesDirty m = 0) ∧
  Forall2 (fun cb cb' => ∀ i, i ≠ waterCBIndex → cb' !! i = cb !! i)
          (materialCBs s) (materialCBs s').
Proof.
  intros HR Hlen HF.
  pose proof (Run_materials_clean fence0 inps s HR Hlen) as Hclean.
  split; [exact Hclean|].
  pose proof (Run_wf inps _ s (Initialize_wf fence0) HR) as Hwf.
  pose proof (Run_matKeys inps _ _ s (Initialize_wf fence0) HR) as Hkeys.
  change (mMaterials (Initialize fence0)) with BuildMaterials in Hkeys.
  destruct (ringWF_reclaimed s Hwf) as [fr Hre].
  assert (Hrefl : Forall2 (fun cb cb' : gmap Z MaterialConstants =>
                             ∀ i, i ≠ waterCBIndex → cb' !! i = cb !! i)
                          (materialCBs s) (materialCBs s))
    by (apply Forall_Forall2_diag, Forall_forall; done).
  destruct (Frame_slot inp s o s' fr Hre HF) as [Hfrs | [f Hfrs]];
    unfold materialCBs in *; rewrite Hfrs; [exact Hrefl|].
  rewrite list_fmap_insert.
  apply (Forall2_insert_diag _ _ _ (MaterialCB fr)); [done| |].
  { unfold reclaimed in Hre. by rewrite list_lookup_fmap, Hre. }
  intros i Hi. unfold slotAfterFrame, slotAfterUpdate. simpl.
  apply flushMaterials_clean_other.
  apply Forall_forall. intros [name m] Hin Hdirty. simpl in *.
  unfold animatedMaterials, onMaterial in Hin.
  apply list_elem_of_fmap in Hin as ([name0 m0] & Heq & Hin0). simpl in Heq.
  destruct (String.eqb_spec name0 "water") as [->|Hne].
  - injection Heq as -> ->. simpl.
    assert (Hk : ("water"%string, MatCBIndex m0) ∈ matKeys (mMaterials s)).
    { unfold matKeys. apply list_elem_of_fmap. by exists ("water"%string, m0). }
    rewrite Hkeys in Hk. rewrite (scene_water_index _ _ Hk eq_refl). congruence.
  - injection Heq as -> ->. rewrite (Hclean name0 m0 Hin0 Hne) in Hdirty. lia.
Qed.

Lemma materials_steady_state_witness :
  Run [idleInput; idleInput; idleInput] (Initialize 0) = (Ok tt, threeSubmitted) ∧
  Frame idleInput threeSubmitted = (Ok tt, fourthFrame) ∧
  Forall2 (fun cb cb' : gmap Z MaterialConstants => cb' !! 0 = cb !! 0)
          (materialCBs threeSubmitted) (materialCBs fourthFrame).
Proof.
  split; [apply threeSubmitted_run|]. split; [apply fourthFrame_ok|].
  pose proof (proj2 (materials_steady_state 0 [idleInput; idleInput; idleInput]
                idleInput threeSubmitted (Ok tt) fourthFrame threeSubmitted_run
                ltac:(simpl; lia) fourthFrame_ok)) as H.
  eapply Forall2_impl; [exact H|]. intros cb cb' Hcb. by apply Hcb.
Defined.

(** ** The scrolling of the water texture *)

Lemma roundEven_nonneg (x : Q) : (0 <= x)%Q → 0 ≤ roundEven x.
Proof.
  intros Hx. unfold roundEven.
  assert (H : 0 ≤ Qfloor x).
  { change 0 with (Qfloor 0). by apply Qfloor_resp_le. }
  destruct (_ ?= _)%Q; [destruct (Z.even _)|..]; lia.
Qed.

(** Rounding to an integer does not cross an integer. *)
Lemma roundEven_le (x : Q) (n : Z) : (x <= inject_Z n)%Q → roundEven x ≤ n.
Proof.
  intros Hx. unfold roundEven.
  assert (Hf : Qfloor x ≤ n).
  { rewrite <- (Qfloor_Z n). by apply Qfloor_resp_le. }
  assert (Hhalf : (1 # 2 <= x - inject_Z (Qfloor x))%Q → Qfloor x + 1 ≤ n).
  { intros Hh. destruct (Z.eq_dec (Qfloor x) n) as [E|]; [|lia].
    rewrite E in Hh. lra. }
  destruct (Qcompare_spec (x - inject_Z (Qfloor x)) (1 # 2)) as [E|E|E].
  - destruct (Z.even _); [lia|]. apply Hhalf. rewrite E. lra.
  - lia.
  - apply Hhalf. lra.
Qed.

(** [Qfloor_log2] is the exponent. *)
Lemma Qfloor_log2_le (x : Q) : (0 < x)%Q → (2 ^ Qfloor_log2 x <= x)%Q.
Proof.
  intros Hx. unfold Qfloor_log2.
  destruct (Qle_bool _ x) eqn:E; [by apply Qle_bool_iff|].
  destruct x as [a b]. simpl Qnum. simpl Qden.
  assert (Ha : 0 < a) by (unfold Qlt in Hx; simpl in Hx; lia).
  destruct (Z.log2_spec a Ha) as [Ha1 _].
  destruct (Z.log2_spec (Z.pos b) ltac:(lia)) as [_ Hb2].
  pose proof (Z.log2_nonneg a) as Hla. pose proof (Z.log2_nonneg (Z.pos b)) as Hlb.
  replace (Z.log2 a - Z.log2 (Z.pos b) - 1)
    with (Z.log2 a - Z.succ (Z.log2 (Z.pos b))) by lia.
  rewrite Qpower_minus by discriminate.
  rewrite <- !(Zpower_Qpower 2) by lia.
  rewrite (Qmake_Qdiv a b).
  assert (Hp : (0 < inject_Z (2 ^ Z.succ (Z.log2 (Z.pos b))))%Q).
  { rewrite <- (Zlt_Qlt 0). lia. }
  assert (Hb : (0 < inject_Z (Z.pos b))%Q) by (by rewrite <- (Zlt_Qlt 0)).
  apply Qle_shift_div_l; [exact Hb|].
  unfold Qdiv. rewrite <- Qmult_assoc, (Qmult_comm (/ _)), Qmult_assoc.
  apply Qle_shift_div_r; [exact Hp|].
  rewrite <- !inject_Z_mult, <- Zle_Qle. nia.
Qed.

Lemma Qfloor_log2_lt (x : Q) : (0 < x)%Q → (x < 2 ^ (Qfloor_log2 x + 1))%Q.
Proof.
  intros Hx. unfold Qfloor_log2.
  destruct (Qle_bool _ x) eqn:E.
  2:{ replace (Z.log2 (Qnum x) - Z.log2 (Z.pos (Qden x)) - 1 + 1)
        with (Z.log2 (Qnum x) - Z.log2 (Z.pos (Qden x))) by lia.
      apply Qnot_le_lt. intros Hle. apply Qle_bool_iff in Hle. congruence. }
  clear E. destruct x as [a b]. simpl Qnum. simpl Qden.
  assert (Ha : 0 < a) by (unfold Qlt in Hx; simpl in Hx; lia).
  destruct (Z.log2_spec a Ha) as [_ Ha2].
  destruct (Z.log2_spec (Z.pos b) ltac:(lia)) as [Hb1 _].
  pose proof (Z.log2_nonneg a) as Hla. pose proof (Z.log2_nonneg (Z.pos b)) as Hlb.
  replace (Z.log2 a - Z.log2 (Z.pos b) + 1)
    with (Z.succ (Z.log2 a) - Z.log2 (Z.pos b)) by lia.
  rewrite Qpower_minus by discriminate.
  rewrite <- !(Zpower_Qpower 2) by lia.
  rewrite (Qmake_Qdiv a b).
  assert (Hp : (0 < inject_Z (2 ^ Z.log2 (Z.pos b)))%Q).
  { rewrite <- (Zlt_Qlt 0). lia. }
  assert (Hb : (0 < inject_Z (Z.pos b))%Q) by (by rewrite <- (Zlt_Qlt 0)).
  apply Qlt_shift_div_r; [exact Hb|].
  unfold Qdiv. rewrite <- Qmult_assoc, (Qmult_comm (/ _)), Qmult_assoc.
  apply Qlt_shift_div_l; [exact Hp|].
  rewrite <- !inject_Z_mult, <- Zlt_Qlt. nia.
Qed.

Lemma ulp32_pos (x : Q) : (0 < ulp32 x)%Q.
Proof. unfold ulp32. by apply Qpower_0_lt. Qed.

Lemma round32_nonneg (x : Q) : (0 <= x)%Q → (0 <= round32 x)%Q.
Proof.
  intros Hx. unfold round32. pose proof (ulp32_pos x) as Hu.
  apply Qmult_le_0_compat; [|lra].
  rewrite <- (Zle_Qle 0). apply roundEven_nonneg.
  apply Qle_shift_div_l; [exact Hu|lra].
Qed.

Lemma f32_nonneg (x : Q) : (0 <= x)%Q → (0 <= f32 x)%Q.
Proof.
  intros Hx. unfold f32. destruct (Qcompare_spec x 0) as [E|E|E]; [lra|lra|].
  apply round32_nonneg. lra.
Qed.

(** Rounding does not cross a value of the format: one that is [n] units
    of [2 ^ (- k)], with [n] of at most 24 bits and [k] at most 149. *)
Lemma f32_le (x : Q) (n k : Z) :
  0 ≤ n < 2 ^ 24 → k ≤ 149 →
  (x <= inject_Z n * 2 ^ (- k))%Q → (f32 x <= inject_Z n * 2 ^ (- k))%Q.
Proof.
  intros Hn Hk Hx.
  assert (Hc : (0 <= inject_Z n * 2 ^ (- k))%Q).
  { apply Qmult_le_0_compat; [rewrite <- (Zle_Qle 0); lia|by apply Qpower_0_le]. }
  unfold f32. destruct (Qcompare_spec x 0) as [E|E|E]; [lra| |].
  { assert (0 <= round32 (- x))%Q by (apply round32_nonneg; lra). lra. }
  pose proof (Qfloor_log2_le x E) as Hlog.
  assert (He : Qfloor_log2 x < 24 - k).
  { apply (Qpower_lt_compat_l_inv 2); [|reflexivity].
    eapply Qle_lt_trans; [exact Hlog|]. eapply Qle_lt_trans; [exact Hx|].
    replace (24 - k) with (24 + - k) by lia. rewrite Qpower_plus by discriminate.
    apply Qmult_lt_compat_r; [by apply Qpower_0_lt|].
    rewrite <- (Zpower_Qpower 2) by lia. rewrite <- Zlt_Qlt. lia. }
  unfold round32, ulp32.
  set (e := Z.max (Qfloor_log2 x) (-126)).
  assert (Hd : 0 ≤ 23 - k - e) by lia.
  assert (Hu : (0 < 2 ^ (e - 23))%Q) by (by apply Qpower_0_lt).
  assert (Hck : (inject_Z n * 2 ^ (- k)
                 == inject_Z (n * 2 ^ (23 - k - e)) * 2 ^ (e - 23))%Q).
  { rewrite inject_Z_mult, (Zpower_Qpower 2) by lia.
    rewrite <- Qmult_assoc, <- Qpower_plus by discriminate.
    by replace (23 - k - e + (e - 23)) with (- k) by lia. }
  rewrite Hck in Hx |- *.
  apply Qmult_le_compat_r; [|lra].
  rewrite <- Zle_Qle. apply roundEven_le.
  apply Qle_shift_div_r; [exact Hu|exact Hx].
Qed.

(** The two rates as the compiler stores them, a value that is rounded
    up and one that is rounded to the even neighbour. *)
Lemma f32_rates :
  (f32 0.1 == 13421773 # 134217728)%Q ∧ (f32 0.02 == 10737418 # 536870912)%Q ∧
  (f32 (1 + (1 # 16777216)) == 1)%Q ∧ (f32 (1 + (3 # 16777216)) == 1 + (1 # 4194304))%Q.
Proof. repeat split; vm_compute; reflexivity. Qed.

(** Fifty frames of one second: the offsets are not the exact multiples
    of the time, less a whole number (which would be 0). *)
Lemma scroll_rounds :
  (scrolled 0.1 (replicate 50 (tickInput 1)) 0
   == 5 # 8388608)%Q ∧
  (scrolled 0.02 (replicate 50 (tickInput 1)) 0 == 16777209 # 16777216)%Q.
Proof. split; vm_compute; reflexivity. Qed.

(** One wrap is enough when the step is at most 29/32. *)
Lemma scroll_unit (t step : Q) :
  (0 <= t)%Q → (t < 1)%Q → (0 <= step)%Q → (step <= 29 # 32)%Q →
  (0 <= scroll t step)%Q ∧ (scroll t step < 1)%Q.
Proof.
  intros H0 H1 Hs0 Hs1. unfold scroll. cbv zeta.
  assert (Ha : (0 <= f32 (t + step))%Q) by (apply f32_nonneg; lra).
  assert (Hb : (f32 (t + step) <= 61 * (1 # 32))%Q).
  { apply (f32_le _ 61 5); [lia|lia|].
    change (inject_Z 61 * 2 ^ (- (5)))%Q with (61 * (1 # 32))%Q. lra. }
  destruct (Qle_bool 1.0 (f32 (t + step))) eqn:E.
  - apply Qle_bool_iff in E. split; [apply f32_nonneg; lra|].
    assert (Hc : (f32 (f32 (t + step) - 1.0) <= 29 * (1 # 32))%Q).
    { apply (f32_le _ 29 5); [lia|lia|].
      change (inject_Z 29 * 2 ^ (- (5)))%Q with (29 * (1 # 32))%Q. lra. }
    lra.
  - assert (¬ (1.0 <= f32 (t + step))%Q) as Hn
      by (intros Hle; apply Qle_bool_iff in Hle; congruence).
    split; [exact Ha|lra].
Qed.

(** The steps of a frame of at most nine seconds. *)
Lemma water_steps (dt : Q) :
  (0 <= dt)%Q → (dt <= 9)%Q →
  (0 <= f32 (f32 0.1 * dt))%Q ∧ (f32 (f32 0.1 * dt) <= 29 # 32)%Q ∧
  (0 <= f32 (f32 0.02 * dt))%Q ∧ (f32 (f32 0.02 * dt) <= 29 # 32)%Q.
Proof.
  intros H0 H9. destruct f32_rates as (Hu & Hv & _).
  assert (Hc : ∀ x, (x <= 29 # 32)%Q → (f32 x <= 29 # 32)%Q).
  { intros x Hx.
    assert (H : (f32 x <= 29 * (1 # 32))%Q).
    { apply (f32_le _ 29 5); [lia|lia|].
      change (inject_Z 29 * 2 ^ (- (5)))%Q with (29 * (1 # 32))%Q. lra. }
    lra. }
  split; [apply f32_nonneg; rewrite Hu; lra|].
  split; [apply Hc; rewrite Hu; lra|].
  split; [apply f32_nonneg; rewrite Hv; lra|].
  apply Hc. rewrite Hv. lra.
Qed.

(** A long frame is not wrapped back into the unit interval. *)
Lemma scroll_long_step : (1 <= scroll 0.5 (f32 (f32 0.1 * 17)))%Q.
Proof. apply Qle_bool_iff. vm_compute. reflexivity. Qed.

Lemma animateWater_offsets dt m :
  MatTransform (animateWater dt m)
  = setTexOffset (scroll (texOffsetU m) (f32 (f32 0.1 * dt)))
                 (scroll (texOffsetV m) (f32 (f32 0.02 * dt)))
                 (MatTransform m).
Proof. reflexivity. Qed.

(** The water entry over a run of short frames: transform and offsets. *)
Lemma runMaterial_water inps : ∀ m,
  Forall shortFrame inps →
  (0 <= texOffsetU m)%Q → (texOffsetU m < 1)%Q →
  (0 <= texOffsetV m)%Q → (texOffsetV m < 1)%Q →
  let m' := snd (runMaterial inps ("water"%string, m)) in
  fst (runMaterial inps ("water"%string, m)) = "water"%string ∧
  MatTransform m' = setTexOffset (texOffsetU m') (texOffsetV m') (MatTransform m) ∧
  texOffsetU m' = scrolled 0.1 inps (texOffsetU m) ∧
  texOffsetV m' = scrolled 0.02 inps (texOffsetV m) ∧
  (0 <= texOffsetU m')%Q ∧ (texOffsetU m' < 1)%Q ∧
  (0 <= texOffsetV m')%Q ∧ (texOffsetV m' < 1)%Q.
Proof.
  induction inps as [|inp rest IH]; intros m Hshort Hu0 Hu1 Hv0 Hv1.
  - cbv zeta. simpl. split; [done|]. split; [|done].
    unfold setTexOffset, texOffsetU, texOffsetV.
    by destruct (MatTransform m) as [r0 r1 r2 [x y z w]].
  - apply Forall_cons in Hshort as [[Hd0 Hd1] Hshort].
    rewrite runMaterial_cons, frameMaterial_water.
    set (m1 := flushedMaterial (animateWater (DeltaTime (gt inp)) m)).
    assert (Hm1 : MatTransform m1
                  = setTexOffset
                      (scroll (texOffsetU m) (f32 (f32 0.1 * DeltaTime (gt inp))))
                      (scroll (texOffsetV m) (f32 (f32 0.02 * DeltaTime (gt inp))))
                      (MatTransform m)).
    { unfold m1. destruct (flushedMaterial_same (animateWater (DeltaTime (gt inp)) m))
        as [(_ & _ & _ & _ & _ & ->) _]. apply animateWater_offsets. }
    assert (HU : texOffsetU m1
                 = scroll (texOffsetU m) (f32 (f32 0.1 * DeltaTime (gt inp))))
      by (unfold texOffsetU at 1; by rewrite Hm1).
    assert (HV : texOffsetV m1
                 = scroll (texOffsetV m) (f32 (f32 0.02 * DeltaTime (gt inp))))
      by (unfold texOffsetV at 1; by rewrite Hm1).
    destruct (water_steps (DeltaTime (gt inp)) Hd0 Hd1) as (Su0 & Su1 & Sv0 & Sv1).
    destruct (scroll_unit (texOffsetU m) _ Hu0 Hu1 Su0 Su1) as (Hsu0 & Hsu1).
    destruct (scroll_unit (texOffsetV m) _ Hv0 Hv1 Sv0 Sv1) as (Hsv0 & Hsv1).
    rewrite <- HU in Hsu0, Hsu1. rewrite <- HV in Hsv0, Hsv1.
    destruct (IH m1 Hshort Hsu0 Hsu1 Hsv0 Hsv1)
      as (Hn & Ht & Hxu & Hxv & Ha & Hb & Hc & Hd).
    cbv zeta. split; [exact Hn|]. split.
    { rewrite Ht, Hm1. unfold setTexOffset. reflexivity. }
    split; [rewrite Hxu, HU; reflexivity|].
    split; [rewrite Hxv, HV; reflexivity|].
    by repeat split.
Qed.

Lemma water_entry_built (m : Material) :
  ("water"%string, m) ∈ BuildMaterials →
  MatTransform m = Identity4x4.
Proof.
  intros Hin. apply list_elem_of_In in Hin. vm_compute in Hin.
  repeat (destruct Hin as [Hin|Hin]; [by inversion Hin|]). done.
Qed.

(** X7.  Over any run of complete frames of at most nine seconds each,
    the texture transform of the water material is the identity with two
    offsets in its last row.  Each offset is what the single-precision
    additions of the run produce from 0, one rounded step per frame and
    one rounded subtraction of 1 when the sum has reached 1, and stays in
    the interval from 0 (included) to 1 (excluded).  (Because of the
    rounding the offsets are not 0.1 and 0.02 times the time elapsed less
    a whole number; and a frame of seventeen seconds, wrapped once only,
    leaves an offset above 1.) *)
Theorem water_scroll_in_unit_interval (fence0 : Z) (inps : list FrameInput)
    (s : ShapesApp) (m : Material) :
  Run inps (Initialize fence0) = (Ok tt, s) →
  Forall shortFrame inps →
  ("water"%string, m) ∈ mMaterials s →
  MatTransform m = setTexOffset (texOffsetU m) (texOffsetV m) Identity4x4 ∧
  texOffsetU m = scrolled 0.1 inps 0 ∧
  texOffsetV m = scrolled 0.02 inps 0 ∧
  (0 <= texOffsetU m)%Q ∧ (texOffsetU m < 1)%Q ∧
  (0 <= texOffsetV m)%Q ∧ (texOffsetV m < 1)%Q.
Proof.
  intros HR Hshort Hin.
  rewrite (Run_materials inps _ s (Initialize_wf fence0) HR) in Hin.
  change (mMaterials (Initialize fence0)) with BuildMaterials in Hin.
  apply list_elem_of_fmap in Hin as ([name0 m0] & Heq & Hin0).
  destruct (string_dec name0 "water") as [->|Hne].
  - pose proof (water_entry_built m0 Hin0) as Hid.
    assert (HU0 : texOffsetU m0 = 0%Q) by (unfold texOffsetU; by rewrite Hid).
    assert (HV0 : texOffsetV m0 = 0%Q) by (unfold texOffsetV; by rewrite Hid).
    destruct (runMaterial_water inps m0 Hshort) as
      (_ & Ht & Hxu & Hxv & Ha & Hb & Hc & Hd);
      [rewrite HU0; lra | rewrite HU0; lra | rewrite HV0; lra | rewrite HV0; lra|].
    rewrite <- Heq in Ht, Hxu, Hxv, Ha, Hb, Hc, Hd. cbn [snd] in *.
    rewrite Hid in Ht. rewrite HU0 in Hxu. rewrite HV0 in Hxv.
    by repeat split.
  - destruct (runMaterial_other inps name0 m0 Hne) as (Hn & _).
    rewrite <- Heq in Hn. cbn [fst] in Hn. congruence.
Qed.

Lemma halfSecond_run :
  Run [quarterInput 0.25; quarterInput 0.5] (Initialize 0) = (Ok tt, halfSecond).
Proof. vm_compute. reflexivity. Qed.

Lemma water_scroll_in_unit_interval_witness :
  Forall shortFrame [quarterInput 0.25; quarterInput 0.5] ∧
  ∃ m, ("water"%string, m) ∈ mMaterials halfSecond ∧
       (texOffsetU m == 13421773 # 268435456)%Q ∧
       (0 <= texOffsetU m)%Q ∧ (texOffsetU m < 1)%Q.
Proof.
  assert (Hs : Forall shortFrame [quarterInput 0.25; quarterInput 0.5]).
  { repeat constructor; vm_compute; congruence. }
  split; [exact Hs|].
  assert (Hex : ∃ m, ("water"%string, m) ∈ mMaterials halfSecond).
  { eexists. apply list_elem_of_In. vm_compute. do 4 right. left. reflexivity. }
  destruct Hex as [m Hin]. exists m. split; [exact Hin|].
  destruct (water_scroll_in_unit_interval 0 [quarterInput 0.25; quarterInput 0.5]
              halfSecond m halfSecond_run Hs Hin) as (_ & Hu & _ & H0 & H1 & _).
  split; [|by split]. rewrite Hu. vm_compute. reflexivity.
Defined.

(** ** Failures of Draw *)

(** X8.  [Draw] runs to its end exactly when its four checked calls all
    succeed; it then raises the fence counter by one and moves to the other
    back buffer.  Otherwise it throws the exception of the first call, in
    program order, that failed, and at that point nothing of the end of the
    frame has happened: no slot, marker, fence counter or back-buffer index
    has changed and nothing was presented, stamped or signalled. *)
Theorem draw_reports_first_failure (inp : FrameInput) (s : ShapesApp) :
  match firstFailure (drawCalls inp) with
  | None =>
      ∃ s', Draw inp s = (Ok tt, s') ∧
            mCurrentFence s' = mCurrentFence s + 1 ∧
            mCurrBackBuffer s' = Z.rem (mCurrBackBuffer s + 1) SwapChainBufferCount
  | Some e =>
      ∃ s', Draw inp s = (Throw e, s') ∧
            mFrameResources s' = mFrameResources s ∧
            mCurrentFence s' = mCurrentFence s ∧
            mCurrBackBuffer s' = mCurrBackBuffer s ∧
            mCurrFrameResourceIndex s' = mCurrFrameResourceIndex s ∧
            filter (fun e => isCompletion e = true) (eventsOfFrame s s') = []
  end.
Proof.
  rewrite Draw_unfold. unfold firstFailure, drawCalls, eventsOfFrame. cbn [List.find fst].
  destruct (FAILED (hrAllocReset inp)).
  { eexists. split; [reflexivity|]. by rewrite drop_all. }
  destruct (FAILED (hrListReset inp)).
  { eexists. split; [reflexivity|]. by rewrite drop_all. }
  destruct (FAILED (hrClose inp)).
  { eexists. split; [reflexivity|]. simpl. by rewrite drop_app_length. }
  destruct (FAILED (hrPresent inp)).
  { eexists. split; [reflexivity|]. simpl.
    by rewrite <- app_assoc, drop_app_length. }
  eexists. split; [reflexivity|]. done.
Qed.

(** ** Capacity of the upload buffers *)

Lemma flushObjects_keys items : ∀ cb i,
  is_Some (snd (flushObjects items cb) !! i) →
  is_Some (cb !! i) ∨ i ∈ map ObjCBIndex items.
Proof.
  induction items as [|e rest IH]; intros cb i H; [by left|]. simpl in *.
  destruct (0 <? NumFramesDirty e).
  - specialize (IH (<[ObjCBIndex e := objConstantsOf e]> cb) i).
    destruct (flushObjects rest _) as [rest' cb']. simpl in *.
    destruct (IH H) as [Hi|Hi]; [|right; by right].
    destruct (decide (ObjCBIndex e = i)) as [->|Hne]; [right; by left|].
    left. by rewrite lookup_insert_ne in Hi.
  - specialize (IH cb i).
    destruct (flushObjects rest cb) as [rest' cb']. simpl in *.
    destruct (IH H) as [Hi|Hi]; [by left|right; by right].
Qed.

Lemma flushMaterials_keys ms : ∀ cb i,
  is_Some (snd (flushMaterials ms cb) !! i) →
  is_Some (cb !! i) ∨ i ∈ map (fun kv => MatCBIndex (snd kv)) ms.
Proof.
  induction ms as [|[name m] rest IH]; intros cb i H; [by left|]. simpl in *.
  destruct (0 <? MatNumFramesDirty m).
  - specialize (IH (<[MatCBIndex m := matConstantsOf m]> cb) i).
    destruct (flushMaterials rest _) as [rest' cb']. simpl in *.
    destruct (IH H) as [Hi|Hi]; [|right; by right].
    destruct (decide (MatCBIndex m = i)) as [->|Hne]; [right; by left|].
    left. by rewrite lookup_insert_ne in Hi.
  - specialize (IH cb i).
    destruct (flushMaterials rest cb) as [rest' cb']. simpl in *.
    destruct (IH H) as [Hi|Hi]; [by left|right; by right].
Qed.

(** The buffer indices of the render items do not change. *)
Lemma Frame_itemKeys inp s o s' :
  ringWF s → Frame inp s = (o, s') →
  map ObjCBIndex (mAllRitems s') = map ObjCBIndex (mAllRitems s).
Proof.
  intros Hwf. destruct (ringWF_reclaimed s Hwf) as [fr Hre].
  unfold Frame, mbind, M_bind, bind.
  destruct (Update inp s) as [[[]|e] s1] eqn:EU.
  - apply Update_Ok in EU as ->. intros HD.
    destruct (Draw_scene _ _ _ _ HD) as [-> _].
    rewrite (afterUpdate_closed inp s fr Hre). simpl.
    rewrite flushObjects_items, map_map. apply map_ext. intros e.
    by destruct (flushedItem_constants e).
  - intros [= <- <-]. apply Update_throw in EU as (-> & _).
    by rewrite UpdateHead_closed.
Qed.

Lemma Frame_inBounds inp s o s' :
  ringWF s →
  Forall (fun i => 0 ≤ i < objectCount) (map ObjCBIndex (mAllRitems s)) →
  Forall (fun i => 0 ≤ i < materialCount) (map snd (matKeys (mMaterials s))) →
  Forall slotInBounds (mFrameResources s) →
  Frame inp s = (o, s') →
  Forall slotInBounds (mFrameResources s').
Proof.
  intros Hwf Hitems Hmats Hslots HF.
  destruct (ringWF_reclaimed s Hwf) as [fr Hre].
  destruct (Frame_slot inp s o s' fr Hre HF) as [-> | [f ->]]; [done|].
  apply Forall_insert; [done|].
  assert (Hfr : slotInBounds fr).
  { rewrite Forall_forall in Hslots. apply Hslots.
    by apply list_elem_of_lookup_2 in Hre. }
  destruct Hfr as (Ho & Hm & Hp).
  unfold slotAfterFrame, slotAfterUpdate. split; [|split]; simpl; intros i Hi.
  - apply flushObjects_keys in Hi as [Hi|Hi]; [by apply Ho|].
    rewrite Forall_forall in Hitems. by apply Hitems.
  - apply flushMaterials_keys in Hi as [Hi|Hi]; [by apply Hm|].
    rewrite matKeys_indices, matKeys_animated in Hi.
    rewrite Forall_forall in Hmats. by apply Hmats.
  - destruct (decide (i = 0)) as [->|Hne]; [unfold passCount; lia|].
    rewrite lookup_insert_ne in Hi by done. by apply Hp.
Qed.

Lemma scene_indices_in_bounds :
  Forall (fun i => 0 ≤ i < objectCount) (map ObjCBIndex BuildRenderItems) ∧
  Forall (fun i => 0 ≤ i < materialCount) (map snd (matKeys BuildMaterials)).
Proof.
  split; apply Forall_forall; intros i Hin.
  - assert (H : forallb (fun i => (0 <=? i) && (i <? objectCount))
                  (map ObjCBIndex BuildRenderItems) = true) by (vm_compute; reflexivity).
    rewrite forallb_forall in H. apply list_elem_of_In, H in Hin.
    apply andb_true_iff in Hin as [H1 H2]. split; [by apply Z.leb_le|by apply Z.ltb_lt].
  - assert (H : forallb (fun i => (0 <=? i) && (i <? materialCount))
                  (map snd (matKeys BuildMaterials)) = true) by (vm_compute; reflexivity).
    rewrite forallb_forall in H. apply list_elem_of_In, H in Hin.
    apply andb_true_iff in Hin as [H1 H2]. split; [by apply Z.leb_le|by apply Z.ltb_lt].
Qed.

Lemma Run_inBounds inps : ∀ s o s',
  ringWF s →
  Forall (fun i => 0 ≤ i < objectCount) (map ObjCBIndex (mAllRitems s)) →
  Forall (fun i => 0 ≤ i < materialCount) (map snd (matKeys (mMaterials s))) →
  Forall slotInBounds (mFrameResources s) →
  Run inps s = (o, s') →
  Forall slotInBounds (mFrameResources s').
Proof.
  induction inps as [|inp rest IH]; intros s o s' Hwf Hitems Hmats Hslots HR.
  - by injection HR as _ <-.
  - rewrite Run_cons in HR.
    destruct (Frame inp s) as [[[]|e] s1] eqn:EF.
    + apply (IH s1 o s'); [by apply (Frame_wf inp s)| | | |done].
      * by rewrite (Frame_itemKeys inp s _ s1 Hwf EF).
      * by rewrite (Frame_matKeys inp s _ s1 Hwf EF).
      * by apply (Frame_inBounds inp s (Ok tt) s1).
    + injection HR as _ <-. by apply (Frame_inBounds inp s (Throw e) s1).
Qed.

(** X9.  No copy into an upload buffer goes past its end.  Each slot is
    built with room for one pass, for as many object constants as there are
    render items and for as many material constants as there are materials;
    in every state the application reaches, whatever the inputs and the
    outcome, every element written in a slot's object, material and pass
    buffer lies inside that capacity. *)
Theorem constant_buffers_in_bounds (fence0 : Z) (inps : list FrameInput)
    (o : Outcome unit) (s : ShapesApp) :
  Run inps (Initialize fence0) = (o, s) →
  Forall slotInBounds (mFrameResources s).
Proof.
  intros HR. destruct scene_indices_in_bounds as [Hi Hm].
  apply (Run_inBounds inps (Initialize fence0) o s);
    [apply Initialize_wf| | | |exact HR].
  - by rewrite Initialize_items.
  - exact Hm.
  - change (mFrameResources (Initialize fence0))
      with (replicate (Z.to_nat gNumFrameResources) FrameResource_new).
    apply Forall_replicate.
    split; [|split]; intros i [x Hx]; simpl in Hx; by rewrite lookup_empty in Hx.
Qed.

Lemma constant_buffers_in_bounds_witness :
  Run [idleInput; idleInput; idleInput] (Initialize 0) = (Ok tt, threeSubmitted) ∧
  Forall slotInBounds (mFrameResources threeSubmitted).
Proof.
  split; [apply threeSubmitted_run|].
  exact (constant_buffers_in_bounds 0 [idleInput; idleInput; idleInput] (Ok tt)
           threeSubmitted threeSubmitted_run).
Defined.

(** ** The index buffer of the water grid *)

Lemma store_app {A} (pre : list A) (x v : A) (rest : list A) (k : Z) :
  k = Z.of_nat (length pre) →
  store k v (pre ++ x :: rest) = Some (pre ++ v :: rest).
Proof.
  intros ->. unfold store. rewrite length_app. cbn [length].
  destruct (Z.leb_spec 0 (Z.of_nat (length pre))); [|lia].
  destruct (Z.ltb_spec (Z.of_nat (length pre))
              (Z.of_nat (length pre + S (length rest)))); [|lia].
  cbn [andb]. f_equal. rewrite Nat2Z.id.
  rewrite insert_app_r_alt by lia. by rewrite Nat.sub_diag.
Qed.

Lemma store_short {A} (v : A) (vec : list A) (k : Z) :
  Z.of_nat (length vec) ≤ k → store k v vec = None.
Proof.
  intros H. unfold store.
  destruct (Z.ltb_spec k (Z.of_nat (length vec))); [lia|].
  by rewrite andb_false_r.
Qed.

Lemma writeQuad_app (n i j : Z) (pre rest : list Z) (k : Z) :
  k = Z.of_nat (length pre) → (6 ≤ length rest)%nat →
  writeQuad n i j (pre ++ rest, k)
  = Some ((pre ++ quadIndices n i j) ++ drop 6 rest, k + 6).
Proof.
  intros Hk Hlen.
  destruct rest as [|a0 [|a1 [|a2 [|a3 [|a4 [|a5 rest]]]]]]; simpl in Hlen; try lia.
  unfold writeQuad, quadIndices. cbn [drop].
  rewrite (store_app pre a0 _ _ k Hk). cbn [mbind option_bind].
  rewrite (cons_middle _ pre), app_assoc.
  rewrite (store_app _ a1) by (rewrite length_app; simpl; lia).
  cbn [mbind option_bind]. rewrite (cons_middle _ (pre ++ _)), app_assoc.
  rewrite (store_app _ a2) by (rewrite !length_app; simpl; lia).
  cbn [mbind option_bind]. rewrite (cons_middle _ ((pre ++ _) ++ _)), app_assoc.
  rewrite (store_app _ a3) by (rewrite !length_app; simpl; lia).
  cbn [mbind option_bind]. rewrite (cons_middle _ (((pre ++ _) ++ _) ++ _)), app_assoc.
  rewrite (store_app _ a4) by (rewrite !length_app; simpl; lia).
  cbn [mbind option_bind].
  rewrite (cons_middle _ ((((pre ++ _) ++ _) ++ _) ++ _)), app_assoc.
  rewrite (store_app _ a5) by (rewrite !length_app; simpl; lia).
  cbn [mbind option_bind]. f_equal. f_equal.
  rewrite <- !app_assoc. reflexivity.
Qed.

(** The inner loop fills six elements per column. *)
Lemma row_loop (n i : Z) (js : list Z) : ∀ (pre rest : list Z) (k : Z),
  k = Z.of_nat (length pre) → (6 * length js ≤ length rest)%nat →
  forEach js (fun j => writeQuad n i j) (pre ++ rest, k)
  = Some ((pre ++ flat_map (quadIndices n i) js) ++ drop (6 * length js) rest,
          k + 6 * Z.of_nat (length js)).
Proof.
  induction js as [|j js IH]; intros pre rest k Hk Hlen.
  - simpl. rewrite app_nil_r, Z.add_0_r. reflexivity.
  - cbn [forEach length] in *.
    rewrite (writeQuad_app n i j pre rest k Hk) by lia.
    rewrite IH; [|rewrite length_app; simpl; lia|rewrite length_drop; lia].
    f_equal. f_equal; [|lia].
    cbn [flat_map]. rewrite drop_drop, <- !app_assoc.
    replace (6 * S (length js))%nat with (6 + 6 * length js)%nat by lia.
    reflexivity.
Qed.

Lemma length_flat_map_quads (n i : Z) (js : list Z) :
  length (flat_map (quadIndices n i) js) = (6 * length js)%nat.
Proof. induction js as [|j js IH]; [done|]. cbn [flat_map length app]. simpl. lia. Qed.

(** The outer loop fills [6 * cols] elements per row. *)
Lemma grid_loop (n : Z) (js is_ : list Z) : ∀ (pre rest : list Z) (k : Z),
  k = Z.of_nat (length pre) →
  (6 * length js * length is_ ≤ length rest)%nat →
  forEach is_ (fun i => forEach js (fun j => writeQuad n i j)) (pre ++ rest, k)
  = Some ((pre ++ flat_map (fun i => flat_map (quadIndices n i) js) is_)
            ++ drop (6 * length js * length is_) rest,
          k + 6 * Z.of_nat (length js) * Z.of_nat (length is_)).
Proof.
  induction is_ as [|i is_ IH]; intros pre rest k Hk Hlen.
  - simpl. rewrite Nat.mul_0_r, app_nil_r, Z.mul_0_r, Z.add_0_r. reflexivity.
  - cbn [forEach length] in *.
    rewrite (row_loop n i js pre rest k Hk) by nia.
    rewrite IH;
      [|rewrite length_app, length_flat_map_quads; lia
       |rewrite length_drop; nia].
    f_equal. f_equal; [|nia].
    cbn [flat_map]. rewrite drop_drop, <- !app_assoc.
    replace (6 * length js * S (length is_))%nat
      with (6 * length js + 6 * length js * length is_)%nat by nia.
    reflexivity.
Qed.

Lemma length_gridIndices (m n : Z) :
  1 ≤ m → 1 ≤ n →
  Z.of_nat (length (gridIndices m n)) = 6 * (m - 1) * (n - 1).
Proof.
  intros Hm Hn. unfold gridIndices.
  assert (H : ∀ is_ : list Z,
             length (flat_map (fun i => flat_map (quadIndices n i) (seqZ 0 (n - 1))) is_)
             = (6 * length (seqZ 0 (n - 1)) * length is_)%nat).
  { induction is_ as [|i is_ IH]; [simpl; lia|].
    cbn [flat_map length]. rewrite length_app, length_flat_map_quads, IH. nia. }
  rewrite H, !length_seqZ. nia.
Qed.

Lemma quadIndices_range (m n i j : Z) :
  0 ≤ i < m - 1 → 0 ≤ j < n - 1 →
  Forall (fun v => 0 ≤ v < m * n) (quadIndices n i j).
Proof. intros Hi Hj. unfold quadIndices. repeat constructor; nia. Qed.

Lemma gridIndices_range (m n : Z) :
  Forall (fun v => 0 ≤ v < m * n) (gridIndices m n).
Proof.
  unfold gridIndices. apply Forall_flat_map, Forall_forall. intros i Hi.
  apply Forall_flat_map, Forall_forall. intros j Hj.
  apply elem_of_seqZ in Hi, Hj. apply quadIndices_range; lia.
Qed.

Lemma triangles_quads (n : Z) (i : Z) (js : list Z) (rest : list Z) :
  triangles (flat_map (quadIndices n i) js ++ rest)
  = flat_map (fun j => [(i * n + j, i * n + j + 1, (i + 1) * n + j);
                        ((i + 1) * n + j, i * n + j + 1, (i + 1) * n + j + 1)]) js
    ++ triangles rest.
Proof.
  induction js as [|j js IH]; [done|].
  cbn [flat_map]. unfold quadIndices at 1. rewrite <- !app_assoc.
  simpl. by rewrite IH.
Qed.

Lemma gridIndices_proper (m n : Z) :
  Forall properTriangle (triangles (gridIndices m n)).
Proof.
  unfold gridIndices.
  induction (seqZ 0 (m - 1)) as [|i is_ IH]; [constructor|].
  cbn [flat_map]. rewrite triangles_quads. apply Forall_app. split; [|exact IH].
  apply Forall_flat_map, Forall_forall. intros j Hj. apply elem_of_seqZ in Hj.
  repeat constructor; simpl; nia.
Qed.

(** X10.  For a grid of [m] rows and [n] columns whose simulator reports
    [m n] vertices and [2 (m - 1) (n - 1)] triangles: if the grid has
    65535 vertices or more the assertion stops the program; otherwise the
    loops of [BuildWavesGeometry] write every element of the index vector
    exactly once and none outside it: the vector ends up as the six
    indices of each quad, row by row, the count stored for drawing is
    [6 (m - 1) (n - 1)], every index addresses one of the [m n] vertices,
    the three corners of every triangle are distinct, and every value the
    loops compute fits in an [int]. *)
Theorem waves_index_buffer (m n triangleCount vertexCount : Z) :
  1 ≤ m → 1 ≤ n →
  vertexCount = m * n →
  triangleCount = 2 * (m - 1) * (n - 1) →
  BuildWavesGeometry m n triangleCount vertexCount
  = (if vertexCount <? 65535
     then Some (gridIndices m n, mkSubmesh (6 * (m - 1) * (n - 1)) 0 0)
     else None) ∧
  (vertexCount < 65535 →
   Z.of_nat (length (gridIndices m n)) = 3 * triangleCount ∧
   Forall (fun v => 0 ≤ v < vertexCount ∧ v ≤ 2147483647) (gridIndices m n) ∧
   6 * (m - 1) * (n - 1) + 5 ≤ 2147483647 ∧
   Forall properTriangle (triangles (gridIndices m n))).
Proof.
  intros Hm Hn -> ->.
  pose proof (length_gridIndices m n Hm Hn) as Hlen.
  split.
  - unfold BuildWavesGeometry. destruct (m * n <? 65535); [|reflexivity].
    pose proof (grid_loop n (seqZ 0 (n - 1)) (seqZ 0 (m - 1)) []
                  (replicate (Z.to_nat (3 * (2 * (m - 1) * (n - 1)))) 0) 0 eq_refl) as H.
    rewrite length_replicate, !length_seqZ in H.
    rewrite !app_nil_l in H. rewrite H by nia. cbn [mbind option_bind fst].
    rewrite drop_ge by (rewrite length_replicate; nia).
    rewrite app_nil_r. fold (gridIndices m n). rewrite Hlen. reflexivity.
  - intros Hv. split; [lia|]. split; [|split; [nia|apply gridIndices_proper]].
    eapply Forall_impl; [apply gridIndices_range|]. intros v Hv'. simpl in Hv'. nia.
Qed.

(** With room for fewer triangles the loops run off the vector; with too
    many vertices the assertion fails. *)
Lemma waves_index_buffer_short :
  BuildWavesGeometry 3 3 7 9 = None ∧ BuildWavesGeometry 1 65535 0 65535 = None.
Proof. split; vm_compute; reflexivity. Qed.

Lemma waves_index_buffer_witness :
  BuildWavesGeometry 128 128 32258 16384
  = Some (gridIndices 128 128, mkSubmesh 96774 0 0) ∧
  Forall (fun v => 0 ≤ v < 16384) (gridIndices 128 128).
Proof.
  destruct (waves_index_buffer 128 128 32258 16384 ltac:(lia) ltac:(lia) eq_refl eq_refl)
    as (H & Hr).
  split; [exact H|].
  destruct (Hr ltac:(lia)) as (_ & Hr' & _).
  eapply Forall_impl; [exact Hr'|]. intros v [Hv _]. exact Hv.
Defined.

(** ** The packed geometry of the shapes *)

Lemma UINT_small (n : Z) : 0 ≤ n < 4294967296 → UINT n = n.
Proof. apply Z.mod_small. Qed.

Lemma copy_loop (src : list GeometryGenerator.Vertex) :
  ∀ (todo done_ : list GeometryGenerator.Vertex) (pre rest : list Vertex) (k : Z),
  src = done_ ++ todo → k = Z.of_nat (length pre) →
  (length todo ≤ length rest)%nat → k + size todo < 4294967296 →
  forEach (seqZ (size done_) (size todo))
    (fun i st =>
       let '(vertices, k) := st in
       v ← src !! Z.to_nat i;
       vertices ← store k (toVertex v) vertices;
       Some (vertices, UINT (k + 1)))
    (pre ++ rest, k)
  = Some ((pre ++ map toVertex todo) ++ drop (length todo) rest, k + size todo).
Proof.
  unfold size.
  induction todo as [|v todo IH]; intros done_ pre rest k Hsrc Hk Hlen Hfit.
  - simpl. rewrite app_nil_r, Z.add_0_r. reflexivity.
  - destruct rest as [|r rest]; [simpl in Hlen; lia|].
    rewrite seqZ_cons by (cbn [length]; lia). cbn [forEach].
    rewrite Nat2Z.id, Hsrc, lookup_app_r, Nat.sub_diag by lia.
    cbn [lookup list_lookup mbind option_bind].
    rewrite (store_app pre r _ _ k Hk). cbn [mbind option_bind].
    rewrite UINT_small by (cbn [length] in Hfit; lia).
    replace (Z.succ (Z.of_nat (length done_)))
      with (Z.of_nat (length (done_ ++ [v]))) by (rewrite length_app; simpl; lia).
    replace (Z.pred (Z.of_nat (length (v :: todo))))
      with (Z.of_nat (length todo)) by (cbn [length]; lia).
    rewrite (cons_middle _ pre), app_assoc.
    rewrite <- Hsrc, (IH (done_ ++ [v]));
      [|by rewrite Hsrc, <- app_assoc
       |rewrite length_app; simpl; lia
       |cbn [length] in Hlen; lia
       |cbn [length] in Hfit; lia].
    f_equal. f_equal; [|cbn [length]; lia].
    cbn [map drop length]. rewrite <- !app_assoc. reflexivity.
Qed.

Lemma copyVertices_app (src : list GeometryGenerator.Vertex)
    (pre rest : list Vertex) (k : Z) :
  k = Z.of_nat (length pre) → (length src ≤ length rest)%nat →
  k + size src < 4294967296 →
  copyVertices src (pre ++ rest, k)
  = Some ((pre ++ map toVertex src) ++ drop (length src) rest, k + size src).
Proof.
  intros Hk Hlen Hfit. unfold copyVertices.
  exact (copy_loop src src [] pre rest k eq_refl Hk Hlen Hfit).
Qed.

(** The segment of a concatenation that starts where [l] does. *)
Lemma segment_app {A} (pre l post : list A) (start len : Z) :
  start = Z.of_nat (length pre) → len = Z.of_nat (length l) →
  segment start len (pre ++ l ++ post) = l.
Proof.
  intros -> ->. unfold segment. rewrite !Nat2Z.id.
  by rewrite drop_app_length, take_app_length.
Qed.

Lemma fitsUINT_sizes (ms : ShapeMeshes) :
  fitsUINT ms →
  size (GeometryGenerator.Vertices (box ms)) + size (GeometryGenerator.Vertices (grid ms)) +
  size (GeometryGenerator.Vertices (sphere ms)) +
  size (GeometryGenerator.Vertices (cylinder ms)) +
  size (GeometryGenerator.Vertices (cone ms)) + size (GeometryGenerator.Vertices (wedge ms)) +
  size (GeometryGenerator.Vertices (pyramid ms)) +
  size (GeometryGenerator.Vertices (diamond ms)) +
  size (GeometryGenerator.Vertices (sanlengzhu ms)) +
  size (GeometryGenerator.Vertices (trapezoid ms)) +
  size (GeometryGenerator.Vertices (torus ms)) + size (GeometryGenerator.Vertices (box2 ms))
  < 2147483648 ∧
  size (GeometryGenerator.Indices32 (box ms)) + size (GeometryGenerator.Indices32 (grid ms)) +
  size (GeometryGenerator.Indices32 (sphere ms)) +
  size (GeometryGenerator.Indices32 (cylinder ms)) +
  size (GeometryGenerator.Indices32 (cone ms)) + size (GeometryGenerator.Indices32 (wedge ms)) +
  size (GeometryGenerator.Indices32 (pyramid ms)) +
  size (GeometryGenerator.Indices32 (diamond ms)) +
  size (GeometryGenerator.Indices32 (sanlengzhu ms)) +
  size (GeometryGenerator.Indices32 (trapezoid ms)) +
  size (GeometryGenerator.Indices32 (torus ms)) + size (GeometryGenerator.Indices32 (box2 ms))
  < 2147483648.
Proof.
  unfold fitsUINT, shapes, size. simpl. lia.
Qed.

Ltac uint_small :=
  repeat match goal with
         | |- context [UINT ?n] =>
             rewrite (UINT_small n) by (unfold size in *; lia)
         end.

Ltac copy_step :=
  rewrite copyVertices_app;
  [ cbn [mbind option_bind]
  | unfold size; rewrite ?length_app, ?length_map; cbn [length]; lia
  | rewrite ?length_drop, length_replicate; unfold size in *; lia
  | unfold size in *; lia ].

(** The copy loops leave the vertices of the twelve meshes end to end. *)
Lemma BuildShapeGeometry_closed
    (GetIndices16 : GeometryGenerator.MeshData → list Z) (ms : ShapeMeshes) :
  fitsUINT ms →
  ∃ geo, BuildShapeGeometry GetIndices16 ms = Some geo ∧
    Name geo = "shapeGeo"%string ∧
    VertexBufferCPU geo
    = flat_map (fun nm => map toVertex (GeometryGenerator.Vertices (snd nm))) (shapes ms) ∧
    IndexBufferCPU geo = flat_map (fun nm => GetIndices16 (snd nm)) (shapes ms) ∧
    DrawArgs geo = packArgs 0 0 (shapes ms) ∅.
Proof.
  intros Hfit. apply fitsUINT_sizes in Hfit as [HV HI].
  unfold BuildShapeGeometry. cbv zeta.
  rewrite <- (app_nil_l (replicate _ Vertex_default)).
  do 12 copy_step.
  eexists. split; [reflexivity|]. cbn [Name VertexBufferCPU IndexBufferCPU DrawArgs fst].
  split; [reflexivity|]. split; [|split].
  - unfold shapes. cbn [flat_map snd].
    rewrite drop_ge by (rewrite ?length_drop, length_replicate; unfold size in *; lia).
    rewrite !app_nil_r, !app_nil_l, <- !app_assoc. reflexivity.
  - unfold shapes. cbn [flat_map snd]. rewrite app_nil_r. reflexivity.
  - unfold shapes. cbn [packArgs fst snd]. uint_small.
    rewrite !Z.add_0_l. reflexivity.
Qed.

Lemma packArgs_notin (l : list (string * GeometryGenerator.MeshData)) :
  ∀ io vo args name,
  name ∉ map fst l → packArgs io vo l args !! name = args !! name.
Proof.
  induction l as [|[n m] l IH]; intros io vo args name Hnot; [done|].
  cbn [packArgs fst snd]. cbn [map fst] in Hnot.
  apply not_elem_of_cons in Hnot as [Hne Hnot].
  rewrite IH by done. by rewrite lookup_insert_ne.
Qed.

Lemma packArgs_split (pre : list (string * GeometryGenerator.MeshData)) :
  ∀ io vo args name mesh post,
  name ∉ map fst post →
  packArgs io vo (pre ++ (name, mesh) :: post) args !! name
  = Some (mkSubmesh (size (GeometryGenerator.Indices32 mesh))
            (io + size (flat_map (fun nm => GeometryGenerator.Indices32 (snd nm)) pre))
            (vo + size (flat_map (fun nm => GeometryGenerator.Vertices (snd nm)) pre))).
Proof.
  induction pre as [|[n m] pre IH]; intros io vo args name mesh post Hnot.
  - rewrite app_nil_l. cbn [packArgs fst snd flat_map].
    rewrite packArgs_notin by done. rewrite lookup_insert_eq.
    unfold size. cbn [length]. by rewrite !Z.add_0_r.
  - rewrite <- app_comm_cons. cbn [packArgs fst snd flat_map].
    rewrite IH by done. unfold size. rewrite !length_app. do 2 f_equal; lia.
Qed.

Lemma flat_map_split {A B} (f : A → list B) (pre : list A) (x : A) (post : list A) :
  flat_map f (pre ++ x :: post) = flat_map f pre ++ f x ++ flat_map f post.
Proof. by rewrite flat_map_app. Qed.

Lemma length_flat_map_ext {A B C} (f : A → list B) (g : A → list C) (l : list A) :
  (∀ x, length (f x) = length (g x)) →
  length (flat_map f l) = length (flat_map g l).
Proof.
  intros H. induction l as [|x l IH]; [done|].
  cbn [flat_map]. by rewrite !length_app, H, IH.
Qed.

Lemma shapes_NoDup (ms : ShapeMeshes) : NoDup (map fst (shapes ms)).
Proof.
  unfold shapes. cbn [map fst].
  repeat (apply NoDup_cons; split;
          [rewrite ?elem_of_cons, elem_of_nil; intuition discriminate|]).
  apply NoDup_nil_2.
Qed.

(** In buffers packed end to end, the submesh stored under a name
    designates the mesh of that name. *)
Lemma packed_submesh (GetIndices16 : GeometryGenerator.MeshData → list Z)
    (ms : ShapeMeshes) (geo : MeshGeometry) (name : string)
    (mesh : GeometryGenerator.MeshData) :
  (∀ m, length (GetIndices16 m) = length (GeometryGenerator.Indices32 m)) →
  VertexBufferCPU geo
  = flat_map (fun nm => map toVertex (GeometryGenerator.Vertices (snd nm))) (shapes ms) →
  IndexBufferCPU geo = flat_map (fun nm => GetIndices16 (snd nm)) (shapes ms) →
  DrawArgs geo = packArgs 0 0 (shapes ms) ∅ →
  (name, mesh) ∈ shapes ms →
  ∃ sub, DrawArgs geo !! name = Some sub ∧
    IndexCount sub = size (GeometryGenerator.Indices32 mesh) ∧
    segment (StartIndexLocation sub) (IndexCount sub) (IndexBufferCPU geo)
    = GetIndices16 mesh ∧
    segment (BaseVertexLocation sub) (size (GeometryGenerator.Vertices mesh))
            (VertexBufferCPU geo)
    = map toVertex (GeometryGenerator.Vertices mesh).
Proof.
  intros HG HV HI HA Hin.
  pose proof (shapes_NoDup ms) as Hnd.
  apply list_elem_of_split in Hin as (pre & post & Hsplit).
  rewrite Hsplit in Hnd. rewrite map_app in Hnd. cbn [map fst] in Hnd.
  apply NoDup_app in Hnd as (_ & _ & Hnd). apply NoDup_cons in Hnd as [Hnot _].
  eexists. split; [rewrite HA, Hsplit; by apply packArgs_split|].
  cbn [IndexCount StartIndexLocation BaseVertexLocation].
  split; [reflexivity|]. rewrite HV, HI, Hsplit, !flat_map_split. split.
  - apply segment_app; unfold size; cbn [snd]; [|by rewrite HG].
    rewrite Z.add_0_l. f_equal. apply length_flat_map_ext. intros x. by rewrite HG.
  - apply segment_app; unfold size; cbn [snd]; [|by rewrite length_map].
    rewrite Z.add_0_l. f_equal. apply length_flat_map_ext. intros x.
    by rewrite length_map.
Qed.

(** X11.  As long as neither buffer reaches 2^31 elements and the 16-bit
    view of a mesh has as many indices as the mesh, [BuildShapeGeometry]
    writes no vertex outside the vertex vector, and the submesh it stores
    under each of the twelve names designates exactly that mesh in the
    packed buffers: its index count is the mesh's, the indices from its
    start location on are the mesh's 16-bit indices, and the vertices from
    its base vertex location on are the mesh's vertices, field by field. *)
Theorem shape_geometry_packing
    (GetIndices16 : GeometryGenerator.MeshData → list Z) (ms : ShapeMeshes) :
  fitsUINT ms →
  (∀ m, length (GetIndices16 m) = length (GeometryGenerator.Indices32 m)) →
  ∃ geo, BuildShapeGeometry GetIndices16 ms = Some geo ∧
    ∀ name mesh, (name, mesh) ∈ shapes ms →
      ∃ sub, DrawArgs geo !! name = Some sub ∧
        IndexCount sub = size (GeometryGenerator.Indices32 mesh) ∧
        segment (StartIndexLocation sub) (IndexCount sub) (IndexBufferCPU geo)
        = GetIndices16 mesh ∧
        segment (BaseVertexLocation sub) (size (GeometryGenerator.Vertices mesh))
                (VertexBufferCPU geo)
        = map toVertex (GeometryGenerator.Vertices mesh).
Proof.
  intros Hfit HG.
  destruct (BuildShapeGeometry_closed GetIndices16 ms Hfit)
    as (geo & Hgeo & _ & HV & HI & HA).
  exists geo. split; [exact Hgeo|]. intros name mesh Hin.
  by apply (packed_submesh GetIndices16 ms).
Qed.

Lemma shape_geometry_packing_witness :
  fitsUINT sampleMeshes ∧
  ∃ geo sub, BuildShapeGeometry sampleIndices16 sampleMeshes = Some geo ∧
    DrawArgs geo !! "wedge"%string = Some sub ∧ IndexCount sub = 9 ∧
    segment (BaseVertexLocation sub) 5 (VertexBufferCPU geo)
    = replicate 5 Vertex_default.
Proof.
  assert (Hfit : fitsUINT sampleMeshes) by (split; vm_compute; reflexivity).
  split; [exact Hfit|].
  destruct (shape_geometry_packing sampleIndices16 sampleMeshes Hfit)
    as (geo & Hgeo & Hall).
  { intros m. unfold sampleIndices16. apply length_map. }
  destruct (Hall "wedge"%string (wedge sampleMeshes)) as (sub & Hsub & Hc & _ & Hv).
  { apply list_elem_of_lookup_2 with 5%nat. reflexivity. }
  exists geo, sub. split; [exact Hgeo|]. split; [exact Hsub|].
  split; [exact Hc|exact Hv].
Defined.

(** ** The tree sprites *)

(** X12.  Whatever the array of [treeCount] sprite vertices holds before,
    [BuildTreeSpritesGeometry] writes each of its seventeen elements and
    none outside it, so nothing uninitialised reaches the vertex buffer:
    the result is the seventeen trees of the scene, all of size 20 by 20,
    the index list names each vertex once, and the count stored for
    drawing is the number of vertices. *)
Theorem tree_sprites_filled (vertices : list TreeSpriteVertex) :
  size vertices = treeCount →
  ∃ vs indices sub,
    BuildTreeSpritesGeometry vertices = Some (vs, indices, sub) ∧
    Forall2 sameSprite vs treeSprites ∧
    indices = seqZ 0 (size vs) ∧
    sub = mkSubmesh (size vs) 0 0.
Proof.
  unfold size, treeCount. intros Hlen.
  do 18 (destruct vertices as [|? vertices]; [try (cbn [length] in Hlen; lia)|]);
    [|cbn [length] in Hlen; lia].
  eexists _, _, _. split; [vm_compute; reflexivity|].
  split; [|split; [vm_compute; reflexivity|vm_compute; reflexivity]].
  repeat constructor.
Qed.

(** One element less and the last tree is written past the end. *)
Lemma tree_sprites_short : BuildTreeSpritesGeometry (garbage 16) = None.
Proof. vm_compute. reflexivity. Qed.

Lemma tree_sprites_filled_witness :
  size (garbage 17) = treeCount ∧
  ∃ vs indices sub,
    BuildTreeSpritesGeometry (garbage 17) = Some (vs, indices, sub) ∧
    Forall2 sameSprite vs treeSprites.
Proof.
  split; [reflexivity|].
  destruct (tree_sprites_filled (garbage 17) eq_refl) as (vs & indices & sub & H & Hs & _).
  by exists vs, indices, sub.
Defined.

(** ** The collision check of the camera *)

Lemma Qlt_bool_iff (a b : Q) : Qlt_bool a b = true ↔ (a < b)%Q.
Proof.
  unfold Qlt_bool. rewrite negb_true_iff. split.
  - intros H. destruct (Qlt_le_dec a b) as [?|Hle]; [done|].
    apply Qle_bool_iff in Hle. congruence.
  - intros H. destruct (Qle_bool b a) eqn:E; [|done].
    apply Qle_bool_iff in E. lra.
Qed.

Lemma default_box_hit (p : XMFLOAT3) :
  BoundingBox_Contains BoundingBox_default (mkBoundingBox p (mkF3 2.5 2.5 2.5)) ≠ DISJOINT
  ↔ nearOrigin p.
Proof.
  unfold BoundingBox_Contains, BoundingBox_default, nearOrigin. cbn [Center Extents f3x f3y f3z].
  destruct p as [x y z]. cbn [f3x f3y f3z].
  destruct (Qlt_bool (x + 2.5) (0 - 1)) eqn:E1;
  destruct (Qlt_bool (0 + 1) (x - 2.5)) eqn:E2;
  destruct (Qlt_bool (y + 2.5) (0 - 1)) eqn:E3;
  destruct (Qlt_bool (0 + 1) (y - 2.5)) eqn:E4;
  destruct (Qlt_bool (z + 2.5) (0 - 1)) eqn:E5;
  destruct (Qlt_bool (0 + 1) (z - 2.5)) eqn:E6;
  cbn [orb];
  repeat match goal with
         | H : Qlt_bool _ _ = true |- _ => apply Qlt_bool_iff in H
         | H : Qlt_bool ?a ?b = false |- _ =>
             assert (¬ (a < b)%Q) by (rewrite <- Qlt_bool_iff; congruence); clear H
         end;
  try (split; [intros Hd; by destruct Hd|intros (? & ? & ? & ? & ? & ?); lra]).
  split; [intros _; repeat split; lra|].
  intros _. by destruct (_ && _).
Qed.

Lemma firstHit_default (p : XMFLOAT3) (items : list RenderItem) :
  items ≠ [] →
  (firstHit (mkBoundingBox p (mkF3 2.5 2.5 2.5)) items = true ↔ nearOrigin p).
Proof.
  intros Hne. induction items as [|e rest IH]; [done|].
  cbn [firstHit]. unfold bounds.
  pose proof (default_box_hit p) as Hhit.
  destruct (BoundingBox_Contains BoundingBox_default _) eqn:E.
  - assert (Hn : ¬ nearOrigin p) by (rewrite <- Hhit; tauto).
    destruct rest as [|e' rest]; [by split|].
    rewrite IH by done. tauto.
  - split; [intros _; apply Hhit; done|done].
  - split; [intros _; apply Hhit; done|done].
Qed.

(** X13.  No render item of the source carries a bounding box of its own,
    so the collision check of the camera tests one thing only: with at
    least one render item in the scene, the camera is put back to where it
    was exactly when the requested position is within 3.5 units of the
    origin on all three axes, and is moved to the requested position
    anywhere else, walls included. *)
Theorem camera_blocked_near_origin_only (np1 np2 : XMFLOAT3) (items : list RenderItem) :
  items ≠ [] →
  (nearOrigin np1 → CameraCollisionCheck np1 np2 items = np2) ∧
  (¬ nearOrigin np1 → CameraCollisionCheck np1 np2 items = np1).
Proof.
  intros Hne. unfold CameraCollisionCheck.
  destruct (firstHit_default np1 items Hne) as [H1 H2].
  destruct (firstHit _ items) eqn:E; split; intros Hnear; try done.
  - by destruct (Hnear (H1 eq_refl)).
  - by specialize (H2 Hnear).
Qed.

Lemma camera_blocked_near_origin_only_witness :
  [RenderItem_default] ≠ [] ∧
  CameraCollisionCheck (mkF3 0 7.5 25) (mkF3 0 7.5 20) [RenderItem_default]
  = mkF3 0 7.5 25.
Proof.
  assert (Hne : [RenderItem_default] ≠ []) by discriminate.
  split; [exact Hne|].
  apply (camera_blocked_near_origin_only (mkF3 0 7.5 25) (mkF3 0 7.5 20)
           [RenderItem_default] Hne).
  unfold nearOrigin. cbn [f3x f3y f3z]. intros (_ & _ & _ & H & _).
  vm_compute in H. by apply H.
Defined.

(** In an empty scene the camera always moves. *)
Lemma camera_free_in_empty_scene (np1 np2 : XMFLOAT3) :
  CameraCollisionCheck np1 np2 [] = np1.
Proof. reflexivity. Qed.

(** The camera walks through the left wall (centre (0, 7.5, 25)) and is
    stopped in the middle of the courtyard. *)
Lemma camera_through_the_wall :
  CameraCollisionCheck (mkF3 0 7.5 25) (mkF3 0 7.5 20) BuildRenderItems = mkF3 0 7.5 25 ∧
  CameraCollisionCheck (mkF3 0 3 (-2)) (mkF3 0 3 (-4)) BuildRenderItems = mkF3 0 3 (-4).
Proof. split; vm_compute; reflexivity. Qed.

(** ** The scene as Draw reads it *)

Lemma pushItems_pure geos steps : ∀ sc sc',
  pushItems geos steps sc = Some sc' →
  (ritems sc', mRitemLayer sc') =
    fold_left (fun acc st => pushItemPure st acc) steps (ritems sc, mRitemLayer sc) ∧
  length (ritemDraws sc') = (length (ritemDraws sc) + length steps)%nat ∧
  map Ritem.PrimitiveType (ritemDraws sc') =
    map Ritem.PrimitiveType (ritemDraws sc) ++ map (fun st => snd (fst (fst st))) steps.
Proof.
  induction steps as [|st rest IH]; intros sc sc' H.
  - injection H as <-. split; [done|]. simpl. split; [lia|by rewrite app_nil_r].
  - simpl in H. destruct (pushItem geos st sc) as [sc1|] eqn:E1; [|discriminate H].
    simpl in H. destruct (IH sc1 sc' H) as (IH1 & IH2 & IH3).
    destruct st as [[[layer topology] arg] add]. unfold pushItem in E1.
    destruct (last (fst (add (ritems sc)))) as [ri|]; [|discriminate E1]. simpl in E1.
    destruct (DrawArgs_at geos (Geo ri) arg) as [sub|]; [|discriminate E1].
    injection E1 as <-. simpl in *. split; [exact IH1|]. split.
    + rewrite IH2, length_app. simpl. lia.
    + by rewrite IH3, map_app, <- app_assoc.
Qed.

Lemma scene_pure :
  let r := fold_left (fun acc st => pushItemPure st acc)
             (fixedSteps ++ pillarSteps 0 ++ pillarSteps 1)
             (([], 0), replicate RenderLayer_Count []) in
  fst (fst r) = BuildRenderItems ∧
  snd r = [seq 2 38; [0%nat]; []; [1%nat]].
Proof. vm_compute. split; reflexivity. Qed.

Lemma BuildRenderLayers_scene geos sc :
  BuildRenderLayers geos = Some sc →
  fst (ritems sc) = BuildRenderItems ∧
  length (ritemDraws sc) = 40%nat ∧
  layerItems sc Opaque = seq 2 38 ∧ layerItems sc AlphaTested = [] ∧
  layerItems sc AlphaTestedTreeSprites = [1%nat] ∧ layerItems sc Transparent = [0%nat].
Proof.
  intros H. apply pushItems_pure in H as (H1 & H2 & _).
  destruct scene_pure as (S1 & S2).
  change (ritems Scene_empty, mRitemLayer Scene_empty)
    with (([] : list RenderItem, 0), replicate RenderLayer_Count ([] : list nat)) in H1.
  rewrite <- H1 in S1, S2. simpl in S1, S2. unfold layerItems. rewrite S2.
  repeat split; first [done | by rewrite H2].
Qed.

(** The tree sprites are points, every other item is a triangle list. *)
Lemma scene_topologies geos sc i d :
  BuildRenderLayers geos = Some sc → ritemDraws sc !! i = Some d →
  Ritem.PrimitiveType d =
    if decide (i = 1%nat) then D3D_PRIMITIVE_TOPOLOGY_POINTLIST
    else D3D_PRIMITIVE_TOPOLOGY_TRIANGLELIST.
Proof.
  intros H Hd. apply pushItems_pure in H as (_ & H2 & H3).
  assert (Hi : (i < 40)%nat) by (apply lookup_lt_Some in Hd; by rewrite H2 in Hd).
  assert (Ht : map Ritem.PrimitiveType (ritemDraws sc) !! i = Some (Ritem.PrimitiveType d))
    by (by rewrite list_lookup_fmap, Hd).
  rewrite H3 in Ht. clear -Hi Ht. simpl in Ht.
  do 40 (destruct i as [|i]; [by injection Ht as <-|]). lia.
Qed.

Lemma itemKey_flushed e : itemKey (flushedItem e) = itemKey e.
Proof. unfold flushedItem. by destruct (0 <? NumFramesDirty e). Qed.

Lemma drawKey_frame inp kv : drawKey (frameMaterial inp kv) = drawKey kv.
Proof.
  destruct kv as [name m]. unfold frameMaterial, drawKey, flushedMaterial. simpl.
  destruct (String.eqb name "water"); [unfold animateWater|]; by destruct (0 <? _).
Qed.

Lemma drawKey_run inps : ∀ kv, drawKey (runMaterial inps kv) = drawKey kv.
Proof.
  induction inps as [|inp rest IH]; intros kv; [done|].
  by rewrite runMaterial_cons, IH, drawKey_frame.
Qed.

Lemma wavesCopy_updateEvents inp s :
  omap wavesCopyOf (updateEvents inp s) = [nextSlot s].
Proof.
  unfold updateEvents, waitEvents, disturbEvents.
  destruct (reclaimed s) as [fr|]; [destruct (mustWait _ fr)|];
    destruct (disturbDue _ _); reflexivity.
Qed.

Lemma afterUpdate_scene inp s fr :
  reclaimed s = Some fr →
  mAllRitems (afterUpdate inp s) = map flushedItem (mAllRitems s) ∧
  mMaterials (afterUpdate inp s) = map (frameMaterial inp) (mMaterials s) ∧
  trace (afterUpdate inp s) = trace s ++ updateEvents inp s ∧
  mCurrFrameResourceIndex (afterUpdate inp s) = nextSlot s.
Proof.
  intros Hre. rewrite (afterUpdate_closed inp s fr Hre). simpl.
  split; [apply flushObjects_items|]. split; [|done].
  rewrite flushMaterials_materials. unfold animatedMaterials, onMaterial.
  rewrite map_map. apply map_ext. intros [name m]. unfold frameMaterial. simpl.
  by destruct (String.eqb name "water").
Qed.

Lemma itemKey_iter k e : itemKey (Nat.iter k flushedItem e) = itemKey e.
Proof.
  induction k as [|k IH]; [done|]. by rewrite Nat.iter_succ, itemKey_flushed.
Qed.

(** The state in which [Draw] runs: the scene is the one that was built,
    and the water points at the wave vertices of the current slot. *)
Lemma Update_scene fence0 inps inp s0 s :
  Run inps (Initialize fence0) = (Ok tt, s0) → Update inp s0 = (Ok tt, s) →
  map itemKey (mAllRitems s) = map itemKey BuildRenderItems ∧
  map drawKey (mMaterials s) = map drawKey BuildMaterials ∧
  last (omap wavesCopyOf (trace s)) = Some (mCurrFrameResourceIndex s).
Proof.
  intros HR HU.
  pose proof (Run_wf inps _ s0 (Initialize_wf fence0) HR) as Hwf.
  destruct (ringWF_reclaimed s0 Hwf) as [fr Hre].
  apply Update_Ok in HU as ->.
  destruct (afterUpdate_scene inp s0 fr Hre) as (-> & -> & -> & ->).
  split; [|split].
  - rewrite (Run_items inps _ s0 (Initialize_wf fence0) HR), Initialize_items, !map_map.
    apply map_ext. intros e. by rewrite itemKey_flushed, itemKey_iter.
  - rewrite (Run_materials inps _ s0 (Initialize_wf fence0) HR).
    change (mMaterials (Initialize fence0)) with BuildMaterials.
    rewrite !map_map. apply map_ext. intros kv.
    by rewrite drawKey_frame, drawKey_run.
  - by rewrite omap_app, wavesCopy_updateEvents, last_snoc.
Qed.

Lemma findMaterial_cons name n m rest :
  findMaterial name ((n, m) :: rest) =
  if String.eqb n name then Some m else findMaterial name rest.
Proof. unfold findMaterial. simpl. by destruct (String.eqb n name). Qed.

Lemma findMaterial_keys name : ∀ ms ms',
  map drawKey ms = map drawKey ms' →
  matIndices <$> findMaterial name ms = matIndices <$> findMaterial name ms'.
Proof.
  induction ms as [|[n m] rest IH]; intros [|[n' m'] rest'] H; try done.
  injection H as Hn Hc Hd Hrest. rewrite !findMaterial_cons, <- Hn.
  destruct (String.eqb n name); [|by apply IH].
  simpl. unfold matIndices. by rewrite Hc, Hd.
Qed.

(** ** The state a draw call is issued in *)

Section Recording.
Variables (objCBByteSize matCBByteSize : Z) (sc : Scene) (s : ShapesApp).

Lemma DrawRenderItem_bound i c b rest :
  DrawRenderItem objCBByteSize matCBByteSize sc s i = Some c →
  ∃ bd b',
    boundDraws b (c ++ rest) = bd :: boundDraws b' rest ∧
    boundPSO b' = boundPSO b ∧ lastBarrier b' = lastBarrier b ∧
    boundRoots b' !! 2 = boundRoots b !! 2 ∧
    itemBound objCBByteSize matCBByteSize sc s b i bd.
Proof.
  unfold DrawRenderItem. intros H.
  destruct (mAllRitems s !! i) as [ri|] eqn:E1; [|discriminate H].
  destruct (ritemDraws sc !! i) as [d|] eqn:E2; [|discriminate H].
  simpl in H.
  destruct (findMaterial (Mat ri) (mMaterials s)) as [mat|] eqn:E3; [|discriminate H].
  destruct (VertexBufferGPU s (Geo ri)) as [vb|] eqn:E4; [|discriminate H].
  injection H as <-. eexists _, _. split; [reflexivity|]. simpl.
  assert (H2 : ∀ (x y z : RootArgument),
             <[3:=x]> (<[1:=y]> (<[0:=z]> (boundRoots b))) !! 2 = boundRoots b !! 2)
    by (intros; by rewrite !lookup_insert_ne).
  split; [done|]. split; [done|]. split; [apply H2|].
  exists ri, d, mat, vb. simpl. rewrite H2.
  repeat split; try done.
  - do 2 (rewrite lookup_insert_ne by done). by rewrite lookup_insert_eq.
  - rewrite lookup_insert_ne by done. by rewrite lookup_insert_eq.
  - by rewrite lookup_insert_eq.
Qed.

Lemma DrawRenderItems_bound l : ∀ cs b rest,
  DrawRenderItems objCBByteSize matCBByteSize sc s l = Some cs →
  ∃ bds b',
    boundDraws b (cs ++ rest) = bds ++ boundDraws b' rest ∧
    boundPSO b' = boundPSO b ∧ lastBarrier b' = lastBarrier b ∧
    boundRoots b' !! 2 = boundRoots b !! 2 ∧
    Forall2 (itemBound objCBByteSize matCBByteSize sc s b) l bds.
Proof.
  induction l as [|i l IH]; intros cs b rest H.
  - injection H as <-. exists [], b. by repeat split.
  - simpl in H.
    destruct (DrawRenderItem objCBByteSize matCBByteSize sc s i) as [c|] eqn:E1;
      [|discriminate H].
    simpl in H.
    destruct (DrawRenderItems objCBByteSize matCBByteSize sc s l) as [cs'|] eqn:E2;
      [|discriminate H].
    injection H as <-.
    destruct (DrawRenderItem_bound i c b (cs' ++ rest) E1)
      as (bd & b1 & Hb & Hp1 & Hl1 & Hr1 & Hi).
    destruct (IH cs' b1 rest eq_refl) as (bds & b2 & Hb2 & Hp2 & Hl2 & Hr2 & Hall).
    exists (bd :: bds), b2. rewrite <- app_assoc, Hb, Hb2.
    split; [done|]. split; [congruence|]. split; [congruence|]. split; [congruence|].
    constructor; [exact Hi|].
    eapply Forall2_impl; [exact Hall|]. intros j bd'.
    unfold itemBound. rewrite Hp1, Hl1, Hr1. done.
Qed.

(** The items whose draw can be recorded: the pointers of the item are
    not null. *)
Lemma DrawRenderItems_Some l :
  Forall (fun i => is_Some (DrawRenderItem objCBByteSize matCBByteSize sc s i)) l →
  is_Some (DrawRenderItems objCBByteSize matCBByteSize sc s l).
Proof.
  induction 1 as [|i l [c Hc] _ [cs Hcs]]; [by eexists|].
  simpl. rewrite Hc. simpl. rewrite Hcs. by eexists.
Qed.

Lemma barriers_cons c cs :
  barriers (c :: cs) = from_option (fun x => [x]) [] (barrierOf c) ++ barriers cs.
Proof. unfold barriers. simpl. by destruct (barrierOf c). Qed.

Lemma barriers_app cs cs' : barriers (cs ++ cs') = barriers cs ++ barriers cs'.
Proof. apply omap_app. Qed.

Lemma DrawRenderItems_barriers l : ∀ cs,
  DrawRenderItems objCBByteSize matCBByteSize sc s l = Some cs → barriers cs = [].
Proof.
  induction l as [|i l IH]; intros cs H; [by injection H as <-|].
  simpl in H.
  destruct (DrawRenderItem objCBByteSize matCBByteSize sc s i) as [c|] eqn:E1;
    [|discriminate H].
  simpl in H.
  destruct (DrawRenderItems objCBByteSize matCBByteSize sc s l) as [cs'|] eqn:E2;
    [|discriminate H].
  injection H as <-. rewrite barriers_app, (IH cs' eq_refl), app_nil_r.
  unfold DrawRenderItem in E1.
  destruct (mAllRitems s !! i); [|discriminate E1].
  destruct (ritemDraws sc !! i); [|discriminate E1]. simpl in E1.
  destruct (findMaterial _ _); [|discriminate E1].
  destruct (VertexBufferGPU s _); [|discriminate E1].
  by injection E1 as <-.
Qed.

(** The command list layer by layer: the draws of [Draw] are those of the
    four layers in its order, each layer issued in the state [Draw] has
    set before it. *)
Lemma DrawCommands_layers :
  (∀ layer, is_Some (DrawRenderItems objCBByteSize matCBByteSize sc s
                       (layerItems sc layer))) →
  ∃ cmds d1 d2 d3 d4 b1 b2 b3 b4,
    DrawCommands objCBByteSize matCBByteSize sc s = Some cmds ∧
    boundDraws Bound_none cmds = d1 ++ d2 ++ d3 ++ d4 ∧
    barriers cmds =
      [(mCurrBackBuffer s, D3D12_RESOURCE_STATE_PRESENT, D3D12_RESOURCE_STATE_RENDER_TARGET);
       (mCurrBackBuffer s, D3D12_RESOURCE_STATE_RENDER_TARGET, D3D12_RESOURCE_STATE_PRESENT);
       (mCurrBackBuffer s, D3D12_RESOURCE_STATE_RENDER_TARGET, D3D12_RESOURCE_STATE_PRESENT)] ∧
    layerState s "opaque" D3D12_RESOURCE_STATE_PRESENT D3D12_RESOURCE_STATE_RENDER_TARGET b1 ∧
    Forall2 (itemBound objCBByteSize matCBByteSize sc s b1) (layerItems sc Opaque) d1 ∧
    layerState s "alphaTested" D3D12_RESOURCE_STATE_PRESENT
               D3D12_RESOURCE_STATE_RENDER_TARGET b2 ∧
    Forall2 (itemBound objCBByteSize matCBByteSize sc s b2) (layerItems sc AlphaTested) d2 ∧
    layerState s "treeSprites" D3D12_RESOURCE_STATE_PRESENT
               D3D12_RESOURCE_STATE_RENDER_TARGET b3 ∧
    Forall2 (itemBound objCBByteSize matCBByteSize sc s b3)
            (layerItems sc AlphaTestedTreeSprites) d3 ∧
    layerState s "transparent" D3D12_RESOURCE_STATE_RENDER_TARGET
               D3D12_RESOURCE_STATE_PRESENT b4 ∧
    Forall2 (itemBound objCBByteSize matCBByteSize sc s b4) (layerItems sc Transparent) d4.
Proof.
  intros Hok.
  destruct (Hok Opaque) as [co Hco]. destruct (Hok AlphaTested) as [ca Hca].
  destruct (Hok AlphaTestedTreeSprites) as [ct Hct].
  destruct (Hok Transparent) as [cw Hcw].
  unfold DrawCommands. rewrite Hco, Hca, Hct, Hcw. simpl.
  set (bb := mCurrBackBuffer s). set (slot := mCurrFrameResourceIndex s).
  match goal with |- context [Some ?c = Some _] => exists c end.
  cbn [boundDraws].
  match goal with |- context [boundDraws ?b (co ++ ?rest)] =>
    set (b0 := b);
    destruct (DrawRenderItems_bound _ co b0 rest Hco)
      as (d1 & b1 & E1 & P1 & B1 & R1 & F1) end.
  assert (L0 : layerState s "opaque" D3D12_RESOURCE_STATE_PRESENT
                          D3D12_RESOURCE_STATE_RENDER_TARGET b0).
  { subst b0. split; [done|]. split; [done|]. simpl. by rewrite lookup_insert_eq. }
  destruct L0 as (P0 & B0 & R0). clearbody b0. rewrite E1. cbn [boundDraws].
  match goal with |- context [boundDraws ?b (ca ++ ?rest)] =>
    set (b1' := b);
    destruct (DrawRenderItems_bound _ ca b1' rest Hca)
      as (d2 & b2 & E2 & P2 & B2 & R2 & F2) end.
  rewrite E2. cbn [boundDraws].
  match goal with |- context [boundDraws ?b (ct ++ ?rest)] =>
    set (b2' := b);
    destruct (DrawRenderItems_bound _ ct b2' rest Hct)
      as (d3 & b3 & E3 & P3 & B3 & R3 & F3) end.
  rewrite E3. cbn [boundDraws].
  match goal with |- context [boundDraws ?b (cw ++ ?rest)] =>
    set (b3' := b);
    destruct (DrawRenderItems_bound _ cw b3' rest Hcw)
      as (d4 & b4 & E4 & P4 & B4 & R4 & F4) end.
  rewrite E4. cbn [boundDraws]. rewrite app_nil_r.
  exists d1, d2, d3, d4, b0, b1', b2', b3'.
  split; [reflexivity|]. split; [reflexivity|]. split.
  { repeat (rewrite barriers_cons || rewrite barriers_app).
    rewrite (DrawRenderItems_barriers _ co Hco), (DrawRenderItems_barriers _ ca Hca),
      (DrawRenderItems_barriers _ ct Hct), (DrawRenderItems_barriers _ cw Hcw).
    reflexivity. }
  assert (L1 : layerState s "alphaTested" D3D12_RESOURCE_STATE_PRESENT
                          D3D12_RESOURCE_STATE_RENDER_TARGET b1').
  { subst b1'. split; [done|]. split; simpl; congruence. }
  assert (L2 : layerState s "treeSprites" D3D12_RESOURCE_STATE_PRESENT
                          D3D12_RESOURCE_STATE_RENDER_TARGET b2').
  { destruct L1 as (_ & L1b & L1r). subst b2'. split; [done|]. split; simpl; congruence. }
  assert (L3 : layerState s "transparent" D3D12_RESOURCE_STATE_RENDER_TARGET
                          D3D12_RESOURCE_STATE_PRESENT b3').
  { destruct L2 as (_ & L2b & L2r). subst b3'. split; [done|]. split; [done|].
    simpl. congruence. }
  split; [by repeat split|]. split; [exact F1|]. split; [exact L1|].
  split; [exact F2|]. split; [exact L2|]. split; [exact F3|]. split; [exact L3|exact F4].
Qed.

End Recording.

Lemma scene_materials_found :
  length BuildRenderItems = 40%nat ∧
  ∀ k, k ∈ map itemKey BuildRenderItems → is_Some (findMaterial (snd (fst k)) BuildMaterials).
Proof.
  split; [by vm_compute|]. intros k Hin.
  assert (H : forallb (fun k => match findMaterial (snd (fst k)) BuildMaterials with
                                | Some _ => true | None => false end)
                (map itemKey BuildRenderItems) = true) by (vm_compute; reflexivity).
  rewrite forallb_forall in H. apply list_elem_of_In, H in Hin.
  destruct (findMaterial (snd (fst k)) BuildMaterials); [by eexists|discriminate Hin].
Qed.

Lemma VertexBufferGPU_current s geo :
  last (omap wavesCopyOf (trace s)) = Some (mCurrFrameResourceIndex s) →
  VertexBufferGPU s geo = Some (vertexBufferOf s geo).
Proof.
  intros H. unfold VertexBufferGPU, vertexBufferOf.
  destruct (String.eqb geo "waterGeo"); [by rewrite H|done].
Qed.

(** In the state [Draw] runs in, the draw of every item of the scene can
    be recorded. *)
Lemma DrawRenderItem_scene objCBByteSize matCBByteSize sc s i :
  map itemKey (mAllRitems s) = map itemKey BuildRenderItems →
  map drawKey (mMaterials s) = map drawKey BuildMaterials →
  last (omap wavesCopyOf (trace s)) = Some (mCurrFrameResourceIndex s) →
  length (ritemDraws sc) = 40%nat → (i < 40)%nat →
  is_Some (DrawRenderItem objCBByteSize matCBByteSize sc s i).
Proof.
  intros Hitems Hmats Hvb Hlen Hi.
  destruct scene_materials_found as [H40 Hfound].
  assert (Hl : length (mAllRitems s) = 40%nat).
  { rewrite <- H40, <- (length_map itemKey), Hitems. apply length_map. }
  destruct (lookup_lt_is_Some_2 (mAllRitems s) i) as [ri Hri]; [lia|].
  destruct (lookup_lt_is_Some_2 (ritemDraws sc) i) as [d Hd]; [lia|].
  assert (Hk : itemKey ri ∈ map itemKey BuildRenderItems).
  { rewrite <- Hitems. apply list_elem_of_fmap. exists ri. split; [done|].
    by apply list_elem_of_lookup_2 in Hri. }
  destruct (Hfound _ Hk) as [m0 Hm0]. simpl in Hm0.
  pose proof (findMaterial_keys (Mat ri) _ _ Hmats) as Hf. rewrite Hm0 in Hf.
  destruct (findMaterial (Mat ri) (mMaterials s)) as [mat|] eqn:Emat; [|discriminate Hf].
  unfold DrawRenderItem. rewrite Hri, Hd. simpl. rewrite Emat. simpl.
  rewrite (VertexBufferGPU_current s (Geo ri) Hvb). by eexists.
Qed.

Lemma drawOrder_all (l : list nat) : l ++ [] ++ [1%nat] ++ [0%nat] ≡ₚ 0%nat :: 1%nat :: l.
Proof.
  simpl. rewrite (Permutation_app_comm l). simpl. apply perm_swap.
Qed.

(** Whatever the frames before, once [Update] has returned the draw of
    every layer can be recorded; the scene is the one that was built. *)
Lemma frame_recordable (objCBByteSize matCBByteSize : Z)
    (geos : gmap string (gmap string SubmeshGeometry)) (sc : Scene) (fence0 : Z) (inps : list FrameInput)
    (inp : FrameInput) (s0 s : ShapesApp) :
  BuildRenderLayers geos = Some sc →
  Run inps (Initialize fence0) = (Ok tt, s0) →
  Update inp s0 = (Ok tt, s) →
  (∀ layer, is_Some (DrawRenderItems objCBByteSize matCBByteSize sc s
                       (layerItems sc layer))) ∧
  length (mAllRitems s) = 40%nat ∧
  layerItems sc Opaque = seq 2 38 ∧ layerItems sc AlphaTested = [] ∧
  layerItems sc AlphaTestedTreeSprites = [1%nat] ∧ layerItems sc Transparent = [0%nat].
Proof.
  intros Hsc HR HU.
  destruct (BuildRenderLayers_scene geos sc Hsc) as (_ & Hlen & LO & LA & LT & LW).
  destruct (Update_scene fence0 inps inp s0 s HR HU) as (Hitems & Hmats & Hvb).
  destruct scene_materials_found as [H40 _].
  assert (Hl : length (mAllRitems s) = 40%nat).
  { rewrite <- H40, <- (length_map itemKey), Hitems. apply length_map. }
  split; [|done].
  intros layer. apply DrawRenderItems_Some. apply Forall_forall. intros i Hin.
  apply DrawRenderItem_scene; try done.
  destruct layer; rewrite ?LO, ?LA, ?LT, ?LW in Hin.
  - apply elem_of_seq in Hin. lia.
  - apply list_elem_of_singleton in Hin. lia.
  - by apply elem_of_nil in Hin.
  - apply list_elem_of_singleton in Hin. lia.
Qed.

Lemma sampleScene_built : BuildRenderLayers sampleGeometries = Some sampleScene.
Proof. vm_compute. reflexivity. Qed.

Lemma firstUpdate_ok : Update idleInput (Initialize 0) = (Ok tt, firstUpdate).
Proof. vm_compute. reflexivity. Qed.

Lemma firstUpdate_backBuffer : mCurrBackBuffer firstUpdate = 0.
Proof. vm_compute. reflexivity. Qed.

Lemma itemBound_barrier objCBByteSize matCBByteSize sc s b l bds :
  Forall2 (itemBound objCBByteSize matCBByteSize sc s b) l bds →
  Forall (fun bd => lastBarrier (fst bd) = lastBarrier b) bds.
Proof.
  induction 1 as [|i bd l bds Hi _ IH]; constructor; [|exact IH].
  by destruct Hi as (ri & d & mat & vb & _ & _ & _ & _ & _ & I6 & _).
Qed.

Lemma boundDraws_app cs cs' : ∀ b,
  boundDraws b (cs ++ cs') = boundDraws b cs ++ boundDraws (boundAfter b cs) cs'.
Proof.
  induction cs as [|c cs IH]; intros b; [done|].
  destruct c; simpl; by rewrite IH.
Qed.

Lemma boundAfter_app b cs cs' :
  boundAfter b (cs ++ cs') = boundAfter (boundAfter b cs) cs'.
Proof. apply fold_left_app. Qed.

(** The commands of a layer leave the pipeline state, the barrier and the
    pass constants as they were. *)
Lemma DrawRenderItems_after objCBByteSize matCBByteSize sc s l : ∀ cs b,
  DrawRenderItems objCBByteSize matCBByteSize sc s l = Some cs →
  boundPSO (boundAfter b cs) = boundPSO b ∧
  lastBarrier (boundAfter b cs) = lastBarrier b ∧
  boundRoots (boundAfter b cs) !! 2 = boundRoots b !! 2.
Proof.
  induction l as [|i l IH]; intros cs b H; [by injection H as <-|].
  simpl in H.
  destruct (DrawRenderItem objCBByteSize matCBByteSize sc s i) as [c|] eqn:E1;
    [|discriminate H].
  simpl in H.
  destruct (DrawRenderItems objCBByteSize matCBByteSize sc s l) as [cs'|] eqn:E2;
    [|discriminate H].
  injection H as <-. rewrite boundAfter_app.
  destruct (IH cs' (boundAfter b c) eq_refl) as (-> & -> & ->).
  unfold DrawRenderItem in E1.
  destruct (mAllRitems s !! i); [|discriminate E1].
  destruct (ritemDraws sc !! i); [|discriminate E1]. simpl in E1.
  destruct (findMaterial _ _); [|discriminate E1].
  destruct (VertexBufferGPU s _); [|discriminate E1].
  injection E1 as <-. simpl. split; [done|]. split; [done|].
  by do 3 (rewrite lookup_insert_ne by done).
Qed.

(** The draws of a layer recorded in the state [b], with the state the
    layer leaves. *)
Lemma layer_draws objCBByteSize matCBByteSize sc s l cs b pso before after :
  DrawRenderItems objCBByteSize matCBByteSize sc s l = Some cs →
  layerState s pso before after b →
  Forall2 (itemBound objCBByteSize matCBByteSize sc s b) l (boundDraws b cs) ∧
  layerState s pso before after (boundAfter b cs).
Proof.
  intros Hcs (HP & HB & HR).
  destruct (DrawRenderItems_bound objCBByteSize matCBByteSize sc s l cs b [] Hcs)
    as (bds & b' & Hb & _ & _ & _ & Hall).
  rewrite app_nil_r in Hb. cbn [boundDraws] in Hb. rewrite app_nil_r in Hb. rewrite Hb.
  split; [exact Hall|].
  destruct (DrawRenderItems_after objCBByteSize matCBByteSize sc s l cs b Hcs)
    as (HP' & HB' & HR').
  unfold layerState. by rewrite HP', HB', HR'.
Qed.

(** A draw that is the item's in the state the layer starts in is the
    draw of the item in the sense of [drawsItem]. *)
Lemma itemBound_drawsItem objCBByteSize matCBByteSize sc s layer before after b l bds :
  last (omap wavesCopyOf (trace s)) = Some (mCurrFrameResourceIndex s) →
  layerState s (psoOf layer) before after b →
  (∀ i, i ∈ l → i ∈ layerItems sc layer) →
  Forall2 (itemBound objCBByteSize matCBByteSize sc s b) l bds →
  Forall2 (drawsItem objCBByteSize matCBByteSize sc s) l bds.
Proof.
  intros Hvb (HP & _ & HRt) Hin Hall.
  induction Hall as [|i bd l bds Hi _ IH]; constructor.
  - destruct Hi as (ri & d & mat & vb & I1 & I2 & I3 & I4 & I5 & I6 & I7 & I8 & I9
                     & I10 & I11 & I12 & I13 & I14).
    exists ri, d, mat, layer.
    rewrite (VertexBufferGPU_current s (Geo ri) Hvb) in I4. injection I4 as <-.
    repeat split; try done.
    + apply Hin. by left.
    + by rewrite I5.
    + by rewrite I12.
  - apply IH. intros j Hj. apply Hin. by right.
Qed.

(** The command list in three parts: what comes before the first
    transition to PRESENT, with the draws of the three layers recorded
    there; that transition and the pipeline state of the transparent
    layer; the commands of the transparent layer, with their draws; and
    the second transition to PRESENT. *)
Lemma DrawCommands_parts objCBByteSize matCBByteSize sc s :
  last (omap wavesCopyOf (trace s)) = Some (mCurrFrameResourceIndex s) →
  (∀ layer, is_Some (DrawRenderItems objCBByteSize matCBByteSize sc s
                       (layerItems sc layer))) →
  let toPresent := ResourceBarrier (mCurrBackBuffer s) D3D12_RESOURCE_STATE_RENDER_TARGET
                                   D3D12_RESOURCE_STATE_PRESENT in
  ∃ pre transparent,
    DrawCommands objCBByteSize matCBByteSize sc s
    = Some (pre ++ [toPresent; SetPipelineState "transparent"] ++ transparent
                ++ [toPresent]) ∧
    DrawRenderItems objCBByteSize matCBByteSize sc s (layerItems sc Transparent)
    = Some transparent ∧
    barriers pre = [(mCurrBackBuffer s, D3D12_RESOURCE_STATE_PRESENT,
                     D3D12_RESOURCE_STATE_RENDER_TARGET)] ∧
    barriers transparent = [] ∧
    Forall2 (drawsItem objCBByteSize matCBByteSize sc s)
            (layerItems sc Opaque ++ layerItems sc AlphaTested
             ++ layerItems sc AlphaTestedTreeSprites)
            (boundDraws Bound_none pre) ∧
    Forall (fun bd => lastBarrier (fst bd) =
                      Some (mCurrBackBuffer s, D3D12_RESOURCE_STATE_PRESENT,
                            D3D12_RESOURCE_STATE_RENDER_TARGET))
           (boundDraws Bound_none pre) ∧
    Forall2 (drawsItem objCBByteSize matCBByteSize sc s)
            (layerItems sc Transparent)
            (boundDraws (boundAfter Bound_none
                           (pre ++ [toPresent; SetPipelineState "transparent"]))
                        transparent) ∧
    Forall (fun bd => lastBarrier (fst bd) =
                      Some (mCurrBackBuffer s, D3D12_RESOURCE_STATE_RENDER_TARGET,
                            D3D12_RESOURCE_STATE_PRESENT))
           (boundDraws (boundAfter Bound_none
                          (pre ++ [toPresent; SetPipelineState "transparent"]))
                       transparent).
Proof.
  intros Hvb Hok. cbv zeta.
  destruct (Hok Opaque) as [co Hco]. destruct (Hok AlphaTested) as [ca Hca].
  destruct (Hok AlphaTestedTreeSprites) as [ct Hct].
  destruct (Hok Transparent) as [cw Hcw].
  set (bb := mCurrBackBuffer s). set (slot := mCurrFrameResourceIndex s).
  set (head := [ResetCommandList "opaque"; RSSetViewports; RSSetScissorRects;
                ResourceBarrier bb D3D12_RESOURCE_STATE_PRESENT
                                D3D12_RESOURCE_STATE_RENDER_TARGET;
                ClearRenderTargetView bb; ClearDepthStencilView;
                OMSetRenderTargets bb; SetDescriptorHeaps; SetGraphicsRootSignature;
                SetGraphicsRootConstantBufferView 2 (mkGPUAddress (PassCBOf slot) 0)]).
  exists (head ++ co ++ [SetPipelineState "alphaTested"] ++ ca
               ++ [SetPipelineState "treeSprites"] ++ ct), cw.
  split.
  { unfold DrawCommands. rewrite Hco, Hca, Hct, Hcw. cbn [mbind option_bind].
    rewrite <- !app_assoc. reflexivity. }
  split; [exact Hcw|].
  split.
  { repeat (rewrite barriers_cons || rewrite barriers_app).
    rewrite (DrawRenderItems_barriers _ _ _ _ _ co Hco),
      (DrawRenderItems_barriers _ _ _ _ _ ca Hca),
      (DrawRenderItems_barriers _ _ _ _ _ ct Hct).
    reflexivity. }
  split; [exact (DrawRenderItems_barriers _ _ _ _ _ cw Hcw)|].
  (* the states in which the four layers start *)
  set (b1 := boundAfter Bound_none head).
  assert (L1 : layerState s (psoOf Opaque) D3D12_RESOURCE_STATE_PRESENT
                          D3D12_RESOURCE_STATE_RENDER_TARGET b1).
  { subst b1. split; [done|]. split; [done|]. simpl. by rewrite lookup_insert_eq. }
  destruct (layer_draws _ _ _ _ _ co b1 _ _ _ Hco L1) as [F1 L1'].
  set (b2 := applyCommand (SetPipelineState "alphaTested") (boundAfter b1 co)).
  assert (L2 : layerState s (psoOf AlphaTested) D3D12_RESOURCE_STATE_PRESENT
                          D3D12_RESOURCE_STATE_RENDER_TARGET b2).
  { destruct L1' as (_ & ? & ?). subst b2. by split. }
  destruct (layer_draws _ _ _ _ _ ca b2 _ _ _ Hca L2) as [F2 L2'].
  set (b3 := applyCommand (SetPipelineState "treeSprites") (boundAfter b2 ca)).
  assert (L3 : layerState s (psoOf AlphaTestedTreeSprites) D3D12_RESOURCE_STATE_PRESENT
                          D3D12_RESOURCE_STATE_RENDER_TARGET b3).
  { destruct L2' as (_ & ? & ?). subst b3. by split. }
  destruct (layer_draws _ _ _ _ _ ct b3 _ _ _ Hct L3) as [F3 L3'].
  set (b4 := applyCommand (SetPipelineState "transparent")
               (applyCommand (ResourceBarrier bb D3D12_RESOURCE_STATE_RENDER_TARGET
                                              D3D12_RESOURCE_STATE_PRESENT)
                             (boundAfter b3 ct))).
  assert (L4 : layerState s (psoOf Transparent) D3D12_RESOURCE_STATE_RENDER_TARGET
                          D3D12_RESOURCE_STATE_PRESENT b4).
  { destruct L3' as (_ & _ & ?). subst b4. by split. }
  destruct (layer_draws _ _ _ _ _ cw b4 _ _ _ Hcw L4) as [F4 _].
  assert (Hpre : boundDraws Bound_none
                   (head ++ co ++ [SetPipelineState "alphaTested"] ++ ca
                         ++ [SetPipelineState "treeSprites"] ++ ct)
                 = boundDraws b1 co ++ boundDraws b2 ca ++ boundDraws b3 ct).
  { rewrite (boundDraws_app head). fold b1.
    change (boundDraws Bound_none head) with (@nil (Bound * (Z * Z * Z * Z * Z))).
    rewrite app_nil_l, (boundDraws_app co).
    change (boundDraws (boundAfter b1 co)
              ([SetPipelineState "alphaTested"] ++ ca
               ++ [SetPipelineState "treeSprites"] ++ ct))
      with (boundDraws b2 (ca ++ [SetPipelineState "treeSprites"] ++ ct)).
    rewrite (boundDraws_app ca). reflexivity. }
  assert (Hb4 : boundAfter Bound_none
                  ((head ++ co ++ [SetPipelineState "alphaTested"] ++ ca
                         ++ [SetPipelineState "treeSprites"] ++ ct)
                   ++ [ResourceBarrier bb D3D12_RESOURCE_STATE_RENDER_TARGET
                                       D3D12_RESOURCE_STATE_PRESENT;
                       SetPipelineState "transparent"]) = b4).
  { rewrite !boundAfter_app. reflexivity. }
  assert (Hbar : ∀ b l bds before after pso,
            layerState s pso before after b →
            Forall2 (itemBound objCBByteSize matCBByteSize sc s b) l bds →
            Forall (fun bd => lastBarrier (fst bd) = Some (bb, before, after)) bds).
  { intros b l bds before after pso (_ & HB & _) Hall.
    pose proof (itemBound_barrier _ _ _ _ _ _ _ Hall) as G. by rewrite HB in G. }
  rewrite Hpre, Hb4.
  split.
  { repeat apply Forall2_app.
    - exact (itemBound_drawsItem _ _ _ _ Opaque _ _ b1 _ _ Hvb L1 (fun _ H => H) F1).
    - exact (itemBound_drawsItem _ _ _ _ AlphaTested _ _ b2 _ _ Hvb L2 (fun _ H => H) F2).
    - exact (itemBound_drawsItem _ _ _ _ AlphaTestedTreeSprites _ _ b3 _ _ Hvb L3 (fun _ H => H) F3). }
  split.
  { rewrite !Forall_app. split; [|split].
    - exact (Hbar _ _ _ _ _ _ L1 F1).
    - exact (Hbar _ _ _ _ _ _ L2 F2).
    - exact (Hbar _ _ _ _ _ _ L3 F3). }
  split.
  - exact (itemBound_drawsItem _ _ _ _ Transparent _ _ b4 _ _ Hvb L4 (fun _ H => H) F4).
  - exact (Hbar _ _ _ _ _ _ L4 F4).
Qed.

(** X15.  Every command list is made of four parts.  The first holds one
    transition of the current back buffer, from PRESENT to RENDER_TARGET,
    and the draws of the opaque items and of the tree sprites, each the
    draw of its item, all issued after that transition.  Then come a
    transition from RENDER_TARGET to PRESENT and the pipeline state of the
    transparent layer; then the commands of the transparent layer, no
    barrier among them, whose only draw is that of the water; and last a
    second transition from RENDER_TARGET to PRESENT.  So the water is
    drawn between the two transitions to PRESENT, once the list has
    already returned the back buffer. *)
Theorem transparent_layer_drawn_after_present_barrier (objCBByteSize matCBByteSize : Z)
    (geos : gmap string (gmap string SubmeshGeometry)) (sc : Scene) (fence0 : Z)
    (inps : list FrameInput) (inp : FrameInput) (s0 s : ShapesApp) :
  BuildRenderLayers geos = Some sc →
  Run inps (Initialize fence0) = (Ok tt, s0) →
  Update inp s0 = (Ok tt, s) →
  let toPresent := ResourceBarrier (mCurrBackBuffer s) D3D12_RESOURCE_STATE_RENDER_TARGET
                                   D3D12_RESOURCE_STATE_PRESENT in
  ∃ pre transparent water bd,
    DrawCommands objCBByteSize matCBByteSize sc s
    = Some (pre ++ [toPresent; SetPipelineState "transparent"] ++ transparent
                ++ [toPresent]) ∧
    barriers pre = [(mCurrBackBuffer s, D3D12_RESOURCE_STATE_PRESENT,
                     D3D12_RESOURCE_STATE_RENDER_TARGET)] ∧
    Forall2 (drawsItem objCBByteSize matCBByteSize sc s)
            (layerItems sc Opaque ++ layerItems sc AlphaTested
             ++ layerItems sc AlphaTestedTreeSprites)
            (boundDraws Bound_none pre) ∧
    Forall (fun bd => lastBarrier (fst bd) =
                      Some (mCurrBackBuffer s, D3D12_RESOURCE_STATE_PRESENT,
                            D3D12_RESOURCE_STATE_RENDER_TARGET))
           (boundDraws Bound_none pre) ∧
    (0%nat ∉ layerItems sc Opaque ++ layerItems sc AlphaTested
             ++ layerItems sc AlphaTestedTreeSprites) ∧
    layerItems sc Transparent = [0%nat] ∧
    mAllRitems s !! 0%nat = Some water ∧
    Mat water = "water"%string ∧ Geo water = "waterGeo"%string ∧
    DrawRenderItems objCBByteSize matCBByteSize sc s [0%nat] = Some transparent ∧
    barriers transparent = [] ∧
    boundDraws (boundAfter Bound_none
                  (pre ++ [toPresent; SetPipelineState "transparent"]))
               transparent = [bd] ∧
    drawsItem objCBByteSize matCBByteSize sc s 0%nat bd ∧
    lastBarrier (fst bd) = Some (mCurrBackBuffer s, D3D12_RESOURCE_STATE_RENDER_TARGET,
                                 D3D12_RESOURCE_STATE_PRESENT).
Proof.
  intros Hsc HR HU. cbv zeta.
  destruct (frame_recordable objCBByteSize matCBByteSize geos sc fence0 inps inp s0 s
              Hsc HR HU) as (Hok & Hl & LO & LA & LT & LW).
  destruct (Update_scene fence0 inps inp s0 s HR HU) as (Hitems & _ & Hvb).
  destruct (DrawCommands_parts objCBByteSize matCBByteSize sc s Hvb Hok)
    as (pre & cw & Hcmds & Hcw & Hbp & Hbw & Fpre & Bpre & Fw & Bw).
  destruct (lookup_lt_is_Some_2 (mAllRitems s) 0) as [water Hw]; [lia|].
  rewrite LW in Fw, Hcw.
  destruct (Forall2_cons_inv_l _ _ _ _ Fw) as (bd & bds & Hbd & Hnil & Hdraws).
  apply Forall2_nil_inv_l in Hnil as ->.
  rewrite Hdraws in Bw. apply Forall_cons in Bw as [Bbd _].
  assert (Hk : map itemKey (mAllRitems s) !! 0%nat = Some (itemKey water))
    by (by rewrite list_lookup_fmap, Hw).
  assert (H0 : map itemKey BuildRenderItems !! 0%nat
               = Some (0, "water", "waterGeo")%string) by (vm_compute; reflexivity).
  rewrite Hitems, H0 in Hk. unfold itemKey in Hk. injection Hk as _ HM HG.
  exists pre, cw, water, bd.
  split; [exact Hcmds|]. split; [exact Hbp|]. split; [exact Fpre|].
  split; [exact Bpre|]. split.
  { rewrite LO, LA, LT. intros Hin. rewrite !elem_of_app in Hin.
    destruct Hin as [Hin|[Hin|Hin]].
    - apply elem_of_seq in Hin. lia.
    - by apply elem_of_nil in Hin.
    - apply list_elem_of_singleton in Hin. lia. }
  split; [exact LW|]. split; [exact Hw|]. split; [done|]. split; [done|].
  split; [exact Hcw|]. split; [exact Hbw|]. split; [exact Hdraws|].
  split; [exact Hbd|exact Bbd].
Qed.

Lemma transparent_layer_drawn_after_present_barrier_witness :
  ∃ pre transparent bd,
    DrawCommands 256 256 sampleScene firstUpdate
    = Some (pre ++ [ResourceBarrier 0 D3D12_RESOURCE_STATE_RENDER_TARGET
                                    D3D12_RESOURCE_STATE_PRESENT;
                    SetPipelineState "transparent"] ++ transparent
                ++ [ResourceBarrier 0 D3D12_RESOURCE_STATE_RENDER_TARGET
                                    D3D12_RESOURCE_STATE_PRESENT]) ∧
    barriers pre = [(0, D3D12_RESOURCE_STATE_PRESENT, D3D12_RESOURCE_STATE_RENDER_TARGET)] ∧
    drawsItem 256 256 sampleScene firstUpdate 0%nat bd ∧
    lastBarrier (fst bd) = Some (0, D3D12_RESOURCE_STATE_RENDER_TARGET,
                                 D3D12_RESOURCE_STATE_PRESENT).
Proof.
  destruct (transparent_layer_drawn_after_present_barrier 256 256 sampleGeometries
              sampleScene 0 [] idleInput (Initialize 0) firstUpdate sampleScene_built
              eq_refl firstUpdate_ok)
    as (pre & cw & water & bd & H1 & H2 & _ & _ & _ & _ & _ & _ & _ & _ & _ & _ & H3 & H4).
  rewrite firstUpdate_backBuffer in H1, H2, H4.
  exists pre, cw, bd.
  split; [exact H1|]. split; [exact H2|]. split; [exact H3|exact H4].
Defined.

(** ** Shaders, root signature and pipeline states *)

(** The four pipeline states [Draw] names exist, each with a vertex and a
    pixel shader that was compiled, each made for the root signature, and
    only the one of the tree sprites is for points. *)
Lemma BuildPSOs_layers :
  ∃ psos, BuildPSOs BuildShadersAndInputLayout BuildRootSignature = Some psos ∧
    ∀ layer, ∃ desc,
      psos !! psoOf layer = Some desc ∧
      pRootSignature desc = BuildRootSignature ∧
      is_Some (VS desc) ∧ is_Some (PS desc) ∧
      PrimitiveTopologyType desc =
        match layer with
        | AlphaTestedTreeSprites => D3D12_PRIMITIVE_TOPOLOGY_TYPE_POINT
        | _ => D3D12_PRIMITIVE_TOPOLOGY_TYPE_TRIANGLE
        end.
Proof.
  eexists. split.
  - unfold BuildPSOs, BuildShadersAndInputLayout. cbv zeta. cbn [mShaders].
    repeat match goal with
           | |- context [?m !! ?k ≫= _] =>
               repeat (rewrite (lookup_insert_ne _ _ k) by done);
               rewrite (lookup_insert_eq _ k); cbn [mbind option_bind]
           end.
    reflexivity.
  - intros []; cbn [psoOf]; eexists;
      (split; [repeat (rewrite lookup_insert_ne by done); by rewrite lookup_insert_eq|]);
      cbn; (repeat split; by eexists).
Qed.

(** X16.  Every draw call of a frame fits the pipeline it is issued in:
    the pipeline state bound at the call is one [BuildPSOs] created, with
    a vertex and a pixel shader that [BuildShadersAndInputLayout]
    compiled; its topology type is the one of the call (points for the
    tree sprites, triangles for everything else); it was made for the
    root signature of [BuildRootSignature], and each of the four root
    parameters has, at the call, an argument of the kind the signature
    declares: a descriptor table at 0 and constant buffer views at 1, 2
    and 3. *)
Theorem draws_fit_the_pipeline (objCBByteSize matCBByteSize : Z)
    (geos : gmap string (gmap string SubmeshGeometry)) (sc : Scene) (fence0 : Z) (inps : list FrameInput)
    (inp : FrameInput) (s0 s : ShapesApp) :
  BuildRenderLayers geos = Some sc →
  Run inps (Initialize fence0) = (Ok tt, s0) →
  Update inp s0 = (Ok tt, s) →
  ∃ cmds psos,
    DrawCommands objCBByteSize matCBByteSize sc s = Some cmds ∧
    BuildPSOs BuildShadersAndInputLayout BuildRootSignature = Some psos ∧
    length (boundDraws Bound_none cmds) = length (mAllRitems s) ∧
    Forall (fitsPipeline BuildRootSignature psos) (boundDraws Bound_none cmds).
Proof.
  intros Hsc HR HU.
  destruct (frame_recordable objCBByteSize matCBByteSize geos sc fence0 inps inp s0 s
              Hsc HR HU) as (Hok & Hl & LO & LA & LT & LW).
  destruct (DrawCommands_layers objCBByteSize matCBByteSize sc s Hok)
    as (cmds & d1 & d2 & d3 & d4 & b1 & b2 & b3 & b4 & Hcmds & Hdraws & _
        & L1 & F1 & L2 & F2 & L3 & F3 & L4 & F4).
  destruct BuildPSOs_layers as (psos & Hpsos & Hlayer).
  exists cmds, psos. split; [exact Hcmds|]. split; [exact Hpsos|]. split.
  { rewrite Hdraws, !length_app, <- (Forall2_length _ _ _ F1), <- (Forall2_length _ _ _ F2),
      <- (Forall2_length _ _ _ F3), <- (Forall2_length _ _ _ F4), LO, LA, LT, LW, Hl.
    reflexivity. }
  assert (Hconv : ∀ layer before after b l bds,
            layerState s (psoOf layer) before after b →
            (∀ i, i ∈ l → i = 1%nat ↔ layer = AlphaTestedTreeSprites) →
            Forall2 (itemBound objCBByteSize matCBByteSize sc s b) l bds →
            Forall (fitsPipeline BuildRootSignature psos) bds).
  { intros layer before after b l bds (HP & _ & HRt) Hin Hall.
    induction Hall as [|i bd l bds Hi _ IH]; constructor.
    - destruct Hi as (ri & d & mat & vb & I1 & I2 & I3 & I4 & I5 & I6 & I7 & I8 & I9
                       & I10 & I11 & I12 & I13 & I14).
      destruct (Hlayer layer) as (desc & D1 & D2 & D3 & D4 & D5).
      exists (psoOf layer), desc, (Ritem.PrimitiveType d).
      split; [by rewrite I5|]. split; [exact D1|]. split; [exact D2|].
      split; [exact D3|]. split; [exact D4|]. split; [exact I9|]. split.
      + rewrite D5, (scene_topologies geos sc i d Hsc I2).
        specialize (Hin i (list_elem_of_here i l)).
        destruct (decide (i = 1%nat)) as [Hi1|Hi1].
        * by rewrite (proj1 Hin Hi1).
        * destruct layer; try done. by destruct Hi1, (proj2 Hin).
      + intros k p Hk. rewrite HRt in I12.
        do 4 (destruct k as [|k]; [injection Hk as <-; eexists; split; [eassumption|done]|]).
        done.
    - apply IH. intros j Hj. apply Hin. by right. }
  rewrite Hdraws, !Forall_app.
  split; [|split; [|split]].
  - eapply (Hconv Opaque); [exact L1| |exact F1].
    intros i Hi. rewrite LO in Hi. apply elem_of_seq in Hi. split; [lia|done].
  - eapply (Hconv AlphaTested); [exact L2| |exact F2].
    intros i Hi. rewrite LA in Hi. by apply elem_of_nil in Hi.
  - eapply (Hconv AlphaTestedTreeSprites); [exact L3| |exact F3].
    intros i Hi. rewrite LT in Hi. by apply list_elem_of_singleton in Hi.
  - eapply (Hconv Transparent); [exact L4| |exact F4].
    intros i Hi. rewrite LW in Hi. apply list_elem_of_singleton in Hi. split; [lia|done].
Qed.

Lemma draws_fit_the_pipeline_witness :
  ∃ cmds psos,
    DrawCommands 256 256 sampleScene firstUpdate = Some cmds ∧
    BuildPSOs BuildShadersAndInputLayout BuildRootSignature = Some psos ∧
    Forall (fitsPipeline BuildRootSignature psos) (boundDraws Bound_none cmds).
Proof.
  destruct (draws_fit_the_pipeline 256 256 sampleGeometries sampleScene 0 []
              idleInput (Initialize 0) firstUpdate sampleScene_built eq_refl firstUpdate_ok)
    as (cmds & psos & H1 & H2 & _ & H3).
  exists cmds, psos. split; [exact H1|]. split; [exact H2|exact H3].
Defined.

(** ** The constants a draw call reads *)

Lemma flushObjects_mono items : ∀ cb k,
  is_Some (cb !! k) → is_Some (snd (flushObjects items cb) !! k).
Proof.
  induction items as [|e rest IH]; intros cb k H; [done|]. simpl.
  destruct (0 <? NumFramesDirty e).
  - specialize (IH (<[ObjCBIndex e := objConstantsOf e]> cb) k).
    destruct (flushObjects rest _) as [rest' cb']. simpl in *. apply IH.
    destruct (decide (ObjCBIndex e = k)) as [->|Hne];
      [by rewrite lookup_insert_eq|by rewrite lookup_insert_ne].
  - specialize (IH cb k H). by destruct (flushObjects rest cb).
Qed.

Lemma flushObjects_writes items : ∀ cb k,
  Forall (fun e => 1 ≤ NumFramesDirty e) items → k ∈ map ObjCBIndex items →
  is_Some (snd (flushObjects items cb) !! k).
Proof.
  induction items as [|e rest IH]; intros cb k Hall Hin; [by apply elem_of_nil in Hin|].
  apply Forall_cons in Hall as [He Hall]. simpl in *.
  destruct (Z.ltb_spec 0 (NumFramesDirty e)); [|lia].
  apply elem_of_cons in Hin as [->|Hin].
  - pose proof (flushObjects_mono rest (<[ObjCBIndex e := objConstantsOf e]> cb)
                  (ObjCBIndex e)) as Hm.
    destruct (flushObjects rest _) as [rest' cb']. simpl in *. apply Hm.
    by rewrite lookup_insert_eq.
  - specialize (IH (<[ObjCBIndex e := objConstantsOf e]> cb) k Hall Hin).
    by destruct (flushObjects rest _).
Qed.

Lemma flushMaterials_mono ms : ∀ cb k,
  is_Some (cb !! k) → is_Some (snd (flushMaterials ms cb) !! k).
Proof.
  induction ms as [|[name m] rest IH]; intros cb k H; [done|]. simpl.
  destruct (0 <? MatNumFramesDirty m).
  - specialize (IH (<[MatCBIndex m := matConstantsOf m]> cb) k).
    destruct (flushMaterials rest _) as [rest' cb']. simpl in *. apply IH.
    destruct (decide (MatCBIndex m = k)) as [->|Hne];
      [by rewrite lookup_insert_eq|by rewrite lookup_insert_ne].
  - specialize (IH cb k H). by destruct (flushMaterials rest cb).
Qed.

Lemma flushMaterials_writes ms : ∀ cb k,
  Forall (fun kv => 1 ≤ MatNumFramesDirty (snd kv)) ms → k ∈ map snd (matKeys ms) →
  is_Some (snd (flushMaterials ms cb) !! k).
Proof.
  induction ms as [|[name m] rest IH]; intros cb k Hall Hin; [by apply elem_of_nil in Hin|].
  apply Forall_cons in Hall as [He Hall]. simpl in *.
  destruct (Z.ltb_spec 0 (MatNumFramesDirty m)); [|lia].
  apply elem_of_cons in Hin as [->|Hin].
  - pose proof (flushMaterials_mono rest (<[MatCBIndex m := matConstantsOf m]> cb)
                  (MatCBIndex m)) as Hm.
    destruct (flushMaterials rest _) as [rest' cb']. simpl in *. apply Hm.
    by rewrite lookup_insert_eq.
  - specialize (IH (<[MatCBIndex m := matConstantsOf m]> cb) k Hall Hin).
    by destruct (flushMaterials rest _).
Qed.

(** Animation leaves no counter lower than it was, as long as it was at
    most the ring size. *)
Lemma animatedMaterials_counters inp ms t :
  t ≤ gNumFrameResources →
  Forall (fun kv => t ≤ MatNumFramesDirty (snd kv)) ms →
  Forall (fun kv => t ≤ MatNumFramesDirty (snd kv)) (animatedMaterials inp ms).
Proof.
  intros Ht Hall. unfold animatedMaterials, onMaterial. apply Forall_fmap.
  eapply Forall_impl; [exact Hall|]. intros [name m] Hm. simpl in *.
  by destruct (String.eqb name "water").
Qed.

(** The slot [Update] acquires is complete once [Update] is through. *)
Lemma acquired_written inp s fr cam w tb :
  ringWF s → slotsCovered s → reclaimed s = Some fr →
  slotWritten (mAllRitems s) (mMaterials s)
              (slotAfterUpdate inp (mAllRitems s) (mMaterials s) cam w tb fr).
Proof.
  intros Hwf Hcov Hre. unfold slotAfterUpdate, slotWritten. simpl.
  split; [|split]; [| |by rewrite lookup_insert_eq].
  - intros k Hk. destruct (Hcov _ _ Hre) as [(Ho & _ & _)|(t & Ht & Hj & Hi & _)].
    + by apply flushObjects_mono, Ho.
    + apply flushObjects_writes; [|exact Hk].
      eapply Forall_impl; [exact Hi|]. intros e He. simpl in He. lia.
  - intros k Hk. destruct (Hcov _ _ Hre) as [(_ & Hm & _)|(t & Ht & Hj & _ & Hm)].
    + by apply flushMaterials_mono, Hm.
    + apply flushMaterials_writes; [|by rewrite matKeys_animated].
      apply (animatedMaterials_counters inp _ 1); [unfold gNumFrameResources; lia|].
      eapply Forall_impl; [exact Hm|]. intros kv Hkv. simpl in Hkv. lia.
Qed.

Lemma flushedCounter_ge t n : 2 ≤ t → t ≤ n → t - 1 ≤ flushedCounter n.
Proof. intros Ht Hn. unfold flushedCounter. destruct (Z.ltb_spec 0 n); lia. Qed.

Lemma Frame_covered inp s s' :
  ringWF s → slotsCovered s → Frame inp s = (Ok tt, s') → slotsCovered s'.
Proof.
  intros Hwf Hcov HF. destruct (ringWF_reclaimed s Hwf) as [fr Hre].
  pose proof (acquired_written inp s fr (Some (camera inp)) (mWaves s) (t_base s)
                Hwf Hcov Hre) as Hacq.
  pose proof (Frame_itemKeys inp s _ s' Hwf HF) as Hik.
  pose proof (Frame_matKeys inp s _ s' Hwf HF) as Hmk.
  pose proof (Frame_items inp s s' Hwf HF) as Hitems.
  pose proof (Frame_materials inp s s' Hwf HF) as Hmats.
  destruct (Frame_ring inp s s' Hwf HF) as (_ & _ & Hcur & _).
  pose proof (nextSlot_mod s Hwf) as Hnext.
  pose proof (nextSlot_range s Hwf) as Hrange.
  assert (Hsame : ∀ fr0, slotWritten (mAllRitems s) (mMaterials s) fr0 →
                         slotWritten (mAllRitems s') (mMaterials s') fr0).
  { intros fr0 (H1 & H2 & H3). unfold slotWritten. by rewrite Hik, Hmk. }
  assert (Hfrs : mFrameResources s' =
                 <[slotOf (nextSlot s) :=
                     setFence (mCurrentFence s + 1)
                       (slotAfterUpdate inp (mAllRitems s) (mMaterials s)
                          (Some (camera inp)) (mWaves s) (t_base s) fr)]>
                   (mFrameResources s))
    by (by rewrite (Frame_closed inp s s' fr Hre HF)).
  intros j fr' Hj. rewrite Hfrs in Hj.
  destruct (decide (j = slotOf (nextSlot s))) as [->|Hne].
  - rewrite list_lookup_insert_eq in Hj by (by apply lookup_lt_Some in Hre).
    injection Hj as <-. left. apply Hsame. exact Hacq.
  - rewrite list_lookup_insert_ne in Hj by done.
    destruct (Hcov j fr' Hj) as [Hw|(t & Ht & Hjt & Hi & Hm)]; [left; by apply Hsame|].
    right. unfold slotPending. unfold gNumFrameResources in *.
    assert (Ht2 : 2 ≤ t).
    { destruct (decide (t = 1)) as [->|]; [|lia]. exfalso. apply Hne.
      unfold slotOf. rewrite Hnext, <- Hjt. by rewrite Nat2Z.id. }
    exists (t - 1). split; [lia|]. split; [|split].
    + rewrite Hcur, Hnext, Hjt, Zplus_mod_idemp_l. f_equal. lia.
    + rewrite Hitems. apply Forall_fmap. eapply Forall_impl; [exact Hi|].
      intros e He. simpl in *.
      destruct (flushedItem_same e) as [_ ->]. by apply flushedCounter_ge.
    + rewrite Hmats. apply Forall_fmap. eapply Forall_impl; [exact Hm|].
      intros [name m] He. unfold frameMaterial. simpl in *.
      destruct (flushedMaterial_same
                  (if String.eqb name "water" then animateWater (DeltaTime (gt inp)) m
                   else m)) as [_ ->].
      apply flushedCounter_ge; [exact Ht2|].
      destruct (String.eqb name "water"); [simpl; unfold gNumFrameResources; lia|exact He].
Qed.

Lemma Run_covered inps : ∀ s s',
  ringWF s → slotsCovered s → Run inps s = (Ok tt, s') → slotsCovered s'.
Proof.
  induction inps as [|inp rest IH]; intros s s' Hwf Hcov HR.
  - by injection HR as <-.
  - rewrite Run_cons in HR.
    destruct (Frame inp s) as [[[]|e] s1] eqn:EF; [|discriminate HR].
    apply (IH s1 s'); [by apply (Frame_wf inp s)| |exact HR].
    by apply (Frame_covered inp s).
Qed.

Lemma Initialize_covered fence0 : slotsCovered (Initialize fence0).
Proof.
  intros j fr Hj. right.
  assert (Hlt : (j < 3)%nat) by (by apply lookup_lt_Some in Hj).
  exists (if decide (j = 0%nat) then 3 else Z.of_nat j).
  unfold gNumFrameResources. split; [destruct (decide _); lia|]. split.
  { change (mCurrFrameResourceIndex (Initialize fence0)) with 0.
    destruct (decide (j = 0%nat)) as [->|]; [done|].
    rewrite Z.add_0_l, Z.mod_small; lia. }
  split.
  - rewrite Initialize_items. eapply Forall_impl; [apply scene_counters|].
    intros e ->. unfold gNumFrameResources. destruct (decide _); lia.
  - change (mMaterials (Initialize fence0)) with BuildMaterials.
    eapply Forall_impl; [apply scene_material_counters|].
    intros kv ->. unfold gNumFrameResources. destruct (decide _); lia.
Qed.

Lemma findMaterial_elem name ms m :
  findMaterial name ms = Some m → MatCBIndex m ∈ map snd (matKeys ms).
Proof.
  induction ms as [|[n m0] rest IH]; [done|].
  rewrite findMaterial_cons. simpl. destruct (String.eqb n name).
  - intros [= ->]. by left.
  - intros H. right. by apply IH.
Qed.

Lemma ObjCBIndex_flushed e : ObjCBIndex (flushedItem e) = ObjCBIndex e.
Proof. unfold flushedItem. by destruct (0 <? NumFramesDirty e). Qed.

(** The slot of the frame, once [Update] has returned: it is complete for
    the scene as it stands, and the scene has the buffer indices it was
    built with. *)
Lemma Update_written fence0 inps inp s0 s :
  Run inps (Initialize fence0) = (Ok tt, s0) → Update inp s0 = (Ok tt, s) →
  ∃ fr, mCurrFrameResource s = Some fr ∧
        slotWritten (mAllRitems s) (mMaterials s) fr ∧
        map ObjCBIndex (mAllRitems s) = map ObjCBIndex BuildRenderItems ∧
        matKeys (mMaterials s) = matKeys BuildMaterials.
Proof.
  intros HR HU.
  pose proof (Run_wf inps _ s0 (Initialize_wf fence0) HR) as Hwf.
  pose proof (Run_covered inps _ s0 (Initialize_wf fence0) (Initialize_covered fence0) HR)
    as Hcov.
  destruct (ringWF_reclaimed s0 Hwf) as [fr Hre].
  pose proof (acquired_written inp s0 fr (Some (camera inp)) (mWaves s0) (t_base s0)
                Hwf Hcov Hre) as Hacq.
  apply Update_Ok in HU as ->.
  destruct (afterUpdate_scene inp s0 fr Hre) as (Hitems & Hmats & _ & Hcur).
  assert (Hik : map ObjCBIndex (mAllRitems (afterUpdate inp s0))
                = map ObjCBIndex (mAllRitems s0)).
  { rewrite Hitems, map_map. apply map_ext. intros e. apply ObjCBIndex_flushed. }
  assert (Hmk : matKeys (mMaterials (afterUpdate inp s0)) = matKeys (mMaterials s0)).
  { rewrite Hmats. unfold matKeys. rewrite map_map. apply map_ext. intros [name m].
    unfold frameMaterial, flushedMaterial. simpl.
    destruct (String.eqb name "water"); [unfold animateWater|]; by destruct (0 <? _). }
  eexists. split.
  { unfold mCurrFrameResource. rewrite Hcur, (afterUpdate_closed inp s0 fr Hre). simpl.
    apply list_lookup_insert_eq. by apply lookup_lt_Some in Hre. }
  split; [|split].
  - destruct Hacq as (H1 & H2 & H3). unfold slotWritten. by rewrite Hik, Hmk.
  - rewrite Hik, (Run_items inps _ s0 (Initialize_wf fence0) HR), Initialize_items, map_map.
    apply map_ext. intros e.
    induction (length inps) as [|k IH]; [done|].
    by rewrite Nat.iter_succ, ObjCBIndex_flushed.
  - rewrite Hmk. apply (Run_matKeys inps _ _ s0 (Initialize_wf fence0) HR).
Qed.

(** X17.  No draw call reads a constant that was not written.  With
    element sizes that keep the byte offsets of the last object and of the
    last material within 32 bits, every draw call of every frame takes
    its object constants, its material constants and the pass constants
    from the buffers of the frame resource [Update] has just acquired, at
    whole elements that lie inside the buffers as [BuildFrameResources]
    sized them and that hold data: something has been copied to each of
    them, although from the fourth frame on [Update] no longer writes the
    object constants. *)
Theorem draws_read_written_constants (objCBByteSize matCBByteSize : Z)
    (geos : gmap string (gmap string SubmeshGeometry)) (sc : Scene) (fence0 : Z) (inps : list FrameInput)
    (inp : FrameInput) (s0 s : ShapesApp) :
  0 < objCBByteSize → objectCount * objCBByteSize ≤ 4294967296 →
  0 < matCBByteSize → materialCount * matCBByteSize ≤ 4294967296 →
  BuildRenderLayers geos = Some sc →
  Run inps (Initialize fence0) = (Ok tt, s0) →
  Update inp s0 = (Ok tt, s) →
  ∃ cmds fr,
    DrawCommands objCBByteSize matCBByteSize sc s = Some cmds ∧
    mCurrFrameResource s = Some fr ∧
    length (boundDraws Bound_none cmds) = length (mAllRitems s) ∧
    Forall (readsWritten objCBByteSize matCBByteSize (mCurrFrameResourceIndex s) fr)
           (boundDraws Bound_none cmds).
Proof.
  intros Ho1 Ho2 Hm1 Hm2 Hsc HR HU.
  destruct (frame_recordable objCBByteSize matCBByteSize geos sc fence0 inps inp s0 s
              Hsc HR HU) as (Hok & Hl & LO & LA & LT & LW).
  destruct (DrawCommands_layers objCBByteSize matCBByteSize sc s Hok)
    as (cmds & d1 & d2 & d3 & d4 & b1 & b2 & b3 & b4 & Hcmds & Hdraws & _
        & L1 & F1 & L2 & F2 & L3 & F3 & L4 & F4).
  destruct (Update_written fence0 inps inp s0 s HR HU)
    as (fr & Hfr & (W1 & W2 & W3) & Hik & Hmk).
  destruct scene_indices_in_bounds as [Bo Bm].
  exists cmds, fr. split; [exact Hcmds|]. split; [exact Hfr|]. split.
  { rewrite Hdraws, !length_app, <- (Forall2_length _ _ _ F1), <- (Forall2_length _ _ _ F2),
      <- (Forall2_length _ _ _ F3), <- (Forall2_length _ _ _ F4), LO, LA, LT, LW, Hl.
    reflexivity. }
  assert (Hconv : ∀ pso before after b l bds,
            layerState s pso before after b →
            Forall2 (itemBound objCBByteSize matCBByteSize sc s b) l bds →
            Forall (readsWritten objCBByteSize matCBByteSize
                      (mCurrFrameResourceIndex s) fr) bds).
  { intros pso before after b l bds (_ & _ & HRt) Hall.
    induction Hall as [|i bd l bds Hi _ IH]; constructor; [|exact IH].
    destruct Hi as (ri & d & mat & vb & I1 & I2 & I3 & I4 & I5 & I6 & I7 & I8 & I9
                     & I10 & I11 & I12 & I13 & I14).
    assert (Hk : ObjCBIndex ri ∈ map ObjCBIndex (mAllRitems s)).
    { apply list_elem_of_fmap. exists ri. split; [done|].
      by apply list_elem_of_lookup_2 in I1. }
    pose proof (findMaterial_elem _ _ _ I3) as Hm.
    assert (Hkb : 0 ≤ ObjCBIndex ri < objectCount).
    { rewrite Hik in Hk. rewrite Forall_forall in Bo. by apply Bo. }
    assert (Hmb : 0 ≤ MatCBIndex mat < materialCount).
    { rewrite Hmk in Hm. rewrite Forall_forall in Bm. by apply Bm. }
    exists (ObjCBIndex ri), (MatCBIndex mat).
    rewrite I11, I13, I12, HRt.
    rewrite (UINT_small (ObjCBIndex ri * objCBByteSize)) by nia.
    rewrite (UINT_small (MatCBIndex mat * matCBByteSize)) by nia.
    repeat split; try done; try lia.
    - exact (W1 _ Hk).
    - exact (W2 _ Hm). }
  rewrite Hdraws, !Forall_app.
  split; [|split; [|split]].
  - exact (Hconv _ _ _ _ _ _ L1 F1).
  - exact (Hconv _ _ _ _ _ _ L2 F2).
  - exact (Hconv _ _ _ _ _ _ L3 F3).
  - exact (Hconv _ _ _ _ _ _ L4 F4).
Qed.

Lemma draws_read_written_constants_witness :
  ∃ cmds fr,
    DrawCommands 256 256 sampleScene firstUpdate = Some cmds ∧
    mCurrFrameResource firstUpdate = Some fr ∧
    Forall (readsWritten 256 256 (mCurrFrameResourceIndex firstUpdate) fr)
           (boundDraws Bound_none cmds).
Proof.
  destruct (draws_read_written_constants 256 256 sampleGeometries sampleScene 0 []
              idleInput (Initialize 0) firstUpdate) as (cmds & fr & H1 & H2 & _ & H3).
  - lia.
  - vm_compute. discriminate.
  - lia.
  - vm_compute. discriminate.
  - exact sampleScene_built.
  - reflexivity.
  - exact firstUpdate_ok.
  - exists cmds, fr. split; [exact H1|]. split; [exact H2|exact H3].
Defined.

(** ** The meshes the draw calls read *)

Lemma pushItems_args geos steps : ∀ sc sc',
  pushItems geos steps sc = Some sc' →
  ∃ ds, ritemDraws sc' = ritemDraws sc ++ ds ∧
        Forall2 (argsOf geos) (stepArgs steps (ritems sc)) ds.
Proof.
  induction steps as [|st rest IH]; intros sc sc' H.
  - injection H as <-. exists []. by rewrite app_nil_r.
  - simpl in H. destruct (pushItem geos st sc) as [sc1|] eqn:E1; [|discriminate H].
    simpl in H. destruct (IH sc1 sc' H) as (ds & Hds & Hall).
    destruct st as [[[layer topology] arg] add]. unfold pushItem in E1.
    destruct (last (fst (add (ritems sc)))) as [ri|] eqn:El; [|discriminate E1].
    simpl in E1.
    destruct (DrawArgs_at geos (Geo ri) arg) as [sub|] eqn:Es; [|discriminate E1].
    injection E1 as <-. simpl in *.
    eexists (_ :: ds). split; [by rewrite Hds, <- app_assoc|].
    constructor; [|exact Hall]. rewrite El. by exists (Geo ri), sub.
Qed.

Lemma pushItems_is_Some geos steps : ∀ sc,
  Forall (fun ga => ∃ geo, fst ga = Some geo ∧ is_Some (geos !! geo))
         (stepArgs steps (ritems sc)) →
  is_Some (pushItems geos steps sc).
Proof.
  induction steps as [|[[[layer topology] arg] add] rest IH]; intros sc Hall;
    [by eexists|].
  simpl in Hall. apply Forall_cons in Hall as [(geo & Hg & [args Ha]) Hall].
  simpl. unfold pushItem.
  destruct (last (fst (add (ritems sc)))) as [ri|]; [|discriminate Hg].
  injection Hg as <-. simpl. unfold DrawArgs_at. rewrite Ha. simpl.
  by apply IH.
Qed.

(** The geometry and submesh of each item: the water, the tree sprites,
    then thirty-eight shapes. *)
Lemma scene_args :
  ∃ shapeArgs,
    stepArgs (fixedSteps ++ pillarSteps 0 ++ pillarSteps 1) (ritems Scene_empty)
    = (Some "waterGeo", "water") :: (Some "treeSpritesGeo", "points")
      :: map (fun arg => (Some "shapeGeo", arg)) shapeArgs ∧
    length shapeArgs = 38%nat ∧
    ∀ ms, Forall (fun arg => arg ∈ map fst (shapes ms)) shapeArgs.
Proof.
  eexists (omap (fun ga => if String.eqb (default "" (fst ga)) "shapeGeo"
                           then Some (snd ga) else None)
             (stepArgs (fixedSteps ++ pillarSteps 0 ++ pillarSteps 1)
                (ritems Scene_empty)))%string.
  split; [vm_compute; reflexivity|]. split; [vm_compute; reflexivity|].
  intros ms. cbn [shapes map fst].
  match goal with |- Forall _ ?l =>
    let l' := eval vm_compute in l in change l with l' end.
  repeat constructor; set_solver.
Qed.

Lemma BuildWavesGeometry_submesh m n triangleCount vertexCount indices sub :
  BuildWavesGeometry m n triangleCount vertexCount = Some (indices, sub) →
  sub = mkSubmesh (size indices) 0 0.
Proof.
  unfold BuildWavesGeometry. intros H.
  destruct (vertexCount <? 65535); [|discriminate H].
  destruct (forEach _ _ _) as [st|]; [|discriminate H].
  by injection H as <- <-.
Qed.

Lemma BuildTreeSpritesGeometry_submesh vertices vs indices sub :
  BuildTreeSpritesGeometry vertices = Some (vs, indices, sub) →
  sub = mkSubmesh (size indices) 0 0.
Proof.
  unfold BuildTreeSpritesGeometry. intros H.
  destruct (forEach _ _ (vertices, 0)) as [st1|]; [|discriminate H].
  cbn [mbind option_bind] in H.
  destruct (forEach _ _ st1) as [st2|]; [|discriminate H].
  cbn [mbind option_bind] in H.
  destruct (putTree _ st2) as [st3|]; [|discriminate H].
  cbn [mbind option_bind] in H.
  destruct (putTree _ st3) as [st4|]; [|discriminate H].
  cbn [mbind option_bind] in H.
  by injection H as _ <- <-.
Qed.

Lemma DrawArgs_at_store (shapeGeo : MeshGeometry) (water points : SubmeshGeometry) :
  Name shapeGeo = "shapeGeo"%string →
  (∀ arg, DrawArgs_at (mGeometriesOf shapeGeo water points) "shapeGeo" arg
          = Some (default (mkSubmesh 0 0 0) (DrawArgs shapeGeo !! arg))) ∧
  DrawArgs_at (mGeometriesOf shapeGeo water points) "waterGeo" "water" = Some water ∧
  DrawArgs_at (mGeometriesOf shapeGeo water points) "treeSpritesGeo" "points" = Some points.
Proof.
  intros HN. unfold DrawArgs_at, mGeometriesOf. rewrite HN. split; [|split].
  - intros arg. do 2 (rewrite lookup_insert_ne by done). by rewrite lookup_insert_eq.
  - rewrite lookup_insert_ne by done. rewrite lookup_insert_eq. simpl.
    by rewrite lookup_singleton_eq.
  - rewrite lookup_insert_eq. simpl. by rewrite lookup_singleton_eq.
Qed.

(** X18.  Every draw call reads one whole mesh.  For any twelve meshes
    that fit and any outcome of the builders of the water and of the tree
    sprites, building the shapes and then the render items succeeds (no
    geometry is missing), and the draw parameters of the items are right
    for the buffers: each of the thirty-eight opaque items designates
    exactly the indices and the vertices of one of the twelve meshes in
    the packed buffers of the shapes, the water item the whole index list
    of the grid, and the tree sprites the whole list of points, both from
    vertex 0. *)
Theorem draw_parameters_designate_meshes
    (GetIndices16 : GeometryGenerator.MeshData → list Z) (ms : ShapeMeshes)
    (m n triangleCount vertexCount : Z) (waterIndices : list Z)
    (water : SubmeshGeometry)
    (vertices sprites : list TreeSpriteVertex) (points : list Z)
    (pointsSubmesh : SubmeshGeometry) :
  fitsUINT ms →
  (∀ mesh, length (GetIndices16 mesh) = length (GeometryGenerator.Indices32 mesh)) →
  BuildWavesGeometry m n triangleCount vertexCount = Some (waterIndices, water) →
  BuildTreeSpritesGeometry vertices = Some (sprites, points, pointsSubmesh) →
  ∃ geo sc,
    BuildShapeGeometry GetIndices16 ms = Some geo ∧
    BuildRenderLayers (mGeometriesOf geo water pointsSubmesh) = Some sc ∧
    length (layerItems sc Opaque) = 38%nat ∧
    Forall (fun i => ∃ d, ritemDraws sc !! i = Some d ∧ drawsMesh GetIndices16 ms geo d)
           (layerItems sc Opaque) ∧
    Forall (fun i => ∃ d, ritemDraws sc !! i = Some d ∧ drawsAll waterIndices d)
           (layerItems sc Transparent) ∧
    Forall (fun i => ∃ d, ritemDraws sc !! i = Some d ∧ drawsAll points d)
           (layerItems sc AlphaTestedTreeSprites).
Proof.
  intros Hfit HG Hw Ht.
  apply BuildWavesGeometry_submesh in Hw as ->.
  apply BuildTreeSpritesGeometry_submesh in Ht as ->.
  destruct (BuildShapeGeometry_closed GetIndices16 ms Hfit)
    as (geo & Hgeo & HN & HV & HI & HA).
  set (geos := mGeometriesOf geo (mkSubmesh (size waterIndices) 0 0)
                             (mkSubmesh (size points) 0 0)).
  destruct (DrawArgs_at_store geo (mkSubmesh (size waterIndices) 0 0)
              (mkSubmesh (size points) 0 0) HN) as (As & Aw & At).
  fold geos in As, Aw, At.
  destruct scene_args as (shapeArgs & Hargs & Hlen & Hnames).
  assert (Hsome : is_Some (BuildRenderLayers geos)).
  { apply pushItems_is_Some. rewrite Hargs.
    constructor; [exists "waterGeo"%string; split; [done|]|].
    { unfold DrawArgs_at in Aw. by destruct (geos !! "waterGeo"%string). }
    constructor; [exists "treeSpritesGeo"%string; split; [done|]|].
    { unfold DrawArgs_at in At. by destruct (geos !! "treeSpritesGeo"%string). }
    apply Forall_fmap, Forall_forall. intros arg _.
    exists "shapeGeo"%string. split; [done|].
    specialize (As arg). unfold DrawArgs_at in As.
    by destruct (geos !! "shapeGeo"%string). }
  destruct Hsome as [sc Hsc]. exists geo, sc.
  split; [exact Hgeo|]. split; [exact Hsc|].
  destruct (BuildRenderLayers_scene geos sc Hsc) as (_ & _ & LO & _ & LT & LW).
  destruct (pushItems_args geos _ _ _ Hsc) as (ds & Hds & Hall).
  rewrite Hargs in Hall. change (ritemDraws Scene_empty) with (@nil Ritem.DrawCall) in Hds.
  rewrite app_nil_l in Hds. subst ds.
  destruct (ritemDraws sc) as [|dw [|dt dshapes]];
    [by inversion Hall|inversion Hall as [|? ? ? ? _ Hall']; by inversion Hall'|].
  apply Forall2_cons in Hall as [Hdw Hall]. apply Forall2_cons in Hall as [Hdt Hall].
  rewrite LO, LT, LW. split; [by rewrite length_seq|]. split; [|split].
  - apply Forall_forall. intros i Hi. apply elem_of_seq in Hi.
    destruct (lookup_lt_is_Some_2 dshapes (i - 2)) as [d Hd].
    { rewrite <- (Forall2_length _ _ _ Hall), length_map, Hlen. lia. }
    exists d. split.
    { replace i with (S (S (i - 2))) by lia. exact Hd. }
    destruct (Forall2_lookup_r _ _ _ _ _ Hall Hd) as (ga & Hga & Hd').
    apply list_lookup_fmap_Some in Hga as (arg & -> & Harg).
    destruct Hd' as (geo' & sub & Hg & Hs & Hc & Hst & Hb). simpl in Hg, Hs.
    injection Hg as <-. rewrite As in Hs. injection Hs as <-.
    specialize (Hnames ms). rewrite Forall_forall in Hnames.
    apply list_elem_of_lookup_2 in Harg. apply Hnames in Harg.
    apply list_elem_of_fmap in Harg as ([name mesh] & -> & Hin).
    cbn [fst] in Hc, Hst, Hb.
    destruct (packed_submesh GetIndices16 ms geo name mesh HG HV HI HA Hin)
      as (sub & Hsub & S1 & S2 & S3).
    rewrite Hsub in Hc, Hst, Hb. simpl in Hc, Hst, Hb.
    exists name, mesh. split; [exact Hin|]. by rewrite Hc, Hst, Hb.
  - constructor; [|constructor]. exists dw. split; [done|].
    destruct Hdw as (geo' & sub & Hg & Hs & Hc & Hst & Hb). simpl in Hg, Hs.
    injection Hg as <-. rewrite Aw in Hs. injection Hs as <-. by split.
  - constructor; [|constructor]. exists dt. split; [done|].
    destruct Hdt as (geo' & sub & Hg & Hs & Hc & Hst & Hb). simpl in Hg, Hs.
    injection Hg as <-. rewrite At in Hs. injection Hs as <-. by split.
Qed.

Lemma sampleGrid_built :
  BuildWavesGeometry 3 3 8 9 = Some (fst sampleGrid, snd sampleGrid).
Proof. vm_compute. reflexivity. Qed.

Lemma sampleSprites_built :
  BuildTreeSpritesGeometry (garbage 17)
  = Some (fst (fst sampleSprites), snd (fst sampleSprites), snd sampleSprites).
Proof. vm_compute. reflexivity. Qed.

Lemma draw_parameters_designate_meshes_witness :
  ∃ geo sc,
    BuildShapeGeometry sampleIndices16 sampleMeshes = Some geo ∧
    BuildRenderLayers (mGeometriesOf geo (snd sampleGrid) (snd sampleSprites)) = Some sc ∧
    Forall (fun i => ∃ d, ritemDraws sc !! i = Some d ∧
                          drawsMesh sampleIndices16 sampleMeshes geo d)
           (layerItems sc Opaque).
Proof.
  destruct (draw_parameters_designate_meshes sampleIndices16 sampleMeshes 3 3 8 9
              (fst sampleGrid) (snd sampleGrid) (garbage 17) (fst (fst sampleSprites))
              (snd (fst sampleSprites)) (snd sampleSprites))
    as (geo & sc & H1 & H2 & _ & H3 & _).
  - split; vm_compute; reflexivity.
  - intros mesh. unfold sampleIndices16. apply length_map.
  - exact sampleGrid_built.
  - exact sampleSprites_built.
  - exists geo, sc. split; [exact H1|]. split; [exact H2|exact H3].
Defined.

(** ** Textures and their descriptors *)

Lemma shownBy_keys heap ms ms' :
  map drawKey ms = map drawKey ms' → map (shownBy heap) ms = map (shownBy heap) ms'.
Proof.
  revert ms'. induction ms as [|[n m] rest IH]; intros [|[n' m'] rest'] H; try done.
  injection H as Hn Hc Hd Hrest. cbn [map]. rewrite (IH rest' Hrest).
  unfold shownBy. simpl. by rewrite Hn, Hd.
Qed.

(** X19.  Which texture each material shows.  [BuildDescriptorHeaps]
    fills the nine places of the heap without reading a missing texture
    or writing past the end, and in every frame the heap index of each
    material designates a view of the heap.  Seven materials show the
    file their name suggests; [stone] shows the file of [roofTex] and
    [roof] the file of [stoneTex], because the heap holds the roof before
    the stone while the materials are numbered stone before roof.  Four
    views, those of the water, the grass, the board and the ice, are
    created with the mip count of the tile texture, which the descriptor
    still holds when they are created. *)
Theorem materials_show_textures (fence0 : Z) (inps : list FrameInput)
    (inp : FrameInput) (s0 s : ShapesApp) :
  Run inps (Initialize fence0) = (Ok tt, s0) →
  Update inp s0 = (Ok tt, s) →
  ∃ heap,
    BuildDescriptorHeaps LoadTextures = Some heap ∧
    Z.of_nat (length heap) = NumDescriptors ∧
    Forall (fun kv => 0 ≤ DiffuseSrvHeapIndex (snd kv) < NumDescriptors) (mMaterials s) ∧
    map (shownBy heap) (mMaterials s) =
      [("brick", Some "../Textures/bricks.dds");
       ("stone", Some "../Textures/bricks3.dds");
       ("roof", Some "../Textures/bricks2.dds");
       ("tile", Some "../Textures/tile.dds");
       ("water", Some "../Textures/water1.dds");
       ("treeSprites", Some "../Textures/treeArray.dds");
       ("grass", Some "../Textures/grass.dds");
       ("board", Some "../Textures/checkboard.dds");
       ("ice", Some "../Textures/ice.dds")]%string ∧
    omap (fun v => v ≫= borrowedMips) heap =
      [("waterTex", "tileTex"); ("grassTex", "tileTex");
       ("boardTex", "tileTex"); ("iceTex", "tileTex")]%string.
Proof.
  intros HR HU.
  destruct (Update_scene fence0 inps inp s0 s HR HU) as (_ & Hmats & _).
  assert (Hheap : is_Some (BuildDescriptorHeaps LoadTextures)) by (vm_compute; by eexists).
  destruct Hheap as [heap Hheap]. exists heap. split; [exact Hheap|].
  assert (Hh : Some heap = BuildDescriptorHeaps LoadTextures) by done.
  split; [|split; [|split]].
  - injection Hh as ->. vm_compute. reflexivity.
  - assert (Hd : map (fun kv => DiffuseSrvHeapIndex (snd kv)) (mMaterials s)
                 = map (fun kv => DiffuseSrvHeapIndex (snd kv)) BuildMaterials).
    { rewrite <- (map_map drawKey (fun k => snd (snd k))), Hmats.
      by rewrite (map_map drawKey (fun k => snd (snd k))). }
    apply Forall_forall. intros kv Hin.
    assert (Hi : DiffuseSrvHeapIndex (snd kv)
                 ∈ map (fun kv => DiffuseSrvHeapIndex (snd kv)) BuildMaterials).
    { rewrite <- Hd. apply list_elem_of_fmap. by exists kv. }
    revert Hi. generalize (DiffuseSrvHeapIndex (snd kv)). intros i Hi.
    apply list_elem_of_In in Hi. vm_compute in Hi.
    unfold NumDescriptors. intuition lia.
  - rewrite (shownBy_keys heap _ _ Hmats). injection Hh as ->. vm_compute. reflexivity.
  - injection Hh as ->. vm_compute. reflexivity.
Qed.

Lemma materials_show_textures_witness :
  ∃ heap,
    BuildDescriptorHeaps LoadTextures = Some heap ∧
    Forall (fun kv => 0 ≤ DiffuseSrvHeapIndex (snd kv) < NumDescriptors)
           (mMaterials firstUpdate).
Proof.
  destruct (materials_show_textures 0 [] idleInput (Initialize 0) firstUpdate eq_refl
              firstUpdate_ok) as (heap & H1 & _ & H2 & _).
  exists heap. split; [exact H1|exact H2].
Defined.

(** ** The object constants a draw call reads *)

Lemma lastWritten_cons e rest k :
  lastWritten (e :: rest) k =
  match lastWritten rest k with
  | Some c => Some c
  | None => if decide (ObjCBIndex e = k) then Some (objConstantsOf e) else None
  end.
Proof.
  unfold lastWritten. cbn [map].
  destruct (decide (ObjCBIndex e = k)) as [Hk|Hk].
  - rewrite filter_cons_True by done. rewrite last_cons.
    by destruct (last _).
  - rewrite filter_cons_False by done. by destruct (last _).
Qed.

Lemma lastWritten_ext items items' k :
  map objectWrite items = map objectWrite items' →
  lastWritten items k = lastWritten items' k.
Proof. unfold lastWritten. by intros ->. Qed.

Lemma objectWrite_flushed e : objectWrite (flushedItem e) = objectWrite e.
Proof. unfold objectWrite. by destruct (flushedItem_constants e) as [-> ->]. Qed.

Lemma objectWrite_map_flushed items :
  map objectWrite (map flushedItem items) = map objectWrite items.
Proof. rewrite map_map. apply map_ext. apply objectWrite_flushed. Qed.

(** A flush in which every item is dirty leaves in each element the
    constants of the last item bound to it. *)
Lemma flushObjects_all items : ∀ cb k,
  Forall (fun e => 0 < NumFramesDirty e) items →
  snd (flushObjects items cb) !! k =
    match lastWritten items k with Some c => Some c | None => cb !! k end.
Proof.
  induction items as [|e rest IH]; intros cb k Hall; [done|].
  apply Forall_cons in Hall as [He Hall]. simpl.
  destruct (Z.ltb_spec 0 (NumFramesDirty e)); [|lia].
  specialize (IH (<[ObjCBIndex e := objConstantsOf e]> cb) k Hall).
  destruct (flushObjects rest _) as [rest' cb']. simpl in *.
  rewrite IH, lastWritten_cons. destruct (lastWritten rest k); [done|].
  destruct (decide (ObjCBIndex e = k)) as [->|Hne];
    [by rewrite lookup_insert_eq|by rewrite lookup_insert_ne].
Qed.

(** The slot [Update] acquires holds the constants of the items once
    [Update] is through. *)
Lemma acquired_held inp s fr cam w tb :
  objectsCovered s → reclaimed s = Some fr →
  objectsHeld (mAllRitems s)
              (slotAfterUpdate inp (mAllRitems s) (mMaterials s) cam w tb fr).
Proof.
  intros [[c Hc] Hcov] Hre k c0 Hk. unfold slotAfterUpdate. simpl.
  destruct (Z.ltb_spec 0 c) as [Hpos|Hneg].
  - rewrite flushObjects_all, Hk; [done|].
    eapply Forall_impl; [exact Hc|]. intros e ->. exact Hpos.
  - rewrite flushObjects_clean
      by (eapply Forall_impl; [exact Hc|]; intros e ->; exact Hneg).
    simpl. destruct (Hcov _ _ Hre) as [Hh|(t & Ht & _ & Hi)]; [by apply Hh|].
    destruct (mAllRitems s) as [|e rest]; [discriminate Hk|].
    apply Forall_cons in Hc as [He _]. apply Forall_cons in Hi as [Hi _]. lia.
Qed.

Lemma Frame_objectsCovered inp s s' :
  ringWF s → objectsCovered s → Frame inp s = (Ok tt, s') → objectsCovered s'.
Proof.
  intros Hwf Hcov HF. destruct (ringWF_reclaimed s Hwf) as [fr Hre].
  pose proof (acquired_held inp s fr (Some (camera inp)) (mWaves s) (t_base s)
                Hcov Hre) as Hacq.
  pose proof (Frame_items inp s s' Hwf HF) as Hitems.
  destruct (Frame_ring inp s s' Hwf HF) as (_ & _ & Hcur & _).
  pose proof (nextSlot_mod s Hwf) as Hnext.
  pose proof (nextSlot_range s Hwf) as Hrange.
  assert (Hsame : ∀ fr0, objectsHeld (mAllRitems s) fr0 → objectsHeld (mAllRitems s') fr0).
  { intros fr0 Hh k c0 Hk. apply Hh. rewrite <- Hk, Hitems.
    apply lastWritten_ext. symmetry. apply objectWrite_map_flushed. }
  assert (Hfrs : mFrameResources s' =
                 <[slotOf (nextSlot s) :=
                     setFence (mCurrentFence s + 1)
                       (slotAfterUpdate inp (mAllRitems s) (mMaterials s)
                          (Some (camera inp)) (mWaves s) (t_base s) fr)]>
                   (mFrameResources s))
    by (by rewrite (Frame_closed inp s s' fr Hre HF)).
  destruct Hcov as [[c Hc] Hcov]. split.
  { exists (flushedCounter c). rewrite Hitems. apply Forall_fmap.
    eapply Forall_impl; [exact Hc|]. intros e He. simpl.
    destruct (flushedItem_same e) as [_ ->]. by rewrite He. }
  intros j fr' Hj. rewrite Hfrs in Hj.
  destruct (decide (j = slotOf (nextSlot s))) as [->|Hne].
  - rewrite list_lookup_insert_eq in Hj by (by apply lookup_lt_Some in Hre).
    injection Hj as <-. left. apply Hsame. exact Hacq.
  - rewrite list_lookup_insert_ne in Hj by done.
    destruct (Hcov j fr' Hj) as [Hw|(t & Ht & Hjt & Hi)]; [left; by apply Hsame|].
    right. unfold objectsPending. unfold gNumFrameResources in *.
    assert (Ht2 : 2 ≤ t).
    { destruct (decide (t = 1)) as [->|]; [|lia]. exfalso. apply Hne.
      unfold slotOf. rewrite Hnext, <- Hjt. by rewrite Nat2Z.id. }
    exists (t - 1). split; [lia|]. split.
    + rewrite Hcur, Hnext, Hjt, Zplus_mod_idemp_l. f_equal. lia.
    + rewrite Hitems. apply Forall_fmap. eapply Forall_impl; [exact Hi|].
      intros e He. simpl in *.
      destruct (flushedItem_same e) as [_ ->]. by apply flushedCounter_ge.
Qed.

Lemma Run_objectsCovered inps : ∀ s s',
  ringWF s → objectsCovered s → Run inps s = (Ok tt, s') → objectsCovered s'.
Proof.
  induction inps as [|inp rest IH]; intros s s' Hwf Hcov HR.
  - by injection HR as <-.
  - rewrite Run_cons in HR.
    destruct (Frame inp s) as [[[]|e] s1] eqn:EF; [|discriminate HR].
    apply (IH s1 s'); [by apply (Frame_wf inp s)| |exact HR].
    by apply (Frame_objectsCovered inp s).
Qed.

Lemma Initialize_objectsCovered fence0 : objectsCovered (Initialize fence0).
Proof.
  split.
  { exists gNumFrameResources. rewrite Initialize_items. apply scene_counters. }
  intros j fr Hj. right.
  assert (Hlt : (j < 3)%nat) by (by apply lookup_lt_Some in Hj).
  exists (if decide (j = 0%nat) then 3 else Z.of_nat j).
  unfold gNumFrameResources. split; [destruct (decide _); lia|]. split.
  { change (mCurrFrameResourceIndex (Initialize fence0)) with 0.
    destruct (decide (j = 0%nat)) as [->|]; [done|].
    rewrite Z.add_0_l, Z.mod_small; lia. }
  rewrite Initialize_items. eapply Forall_impl; [apply scene_counters|].
  intros e ->. unfold gNumFrameResources. destruct (decide _); lia.
Qed.

(** The slot of the frame, once [Update] has returned: it holds the
    constants of the scene as it was built. *)
Lemma Update_objects fence0 inps inp s0 s :
  Run inps (Initialize fence0) = (Ok tt, s0) → Update inp s0 = (Ok tt, s) →
  map objectWrite (mAllRitems s) = map objectWrite BuildRenderItems ∧
  ∃ fr, mCurrFrameResource s = Some fr ∧ objectsHeld BuildRenderItems fr.
Proof.
  intros HR HU.
  pose proof (Run_wf inps _ s0 (Initialize_wf fence0) HR) as Hwf.
  pose proof (Run_objectsCovered inps _ s0 (Initialize_wf fence0)
                (Initialize_objectsCovered fence0) HR) as Hcov.
  destruct (ringWF_reclaimed s0 Hwf) as [fr Hre].
  pose proof (acquired_held inp s0 fr (Some (camera inp)) (mWaves s0) (t_base s0)
                Hcov Hre) as Hacq.
  apply Update_Ok in HU as ->.
  destruct (afterUpdate_scene inp s0 fr Hre) as (Hitems & _ & _ & Hcur).
  assert (Hw0 : map objectWrite (mAllRitems s0) = map objectWrite BuildRenderItems).
  { rewrite (Run_items inps _ s0 (Initialize_wf fence0) HR), Initialize_items, map_map.
    apply map_ext. intros e.
    induction (length inps) as [|k IH]; [done|].
    by rewrite Nat.iter_succ, objectWrite_flushed. }
  split; [by rewrite Hitems, objectWrite_map_flushed|].
  eexists. split.
  { unfold mCurrFrameResource. rewrite Hcur, (afterUpdate_closed inp s0 fr Hre). simpl.
    apply list_lookup_insert_eq. by apply lookup_lt_Some in Hre. }
  intros k c Hk. apply Hacq. rewrite <- Hk. by apply lastWritten_ext.
Qed.

(** In the scene every item is the last one bound to its element, except
    the tree sprites at position 1: their element, number 3, is also that
    of the back wall at position 4, which comes later. *)
Lemma scene_lastWritten (i : nat) (w : Z * ObjectConstants) :
  map objectWrite BuildRenderItems !! i = Some w → i ≠ 1%nat →
  lastWritten BuildRenderItems (fst w) = Some (snd w).
Proof.
  intros Hi Hne.
  assert (Hlt : (i < 40)%nat).
  { apply lookup_lt_Some in Hi. rewrite length_map in Hi.
    by rewrite (proj1 scene_materials_found) in Hi. }
  do 40 (destruct i as [|i];
         [try done; vm_compute in Hi; injection Hi as <-; vm_compute; reflexivity|]).
  lia.
Qed.

Lemma scene_shared_element :
  ∃ trees wall,
    map objectWrite BuildRenderItems !! 1%nat = Some (3, trees) ∧
    map objectWrite BuildRenderItems !! 4%nat = Some (3, wall) ∧
    lastWritten BuildRenderItems 3 = Some wall ∧ wall ≠ trees.
Proof.
  eexists _, _. split; [vm_compute; reflexivity|].
  split; [vm_compute; reflexivity|]. split; [vm_compute; reflexivity|].
  discriminate.
Qed.

(** X14.  In every frame the command list draws each render item exactly
    once.  Whatever geometry store the scene was built over and whatever
    the frames before, once [Update] has returned the recording succeeds
    (no null pointer is read), the order of the draw calls is a
    permutation of all the positions of [mAllRitems], and the call for an
    item is issued under the pipeline state of the item's layer with the
    item's own index buffer, topology and draw parameters, the texture
    and constants of its material, element [ObjCBIndex] of the object
    buffer and the pass constants, all three buffers those of the frame
    resource of this frame; the water is drawn from the wave vertices of
    this frame's slot.  The element of the object buffer holds the item's
    own constants for every item but the tree sprites: their element,
    number 3, is also the back wall's, and holds the constants of the
    wall, which differ from theirs. *)
Theorem frame_draws_every_item_once (objCBByteSize matCBByteSize : Z)
    (geos : gmap string (gmap string SubmeshGeometry)) (sc : Scene) (fence0 : Z)
    (inps : list FrameInput) (inp : FrameInput) (s0 s : ShapesApp) :
  BuildRenderLayers geos = Some sc →
  Run inps (Initialize fence0) = (Ok tt, s0) →
  Update inp s0 = (Ok tt, s) →
  ∃ cmds fr,
    DrawCommands objCBByteSize matCBByteSize sc s = Some cmds ∧
    drawOrder sc ≡ₚ seq 0 (length (mAllRitems s)) ∧
    Forall2 (drawsItem objCBByteSize matCBByteSize sc s) (drawOrder sc)
            (boundDraws Bound_none cmds) ∧
    mCurrFrameResource s = Some fr ∧
    (∀ i ri, mAllRitems s !! i = Some ri → i ≠ 1%nat →
       ObjectCB fr !! ObjCBIndex ri = Some (objConstantsOf ri)) ∧
    (∃ trees wall,
       mAllRitems s !! 1%nat = Some trees ∧ mAllRitems s !! 4%nat = Some wall ∧
       ObjCBIndex trees = 3 ∧ ObjCBIndex wall = 3 ∧
       ObjectCB fr !! 3 = Some (objConstantsOf wall) ∧
       objConstantsOf wall ≠ objConstantsOf trees).
Proof.
  intros Hsc HR HU.
  destruct (frame_recordable objCBByteSize matCBByteSize geos sc fence0 inps inp s0 s
              Hsc HR HU) as (Hok & Hl & LO & LA & LT & LW).
  destruct (Update_scene fence0 inps inp s0 s HR HU) as (_ & _ & Hvb).
  destruct (DrawCommands_layers objCBByteSize matCBByteSize sc s Hok)
    as (cmds & d1 & d2 & d3 & d4 & b1 & b2 & b3 & b4 & Hcmds & Hdraws & _
        & L1 & F1 & L2 & F2 & L3 & F3 & L4 & F4).
  destruct (Update_objects fence0 inps inp s0 s HR HU) as (Hw & fr & Hfr & Hheld).
  exists cmds, fr. split; [exact Hcmds|]. split.
  { unfold drawOrder. rewrite LO, LA, LT, LW, Hl. apply drawOrder_all. }
  split.
  { rewrite Hdraws. unfold drawOrder. repeat apply Forall2_app.
    - exact (itemBound_drawsItem _ _ _ _ Opaque _ _ b1 _ _ Hvb L1 (fun _ H => H) F1).
    - exact (itemBound_drawsItem _ _ _ _ AlphaTested _ _ b2 _ _ Hvb L2 (fun _ H => H) F2).
    - exact (itemBound_drawsItem _ _ _ _ AlphaTestedTreeSprites _ _ b3 _ _ Hvb L3
               (fun _ H => H) F3).
    - exact (itemBound_drawsItem _ _ _ _ Transparent _ _ b4 _ _ Hvb L4 (fun _ H => H) F4). }
  split; [exact Hfr|]. split.
  - intros i ri Hi Hne.
    assert (Hiw : map objectWrite BuildRenderItems !! i = Some (objectWrite ri))
      by (by rewrite <- Hw, list_lookup_fmap, Hi).
    apply Hheld. exact (scene_lastWritten i _ Hiw Hne).
  - destruct scene_shared_element as (ct & cw & H1 & H4 & Hlast & Hdiff).
    rewrite <- Hw, list_lookup_fmap in H1, H4.
    destruct (mAllRitems s !! 1%nat) as [trees|]; [|discriminate H1].
    destruct (mAllRitems s !! 4%nat) as [wall|]; [|discriminate H4].
    injection H1 as Ht1 Ht2. injection H4 as Hw1 Hw2.
    exists trees, wall. repeat split; try done.
    + rewrite Hw2. by apply Hheld.
    + by rewrite Ht2, Hw2.
Qed.

Lemma frame_draws_every_item_once_witness :
  ∃ cmds fr,
    DrawCommands 256 256 sampleScene firstUpdate = Some cmds ∧
    drawOrder sampleScene ≡ₚ seq 0 (length (mAllRitems firstUpdate)) ∧
    Forall2 (drawsItem 256 256 sampleScene firstUpdate) (drawOrder sampleScene)
            (boundDraws Bound_none cmds) ∧
    mCurrFrameResource firstUpdate = Some fr ∧
    ObjectCB fr !! 3 = objConstantsOf <$> BuildRenderItems !! 4%nat.
Proof.
  destruct (frame_draws_every_item_once 256 256 sampleGeometries sampleScene 0 []
              idleInput (Initialize 0) firstUpdate sampleScene_built eq_refl firstUpdate_ok)
    as (cmds & fr & H1 & H2 & H3 & H4 & _ & trees & wall & _ & Hw & _ & _ & H5 & _).
  exists cmds, fr. split; [exact H1|]. split; [exact H2|]. split; [exact H3|].
  split; [exact H4|]. rewrite H5.
  assert (Hwall : objConstantsOf <$> mAllRitems firstUpdate !! 4%nat
                  = objConstantsOf <$> BuildRenderItems !! 4%nat)
    by (vm_compute; reflexivity).
  rewrite Hw in Hwall. exact Hwall.
Defined.
